(* ===== verification/_CoqProject ===== *)
-Q . S2P
Prelude.v
GoStd.v
GoNet.v
GoConv.v
GoIO.v
GoFlag.v
Schema.v
DebVersion.v
Alerting.v
AgentBuffer.v
AgentBufferSpec.v
AgentBufferDemo.v
AgentBufferProps.v
AgentBufferCrash.v
AgentBufferDelivery.v
Blackbox.v
Samplers.v
RingSync.v
AtomicFile.v
Spool.v
Inventories.v
Jobs.v
Packages.v
Wire.v
SinkRun.v
HostMetrics.v
Token.v
Transport.v
IngestConcurrent.v
AgentHub.v
Collector.v
CollectRun.v
Calendar.v
FaultCluster.v
MetricStore.v
Extraction.v
Notify.v
Notifiers.v
Storage.v
StoreWriter.v
Postgres.v
LogStore.v
BlockFiles.v
Capabilities.v
Journal.v
HostSurvey.v
CollectorInit.v
Agent.v
Doctor.v
CrashSources.v
Cli.v
HubApi.v
HubPairing.v
Hub.v
HubDemo.v
