(* ===== verification/Prelude.v ===== *)
(** * Bitacora: a verification development

    Bitacora is a monitoring system for a few machines: an agent on each host runs
    collectors, buffers what they report on disk and sends it in batches to a hub, which
    stores metrics, events and logs, evaluates alerts and serves a read API. This library
    models the Go program (src/internal and the commands under src/cmd) and proves what
    makes it correct.

    ** The parts and how they interact

    collectors -> Sink -> agent buffer (files) -> batches -> ingest endpoint -> receiver
    -> metric, event and log stores -> read API; alerting works on what is stored; the
    black box recorder keeps the last minutes of a host in a file of its own. The commands
    put the parts together: bitacora-agent, bitacora-hub, bitacora-run (around a scheduled
    job), bita (administration) and the privileged helpers.

    ** Files

    - Prelude: results of fallible code, machine integers, list lemmas, automation.
    - GoStd, GoNet, GoConv, GoIO, GoFlag, Calendar: what the program uses of Go's standard
      library: strings, instants and durations, float64 (as IEEE values), IP addresses,
      number parsing and printing, line scanning, regular expressions that never
      backtrack, command line flags and durations, civil dates. AtomicFile: replacing a
      file through a temporary one, on a disk whose every system call can fail or be the
      last one before a crash.
    - Schema: internal/schema (metric.go, event.go, logline.go, inventory.go,
      cardinality.go): the data model, its validation, series keys and the cardinality
      budget per host.
    - DebVersion: internal/debversion: comparison of Debian package versions.
    - Alerting: internal/alerting: [Alert] (alert.go, the lifecycle), [Hysteresis],
      [Deadman], [Silences], [Manager] (manager.go, fingerprint.go).
    - AgentBuffer: internal/agentbuffer (buffer.go, segment.go, backfill.go, capacity.go)
      as a state monad over a file system in which every system call can fail, be cut
      short or be the last one before a crash. AgentBufferSpec relates the directory and
      the in-memory state to the list of buffered records; AgentBufferProps,
      AgentBufferCrash and AgentBufferDelivery hold the theorems on operations, on crashes
      and on delivery; AgentBufferDemo is a concrete instance.
    - Blackbox: internal/blackbox (sample.go, encode.go, header.go, recorder.go,
      reader.go): the byte layout and the ring file. Samplers: its samplers over /proc and
      /sys (sampler*.go) and the recording loop (run.go). RingSync: Sync and Close, and
      what a loss of power leaves on the disk.
    - Spool: internal/spool and the host id file of internal/schema/hostid.go, over
      AtomicFile. Jobs: internal/schema/job.go, runstats, execwrap, jobwriter and the
      command bitacora-run with its flags and its socket.
    - Collectors: Inventories (shares, users, disks, UPS), HostMetrics (cpu, memory,
      network, docker), HostSurvey (hwidentity, publicsurface, shareusage), Packages
      (pkgupdates, docker metadata, the dnf helper), Journal (journald, with its cursor
      file). Collector: internal/collector (registry.go, runtime.go): which collectors
      run, and the loop of one with timeouts and backoff. CollectRun: the goroutines of
      runtime.go (collectOnce, Start, Close) as interleaved steps. CollectorInit: the
      Collector interface as a class, with the Init of every collector. Capabilities:
      internal/capabilities: the manifest, its probes and its client.
    - Doctor: the smart, vpn and dnf helpers with their commands, and internal/doctor.
      CrashSources: internal/pstore and internal/netconsole.
    - SinkRun: agentbuffer/sink.go (NewSink, TriggerFlush, Run) and the loop of Backfill,
      interleaved with the collectors step by step.
    - Wire: agentbuffer/transportsender.go and sink.go, internal/ingestreceiver: records
      to protobuf batches and back, and to the storage interfaces (type classes).
    - Token: transport/token.go: the encoded Argon2id hashes, with base64 and Sscanf.
    - Transport: internal/transport: [Stores] (authstore.go, idempotency.go,
      ratelimit.go), [SqliteTokens] (sqlitetokenstore), [Server] (server.go, the ingest
      handler), [Network] (network.go). IngestConcurrent: its requests as interleaved
      steps. AgentHub: [Overflow] (what capacity enforcement reports) and [Client]
      (client.go), composed with the handler of the hub.
    - Storage: internal/storage (sqlite.go, inventory.go): events in month files, listing,
      search, inventories. StoreWriter: the writer goroutine of sqlite.go and its callers
      as interleaved steps. Postgres: the interface of relational.go as a class,
      postgres.go, and the agreement of the two backends.
    - LogStore: internal/logstore (logstore.go, index.go): accumulators, blocks, and the
      index rebuilt from the files. BlockFiles: its writes on the crashing disk of
      AtomicFile.
    - MetricStore: internal/metricstore (metricstore.go, downsample.go): what goes to and
      comes from the time series database, and averaging into buckets.
    - Extraction: internal/extraction (rule.go, engine.go, enrich.go): log lines that
      become events.
    - FaultCluster: internal/faultcluster: [Topology] (topology.go), [Binomial]
      (binomial.go), [Tracker] (tracker.go).
    - Notify: internal/notify (router.go): the routing of notifications. Notifiers: their
      texts (notify.go), the channels, and alerting/externaldeadman.go.
    - HubApi: internal/hubapi (devicetoken.go, hosts.go, summary.go): pairing, access
      control, enrollment and the summary. HubPairing: pairing requests as interleaved
      steps.
    - Programs: Agent (cmd/bitacora-agent: flags, registration, start-up), Hub
      (cmd/bitacora-hub: flags, token registration, wiring, Close), HubDemo (a concrete
      agent and hub), Cli (cmd/bita and internal/resourcebudget).

    ** What the theorems show

    Durability: a record whose Append returned survives any crash ([append_crash_safe]),
    and on a disk without I/O errors, over every interleaving of appends, deliveries,
    capacity enforcement and restarts between them, it is buffered, accepted by the hub or
    reported discarded ([delivery_no_loss]); the operations have exact specifications on
    the list of records. However collectors and the delivery loop interleave on such a
    disk, no wake-up is lost and, once the hub accepts and nothing more is appended, a
    bounded number of steps empties the buffer into it ([run_delivers]); a batch the
    client sees acknowledged is stored ([acknowledged_means_stored]); after any deliveries
    an event of the agent's buffer is still buffered, reported dropped, or listed by the
    hub exactly once ([buffered_events_listed]). The host id, spool entries and the
    journal cursor survive power loss at any system call ([host_id_stable],
    [spool_write_atomic]), and every journal entry after the cursor reaches the sink but
    those a disturbed collection had read ([journal_delivered]); a log block is indexed
    whole or not at all whenever the machine stops ([block_index_survives]); the black box
    keeps the last samples ([recording_loop]), and of those it had synced all that a loss
    of power at any moment cannot have overwritten ([power_loss_bound]). Ingestion: a
    batch is stored only when every check passes and at most once per id, however requests
    interleave ([ingest_interleaved]); the token store in SQLite refines the one in
    memory; a host enrolled through the read API can ingest ([enrolled_host_ingests]).
    Storage: every interleaving of writers is a sequence of writes ([writes_serialized]),
    the two backends answer alike on the conditions stated ([backends_conform]), what is
    acknowledged is what is listed, field by field, with the fingerprint and the log
    references exchanged as the code exchanges them ([list_events_spec], [listed_as]);
    accepted log lines are in the payloads on disk or in their accumulator, in order
    ([log_lines_conserved]), and the block index is a function of the files. Access: no
    data and no enrollment without a device token, pairing codes work once, and what
    concurrent pairing requests can get without a token is stated exactly
    ([pairings_interleaved]). Alerting: the state of an alert is a function of its
    evaluation history, notifications alternate, silences and deadman rules do what they
    say, notifications reach the routes they match. Collectors: the parsers against
    reference readings of their formats (smb.conf, exports, passwd, mounts, apt, dnf, NUT,
    image references), values that always pass the schema's validation, the pipeline from
    a helper through the spool to the inventory ([smart_pipeline]), commands bounded by
    their timeout ([timeout_bounds_run]), schedulers that follow the outcomes of their
    collections whatever the interleaving ([scheduler_refines_loop]). Programs: what the
    agent has done when it starts collecting ([agent_startup]), the exit code of a wrapped
    job ([run_propagates_exit]), what bita logs verify reports ([logs_verify_spec]).
    Analysis: a line gives the event of the first matching rule, recurrences share a
    fingerprint, each series is averaged by interval ([downsample_spec]), the binomial
    test is the exact tail and a bad core is reported once. Codecs: samples, headers,
    token hashes and wire messages read back as written. The [Example]s next to them
    exhibit concrete runs, among them runs that go wrong.

    ** Bounds and fuel

    Integers keep their width where the code can overflow ([wrap_u], [wrap_s]). Loops that
    are not structural take fuel computed from the state, with a theorem or lemma that it
    suffices: the number of buffered records for Backfill and EnforceCapacity, the number
    of months of the range for monthsBetween ([months_loop_fuel]), the length of the text
    for scanners of text.

    ** Parameters

    Third-party code is a parameter with named laws where it is needed: argon2.IDKey (key
    length), zstd (round trip), encoding/json (round trip of the values at hand), SHA-256,
    protobuf, rate.Limiter, regexp and text/template in extraction rules, YAML, the
    Prometheus tsdb, procfs, sdjournal, net/url, FTS5 matching and the attach limit of
    SQLite, the text search of PostgreSQL and how it prints jsonb, the names of signals.
    Clocks, random draws, file contents, the output of commands, the network and the
    outcome of system calls are inputs.

    ** Assumptions

    - A system call that returned has taken effect for good: in particular a completed
      rename or create survives a loss of power, although the code never syncs a
      directory. This is used wherever files are replaced (AgentBuffer, AtomicFile and,
      over it, Spool, Journal and BlockFiles).
    - Where a theorem says that the disk has no I/O errors ([fault_free]), failing and
      interrupted system calls are excluded, and restarts fall between two operations:
      [delivery_no_loss], [buffered_events_listed], [run_delivers], [backfill_spec],
      [enforce_capacity_spec] and [reopen_spec]. What a failure or a crash inside an
      operation can do is [append_crash_safe] and the [Example]s of AgentBufferCrash.
    - encoding/json writes an entry of the spool with its raw data indented anew; readers
      get data that is the same up to white space between tokens ([Spool.same_json]).
    - One call of http.Client.Do is one step, whatever redirects the client follows in it.
    - When several channels are ready, Go's select takes one at random; SinkRun,
      StoreWriter and CollectRun allow each, and only [Jobs.ExecWrap.select] fixes the tie
      of a command that ends at the very instant of its timeout (it counts as ended).

    ** Not modelled

    HTTP and TLS plumbing and the listeners, the formats of zstd and protobuf and the
    generated code, the web UI (TypeScript, embedded as assets), the clock and ticker
    interfaces (a clock is the sequence of instants it gave), the texts bita doctor
    prints, and the generation of ULIDs (an id is an input). Goroutines of the store
    writer, the collectors, the delivery loop, and the ingest and pairing handlers are
    interleaved steps; elsewhere they appear as the order in which their operations take
    effect. *)

From stdpp Require Import base gmap strings list sorting.
From Stdlib Require Import ZArith Lia.

(** ** Results of fallible Go code

    A Go function returning [(T, error)] is modelled by [result E T]: either the
    value or the error, which each component enumerates in a type of its own. *)
Inductive result (E A : Type) : Type :=
| Ok (a : A)
| Err (e : E).
Arguments Ok {E A} a.
Arguments Err {E A} e.

Global Instance result_eq_dec {E A} `{EqDecision E, EqDecision A} : EqDecision (result E A).
Proof. solve_decision. Defined.

Definition is_ok {E A} (r : result E A) : bool :=
  match r with Ok _ => true | Err _ => false end.

Declare Scope go_scope.
Delimit Scope go_scope with go.

(** [let? x := e in k]: Go's [x, err := e; if err != nil { return ..., err }]. *)
Notation "'let?' x ':=' e 'in' k" :=
  (match e with Ok x => k | Err err => Err err end)
  (at level 10, x name, e at level 100, k at level 200) : go_scope.

(** [guard b err k]: an early return of [err] when [b] holds. *)
Notation "'fail_if' b 'with' err ';' k" :=
  (if b then Err err else k)
  (at level 10, b at level 100, err at level 100, k at level 200) : go_scope.

(** ** Machine integers

    Fixed-width Go integers are [Z] with their wrap-around written out. *)
Definition wrap_u (w z : Z) : Z := z mod 2 ^ w.
Definition wrap_s (w z : Z) : Z := (z + 2 ^ (w - 1)) mod 2 ^ w - 2 ^ (w - 1).

Definition uint64 (z : Z) : Z := wrap_u 64 z.
Definition int64 (z : Z) : Z := wrap_s 64 z.
Definition int32 (z : Z) : Z := wrap_s 32 z.

Definition max_int64 : Z := 2 ^ 63 - 1.
Definition min_int64 : Z := - 2 ^ 63.

Lemma wrap_u_small w z : (0 <= z < 2 ^ w)%Z -> wrap_u w z = z.
Proof. intros H. unfold wrap_u. by apply Z.mod_small. Qed.

Lemma wrap_u_range w z : (0 <= w)%Z -> (0 <= wrap_u w z < 2 ^ w)%Z.
Proof. intros H. apply Z.mod_pos_bound. lia. Qed.

Lemma wrap_s_small w z :
  (0 < w)%Z -> (- 2 ^ (w - 1) <= z < 2 ^ (w - 1))%Z -> wrap_s w z = z.
Proof.
  intros Hw H. unfold wrap_s.
  assert (2 ^ w = 2 * 2 ^ (w - 1))%Z as E.
  { rewrite <- Z.pow_succ_r by lia. f_equal. lia. }
  rewrite Z.mod_small by lia. lia.
Qed.

(** ** Lists *)

Lemma NoDup_take {A} n (l : list A) : NoDup l -> NoDup (take n l).
Proof. rewrite <- (take_drop n l) at 1. intros H%NoDup_app. apply H. Qed.

Lemma sublist_Forall {A} (P : A -> Prop) l1 l2 : sublist l1 l2 -> Forall P l2 -> Forall P l1.
Proof. rewrite !Forall_forall. intros Hs Hf x Hx. apply Hf. by eapply elem_of_sublist. Qed.

Lemma sorted_app_inv {A} (R : A -> A -> Prop) l1 l2 :
  StronglySorted R (l1 ++ l2)%list -> StronglySorted R l1 /\ StronglySorted R l2.
Proof.
  induction l1 as [|x l1 IH]; simpl; intros Hs; [split; [constructor|done]|].
  apply StronglySorted_inv in Hs as [Hs Hx]. apply Forall_app in Hx as [Hx _].
  destruct (IH Hs). split; [by constructor|done].
Qed.

Lemma sorted_sublist {A} (R : A -> A -> Prop) l1 l2 :
  sublist l1 l2 -> StronglySorted R l2 -> StronglySorted R l1.
Proof.
  induction 1 as [|x l1 l2 Hl IH|x l1 l2 Hl IH]; intros Hs; [done| |];
    apply StronglySorted_inv in Hs as [Hs Hx]; [|auto].
  constructor; [auto|]. by eapply sublist_Forall.
Qed.

Lemma sorted_impl {A} (R R' : A -> A -> Prop) l :
  (forall x y, R x y -> R' x y) -> StronglySorted R l -> StronglySorted R' l.
Proof. intros H. induction 1 as [|x l Hs IH Hx]; constructor; [done|]. eapply Forall_impl; [exact Hx|auto]. Qed.

Lemma sorted_snoc {A} (R : A -> A -> Prop) l x :
  StronglySorted R l -> Forall (fun y => R y x) l -> StronglySorted R (l ++ [x])%list.
Proof.
  induction 1 as [|y l Hs IH Hy]; simpl; intros Hf; [by repeat constructor|].
  apply Forall_cons in Hf as [Hyx Hf]. constructor; [auto|]. apply Forall_app. by repeat constructor.
Qed.

Lemma filter_sublist {A} (f : A -> bool) l : sublist (List.filter f l) l.
Proof. induction l as [|x l IH]; simpl; [done|]. destruct (f x); by constructor. Qed.

Lemma sorted_NoDup l : StronglySorted lt l -> NoDup l.
Proof.
  induction 1 as [|x l Hs IH Hx]; [constructor|]. constructor; [|done].
  intros Hin. rewrite Forall_forall in Hx. specialize (Hx _ Hin). lia.
Qed.

Lemma sorted_subset_sublist l1 l2 :
  StronglySorted lt l1 -> StronglySorted lt l2 -> (forall x, x ∈ l1 -> x ∈ l2) -> sublist l1 l2.
Proof.
  intros H1 H2. revert l1 H1. induction H2 as [|y l2 H2 IH Hy]; intros l1 H1 Hin.
  - destruct l1 as [|x l1]; [done|]. destruct (not_elem_of_nil x). apply Hin. by left.
  - destruct l1 as [|x l1]; [apply sublist_nil_l|]. apply StronglySorted_inv in H1 as [H1 Hx].
    rewrite Forall_forall in Hx, Hy.
    assert (forall z, z ∈ l1 -> z ∈ l2) as Hin'.
    { intros z Hz. assert (z ∈ y :: l2) as [->|?]%elem_of_cons by (apply Hin; by right); [|done].
      assert (x ∈ y :: l2) as [->|Hx2]%elem_of_cons by (apply Hin; by left).
      - specialize (Hx _ Hz). lia.
      - specialize (Hx _ Hz). specialize (Hy _ Hx2). lia. }
    assert (x ∈ y :: l2) as [->|Hx2]%elem_of_cons by (apply Hin; by left).
    + apply sublist_skip. auto.
    + apply sublist_cons, IH; [constructor; [done|by apply Forall_forall]|].
      intros z [->|Hz]%elem_of_cons; auto.
Qed.

(** ** Automation *)

Create HintDb bitacora.

(** Break the conjunctions, existentials and equations of the context, then
    case on the boolean tests and matches of the goal that are not variables. *)
Ltac case_tests :=
  repeat match goal with
  | |- context [if ?b then _ else _] => destruct b eqn:?
  | |- context [match ?x with _ => _ end] => destruct x eqn:?
  end.

Ltac case_tests_in H :=
  repeat match type of H with
  | context [if ?b then _ else _] => destruct b eqn:?; try discriminate H
  | context [match ?x with _ => _ end] => destruct x eqn:?; try discriminate H
  end.

(** Turn boolean comparisons of the context into arithmetic facts. *)
Ltac zbool :=
  repeat match goal with
  | H : (_ <? _)%Z = true |- _ => apply Z.ltb_lt in H
  | H : (_ <? _)%Z = false |- _ => apply Z.ltb_ge in H
  | H : (_ <=? _)%Z = true |- _ => apply Z.leb_le in H
  | H : (_ <=? _)%Z = false |- _ => apply Z.leb_gt in H
  | H : (_ =? _)%Z = true |- _ => apply Z.eqb_eq in H
  | H : (_ =? _)%Z = false |- _ => apply Z.eqb_neq in H
  | H : (_ <? _)%nat = true |- _ => apply Nat.ltb_lt in H
  | H : (_ <? _)%nat = false |- _ => apply Nat.ltb_ge in H
  | H : (_ <=? _)%nat = true |- _ => apply Nat.leb_le in H
  | H : (_ <=? _)%nat = false |- _ => apply Nat.leb_gt in H
  | H : (_ =? _)%nat = true |- _ => apply Nat.eqb_eq in H
  | H : (_ =? _)%nat = false |- _ => apply Nat.eqb_neq in H
  | H : negb _ = true |- _ => apply negb_true_iff in H
  | H : negb _ = false |- _ => apply negb_false_iff in H
  | H : (_ && _) = true |- _ => apply andb_true_iff in H as [? ?]
  | H : (_ || _) = false |- _ => apply orb_false_iff in H as [? ?]
  end.
