(* ===== verification/GoStd.v ===== *)
(** * GoStd: the parts of Go's standard library the program uses

    - [GoString]: the functions of package strings on byte strings;
    - [GoTime]: time.Time and time.Duration;
    - [GoFloat]: float64 as IEEE-754 binary64. *)

From stdpp Require Import base gmap strings list sorting.
From Stdlib Require Import ZArith Lia Ascii.
From Stdlib Require SpecFloat.
From S2P Require Import Prelude.

Local Open Scope string_scope.

(** ** Strings

    A Go string is a sequence of bytes; [string] (a sequence of 8-bit [ascii]) is
    exactly that. [String.leb] is the byte-wise lexicographic order Go's [<=] and
    [sort.Strings] use. *)
Module GoString.

(** byte values *)
Definition byte_of (c : ascii) : Z := Z.of_nat (nat_of_ascii c).

Fixpoint has_prefix (p s : string) : bool :=
  match p, s with
  | EmptyString, _ => true
  | String c p', String d s' => if decide (c = d) then has_prefix p' s' else false
  | String _ _, EmptyString => false
  end.

(** strings.TrimPrefix *)
Fixpoint trim_prefix_go (p s : string) : option string :=
  match p, s with
  | EmptyString, _ => Some s
  | String c p', String d s' => if decide (c = d) then trim_prefix_go p' s' else None
  | String _ _, EmptyString => None
  end.
Definition trim_prefix (s p : string) : string := default s (trim_prefix_go p s).

(** [strip_suffix suf s]: [Some b] when [s] is [b ++ suf]. *)
Fixpoint strip_suffix (suf s : string) : option string :=
  if decide (s = suf) then Some ""
  else match s with
       | EmptyString => None
       | String c s' => String c <$> strip_suffix suf s'
       end.

(** strings.HasSuffix and strings.TrimSuffix *)
Definition has_suffix (suf s : string) : bool :=
  match strip_suffix suf s with Some _ => true | None => false end.
Definition trim_suffix (s suf : string) : string := default s (strip_suffix suf s).

(** strings.Contains(s, sub) *)
Fixpoint contains (sub s : string) : bool :=
  has_prefix sub s ||
  match s with
  | EmptyString => false
  | String _ s' => contains sub s'
  end.

(** strings.Count of a one-byte separator *)
Fixpoint count_byte (c : ascii) (s : string) : nat :=
  match s with
  | EmptyString => 0
  | String d s' => (if decide (c = d) then 1 else 0) + count_byte c s'
  end.

(** strings.Cut(s, c) for a one-byte separator: the text before and after the
    first occurrence, or [None]. *)
Fixpoint cut_byte (c : ascii) (s : string) : option (string * string) :=
  match s with
  | EmptyString => None
  | String d s' =>
      if decide (c = d) then Some ("", s')
      else match cut_byte c s' with
           | Some (a, b) => Some (String d a, b)
           | None => None
           end
  end.

(** The text before and after the last occurrence of [c]
    (strings.LastIndexByte). *)
Fixpoint cut_last_byte (c : ascii) (s : string) : option (string * string) :=
  match s with
  | EmptyString => None
  | String d s' =>
      match cut_last_byte c s' with
      | Some (a, b) => Some (String d a, b)
      | None => if decide (c = d) then Some ("", s') else None
      end
  end.

(** strings.Split(s, c) for a one-byte separator; never empty. *)
Fixpoint split_byte (c : ascii) (s : string) : list string :=
  match s with
  | EmptyString => [""]
  | String d s' =>
      if decide (c = d) then "" :: split_byte c s'
      else match split_byte c s' with
           | [] => [String d ""]
           | w :: ws => String d w :: ws
           end
  end.

(** s[:n] *)
Fixpoint str_take (n : nat) (s : string) : string :=
  match n, s with
  | S n', String c s' => String c (str_take n' s')
  | _, _ => ""
  end.

(** strings.TrimLeft(s, cutset) for a one-byte cutset *)
Fixpoint trim_left_byte (c : ascii) (s : string) : string :=
  match s with
  | String d s' => if decide (c = d) then trim_left_byte c s' else s
  | EmptyString => EmptyString
  end.

Lemma str_app_cons c (a b : string) : (String c a ++ b = String c (a ++ b))%string.
Proof. done. Qed.

Lemma str_app_nil_l (b : string) : ("" ++ b = b)%string.
Proof. done. Qed.

Lemma str_app_nil_r (a : string) : (a ++ "" = a)%string.
Proof. induction a as [|c a IH]; [done|]. by rewrite str_app_cons, IH. Qed.

Lemma str_app_assoc (a b c : string) : (a ++ (b ++ c) = (a ++ b) ++ c)%string.
Proof. induction a as [|x a IH]; [done|]. by rewrite !str_app_cons, IH. Qed.

Lemma str_length_app (a b : string) :
  String.length (a ++ b) = (String.length a + String.length b)%nat.
Proof. induction a as [|x a IH]; [done|]. rewrite str_app_cons. simpl. by rewrite IH. Qed.

Lemma str_take_all k s : (String.length s <= k)%nat -> str_take k s = s.
Proof. revert k. induction s as [|c s IH]; intros [|k] Hk; simpl in *; try done; [lia|]. f_equal. apply IH. lia. Qed.

Lemma str_take_app k s t : (k <= String.length s)%nat -> str_take k (s ++ t) = str_take k s.
Proof. revert k. induction s as [|c s IH]; intros [|k] Hk; simpl in *; try done; [lia|]. f_equal. apply IH. lia. Qed.

Lemma str_take_length n s : (String.length (str_take n s) <= n)%nat.
Proof. revert n. induction s as [|c s IH]; intros [|n]; simpl; [lia..|]. specialize (IH n). lia. Qed.

Lemma strip_suffix_app suf b : strip_suffix suf (b ++ suf) = Some b.
Proof.
  induction b as [|c b IH].
  - rewrite str_app_nil_l. destruct suf; simpl; [done|by rewrite decide_True].
  - rewrite str_app_cons. simpl. rewrite decide_False.
    + by rewrite IH.
    + intros E. apply (f_equal String.length) in E. simpl in E. rewrite str_length_app in E. lia.
Qed.

Lemma strip_suffix_Some suf s b : strip_suffix suf s = Some b -> s = (b ++ suf)%string.
Proof.
  revert b. induction s as [|c s IH]; intros b; simpl; case_decide as E; try done.
  - intros [= <-]. done.
  - intros [= <-]. done.
  - destruct (strip_suffix suf s) as [b'|] eqn:E'; simpl; [|done].
    intros [= <-]. by rewrite str_app_cons, <- (IH b').
Qed.

Lemma trim_suffix_app suf b : trim_suffix (b ++ suf) suf = b.
Proof. unfold trim_suffix. by rewrite strip_suffix_app. Qed.

Lemma has_suffix_app suf b : has_suffix suf (b ++ suf) = true.
Proof. unfold has_suffix. by rewrite strip_suffix_app. Qed.

(** sort.Strings *)
Definition sort_strings (l : list string) : list string := merge_sort String.le l.

(** *** Separators *)

(** [lacks c s]: the byte [c] does not occur in [s]. *)
Fixpoint lacks (c : ascii) (s : string) : bool :=
  match s with
  | EmptyString => true
  | String d s' => bool_decide (c <> d) && lacks c s'
  end.

Lemma lacks_app c a b : lacks c (a ++ b) = lacks c a && lacks c b.
Proof.
  induction a as [|d a IH]; [done|]. rewrite str_app_cons. simpl.
  by rewrite IH, andb_assoc.
Qed.

(** the words [ws], each preceded by the byte [c] *)
Definition join_after (c : ascii) (ws : list string) : string :=
  foldr (fun w acc => String c (w ++ acc)) "" ws.

(** the words [ws], each followed by the byte [c] *)
Definition join_before (c : ascii) (ws : list string) : string :=
  foldr (fun w acc => (w ++ String c acc)%string) "" ws.

Lemma split_byte_lacks_app c a s :
  lacks c a = true -> split_byte c (a ++ String c s) = a :: split_byte c s.
Proof.
  induction a as [|d a IH]; simpl; intros H.
  - by rewrite decide_True.
  - apply andb_true_iff in H as [Hd Ha].
    apply bool_decide_eq_true in Hd. rewrite decide_False by done. by rewrite IH.
Qed.

Lemma split_byte_lacks c a : lacks c a = true -> split_byte c a = [a].
Proof.
  induction a as [|d a IH]; simpl; intros H; [done|].
  apply andb_true_iff in H as [Hd Ha]. apply bool_decide_eq_true in Hd.
  rewrite decide_False by done. by rewrite IH.
Qed.

(** Splitting undoes joining when no word contains the separator. *)
Lemma split_byte_join_after c w ws :
  lacks c w = true -> Forall (fun x => lacks c x = true) ws ->
  split_byte c (w ++ join_after c ws) = w :: ws.
Proof.
  intros Hw Hws. revert w Hw. induction Hws as [|x ws Hx Hws IH]; intros w Hw; simpl.
  - by rewrite str_app_nil_r, split_byte_lacks.
  - rewrite split_byte_lacks_app by done. by rewrite IH.
Qed.

Lemma split_byte_join_before c ws t :
  Forall (fun x => lacks c x = true) ws ->
  split_byte c (join_before c ws ++ t) = (ws ++ split_byte c t)%list.
Proof.
  induction 1 as [|x ws Hx Hws IH]; simpl; [done|].
  rewrite <- str_app_assoc, str_app_cons, split_byte_lacks_app by done. by rewrite IH.
Qed.

Lemma join_before_app c l1 l2 :
  join_before c (l1 ++ l2)%list = (join_before c l1 ++ join_before c l2)%string.
Proof.
  induction l1 as [|w l1 IH]; simpl; [done|]. by rewrite IH, <- str_app_assoc, str_app_cons.
Qed.

Lemma cut_byte_lacks c s : lacks c s = true -> cut_byte c s = None.
Proof.
  induction s as [|d s IH]; [done|]. cbn [lacks cut_byte]. intros [Hd Hs]%andb_true_iff.
  apply bool_decide_eq_true in Hd. rewrite decide_False by done. by rewrite IH.
Qed.

Lemma cut_byte_lacks_app c a s :
  lacks c a = true -> cut_byte c (a ++ String c s) = Some (a, s).
Proof.
  induction a as [|d a IH]; simpl; intros H.
  - by rewrite decide_True.
  - apply andb_true_iff in H as [Hd Ha].
    apply bool_decide_eq_true in Hd. rewrite decide_False by done. by rewrite IH.
Qed.

(** cutting at the first occurrence, or finding none *)
Lemma cut_byte_spec c s :
  match cut_byte c s with
  | Some (a, b) => s = (a ++ String c b)%string /\ lacks c a = true
  | None => lacks c s = true
  end.
Proof.
  induction s as [|d s IH]; [done|]. cbn [cut_byte lacks]. case_decide as E; [by subst|].
  destruct (cut_byte c s) as [[a b]|].
  - destruct IH as [-> Ha]. cbn [lacks]. rewrite Ha, bool_decide_true by done. done.
  - rewrite IH, bool_decide_true by done. done.
Qed.

Lemma has_prefix_app p s : has_prefix p (p ++ s) = true.
Proof.
  induction p as [|c p IH]; [by destruct s|]. rewrite str_app_cons. cbn [has_prefix]. by rewrite decide_True.
Qed.

Lemma trim_prefix_app p s : trim_prefix (p ++ s) p = s.
Proof.
  unfold trim_prefix. assert (trim_prefix_go p (p ++ s) = Some s) as ->; [|done].
  induction p as [|c p IH]; [by destruct s|]. rewrite str_app_cons. cbn [trim_prefix_go]. by rewrite decide_True.
Qed.

Lemma cut_last_byte_lacks c s : lacks c s = true -> cut_last_byte c s = None.
Proof.
  induction s as [|d s IH]; [done|]. cbn [lacks cut_last_byte]. intros [H1%bool_decide_eq_true H2]%andb_true_iff.
  rewrite IH by done. by rewrite decide_False by congruence.
Qed.

Lemma cut_last_byte_app c a b : lacks c b = true -> cut_last_byte c (a ++ String c b) = Some (a, b).
Proof.
  intros Hb. induction a as [|d a IH].
  - change ("" ++ String c b)%string with (String c b). cbn [cut_last_byte]. rewrite cut_last_byte_lacks by done.
    by rewrite decide_True.
  - change (String d a ++ String c b)%string with (String d (a ++ String c b)). cbn [cut_last_byte]. by rewrite IH.
Qed.

Lemma sort_strings_Permutation l : sort_strings l ≡ₚ l.
Proof. apply merge_sort_Permutation. Qed.

Lemma sort_strings_Sorted l : StronglySorted String.le (sort_strings l).
Proof. apply StronglySorted_merge_sort; apply _. Qed.

(** A list that is sorted already is left as it is. *)
Lemma sort_strings_id l : StronglySorted String.le l -> sort_strings l = l.
Proof.
  intros H. apply (StronglySorted_unique String.le); auto using sort_strings_Sorted.
  apply sort_strings_Permutation.
Qed.

(** The result only depends on the multiset of strings, not on the order they
    come in: Go's map iteration order does not matter. *)
Lemma sort_strings_perm l l' : l ≡ₚ l' -> sort_strings l = sort_strings l'.
Proof.
  intros H. apply (StronglySorted_unique String.le); auto using sort_strings_Sorted.
  by rewrite !sort_strings_Permutation.
Qed.

End GoString.

(** ** Time

    time.Time is an instant: nanoseconds since January 1, year 1, 00:00 UTC, so
    that the zero Time is [0] and [IsZero] is a test against it. The monotonic
    clock reading and the location pointer, which no modelled code observes, are
    left out; the instants of the program (years 1 to 9999) are far from the
    limits of the representation. time.Duration is an int64 count of nanoseconds. *)
Module GoTime.

Abbreviation Time := Z (only parsing).
Abbreviation Duration := Z (only parsing).

Definition nanosecond : Z := 1.
Definition microsecond : Z := 1000.
Definition millisecond : Z := 1000000.
Definition second : Z := 1000000000.
Definition minute : Z := 60 * second.
Definition hour : Z := 60 * minute.

Definition zero : Z := 0.
Definition is_zero (t : Z) : bool := (t =? 0)%Z.
Definition before (t u : Z) : bool := (t <? u)%Z.
Definition after (t u : Z) : bool := (u <? t)%Z.

(** [t.Sub(u)]: saturates at the limits of Duration. *)
Definition sub (t u : Z) : Z := Z.max min_int64 (Z.min max_int64 (t - u)).

Definition add (t d : Z) : Z := t + d.

(** January 1, 1970 UTC *)
Definition unix_epoch : Z := 62135596800 * second.

Definition unix_milli (t : Z) : Z := (t - unix_epoch) / millisecond.
Definition of_unix_milli (ms : Z) : Z := unix_epoch + ms * millisecond.

(** [t.Truncate(d)] for a positive [d]: down to a multiple of [d] since the zero
    time. *)
Definition truncate (t d : Z) : Z := if (d <=? 0)%Z then t else t - t mod d.

Lemma of_unix_milli_unix_milli t :
  (of_unix_milli (unix_milli t) <= t < of_unix_milli (unix_milli t) + millisecond)%Z.
Proof.
  unfold of_unix_milli, unix_milli, millisecond.
  pose proof (Z.div_mod (t - unix_epoch) 1000000).
  pose proof (Z.mod_pos_bound (t - unix_epoch) 1000000). lia.
Qed.

Lemma unix_milli_of_unix_milli ms : unix_milli (of_unix_milli ms) = ms.
Proof.
  unfold of_unix_milli, unix_milli, millisecond.
  replace (unix_epoch + ms * 1000000 - unix_epoch)%Z with (ms * 1000000)%Z by lia.
  by rewrite Z.div_mul.
Qed.

Lemma sub_exact t u :
  (min_int64 <= t - u <= max_int64)%Z -> sub t u = (t - u)%Z.
Proof. unfold sub. lia. Qed.

Lemma sub_mono t t' u : (t <= t')%Z -> (sub t u <= sub t' u)%Z.
Proof. unfold sub. lia. Qed.

End GoTime.

(** ** float64

    IEEE-754 binary64 values, with NaN, infinities and signed zeros. *)
Module GoFloat.
Import SpecFloat.

Abbreviation float64 := spec_float (only parsing).

Definition prec : Z := 53.
Definition emax : Z := 1024.

(** Go's [<] and [>] on float64: false when either side is NaN. *)
Definition flt (x y : float64) : bool := SFltb x y.
Definition fgt (x y : float64) : bool := SFltb y x.

Definition f_zero : float64 := S754_zero false.
Definition f_nan : float64 := S754_nan.
(** the value of a Go integer constant as a float64 *)
Definition f_of_Z (z : Z) : float64 := binary_normalize prec emax z 0 false.

Global Instance float64_eq_dec : EqDecision spec_float.
Proof. solve_decision. Defined.

End GoFloat.
