(* ===== verification/GoNet.v ===== *)
(** * GoNet: IP literals, as package net reads them

    [ParseIP] is net.ParseIP (through netip.ParseAddr): dotted IPv4 without leading
    zeros, IPv6 with groups of up to four hex digits, at most one ellipsis and an
    optional trailing IPv4; a zone makes it fail. An address is its 16 bytes, IPv4
    in the ::ffff:0:0/96 form, as net.IP holds it. *)

From stdpp Require Import base strings list.
From Stdlib Require Import ZArith Lia Ascii.
From S2P Require Import Prelude GoStd.
Import GoString.

Local Open Scope string_scope.
Local Open Scope Z_scope.

Module GoNet.

Abbreviation IP := (list Z) (only parsing).

Definition digit_val (c : ascii) : option Z :=
  let b := byte_of c in
  if (byte_of "0" <=? b) && (b <=? byte_of "9") then Some (b - byte_of "0") else None.

Definition hex_val (c : ascii) : option Z :=
  let b := byte_of c in
  if (byte_of "0" <=? b) && (b <=? byte_of "9") then Some (b - byte_of "0")
  else if (byte_of "a" <=? b) && (b <=? byte_of "f") then Some (b - byte_of "a" + 10)
  else if (byte_of "A" <=? b) && (b <=? byte_of "F") then Some (b - byte_of "A" + 10)
  else None.

(** one IPv4 octet: [digits] read so far, their value *)
Fixpoint octet_go (ndig : nat) (val : Z) (s : string) : option Z :=
  match s with
  | EmptyString => if (ndig =? 0)%nat then None else Some val
  | String c s' =>
      match digit_val c with
      | None => None
      | Some d =>
          if (ndig =? 1)%nat && (val =? 0) then None   (* leading zero *)
          else let val := val * 10 + d in
               if 255 <? val then None else octet_go (S ndig) val s'
      end
  end.

Definition parse_ipv4_fields (s : string) : option (list Z) :=
  match split_byte "." s with
  | [a; b; c; d] =>
      match octet_go 0 0 a, octet_go 0 0 b, octet_go 0 0 c, octet_go 0 0 d with
      | Some a, Some b, Some c, Some d => Some [a; b; c; d]
      | _, _, _, _ => None
      end
  | _ => None
  end.

(** hex digits of one group: the number of digits, their value, what follows;
    [None] for more than four digits *)
Fixpoint hex_group (off : nat) (acc : Z) (s : string) : option (nat * Z * string) :=
  match s with
  | EmptyString => Some (off, acc, s)
  | String c s' =>
      match hex_val c with
      | None => Some (off, acc, s)
      | Some d => if (3 <? off)%nat then None else hex_group (S off) (acc * 16 + d) s'
      end
  end.

(** The group loop of netip's parseIPv6: the bytes read, the position of the
    ellipsis (if seen). Eight iterations fill the 16 bytes. *)
Fixpoint ipv6_groups (fuel : nat) (ip : list Z) (ellipsis : option nat) (s : string)
  : option (list Z * option nat * string) :=
  match fuel with
  | O => Some (ip, ellipsis, s)
  | S fuel' =>
      match hex_group 0 0 s with
      | None => None
      | Some (off, acc, r) =>
          if (off =? 0)%nat then None
          else if has_prefix "." r then
            if match ellipsis with None => negb (length ip =? 12)%nat | Some _ => false end then None
            else if (16 <? length ip + 4)%nat then None
            else match parse_ipv4_fields s with
                 | Some v4 => Some (ip ++ v4, ellipsis, "")%list
                 | None => None
                 end
          else
            let ip := (ip ++ [acc / 256; acc mod 256])%list in
            match r with
            | EmptyString => Some (ip, ellipsis, "")
            | String c r' =>
                if negb (bool_decide (c = ":"%char)) then None
                else match r' with
                     | EmptyString => None
                     | String c' r'' =>
                         if bool_decide (c' = ":"%char) then
                           match ellipsis with
                           | Some _ => None
                           | None =>
                               match r'' with
                               | EmptyString => Some (ip, Some (length ip), "")
                               | _ => ipv6_groups fuel' ip (Some (length ip)) r''
                               end
                           end
                         else ipv6_groups fuel' ip ellipsis r'
                     end
            end
      end
  end.

Definition parse_ipv6 (s : string) : option (list Z) :=
  let '(ellipsis, s) :=
    if has_prefix "::" s then (Some 0%nat, trim_prefix s "::") else (None, s) in
  if bool_decide (ellipsis = Some 0%nat) && bool_decide (s = "") then Some (replicate 16 0)
  else match ipv6_groups 8 [] ellipsis s with
       | Some (ip, ellipsis, "") =>
           if (length ip <? 16)%nat then
             match ellipsis with
             | None => None
             | Some e => Some (take e ip ++ replicate (16 - length ip) 0 ++ drop e ip)%list
             end
           else match ellipsis with Some _ => None | None => Some ip end
       | _ => None
       end.

(** netip.ParseAddr dispatches on the first of '.', ':' and '%'. *)
Fixpoint first_of_dot_colon_percent (s : string) : option ascii :=
  match s with
  | EmptyString => None
  | String c s' =>
      if bool_decide (c = "."%char) || bool_decide (c = ":"%char) || bool_decide (c = "%"%char)
      then Some c else first_of_dot_colon_percent s'
  end.

Definition ParseIP (s : string) : option (list Z) :=
  match first_of_dot_colon_percent s with
  | Some c =>
      if bool_decide (c = "."%char) then
        match parse_ipv4_fields s with
        | Some v4 => Some (replicate 10 0 ++ [255; 255] ++ v4)%list
        | None => None
        end
      else if bool_decide (c = ":"%char) then
        if lacks "%" s then parse_ipv6 s else None
      else None
  | None => None
  end.

(** ip.To4: the four bytes of an IPv4 (or IPv4-mapped) address *)
Definition To4 (ip : list Z) : option (list Z) :=
  if bool_decide (take 12 ip = (replicate 10 0 ++ [255; 255])%list) && (length ip =? 16)%nat
  then Some (drop 12 ip) else None.

(** ip.IsLoopback *)
Definition IsLoopback (ip : list Z) : bool :=
  match To4 ip with
  | Some v4 => match v4 with b :: _ => b =? 127 | [] => false end
  | None => bool_decide (ip = (replicate 15 0 ++ [1])%list)
  end.

(** ip.IsUnspecified *)
Definition IsUnspecified (ip : list Z) : bool :=
  bool_decide (ip = (replicate 10 0 ++ [255; 255; 0; 0; 0; 0])%list)
  || bool_decide (ip = replicate 16 0).

Example parse_v4 : ParseIP "203.0.113.5" = Some [0;0;0;0;0;0;0;0;0;0;255;255;203;0;113;5].
Proof. reflexivity. Qed.
Example parse_v4_leading_zero : ParseIP "127.0.0.01" = None.
Proof. reflexivity. Qed.
Example parse_v6 : ParseIP "fe80::1" = Some [254;128;0;0;0;0;0;0;0;0;0;0;0;0;0;1].
Proof. reflexivity. Qed.
Example parse_v6_mapped : IsLoopback (default [] (ParseIP "::ffff:127.0.0.1")) = true.
Proof. reflexivity. Qed.
Example parse_v6_double_ellipsis : ParseIP "1::2::3" = None.
Proof. reflexivity. Qed.
Example parse_hostname : ParseIP "hub.example" = None.
Proof. reflexivity. Qed.

End GoNet.
