(* ===== verification/GoConv.v ===== *)
(** * GoConv: strconv, and the parts of strings the parsers use

    strconv.Atoi and the decimal format of integers, strings.TrimSpace, strings.Fields and
    strings.Cut, on byte strings; of white space, the ASCII characters. *)

From stdpp Require Import base strings list.
From Stdlib Require Import ZArith Lia Ascii.
From S2P Require Import Prelude GoStd.
Import GoString.

Local Open Scope string_scope.
Local Open Scope Z_scope.

Module GoConv.

Definition is_digit (c : ascii) : bool := (48 <=? byte_of c) && (byte_of c <=? 57).

(** the value of a string of digits after [acc] *)
Fixpoint digits_value (s : string) (acc : Z) : option Z :=
  match s with
  | "" => Some acc
  | String c rest => if is_digit c then digits_value rest (10 * acc + (byte_of c - 48)) else None
  end.

Definition unsigned (s : string) : option Z := if bool_decide (s = "") then None else digits_value s 0.

(** strconv.Atoi: an optional sign, decimal digits, and a value that fits an int *)
Definition Atoi (s : string) : option Z :=
  let n :=
    match s with
    | String c rest =>
        if byte_of c =? 45 then (fun z => - z) <$> unsigned rest
        else if byte_of c =? 43 then unsigned rest
        else unsigned s
    | "" => None
    end in
  match n with
  | Some z => if (min_int64 <=? z) && (z <=? max_int64) then Some z else None
  | None => None
  end.

Definition digit (z : Z) : ascii := ascii_of_nat (Z.to_nat (48 + z)).

Fixpoint show_go (fuel : nat) (z : Z) (acc : string) : string :=
  match fuel with
  | O => acc
  | S fuel =>
      let acc := String (digit (z mod 10)) acc in
      if z <? 10 then acc else show_go fuel (z / 10) acc
  end.

(** fmt's %d of a natural number: at most one digit per bit *)
Definition show (z : Z) : string := show_go (S (Z.to_nat (Z.log2 z))) z "".

Definition is_space (c : ascii) : bool :=
  (byte_of c =? 32) || ((9 <=? byte_of c) && (byte_of c <=? 13)).

Fixpoint trim_left (s : string) : string :=
  match s with
  | "" => ""
  | String c rest => if is_space c then trim_left rest else s
  end.

Fixpoint trim_right (s : string) : string :=
  match s with
  | "" => ""
  | String c rest =>
      match trim_right rest with
      | "" => if is_space c then "" else String c ""
      | r => String c r
      end
  end.

Definition TrimSpace (s : string) : string := trim_right (trim_left s).

(** strings.Fields, with the field read so far *)
Fixpoint fields_go (s : string) (field : string) : list string :=
  match s with
  | "" => if bool_decide (field = "") then [] else [field]
  | String c rest =>
      if is_space c
      then if bool_decide (field = "") then fields_go rest "" else field :: fields_go rest ""
      else fields_go rest (field ++ String c "")
  end.
Definition Fields (s : string) : list string := fields_go s "".

(** strings.ToLower, on ASCII letters *)
Definition lower (c : ascii) : ascii :=
  if (65 <=? byte_of c) && (byte_of c <=? 90) then ascii_of_nat (Z.to_nat (byte_of c + 32)) else c.
Fixpoint ToLower (s : string) : string :=
  match s with "" => "" | String c rest => String (lower c) (ToLower rest) end.

(** *** Reading what was printed *)

Lemma digit_byte z : 0 <= z < 10 -> byte_of (digit z) = 48 + z /\ is_digit (digit z) = true.
Proof.
  intros Hz. assert (byte_of (digit z) = 48 + z) as E.
  { unfold byte_of, digit. rewrite nat_ascii_embedding by lia. lia. }
  split; [done|]. unfold is_digit. rewrite E. apply andb_true_iff. split; apply Z.leb_le; lia.
Qed.

Lemma show_go_value fuel z acc :
  0 <= z < 2 ^ Z.of_nat fuel -> (0 < fuel)%nat -> digits_value (show_go fuel z acc) 0 = digits_value acc z.
Proof.
  revert z acc. induction fuel as [|fuel IH]; intros z acc Hz Hf; [lia|]. cbn [show_go].
  assert (forall a, digits_value (String (digit (z mod 10)) acc) a = digits_value acc (10 * a + z mod 10)) as Hd.
  { intros a. cbn [digits_value]. pose proof (Z.mod_pos_bound z 10 ltac:(done)) as Hm.
    destruct (digit_byte (z mod 10) Hm) as [-> ->]. f_equal. lia. }
  destruct (Z.ltb_spec z 10).
  - rewrite Hd. f_equal. rewrite Z.mod_small; lia.
  - rewrite Nat2Z.inj_succ, Z.pow_succ_r in Hz by lia.
    destruct fuel as [|fuel']; [simpl in Hz; lia|].
    rewrite IH; [|split; [apply Z.div_pos; lia|apply Z.div_lt_upper_bound; lia]|lia].
    rewrite Hd. f_equal. pose proof (Z.div_mod z 10). lia.
Qed.

Lemma show_go_head fuel z acc :
  (0 < fuel)%nat -> 0 <= z -> exists d s, show_go fuel z acc = String d s /\ is_digit d = true.
Proof.
  revert z acc. induction fuel as [|fuel IH]; intros z acc Hf Hz; [lia|]. cbn [show_go].
  destruct (digit_byte (z mod 10)) as [_ Hd]; [apply Z.mod_pos_bound; lia|].
  destruct (z <? 10); [by eexists _, _|]. destruct fuel as [|fuel]; [by eexists _, _|].
  apply IH; [lia|]. apply Z.div_pos; lia.
Qed.

Lemma show_value z : 0 <= z -> digits_value (show z) 0 = Some z.
Proof.
  intros Hz. unfold show. rewrite show_go_value; [done| |lia]. split; [done|].
  rewrite Nat2Z.inj_succ, Z2Nat.id by apply Z.log2_nonneg.
  destruct (decide (z = 0)) as [->|]; [done|]. apply Z.log2_spec. lia.
Qed.

(** a printed number reads back, if it fits an int *)
Lemma Atoi_show z : 0 <= z <= max_int64 -> Atoi (show z) = Some z.
Proof.
  intros Hz. pose proof (show_value z ltac:(lia)) as Hv.
  destruct (show_go_head (S (Z.to_nat (Z.log2 z))) z "" ltac:(lia) ltac:(lia)) as (d & s & Hs & Hd).
  fold (show z) in Hs. unfold Atoi. rewrite Hs in *. unfold is_digit in Hd. zbool.
  destruct (Z.eqb_spec (byte_of d) 45); [lia|]. destruct (Z.eqb_spec (byte_of d) 43); [lia|].
  unfold unsigned. rewrite bool_decide_eq_false_2 by done. rewrite Hv.
  rewrite (proj2 (Z.leb_le min_int64 z)), (proj2 (Z.leb_le z max_int64)); [done|lia|].
  unfold min_int64. lia.
Qed.

Lemma show_go_all fuel z acc (P : ascii -> bool) :
  0 <= z -> (forall c, is_digit c = true -> P c = true) ->
  (forall c, c ∈ String.list_ascii_of_string acc -> P c = true) ->
  forall c, c ∈ String.list_ascii_of_string (show_go fuel z acc) -> P c = true.
Proof.
  revert z acc. induction fuel as [|fuel IH]; intros z acc Hz HP Hacc; cbn [show_go]; [done|].
  destruct (digit_byte (z mod 10)) as [_ Hd]; [apply Z.mod_pos_bound; lia|].
  assert (forall c, c ∈ String.list_ascii_of_string (String (digit (z mod 10)) acc) -> P c = true) as Hacc'.
  { intros c [->|Hc]%elem_of_cons; [by apply HP|by apply Hacc]. }
  destruct (z <? 10); [done|]. apply IH; [apply Z.div_pos; lia|done|done].
Qed.

(** a printed number has digits only *)
Lemma show_digits z c : 0 <= z -> c ∈ String.list_ascii_of_string (show z) -> is_digit c = true.
Proof. intros Hz. apply (show_go_all _ z "" is_digit Hz); [done|]. intros d Hd. by apply elem_of_nil in Hd. Qed.

Lemma lacks_of_all c s : (forall d, d ∈ String.list_ascii_of_string s -> d <> c) -> lacks c s = true.
Proof.
  induction s as [|d s IH]; intros Hs; [done|]. cbn [lacks]. apply andb_true_iff. split.
  - apply bool_decide_eq_true. intros ->. apply (Hs d); [by left|done].
  - apply IH. intros e He. apply Hs. by right.
Qed.

Lemma show_lacks c z : 0 <= z -> is_digit c = false -> lacks c (show z) = true.
Proof. intros Hz Hc. apply lacks_of_all. intros d Hd ->. by rewrite (show_digits z c Hz Hd) in Hc. Qed.

(** text without white space is its own trimming *)
Definition no_space (s : string) : Prop := forall c, c ∈ String.list_ascii_of_string s -> is_space c = false.

Lemma TrimSpace_id s : no_space s -> TrimSpace s = s.
Proof.
  intros Hs. unfold TrimSpace.
  assert (trim_left s = s) as ->.
  { destruct s as [|c s]; [done|]. cbn [trim_left]. rewrite (Hs c); [done|by left]. }
  induction s as [|c s IH]; [done|]. cbn [trim_right].
  rewrite IH by (intros d Hd; apply Hs; by right). destruct s; [|done]. rewrite (Hs c); [done|by left].
Qed.

Lemma trim_right_id s : no_space s -> trim_right s = s.
Proof.
  intros Hs. induction s as [|c s IH]; [done|]. cbn [trim_right].
  rewrite IH by (intros d Hd; apply Hs; by right). destruct s; [|done]. rewrite (Hs c); [done|by left].
Qed.

(** text that starts and ends in something else than white space is its own trimming *)
Lemma trim_right_app_id a b : b <> "" -> no_space b -> trim_right (a ++ b) = (a ++ b)%string.
Proof.
  intros Hne Hb. induction a as [|c a IH]; [by apply trim_right_id|]. rewrite str_app_cons. cbn [trim_right]. rewrite IH.
  destruct (a ++ b)%string as [|d r] eqn:E; [|done]. by destruct a, b.
Qed.

Lemma TrimSpace_ends c a b : is_space c = false -> b <> "" -> no_space b -> TrimSpace (String c (a ++ b)) = String c (a ++ b).
Proof.
  intros Hc Hne Hb. unfold TrimSpace. cbn [trim_left]. rewrite Hc. by apply (trim_right_app_id (String c a)).
Qed.

Lemma TrimSpace_head c s : is_space c = false -> exists r, TrimSpace (String c s) = String c r.
Proof.
  intros Hc. unfold TrimSpace. cbn [trim_left]. rewrite Hc. cbn [trim_right]. rewrite Hc. destruct (trim_right s); by eexists.
Qed.

(** *** Fields *)

Lemma fields_go_nonempty s field : Forall (fun w => w <> "") (fields_go s field).
Proof.
  revert field. induction s as [|c s IH]; intros field; cbn [fields_go].
  - case_bool_decide; by repeat constructor.
  - destruct (is_space c); [case_bool_decide; [done|by constructor]|done].
Qed.

Lemma Fields_nonempty s : Forall (fun w => w <> "") (Fields s).
Proof. apply fields_go_nonempty. Qed.

Example atoi_examples :
  Atoi "42" = Some 42 /\ Atoi "-7" = Some (-7) /\ Atoi "+1" = Some 1 /\ Atoi "" = None /\ Atoi "4 " = None /\
  Atoi "9223372036854775808" = None /\ show 1203 = "1203" /\ Fields "  a  bc d " = ["a"; "bc"; "d"].
Proof. vm_compute. done. Qed.

End GoConv.
