(* ===== verification/GoIO.v ===== *)
(** * GoIO: text files and machine numbers as the host readers use them

    bufio.Scanner over lines, strconv.ParseUint, ParseInt and ParseFloat (decimal
    notation; of the notations Go accepts, hexadecimal floats and digit separators are left
    out, which no file the program reads has), float64 arithmetic and the 32-bit pattern of
    a float32. *)

From stdpp Require Import base strings list.
From Stdlib Require Import ZArith Lia Ascii SpecFloat.
From S2P Require Import Prelude GoStd GoConv.
Import GoString GoConv GoFloat.

Local Open Scope string_scope.
Local Open Scope Z_scope.

Module GoIO.

Definition newline : ascii := "010"%char.
Definition carriage_return : ascii := "013"%char.

(** ** bufio.Scanner with the default split function and buffer *)

Definition MaxScanTokenSize : Z := 64 * 1024.

Definition drop_cr (line : string) : string := trim_suffix line (String carriage_return "").

(** the lines Scan yields: a final line feed ends the last line, and a line the buffer of
    [max] bytes cannot hold ends the scan *)
Fixpoint scan_go (max : Z) (lines : list string) : list string :=
  match lines with
  | [] => []
  | [last] => if bool_decide (last = "") then [] else
              if Z.of_nat (String.length last) <? max then [drop_cr last] else []
  | line :: rest =>
      if Z.of_nat (String.length line) <? max then drop_cr line :: scan_go max rest else []
  end.
Definition scan_lines_max (max : Z) (s : string) : list string := scan_go max (split_byte newline s).
Definition scan_lines (s : string) : list string := scan_lines_max MaxScanTokenSize s.

(** Err() after the last Scan *)
Definition scan_failed_max (max : Z) (s : string) : bool :=
  existsb (fun line => max <=? Z.of_nat (String.length line)) (split_byte newline s).
Definition scan_failed (s : string) : bool := scan_failed_max MaxScanTokenSize s.

(** ** regexp, for patterns that never backtrack *)

(** \s and \w *)
Definition re_space (c : ascii) : bool := bool_decide (byte_of c ∈ [9; 10; 12; 13; 32]).
Definition re_word (c : ascii) : bool :=
  let b := byte_of c in ((48 <=? b) && (b <=? 57)) || ((65 <=? b) && (b <=? 90)) || ((97 <=? b) && (b <=? 122)) || (b =? 95).

Fixpoint span (p : ascii -> bool) (s : string) : string * string :=
  match s with
  | "" => ("", "")
  | String c rest => if p c then let '(a, b) := span p rest in (String c a, b) else ("", s)
  end.

(** the matches of a pattern, each at the leftmost position after the one before; a match is
    its captures and what follows it, and takes at least one byte *)
Fixpoint find_all {A} (fuel : nat) (pattern : string -> option (A * string)) (s : string) : list A :=
  match fuel with
  | O => []
  | S fuel =>
      match pattern s with
      | Some (m, rest) => m :: find_all fuel pattern rest
      | None => match s with "" => [] | String _ s' => find_all fuel pattern s' end
      end
  end.
Definition FindAll {A} (pattern : string -> option (A * string)) (s : string) : list A :=
  find_all (S (String.length s)) pattern s.

(** ** strconv *)

(** ParseUint(s, 10, bits) *)
Definition ParseUint (s : string) (bits : Z) : option Z :=
  match unsigned s with
  | Some z => if z <? 2 ^ bits then Some z else None
  | None => None
  end.

(** ParseInt(s, 10, 64), which Atoi is on a 64-bit platform *)
Definition ParseInt64 (s : string) : option Z := Atoi s.

Lemma digits_value_nonneg s acc z : 0 <= acc -> digits_value s acc = Some z -> 0 <= z.
Proof.
  revert acc. induction s as [|c s IH]; intros acc Ha; cbn [digits_value]; [congruence|].
  destruct (is_digit c) eqn:Hd; [|done]. apply IH. unfold is_digit in Hd. zbool. lia.
Qed.

Lemma ParseUint_range s bits z : ParseUint s bits = Some z -> 0 <= z < 2 ^ bits.
Proof.
  unfold ParseUint, unsigned. case_bool_decide; [done|].
  destruct (digits_value s 0) as [v|] eqn:E; [|done]. destruct (Z.ltb_spec v (2 ^ bits)); [|done].
  intros [= <-]. split; [|done]. by eapply digits_value_nonneg; [|done].
Qed.

Lemma ParseUint_show z bits : 0 <= z < 2 ^ bits -> ParseUint (show z) bits = Some z.
Proof.
  intros Hz. unfold ParseUint, unsigned.
  destruct (show_go_head (S (Z.to_nat (Z.log2 z))) z "" ltac:(lia) ltac:(lia)) as (d & s & Hs & _).
  fold (show z) in Hs. rewrite bool_decide_eq_false_2 by by rewrite Hs.
  rewrite show_value by lia. destruct (Z.ltb_spec z (2 ^ bits)); [done|lia].
Qed.

Lemma Atoi_range s z : Atoi s = Some z -> min_int64 <= z <= max_int64.
Proof.
  unfold Atoi. set (n := match s with "" => _ | _ => _ end). destruct n as [v|]; [|done].
  destruct (Z.leb_spec min_int64 v), (Z.leb_spec v max_int64); cbn [andb]; try done. intros [= <-]. done.
Qed.

(** strconv.Itoa, FormatUint and FormatBool *)
Definition Itoa (z : Z) : string := if z <? 0 then String "-" (show (- z)) else show z.
Definition FormatBool (b : bool) : string := if b then "true" else "false".

Lemma FormatBool_inj a b : FormatBool a = FormatBool b -> a = b.
Proof. by destruct a, b. Qed.

(** ** float64 and float32 *)

Definition fadd : float64 -> float64 -> float64 := SFadd prec emax.
Definition fsub : float64 -> float64 -> float64 := SFsub prec emax.
Definition fmul : float64 -> float64 -> float64 := SFmul prec emax.
Definition fdiv : float64 -> float64 -> float64 := SFdiv prec emax.
Definition fle (x y : float64) : bool := SFleb x y.

(** Duration.Seconds *)
Definition Seconds (d : Z) : float64 :=
  fadd (f_of_Z (Z.quot d 1000000000)) (fdiv (f_of_Z (Z.rem d 1000000000)) (f_of_Z 1000000000)).

(** float32(x) *)
Definition to_float32 (x : float64) : spec_float :=
  match x with
  | S754_finite s m e => binary_round 24 128 s m e
  | _ => x
  end.

(** math.Float32bits: sign, biased exponent, fraction *)
Definition float32_bits (x : spec_float) : Z :=
  let sign (s : bool) : Z := if s then 2 ^ 31 else 0 in
  match x with
  | S754_zero s => sign s
  | S754_infinity s => sign s + 255 * 2 ^ 23
  | S754_nan => 255 * 2 ^ 23 + 2 ^ 22
  | S754_finite s m e =>
      if 2 ^ 23 <=? Zpos m then sign s + ((e + 150) mod 256) * 2 ^ 23 + Zpos m mod 2 ^ 23
      else sign s + Zpos m mod 2 ^ 23
  end.

Lemma float32_bits_range x : 0 <= float32_bits x < 2 ^ 32.
Proof.
  assert (forall m, 0 <= Z.pos m mod 2 ^ 23 < 2 ^ 23) as Hm by (intros; apply Z.mod_pos_bound; lia).
  destruct x as [[]|[]| |s m e]; cbn [float32_bits]; try lia.
  pose proof (Hm m). pose proof (Z.mod_pos_bound (e + 150) 256 ltac:(lia)).
  destruct (2 ^ 23 <=? Z.pos m), s; lia.
Qed.

(** m * 10^e rounded once, to the given precision *)
Definition scale10 (p em : Z) (neg : bool) (m e : Z) : spec_float :=
  match m with
  | Zpos m' =>
      if 0 <=? e then
        binary_normalize p em (if neg then - (m * 10 ^ e) else m * 10 ^ e) 0 neg
      else match 10 ^ (- e) with
           | Zpos d => let '(q, e', loc) := SFdiv_core_binary p em (Zpos m') 0 (Zpos d) 0 in
                       binary_round_aux p em neg q e' loc
           | _ => S754_nan
           end
  | _ => S754_zero neg
  end.

(** the longest run of digits: its value after [acc], its length, and what follows *)
Fixpoint digit_run (s : string) (acc : Z) (n : Z) : Z * Z * string :=
  match s with
  | String c rest => if is_digit c then digit_run rest (10 * acc + (byte_of c - 48)) (n + 1) else (acc, n, s)
  | "" => (acc, n, "")
  end.

(** an exponent part, or nothing *)
Definition exponent (s : string) : option Z :=
  match s with
  | "" => Some 0
  | String c rest =>
      if (byte_of c =? 101) || (byte_of c =? 69) then
        let '(neg, rest) :=
          match rest with
          | String d r => if byte_of d =? 45 then (true, r) else if byte_of d =? 43 then (false, r) else (false, rest)
          | "" => (false, "")
          end in
        let '(v, n, r) := digit_run rest 0 0 in
        if (0 <? n) && bool_decide (r = "") then Some (if neg then - Z.min v 10000 else Z.min v 10000) else None
      else None
  end.

(** ParseFloat: None stands for an error, of syntax or of range *)
Definition ParseFloat (p em : Z) (s : string) : option spec_float :=
  let '(neg, body) :=
    match s with
    | String c r => if byte_of c =? 45 then (true, r) else if byte_of c =? 43 then (false, r) else (false, s)
    | "" => (false, "")
    end in
  let '(ip, ni, r) := digit_run body 0 0 in
  let '(m, n, nf, r) :=
    match r with
    | String c r' => if byte_of c =? 46 then let '(m, n, r'') := digit_run r' ip ni in (m, n, n - ni, r'') else (ip, ni, 0, r)
    | "" => (ip, ni, 0, "")
    end in
  if 0 <? n then
    match exponent r with
    | Some e => match scale10 p em neg m (e - nf) with
                | S754_infinity _ => None
                | x => Some x
                end
    | None => None
    end
  else if bool_decide (ToLower body ∈ ["inf"; "infinity"]) then Some (S754_infinity neg)
  else if bool_decide (ToLower s = "nan") then Some S754_nan else None.

Example goio_examples :
  scan_lines (String "a" (String carriage_return (String newline (String newline (String "b" (String newline "")))))) = ["a"; ""; "b"] /\
  ParseUint "18446744073709551616" 64 = None /\ ParseUint "-1" 64 = None /\ ParseUint "007" 64 = Some 7 /\
  float32_bits <$> ParseFloat 24 128 "1.50" = Some 1069547520 /\ (* 0x3FC00000 *)
  float32_bits <$> ParseFloat 24 128 "0.1" = Some 1036831949 /\ (* 0x3DCCCCCD *)
  float32_bits <$> ParseFloat 24 128 "1e39" = None /\ ParseFloat 53 1024 "." = None /\
  ParseFloat 53 1024 "25e-1" = Some (fdiv (f_of_Z 5) (f_of_Z 2)) /\
  float32_bits (to_float32 (f_of_Z 100)) = 1120403456. (* 0x42C80000 *)
Proof. vm_compute. done. Qed.

(** strconv.FormatFloat(x, 'f', 0, 64): the nearest integer, ties to even *)
Definition round_even (m d : Z) : Z :=
  let q := m / d in
  match 2 * (m mod d) ?= d with
  | Lt => q
  | Gt => q + 1
  | Eq => if Z.even q then q else q + 1
  end.
Definition FormatFloat0 (x : float64) : string :=
  match x with
  | S754_zero s => if s then "-0" else "0"
  | S754_infinity s => if s then "-Inf" else "+Inf"
  | S754_nan => "NaN"
  | S754_finite s m e =>
      let n := if 0 <=? e then Z.pos m * 2 ^ e else round_even (Z.pos m) (2 ^ (- e)) in
      if s then "-" ++ show n else show n
  end.

(** strconv.FormatFloat(x, 'f', p, 64), for p > 0: the nearest multiple of 10^-p, ties to even *)
Fixpoint zero_pad (n : nat) (s : string) : string :=
  match n with O => "" | S n => if (String.length s <=? n)%nat then String "0" (zero_pad n s) else s end.
Definition fixed_digits (p n : Z) : string := show (n / 10 ^ p) ++ "." ++ zero_pad (Z.to_nat p) (show (n mod 10 ^ p)).
Definition FormatFixed (p : Z) (x : float64) : string :=
  match x with
  | S754_zero s => if s then "-" ++ fixed_digits p 0 else fixed_digits p 0
  | S754_infinity s => if s then "-Inf" else "+Inf"
  | S754_nan => "NaN"
  | S754_finite s m e =>
      let n := if 0 <=? e then Z.pos m * 2 ^ e * 10 ^ p else round_even (Z.pos m * 10 ^ p) (2 ^ (- e)) in
      if s then "-" ++ fixed_digits p n else fixed_digits p n
  end.

Example FormatFixed_demo :
  FormatFixed 2 (fdiv (f_of_Z 1) (f_of_Z 8)) = "0.12" /\ FormatFixed 2 (fdiv (f_of_Z 45) (f_of_Z 2)) = "22.50" /\
  FormatFixed 2 (fdiv (f_of_Z 1) (f_of_Z 100)) = "0.01" /\ FormatFixed 2 f_zero = "0.00" /\ FormatFixed 2 (f_of_Z (-3)) = "-3.00".
Proof. vm_compute. done. Qed.

Example FormatFloat0_demo :
  FormatFloat0 (fdiv (f_of_Z 5) (f_of_Z 2)) = "2" /\ FormatFloat0 (fdiv (f_of_Z 7) (f_of_Z 2)) = "4" /\
  FormatFloat0 (fdiv (f_of_Z (-1)) (f_of_Z 4)) = "-0" /\ FormatFloat0 (f_of_Z 86400) = "86400".
Proof. vm_compute. done. Qed.

End GoIO.
