(* ===== verification/GoFlag.v ===== *)
(** * GoFlag: command lines

    What the commands use of the flag package: FlagSet.Parse for flags that take a value (no
    command of the repository has a boolean flag), and of time.ParseDuration for flags that
    are durations. *)

From stdpp Require Import base strings list.
From Stdlib Require Import ZArith Lia Ascii SpecFloat.
From S2P Require Import Prelude GoStd GoConv GoIO.
Import GoString GoConv GoFloat GoIO GoTime.

Local Open Scope string_scope.
Local Open Scope Z_scope.

Module GoFlag.

(** ** FlagSet.Parse *)

Inductive FlagError := ErrSyntax (arg : string) | ErrUndefined (name : string) | ErrHelp | ErrNeedsArgument (name : string) | ErrInvalid (name : string).

(** the flags of a set: whether a name is one, and the settings after a value is given to it *)
Record FlagSet (S : Type) := mkFlagSet { formal : string -> bool; set : string -> string -> S -> option S }.
Arguments mkFlagSet {S}.
Arguments formal {S}.
Arguments set {S}.

Definition dash : ascii := "-"%char.
Definition equals : ascii := "="%char.

(** name=value, the equals sign not being first *)
Definition name_value (s : string) : string * option string :=
  match s with
  | "" => ("", None)
  | String c rest => match cut_byte equals rest with Some (n, v) => (String c n, Some v) | None => (s, None) end
  end.

(** what the first argument is *)
Inductive token := Operand | Terminator | BadSyntax | Flag (name : string) (value : option string).

Definition flag_name (s : string) (name : string) : token :=
  match name with
  | "" => BadSyntax
  | String c _ => if bool_decide (c = dash) || bool_decide (c = equals) then BadSyntax else let '(n, v) := name_value name in Flag n v
  end.

Definition classify (s : string) : token :=
  match s with
  | String c (String c' rest) =>
      if negb (bool_decide (c = dash)) then Operand
      else if bool_decide (c' = dash) then (if bool_decide (rest = "") then Terminator else flag_name s rest)
      else flag_name s (String c' rest)
  | _ => Operand
  end.

Section parse.
Context {S : Type} (fs : FlagSet S).

Definition set_flag (name value : string) (st : S) : result FlagError S :=
  match set fs name value st with Some st => Ok st | None => Err (ErrInvalid name) end.

(** Parse: the settings and Args() *)
Fixpoint Parse (args : list string) (st : S) : result FlagError (S * list string) :=
  match args with
  | [] => Ok (st, [])
  | s :: rest =>
      match classify s with
      | Operand => Ok (st, args)
      | Terminator => Ok (st, rest)
      | BadSyntax => Err (ErrSyntax s)
      | Flag name value =>
          if negb (formal fs name) then Err (if bool_decide (name = "help") || bool_decide (name = "h") then ErrHelp else ErrUndefined name)
          else match value, rest with
               | Some v, _ => match set_flag name v st with Ok st => Parse rest st | Err e => Err e end
               | None, v :: rest => match set_flag name v st with Ok st => Parse rest st | Err e => Err e end
               | None, [] => Err (ErrNeedsArgument name)
               end
      end
  end.

(** a name that can be written after a dash *)
Definition writable (name : string) : Prop :=
  exists c rest, name = String c rest /\ c <> dash /\ c <> equals /\ lacks equals rest = true.

Lemma flag_name_writable s name : writable name -> flag_name s name = Flag name None.
Proof.
  intros (c & rest & -> & H1 & H2 & H3). unfold flag_name. rewrite !bool_decide_eq_false_2 by done. cbn [orb name_value].
  by rewrite cut_byte_lacks.
Qed.

Lemma classify_dash name : writable name -> classify (String dash name) = Flag name None.
Proof.
  intros Hw. pose proof Hw as (c & rest & -> & H1 & _). cbn [classify]. rewrite bool_decide_eq_true_2 by done. cbn [negb].
  rewrite bool_decide_eq_false_2 by done. by apply flag_name_writable.
Qed.

Lemma classify_dashes name : writable name -> classify (String dash (String dash name)) = Flag name None.
Proof.
  intros Hw. pose proof Hw as (c & rest & -> & H1 & _). cbn [classify]. rewrite !bool_decide_eq_true_2 by done. cbn [negb].
  rewrite bool_decide_eq_false_2 by done. by apply flag_name_writable.
Qed.

Lemma classify_equals name value : writable name -> classify (String dash (name ++ String equals value)) = Flag name (Some value).
Proof.
  intros (c & rest & -> & H1 & H2 & H3). rewrite str_app_cons. cbn [classify]. rewrite bool_decide_eq_true_2 by done. cbn [negb].
  rewrite bool_decide_eq_false_2 by done. unfold flag_name. rewrite !bool_decide_eq_false_2 by done. cbn [orb name_value].
  by rewrite cut_byte_lacks_app.
Qed.

(** the ways to write a flag *)
Inductive spelling := Dash | DashDash | Equals.
Definition spell (sp : spelling) (name value : string) : list string :=
  match sp with
  | Dash => [String dash name; value]
  | DashDash => [String dash (String dash name); value]
  | Equals => [String dash (name ++ String equals value)]
  end.

Fixpoint set_all (fl : list (spelling * string * string)) (st : S) : option S :=
  match fl with
  | [] => Some st
  | (_, name, value) :: fl => st ← set fs name value st; set_all fl st
  end.

Definition written (fl : list (spelling * string * string)) : list string := concat ((fun '(sp, name, value) => spell sp name value) <$> fl).

Lemma parse_flags fl args st st' :
  Forall (fun '(_, name, _) => writable name /\ formal fs name = true) fl -> set_all fl st = Some st' ->
  Parse (written fl ++ args)%list st = Parse args st'.
Proof.
  intros Hfl. revert st. induction Hfl as [|[[sp name] value] fl [Hw Hf] _ IH]; intros st; cbn [set_all].
  { by intros [= <-]. }
  destruct (set fs name value st) as [st1|] eqn:Hs; [|done]. cbn [mbind option_bind]. intros Hall.
  unfold written. rewrite fmap_cons. cbn [concat]. rewrite <- app_assoc. fold (written fl).
  destruct sp; cbn [spell app Parse]; [rewrite classify_dash by done|rewrite classify_dashes by done|rewrite classify_equals by done];
    rewrite Hf; cbn [negb]; unfold set_flag; rewrite Hs; by apply IH.
Qed.

(** After the flags, the terminator hands every other argument over as it is, also the ones
    that look like flags. *)
Lemma parse_after_terminator fl argv st st' :
  Forall (fun '(_, name, _) => writable name /\ formal fs name = true) fl -> set_all fl st = Some st' ->
  Parse (written fl ++ "--" :: argv)%list st = Ok (st', argv).
Proof. intros Hfl Hs. by rewrite (parse_flags fl ("--" :: argv) st st'). Qed.

End parse.

(** ** time.ParseDuration *)

(** consumes digits; an error when the value leaves the range *)
Fixpoint leadingInt (s : string) (x : Z) : option (Z * string) :=
  match s with
  | String c rest =>
      if is_digit c then
        if 2 ^ 63 ÷ 10 <? x then None else
        let x := x * 10 + (byte_of c - 48) in
        if 2 ^ 63 <? x then None else leadingInt rest x
      else Some (x, s)
  | "" => Some (x, s)
  end.

Fixpoint leadingFraction (s : string) (x : Z) (scale : float64) (overflow : bool) : Z * float64 * string :=
  match s with
  | String c rest =>
      if is_digit c then
        if overflow then leadingFraction rest x scale true
        else if (2 ^ 63 - 1) ÷ 10 <? x then leadingFraction rest x scale true
        else let y := x * 10 + (byte_of c - 48) in
             if 2 ^ 63 <? y then leadingFraction rest x scale true
             else leadingFraction rest y (fmul scale (f_of_Z 10)) false
      else (x, scale, s)
  | "" => (x, scale, s)
  end.

Definition unitMap (u : string) : option Z :=
  if bool_decide (u = "ns") then Some 1
  else if bool_decide (u = "us") || bool_decide (u = String "194" (String "181" "s")) || bool_decide (u = String "206" (String "188" "s")) then Some 1000
  else if bool_decide (u = "ms") then Some millisecond
  else if bool_decide (u = "s") then Some second
  else if bool_decide (u = "m") then Some minute
  else if bool_decide (u = "h") then Some hour else None.

(** uint64 of a non-negative float *)
Definition truncated (x : float64) : Z :=
  match x with S754_finite false m e => if e <? 0 then Zpos m / 2 ^ (- e) else Zpos m * 2 ^ e | _ => 0 end.

Definition is_point (c : ascii) : bool := bool_decide (c = "."%char).

(** one number with its unit, and what follows *)
Definition component (s : string) : option (Z * string) :=
  match s with
  | "" => None
  | String c _ =>
      if negb (is_point c || is_digit c) then None else
      '(v, s1) ← leadingInt s 0;
      let pre := negb (bool_decide (String.length s1 = String.length s)) in
      let '(f, scale, s2, post) :=
        match s1 with
        | String c' rest => if is_point c' then let '(f, scale, s2) := leadingFraction rest 0 (f_of_Z 1) false in
                                                (f, scale, s2, negb (bool_decide (String.length s2 = String.length rest)))
                            else (0, f_of_Z 1, s1, false)
        | "" => (0, f_of_Z 1, s1, false)
        end in
      if negb pre && negb post then None else
      let '(u, s3) := span (fun c => negb (is_point c || is_digit c)) s2 in
      if bool_decide (u = "") then None else
      unit ← unitMap u;
      if 2 ^ 63 ÷ unit <? v then None else
      let v := v * unit in
      let v := if 0 <? f then v + truncated (fmul (f_of_Z f) (fdiv (f_of_Z unit) scale)) else v in
      if (0 <? f) && (2 ^ 63 <? v) then None else Some (v, s3)
  end.

(** every component takes at least one byte *)
Fixpoint components (fuel : nat) (s : string) (d : Z) : option Z :=
  match fuel, s with
  | _, "" => Some d
  | O, _ => None
  | S fuel, _ =>
      '(v, rest) ← component s;
      let d := d + v in if 2 ^ 63 <? d then None else components fuel rest d
  end.

Definition ParseDuration (s : string) : option Duration :=
  let '(neg, s) := match s with
                   | String c rest => if bool_decide (c = dash) then (true, rest) else if bool_decide (c = "+"%char) then (false, rest) else (false, s)
                   | "" => (false, s)
                   end in
  if bool_decide (s = "0") then Some 0
  else if bool_decide (s = "") then None
  else d ← components (String.length s) s 0;
       if neg then Some (- d) else if 2 ^ 63 - 1 <? d then None else Some d.

Example parse_durations :
  ParseDuration "1h30m" = Some (90 * minute) /\ ParseDuration "1.5s" = Some (1500 * millisecond) /\ ParseDuration "-5ms" = Some (- (5 * millisecond)) /\
  ParseDuration "0" = Some 0 /\ ParseDuration "90" = None /\ ParseDuration "3d" = None /\ ParseDuration ".s" = None /\ ParseDuration "9223372037s" = None.
Proof. vm_compute. done. Qed.

(** a whole number of a unit reads as that many of it *)

Lemma digits_value_ge s x v : digits_value s x = Some v -> 0 <= x -> x <= v.
Proof.
  revert x. induction s as [|c s IH]; intros x; cbn [digits_value]; [by intros [= ->]|].
  destruct (is_digit c) eqn:Hd; [|done]. intros Hv Hx. unfold is_digit in Hd. zbool. apply IH in Hv; lia.
Qed.

Definition digit_headed (s : string) : bool := match s with String c _ => is_digit c | "" => false end.

Lemma leadingInt_digits s rest x v :
  digits_value s x = Some v -> 0 <= x -> v <= 2 ^ 63 -> digit_headed rest = false -> leadingInt (s ++ rest) x = Some (v, rest).
Proof.
  intros Hv Hx Hb Hr. revert x Hv Hx. induction s as [|c s IH]; intros x; cbn [digits_value].
  { intros [= ->] _. rewrite str_app_nil_l. destruct rest as [|c rest]; [done|]. cbn [digit_headed] in Hr. cbn [leadingInt]. by rewrite Hr. }
  destruct (is_digit c) eqn:Hd; [|done]. intros Hv Hx. rewrite str_app_cons. cbn [leadingInt]. rewrite Hd.
  assert (0 <= byte_of c - 48 < 10) as Hc by (unfold is_digit in Hd; zbool; lia).
  pose proof (digits_value_ge _ _ _ Hv ltac:(lia)) as Hge.
  replace (x * 10 + (byte_of c - 48)) with (10 * x + (byte_of c - 48)) by lia.
  change (2 ^ 63 ÷ 10) with 922337203685477580.
  destruct (Z.ltb_spec 922337203685477580 x); [lia|]. destruct (Z.ltb_spec (2 ^ 63) (10 * x + (byte_of c - 48))); [lia|].
  apply IH; [done|lia].
Qed.

Lemma unit_cases u unit : unitMap u = Some unit ->
  0 < unit /\ u <> "" /\ span (fun c => negb (is_point c || is_digit c)) u = (u, "") /\ digit_headed u = false /\
  exists c rest, u = String c rest /\ is_point c = false.
Proof.
  unfold unitMap. repeat case_bool_decide; cbn [orb]; intros [= <-]; subst u; (split_and!; [done..|]); eexists _, _; (split; [reflexivity|done]).
Qed.

Lemma whole_component n u unit :
  unitMap u = Some unit -> 0 <= n -> n * unit <= 2 ^ 63 -> component (show n ++ u) = Some (n * unit, "").
Proof.
  intros Hu Hn Hb. destruct (unit_cases u unit Hu) as (Hpos & Hne & Hspan & Hhead & c & rest & Hcr & Hpt).
  destruct (show_go_head (S (Z.to_nat (Z.log2 n))) n "" ltac:(lia) Hn) as (d & s & Hs & Hd). fold (show n) in Hs.
  assert (leadingInt (show n ++ u) 0 = Some (n, u)) as Hl by (apply leadingInt_digits; [by apply show_value|lia|nia|done]).
  unfold component. rewrite Hs, str_app_cons in *. rewrite Hd, orb_true_r. cbn [negb]. rewrite Hl. cbn [mbind option_bind].
  rewrite bool_decide_eq_false_2. 2: { cbn [String.length]. rewrite str_length_app. lia. }
  rewrite Hcr at 1. rewrite Hpt. cbn [negb andb]. rewrite Hspan, bool_decide_eq_false_2 by done. rewrite Hu. cbn [mbind option_bind].
  assert (n <= 2 ^ 63 ÷ unit). { rewrite Z.quot_div_nonneg by lia. apply Z.div_le_lower_bound; lia. }
  destruct (Z.ltb_spec (2 ^ 63 ÷ unit) n); [lia|]. done.
Qed.

Lemma ParseDuration_whole n u unit :
  unitMap u = Some unit -> 0 <= n -> n * unit <= max_int64 -> ParseDuration (show n ++ u) = Some (n * unit).
Proof.
  intros Hu Hn Hb. unfold max_int64 in Hb. pose proof (whole_component n u unit Hu Hn ltac:(lia)) as Hc. destruct (unit_cases u unit Hu) as (_ & Hne & _).
  destruct (show_go_head (S (Z.to_nat (Z.log2 n))) n "" ltac:(lia) Hn) as (d & s & Hs & Hd). fold (show n) in Hs.
  unfold ParseDuration. rewrite Hs, str_app_cons in *.
  rewrite !(bool_decide_eq_false_2 (d = _)) by (intros ->; done).
  rewrite bool_decide_eq_false_2. 2: { intros [= _ E]. by destruct s, u. }
  rewrite bool_decide_eq_false_2 by done. cbn [String.length components]. rewrite Hc. cbn [mbind option_bind].
  rewrite Z.add_0_l. destruct (Z.ltb_spec (2 ^ 63) (n * unit)); [lia|]. destruct (String.length _); cbn [components mbind option_bind];
    (destruct (Z.ltb_spec (2 ^ 63 - 1) (n * unit)); [lia|done]).
Qed.

End GoFlag.
