(* ===== verification/Schema.v ===== *)
(** * Schema: the canonical data model and its rules

    Models internal/schema: the records Metric, Event, LogLine and Inventory with
    their Validate methods (metric.go, event.go, logline.go, inventory.go,
    schema.go), and the per-host cardinality budget (cardinality.go). Job belongs to
    the bitacora-run wrapper.

    A Go map[string]string is a [gmap string string]; a nil and an empty map, which
    no modelled code tells apart, are both the empty map. A [for ... range] over a
    map visits the pairs in an unspecified order; the model visits them in the order
    of [map_to_list], and the theorems below do not depend on it. *)

From stdpp Require Import base gmap strings list.
From Stdlib Require Import ZArith Lia Ascii.
From S2P Require Import Prelude GoStd GoNet.
Import GoString GoTime GoFloat.

Local Open Scope string_scope.
Local Open Scope Z_scope.
Local Open Scope go_scope.

Module Schema.

Abbreviation Labels := (gmap string string) (only parsing).

(** labels[k], with Go's zero value "" for an absent key *)
Definition label (labels : gmap string string) (k : string) : string := default "" (labels !! k).

Definition CurrentSchemaVersion : Z := 1.

(** ** Records *)

(** Severity is a string type with six valid values. *)
Definition SeverityDebug := "debug".
Definition SeverityInfo := "info".
Definition SeverityNotice := "notice".
Definition SeverityWarn := "warn".
Definition SeverityError := "error".
Definition SeverityCritical := "critical".

Definition severity_valid (s : string) : bool :=
  bool_decide (s ∈ [SeverityDebug; SeverityInfo; SeverityNotice; SeverityWarn;
                    SeverityError; SeverityCritical]).

Record LogRef := mkLogRef { lr_BlockID : string; lr_Line : Z }.

Record EventSubject := mkSubject { sub_Kind : string; sub_Name : string; sub_PID : Z }.

Definition no_subject : EventSubject := mkSubject "" "" 0.

Record Metric := mkMetric {
  m_Name : string;
  m_HostID : string;
  m_Labels : gmap string string;
  m_Value : float64;
  m_Timestamp : Time;
}.

Record Event := mkEvent {
  e_ID : string;
  e_TS : Time;
  e_TSReceived : Time;
  e_HostID : string;
  e_Source : string;
  e_Type : string;
  e_Severity : string;
  e_Title : string;
  e_Subject : EventSubject;
  e_Attrs : gmap string string;
  e_Fingerprint : string;
  e_LogRefs : list LogRef;
  e_Schema : Z;
}.

Record LogLine := mkLogLine {
  l_TS : Time;
  l_HostID : string;
  l_Source : string;
  l_Stream : string;
  l_UnitOrContainer : string;
  l_Level : string;
  l_PID : Z;
  l_Message : string;
}.

Record InventoryItem := mkInventoryItem {
  ii_ID : string;
  ii_Name : string;
  ii_Attrs : gmap string string;
}.

Record Inventory := mkInventory {
  inv_HostID : string;
  inv_Kind : string;
  inv_ReportedAt : Time;
  inv_Schema : Z;
  inv_Items : list InventoryItem;
}.

Global Instance LogRef_eq_dec : EqDecision LogRef.
Proof. solve_decision. Defined.
Global Instance EventSubject_eq_dec : EqDecision EventSubject.
Proof. solve_decision. Defined.
Global Instance Metric_eq_dec : EqDecision Metric.
Proof. solve_decision. Defined.
Global Instance Event_eq_dec : EqDecision Event.
Proof. solve_decision. Defined.
Global Instance LogLine_eq_dec : EqDecision LogLine.
Proof. solve_decision. Defined.
Global Instance InventoryItem_eq_dec : EqDecision InventoryItem.
Proof. solve_decision. Defined.
Global Instance Inventory_eq_dec : EqDecision Inventory.
Proof. solve_decision. Defined.

(** ** Validation *)

Inductive SchemaError : Set :=
| ErrIDRequired
| ErrHostIDRequired
| ErrSourceRequired
| ErrTSRequired
| ErrTypeNotNamespaced
| ErrInvalidSeverity
| ErrTitleRequired
| ErrSchemaVersion
| ErrKindRequired
| ErrItemIDRequired (item : nat)
| ErrMetricPrefix
| ErrMetricSuffix
| ErrRatioOutOfRange
| ErrContainerIDWithoutName
| ErrForbiddenLabelKey (k : string)
| ErrContainerIDTooLong
| ErrLabelLooksLikeIP (k : string)
| ErrLabelLooksLikePath (k : string)
| ErrCardinality (host : string).

Global Instance SchemaError_eq_dec : EqDecision SchemaError.
Proof. solve_decision. Defined.

Definition requiredPrefix : string := "bitacora_".

Definition allowedUnitSuffixes : list string :=
  ["_bytes"; "_seconds"; "_celsius"; "_ratio"; "_total"].

Definition forbiddenLabelKeys : list string := ["pid"; "path"].

(** The checks of the loop body of validateLabels, for one pair. *)
Definition check_label (k v : string) : result SchemaError unit :=
  fail_if bool_decide (k ∈ forbiddenLabelKeys) with ErrForbiddenLabelKey k;
  fail_if bool_decide (k = "container_id") && (12 <? String.length v)%nat
    with ErrContainerIDTooLong;
  fail_if bool_decide (is_Some (GoNet.ParseIP v)) with ErrLabelLooksLikeIP k;
  fail_if (2 <=? count_byte "/" v)%nat with ErrLabelLooksLikePath k;
  Ok tt.

Fixpoint check_labels (kvs : list (string * string)) : result SchemaError unit :=
  match kvs with
  | [] => Ok tt
  | (k, v) :: rest => let? _u := check_label k v in check_labels rest
  end.

Definition validateLabels (labels : gmap string string) : result SchemaError unit :=
  fail_if bool_decide (is_Some (labels !! "container_id"))
          && negb (bool_decide (is_Some (labels !! "container_name")))
    with ErrContainerIDWithoutName;
  check_labels (map_to_list labels).

Definition metric_suffix (name : string) : string :=
  default "" (list_find (fun suf => has_suffix suf name = true) allowedUnitSuffixes ≫= fun r => Some r.2).

Definition Metric_Validate (m : Metric) : result SchemaError unit :=
  fail_if bool_decide (m_HostID m = "") with ErrHostIDRequired;
  fail_if negb (has_prefix requiredPrefix (m_Name m)) with ErrMetricPrefix;
  let suffix := metric_suffix (m_Name m) in
  fail_if bool_decide (suffix = "") with ErrMetricSuffix;
  fail_if bool_decide (suffix = "_ratio")
          && (flt (m_Value m) f_zero || fgt (m_Value m) (f_of_Z 1)) with ErrRatioOutOfRange;
  fail_if is_zero (m_Timestamp m) with ErrTSRequired;
  validateLabels (m_Labels m).

Definition Event_Validate (e : Event) : result SchemaError unit :=
  fail_if bool_decide (e_ID e = "") with ErrIDRequired;
  fail_if bool_decide (e_HostID e = "") with ErrHostIDRequired;
  fail_if is_zero (e_TS e) with ErrTSRequired;
  fail_if bool_decide (e_Source e = "") with ErrSourceRequired;
  fail_if bool_decide (e_Type e = "") || negb (contains "." (e_Type e)) with ErrTypeNotNamespaced;
  fail_if negb (severity_valid (e_Severity e)) with ErrInvalidSeverity;
  fail_if bool_decide (e_Title e = "") with ErrTitleRequired;
  fail_if (e_Schema e <? 1) with ErrSchemaVersion;
  Ok tt.

Definition LogLine_Validate (l : LogLine) : result SchemaError unit :=
  fail_if bool_decide (l_HostID l = "") with ErrHostIDRequired;
  fail_if bool_decide (l_Source l = "") with ErrSourceRequired;
  fail_if is_zero (l_TS l) with ErrTSRequired;
  Ok tt.

Fixpoint check_items (i : nat) (items : list InventoryItem) : result SchemaError unit :=
  match items with
  | [] => Ok tt
  | it :: rest =>
      fail_if bool_decide (ii_ID it = "") with ErrItemIDRequired i;
      check_items (S i) rest
  end.

Definition Inventory_Validate (inv : Inventory) : result SchemaError unit :=
  fail_if bool_decide (inv_HostID inv = "") with ErrHostIDRequired;
  fail_if bool_decide (inv_Kind inv = "") with ErrKindRequired;
  fail_if is_zero (inv_ReportedAt inv) with ErrTSRequired;
  fail_if (inv_Schema inv <? 1) with ErrSchemaVersion;
  check_items 0 (inv_Items inv).

(** ** Series identity and the cardinality budget *)

Definition byte_1f : ascii := Ascii true true true true true false false false.

Definition sorted_keys (labels : gmap string string) : list string :=
  sort_strings (map_to_list labels).*1.

(** the pairs the key builders write, in key order *)
Definition sorted_pairs (labels : gmap string string) : list (string * string) :=
  (fun k => (k, label labels k)) <$> sorted_keys labels.

(** The bytes written for the sorted keys: 0x1f, key, '=', value. *)
Fixpoint write_pairs (labels : gmap string string) (keys : list string) : string :=
  match keys with
  | [] => ""
  | k :: rest =>
      String byte_1f (k ++ String "=" (label labels k ++ write_pairs labels rest))
  end.

Definition seriesKey (name : string) (labels : gmap string string) : string :=
  name ++ write_pairs labels (sorted_keys labels).

Definition MaxActiveSeriesPerHost : Z := 2000.

Record CardinalityTracker := mkTracker {
  ct_limit : Z;
  ct_seen : gmap string (gset string);
}.

Definition NewCardinalityTracker (limit : Z) : CardinalityTracker := mkTracker limit ∅.

(** Observe returns the new tracker next to the error: the (possibly empty) series
    set of a host is created even when the series is refused. *)
Definition Observe (t : CardinalityTracker) (m : Metric)
  : CardinalityTracker * result SchemaError unit :=
  let key := seriesKey (m_Name m) (m_Labels m) in
  let hostSeries := default ∅ (ct_seen t !! m_HostID m) in
  let t := mkTracker (ct_limit t) (<[m_HostID m := hostSeries]> (ct_seen t)) in
  if bool_decide (key ∈ hostSeries) then (t, Ok tt)
  else if ct_limit t <=? Z.of_nat (size hostSeries) then (t, Err (ErrCardinality (m_HostID m)))
  else (mkTracker (ct_limit t) (<[m_HostID m := {[key]} ∪ hostSeries]> (ct_seen t)), Ok tt).

Definition Count (t : CardinalityTracker) (hostID : string) : Z :=
  Z.of_nat (size (default ∅ (ct_seen t !! hostID))).

(** ** Lemmas *)

Definition label_ok (k v : string) : Prop :=
  k ∉ forbiddenLabelKeys /\
  (k = "container_id" -> (String.length v <= 12)%nat) /\
  GoNet.ParseIP v = None /\
  (count_byte "/" v < 2)%nat.

Lemma check_label_ok k v : check_label k v = Ok tt <-> label_ok k v.
Proof.
  unfold check_label, label_ok.
  case_bool_decide; [naive_solver|].
  destruct (GoNet.ParseIP v) as [ip|].
  { rewrite (bool_decide_true (is_Some _)) by eauto. destruct (_ && _); naive_solver. }
  rewrite (bool_decide_false (is_Some _)) by (by intros []).
  destruct (Nat.leb_spec 2 (count_byte "/" v)).
  { destruct (_ && _); split; (done || (intros (_&_&_&?); lia)). }
  case_bool_decide; simpl; [|naive_solver].
  destruct (Nat.ltb_spec 12 (String.length v)); split; try done.
  intros (_&Hc&_&_). specialize (Hc ltac:(done)). lia.
Qed.

Lemma check_labels_ok kvs :
  check_labels kvs = Ok tt <-> Forall (fun kv => label_ok kv.1 kv.2) kvs.
Proof.
  induction kvs as [|[k v] kvs IH]; simpl; [by split|].
  rewrite Forall_cons, <- IH, <- check_label_ok. simpl.
  destruct (check_label k v) as [[]|]; naive_solver.
Qed.

Lemma validateLabels_ok labels :
  validateLabels labels = Ok tt <->
  (is_Some (labels !! "container_id") -> is_Some (labels !! "container_name")) /\
  map_Forall label_ok labels.
Proof.
  assert (map_Forall label_ok labels <-> check_labels (map_to_list labels) = Ok tt) as ->.
  { rewrite check_labels_ok, map_Forall_to_list. apply Forall_iff. by intros []. }
  unfold validateLabels.
  repeat case_bool_decide; simpl; naive_solver.
Qed.

Lemma metric_suffix_nonempty name :
  metric_suffix name <> "" <-> Exists (fun suf => has_suffix suf name = true) allowedUnitSuffixes.
Proof.
  unfold metric_suffix.
  destruct (list_find _ allowedUnitSuffixes) as [[i suf]|] eqn:E; simpl.
  - apply list_find_Some in E as (Hi & Hs & _). split.
    + intros _. apply Exists_exists. exists suf. split; [|done].
      by apply (list_elem_of_lookup_2 _ i).
    + intros _ ->. apply list_elem_of_lookup_2, list_elem_of_In in Hi. simpl in Hi. naive_solver.
  - apply list_find_None in E. split; [done|]. intros (x & Hx & Hs)%Exists_exists.
    rewrite Forall_forall in E. by destruct (E x Hx).
Qed.

(** Metric.Validate accepts a metric exactly when it has a host_id, the
    bitacora_ prefix and a unit suffix, a _ratio value is not below 0 or above 1, the
    timestamp is set, container_id comes with container_name, and no label breaks the
    cardinality rules (no pid or path key, container_id of at most 12 bytes, no value
    that parses as an IP address or has two slashes); the verdict does not depend on
    the order the labels are visited in. *)
Theorem Metric_Validate_spec (m : Metric) :
  Metric_Validate m = Ok tt <->
  m_HostID m <> "" /\
  has_prefix requiredPrefix (m_Name m) = true /\
  Exists (fun suf => has_suffix suf (m_Name m) = true) allowedUnitSuffixes /\
  (metric_suffix (m_Name m) = "_ratio" ->
     flt (m_Value m) f_zero = false /\ fgt (m_Value m) (f_of_Z 1) = false) /\
  is_zero (m_Timestamp m) = false /\
  (is_Some (m_Labels m !! "container_id") -> is_Some (m_Labels m !! "container_name")) /\
  map_Forall label_ok (m_Labels m).
Proof.
  rewrite <- metric_suffix_nonempty, <- validateLabels_ok. unfold Metric_Validate.
  case_bool_decide; [naive_solver|].
  destruct (has_prefix _ _); simpl; [|naive_solver].
  case_bool_decide; [naive_solver|].
  destruct (is_zero (m_Timestamp m)); [destruct (_ && _); naive_solver|].
  case_bool_decide; simpl; [|naive_solver].
  destruct (flt _ _); simpl; [naive_solver|]. destruct (fgt _ _); simpl; naive_solver.
Qed.

(** *** Series keys *)

Lemma sorted_keys_perm labels : sorted_keys labels ≡ₚ (map_to_list labels).*1.
Proof. apply sort_strings_Permutation. Qed.

Lemma elem_of_sorted_keys labels k : k ∈ sorted_keys labels <-> is_Some (labels !! k).
Proof.
  rewrite sorted_keys_perm, list_elem_of_fmap. split.
  - intros ([k' v] & -> & H%elem_of_map_to_list). eauto.
  - intros [v H]. exists (k, v). by rewrite elem_of_map_to_list.
Qed.

Lemma NoDup_sorted_keys labels : NoDup (sorted_keys labels).
Proof. rewrite sorted_keys_perm. apply NoDup_fst_map_to_list. Qed.

Lemma sorted_pairs_spec labels k v :
  (k, v) ∈ sorted_pairs labels <-> labels !! k = Some v.
Proof.
  unfold sorted_pairs. rewrite list_elem_of_fmap. split.
  - intros (k' & [= -> ->] & [v' H]%elem_of_sorted_keys). unfold label. by rewrite H.
  - intros H. exists k. unfold label. rewrite H. split; [done|]. apply elem_of_sorted_keys. eauto.
Qed.

(** The pairs determine the labels. *)
Lemma sorted_pairs_inj labels labels' :
  sorted_pairs labels = sorted_pairs labels' -> labels = labels'.
Proof.
  intros E. apply map_eq. intros k. apply option_eq. intros v.
  by rewrite <- !sorted_pairs_spec, E.
Qed.

Definition pair_word (kv : string * string) : string := (kv.1 ++ String "=" kv.2)%string.

Lemma write_pairs_join labels keys :
  write_pairs labels keys =
  join_after byte_1f (pair_word <$> ((fun k => (k, label labels k)) <$> keys)).
Proof.
  induction keys as [|k keys IH]; simpl; [done|].
  unfold pair_word at 1. simpl. by rewrite IH, <- str_app_assoc, str_app_cons.
Qed.

(** Names, keys and values that the separators cannot be confused with. *)
Definition plain_pair (kv : string * string) : bool :=
  lacks "=" kv.1 && lacks byte_1f kv.1 && lacks byte_1f kv.2.
Definition plain_labels (labels : gmap string string) : Prop :=
  map_Forall (fun k v => plain_pair (k, v) = true) labels.

Lemma plain_labels_pairs labels :
  plain_labels labels -> Forall (fun kv => plain_pair kv = true) (sorted_pairs labels).
Proof.
  intros H. apply Forall_forall. intros [k v] Hkv.
  apply H. by apply sorted_pairs_spec.
Qed.

Lemma pair_word_lacks kv : plain_pair kv = true -> lacks byte_1f (pair_word kv) = true.
Proof.
  unfold plain_pair, pair_word. intros H. zbool. rewrite lacks_app. simpl.
  by rewrite H1, H0.
Qed.

Lemma pair_words_inj l l' :
  Forall (fun kv => plain_pair kv = true) l -> Forall (fun kv => plain_pair kv = true) l' ->
  pair_word <$> l = pair_word <$> l' -> l = l'.
Proof.
  intros Hl. revert l'. induction Hl as [|[k v] l Hkv _ IH]; intros [|[k' v'] l'] Hl' E; try done.
  apply Forall_cons in Hl' as [Hkv' Hl']. injection E as E1 E2.
  rewrite (IH l') by done. f_equal. unfold plain_pair in *. simpl in *. zbool.
  unfold pair_word in E1. simpl in E1. apply (f_equal (cut_byte "=")) in E1.
  rewrite !cut_byte_lacks_app in E1 by done. congruence.
Qed.

(** The key with its separators spelled out, shared by every place that builds one. *)
Lemma key_words_inj w w' l l' :
  lacks byte_1f w = true -> lacks byte_1f w' = true ->
  Forall (fun kv => plain_pair kv = true) l -> Forall (fun kv => plain_pair kv = true) l' ->
  (w ++ join_after byte_1f (pair_word <$> l) = w' ++ join_after byte_1f (pair_word <$> l'))%string ->
  w = w' /\ l = l'.
Proof.
  intros Hw Hw' Hl Hl' E. apply (f_equal (split_byte byte_1f)) in E.
  rewrite !split_byte_join_after in E
    by (done || (apply Forall_fmap; eapply Forall_impl; eauto using pair_word_lacks)).
  injection E as -> E. eauto using pair_words_inj.
Qed.

Lemma write_pairs_inj w w' labels labels' :
  lacks byte_1f w = true -> lacks byte_1f w' = true ->
  plain_labels labels -> plain_labels labels' ->
  (w ++ write_pairs labels (sorted_keys labels) =
   w' ++ write_pairs labels' (sorted_keys labels'))%string ->
  w = w' /\ labels = labels'.
Proof.
  intros Hw Hw' Hl Hl' E. rewrite !write_pairs_join in E.
  fold (sorted_pairs labels) (sorted_pairs labels') in E.
  destruct (key_words_inj w w' (sorted_pairs labels) (sorted_pairs labels')) as [-> Hp];
    auto using plain_labels_pairs, sorted_pairs_inj.
Qed.

(** two series have the same key exactly when they have the same metric name
    and the same label set, as long as names and labels are free of the two separator
    bytes (0x1f, and '=' in label keys): the cardinality budget counts series, not
    accidental collisions of their encodings. *)
Theorem seriesKey_injective (n n' : string) (l l' : gmap string string) :
  lacks byte_1f n = true -> lacks byte_1f n' = true -> plain_labels l -> plain_labels l' ->
  (seriesKey n l = seriesKey n' l' <-> n = n' /\ l = l').
Proof.
  intros Hn Hn' Hl Hl'. split; [|by intros [-> ->]]. by apply write_pairs_inj.
Qed.

Lemma seriesKey_injective_witness :
  seriesKey "bitacora_cpu_seconds_total" {["cpu" := "0"; "mode" := "idle"]} <>
  seriesKey "bitacora_cpu_seconds_total" {["cpu" := "0"]}.
Proof.
  intros E. apply seriesKey_injective in E as [_ E].
  - apply (f_equal (fun l : gmap string string => l !! "mode")) in E. vm_compute in E. discriminate E.
  - reflexivity.
  - reflexivity.
  - apply map_Forall_to_list. vm_compute. repeat constructor.
  - apply map_Forall_to_list. vm_compute. repeat constructor.
Defined.

(** Without that restriction distinct label sets do collide. *)
Example seriesKey_collision :
  seriesKey "m" {["a" := String.append "1" (String byte_1f "b=2")]} =
  seriesKey "m" {["a" := "1"; "b" := "2"]}.
Proof. vm_compute. reflexivity. Qed.

(** *** The cardinality budget *)

Definition observe_all (t : CardinalityTracker) (ms : list Metric) : CardinalityTracker :=
  fold_left (fun t m => (Observe t m).1) ms t.

Definition metric_key (m : Metric) : string := seriesKey (m_Name m) (m_Labels m).
Definition host_keys (h : string) (ms : list Metric) : list string :=
  metric_key <$> filter (fun m => m_HostID m = h) ms.

(** the distinct elements of a list, in order of first appearance *)
Definition nub (l : list string) : list string :=
  fold_left (fun acc k => if decide (k ∈ acc) then acc else (acc ++ [k])%list) l [].

Definition series_of (t : CardinalityTracker) (h : string) : gset string :=
  default ∅ (ct_seen t !! h).

Lemma nub_snoc l k : nub (l ++ [k])%list = if decide (k ∈ nub l) then nub l else (nub l ++ [k])%list.
Proof. unfold nub. by rewrite fold_left_app. Qed.

Lemma NoDup_nub l : NoDup (nub l).
Proof.
  induction l as [|k l IH] using rev_ind; [constructor|]. rewrite nub_snoc.
  case_decide; [done|]. apply NoDup_app. split; [done|]. split; [set_solver|].
  apply NoDup_singleton.
Qed.

Lemma series_of_Observe t m h :
  series_of (Observe t m).1 h =
  if decide (m_HostID m = h) then
    if decide (metric_key m ∈ series_of t h) then series_of t h
    else if ct_limit t <=? Z.of_nat (size (series_of t h)) then series_of t h
    else {[metric_key m]} ∪ series_of t h
  else series_of t h.
Proof.
  unfold Observe, series_of, metric_key. case_decide as Hh.
  - subst h. case_bool_decide; case_decide; try done; simpl;
      [by rewrite lookup_insert_eq|].
    destruct (_ <=? _); simpl; by rewrite lookup_insert_eq.
  - case_bool_decide; [|destruct (_ <=? _)]; simpl; by rewrite !lookup_insert_ne.
Qed.

Lemma ct_limit_observe_all t ms : ct_limit (observe_all t ms) = ct_limit t.
Proof.
  unfold observe_all. revert t. induction ms as [|m ms IH]; intros t; simpl; [done|].
  rewrite IH. unfold Observe. case_bool_decide; [done|]. by destruct (_ <=? _).
Qed.

(** The series of a host are the first [limit] distinct ones observed for it. *)
Lemma series_of_observe_all limit ms h :
  0 <= limit ->
  series_of (observe_all (NewCardinalityTracker limit) ms) h =
  list_to_set (take (Z.to_nat limit) (nub (host_keys h ms))).
Proof.
  intros Hlim. induction ms as [|m ms IH] using rev_ind.
  { change (nub (host_keys h [])) with (@nil string). by rewrite take_nil. }
  assert (observe_all (NewCardinalityTracker limit) (ms ++ [m])%list =
          (Observe (observe_all (NewCardinalityTracker limit) ms) m).1) as ->
    by (unfold observe_all; by rewrite fold_left_app).
  rewrite series_of_Observe, ct_limit_observe_all. simpl ct_limit. rewrite IH. clear IH.
  unfold host_keys. rewrite filter_app, fmap_app, filter_cons.
  case_decide as Hh; [|by rewrite filter_nil, app_nil_r].
  rewrite filter_nil. simpl. rewrite nub_snoc.
  set (u := nub _). pose proof (NoDup_nub _ : NoDup u) as Hu. clearbody u.
  rewrite size_list_to_set by (by apply NoDup_take). rewrite length_take.
  destruct (Z.leb_spec limit (Z.of_nat (Nat.min (Z.to_nat limit) (length u)))).
  - assert (Z.to_nat limit <= length u)%nat by lia.
    transitivity (list_to_set (take (Z.to_nat limit) u) : gset string); [by destruct (decide _)|].
    case_decide; [done|]. by rewrite take_app_le by lia.
  - rewrite (take_ge u) by lia. case_decide as Hin; rewrite elem_of_list_to_set in Hin.
    + rewrite decide_True by done. by rewrite take_ge by lia.
    + rewrite decide_False by done. rewrite take_ge by (rewrite length_app; simpl; lia).
      rewrite list_to_set_app_L. simpl. set_solver.
Qed.

(** after any sequence of observations, the tracker holds for each host the
    first [limit] distinct series observed for it and no others: the budget is never
    exceeded, re-observing a known series always succeeds, and a new one is refused
    exactly when the host's budget is used up, whatever the other hosts do. *)
Theorem cardinality_budget (limit : Z) (ms : list Metric) (m : Metric) :
  0 <= limit ->
  let t := observe_all (NewCardinalityTracker limit) ms in
  (forall h, Count t h = Z.min limit (Z.of_nat (length (nub (host_keys h ms))))) /\
  ((Observe t m).2 = Ok tt <->
     metric_key m ∈ take (Z.to_nat limit) (nub (host_keys (m_HostID m) ms)) \/
     (Z.of_nat (length (nub (host_keys (m_HostID m) ms))) < limit)).
Proof.
  intros Hlim t. assert (forall h, Count t h =
    Z.min limit (Z.of_nat (length (nub (host_keys h ms))))) as Hcount.
  { intros h. unfold Count. change (default ∅ _) with (series_of t h). unfold t.
    rewrite series_of_observe_all, size_list_to_set, length_take by (auto using NoDup_take, NoDup_nub). lia. }
  split; [done|]. specialize (Hcount (m_HostID m)). unfold Count in Hcount.
  unfold Observe. change (default ∅ _) with (series_of t (m_HostID m)) in *.
  assert (ct_limit t = limit) as Hl by apply ct_limit_observe_all.
  simpl. rewrite Hl.
  rewrite <- (elem_of_list_to_set (C := gset string)), <- series_of_observe_all by done.
  change (observe_all _ ms) with t. unfold metric_key in *.
  case_bool_decide; simpl; [naive_solver|].
  destruct (Z.leb_spec limit (Z.of_nat (size (series_of t (m_HostID m))))); simpl.
  - split; [done|]. intros [|]; [done|lia].
  - split; [|done]. intros _. right. lia.
Qed.

Definition sample_metric (host name : string) : Metric :=
  mkMetric name host ∅ f_zero (of_unix_milli 0).

Lemma cardinality_budget_witness :
  Count (observe_all (NewCardinalityTracker 1) [sample_metric "h" "a"; sample_metric "h" "b"]) "h" = 1.
Proof.
  rewrite (proj1 (cardinality_budget 1 [sample_metric "h" "a"; sample_metric "h" "b"]
                    (sample_metric "h" "a") ltac:(lia))).
  vm_compute. reflexivity.
Defined.

End Schema.
