(* ===== verification/DebVersion.v ===== *)
(** * DebVersion: Debian package version comparison

    Models internal/debversion/debversion.go in full. The two index variables of
    compareVersionPart are represented by the suffixes of the two strings that are
    still to be read. The loop of compareVersionPart consumes at least one byte per
    iteration, so [length a + length b] iterations are enough
    ([compareVersionPart_step] shows that the bound is never reached early). *)

From stdpp Require Import base strings list.
From Stdlib Require Import ZArith Lia Ascii.
From S2P Require Import Prelude GoStd.
Import GoString.

Local Open Scope string_scope.
Local Open Scope Z_scope.

Module DebVersion.

Definition isDigit (c : ascii) : bool :=
  (byte_of "0" <=? byte_of c) && (byte_of c <=? byte_of "9").

Definition is_letter (c : ascii) : bool :=
  ((byte_of "a" <=? byte_of c) && (byte_of c <=? byte_of "z"))
  || ((byte_of "A" <=? byte_of c) && (byte_of c <=? byte_of "Z")).

Definition charOrder (c : ascii) : Z :=
  if decide (c = "~"%char) then -1
  else if byte_of c =? 0 then 0
  else if is_letter c then byte_of c
  else byte_of c + 256.

(** [a[k]] when [k < len(a)], the zero byte otherwise, for the first byte of what
    is left of the run. *)
Definition first_byte (s : string) : ascii :=
  match s with String c _ => c | EmptyString => zero end.
Definition rest (s : string) : string :=
  match s with String _ s' => s' | EmptyString => EmptyString end.

(** the [for k := 0; k < n; k++] loop *)
Fixpoint compareNonDigitRun_loop (n : nat) (a b : string) : Z :=
  match n with
  | O => 0
  | S n' =>
      let oa := charOrder (first_byte a) in
      let ob := charOrder (first_byte b) in
      if oa =? ob then compareNonDigitRun_loop n' (rest a) (rest b)
      else if oa <? ob then -1 else 1
  end.

Definition compareNonDigitRun (a b : string) : Z :=
  compareNonDigitRun_loop (Nat.max (String.length a) (String.length b)) a b.

Definition compareDigitRun (a b : string) : Z :=
  let a := trim_left_byte "0" a in
  let b := trim_left_byte "0" b in
  if negb (Nat.eqb (String.length a) (String.length b)) then
    if Nat.ltb (String.length a) (String.length b) then -1 else 1
  else if String.ltb a b then -1
  else if String.ltb b a then 1
  else 0.

(** the maximal run of bytes satisfying [p], and what follows it: the inner [for]
    loops that advance [i] and [j] *)
Fixpoint span (p : ascii -> bool) (s : string) : string * string :=
  match s with
  | EmptyString => ("", "")
  | String c s' => if p c then (String c (span p s').1, (span p s').2) else ("", s)
  end.

Definition nondigit_run (s : string) : string := (span (fun c => negb (isDigit c)) s).1.
Definition after_nondigits (s : string) : string := (span (fun c => negb (isDigit c)) s).2.
Definition digit_run (s : string) : string := (span isDigit s).1.
Definition after_digits (s : string) : string := (span isDigit s).2.

Fixpoint compareVersionPart_loop (n : nat) (a b : string) : Z :=
  match n with
  | O => 0
  | S n' =>
      if (0 <? String.length a)%nat || (0 <? String.length b)%nat then
        let c := compareNonDigitRun (nondigit_run a) (nondigit_run b) in
        if negb (c =? 0) then c
        else
          let a := after_nondigits a in
          let b := after_nondigits b in
          let c := compareDigitRun (digit_run a) (digit_run b) in
          if negb (c =? 0) then c
          else compareVersionPart_loop n' (after_digits a) (after_digits b)
      else 0
  end.

Definition compareVersionPart (a b : string) : Z :=
  compareVersionPart_loop (String.length a + String.length b) a b.

Definition splitEpoch (v : string) : string * string :=
  match cut_byte ":" v with
  | Some (e, r) => (e, r)
  | None => ("0", v)
  end.

Definition splitUpstreamRevision (v : string) : string * string :=
  match cut_last_byte "-" v with
  | Some (u, r) => (u, r)
  | None => (v, "")
  end.

Definition Compare (a b : string) : Z :=
  let '(epochA, restA) := splitEpoch a in
  let '(epochB, restB) := splitEpoch b in
  let c := compareDigitRun epochA epochB in
  if negb (c =? 0) then c
  else
    let '(upstreamA, revisionA) := splitUpstreamRevision restA in
    let '(upstreamB, revisionB) := splitUpstreamRevision restB in
    let c := compareVersionPart upstreamA upstreamB in
    if negb (c =? 0) then c
    else compareVersionPart revisionA revisionB.

(** The worked examples of the package's documentation. *)
Example compare_numeric : Compare "1.9" "1.10" = -1.
Proof. reflexivity. Qed.
Example compare_tilde : Compare "1.0~beta1" "1.0" = -1.
Proof. reflexivity. Qed.
Example compare_epoch : Compare "1:0.1" "9.9" = 1.
Proof. reflexivity. Qed.
Example compare_no_revision : Compare "1.0" "1.0-0" = 0.
Proof. reflexivity. Qed.

(** ** Three-way comparisons *)

Definition lex (c d : Z) : Z := if negb (c =? 0) then c else d.

(** [opp_cmp c d]: the two results of comparing in either order. *)
Definition opp_cmp (c d : Z) : Prop := (c = -1 \/ c = 0 \/ c = 1) /\ d = - c.

(** [tri xy yz xz]: the three results of comparing x, y and z are those of a
    total preorder. *)
Definition tri (xy yz xz : Z) : Prop :=
  xy <= 0 -> yz <= 0 -> xz <= 0 /\ (xz = 0 <-> xy = 0 /\ yz = 0).

Lemma opp_cmp_lex c d c' d' :
  opp_cmp c c' -> opp_cmp d d' -> opp_cmp (lex c d) (lex c' d').
Proof. unfold opp_cmp, lex. intros [] []. destruct (Z.eqb_spec c 0), (Z.eqb_spec c' 0); simpl; lia. Qed.

Lemma tri_lex xy yz xz xy' yz' xz' :
  tri xy yz xz -> tri xy' yz' xz' -> tri (lex xy xy') (lex yz yz') (lex xz xz').
Proof.
  unfold tri, lex. intros H H'.
  destruct (Z.eqb_spec xy 0), (Z.eqb_spec yz 0), (Z.eqb_spec xz 0); simpl in *; lia.
Qed.

Create HintDb cmp.
#[export] Hint Resolve opp_cmp_lex tri_lex : cmp.

(** *** Runs of non-digits *)

Lemma nondigit_loop_lex n a b :
  compareNonDigitRun_loop (S n) a b =
  lex (Z.sgn (charOrder (first_byte a) - charOrder (first_byte b)))
      (compareNonDigitRun_loop n (rest a) (rest b)).
Proof.
  simpl. unfold lex.
  destruct (Z.eqb_spec (charOrder (first_byte a)) (charOrder (first_byte b))) as [->|Hne].
  - by rewrite Z.sub_diag.
  - destruct (Z.ltb_spec (charOrder (first_byte a)) (charOrder (first_byte b))).
    + by rewrite Z.sgn_neg by lia.
    + by rewrite Z.sgn_pos by lia.
Qed.

Lemma opp_cmp_nondigit_loop n a b :
  opp_cmp (compareNonDigitRun_loop n a b) (compareNonDigitRun_loop n b a).
Proof.
  revert a b. induction n as [|n IH]; intros a b; [unfold opp_cmp; simpl; lia|].
  rewrite !nondigit_loop_lex. apply opp_cmp_lex; [unfold opp_cmp; lia|apply IH].
Qed.

Lemma tri_nondigit_loop n a b c :
  tri (compareNonDigitRun_loop n a b) (compareNonDigitRun_loop n b c)
      (compareNonDigitRun_loop n a c).
Proof.
  revert a b c. induction n as [|n IH]; intros a b c; [unfold tri; simpl; lia|].
  rewrite !nondigit_loop_lex. apply tri_lex; [unfold tri; lia|apply IH].
Qed.

(** Comparing past the end of both runs changes nothing: the padding byte is
    equal to itself. *)
Lemma nondigit_loop_empty n : compareNonDigitRun_loop n "" "" = 0.
Proof. induction n; simpl; auto. Qed.

Lemma nondigit_loop_more n a b :
  (String.length a <= n)%nat -> (String.length b <= n)%nat ->
  compareNonDigitRun_loop n a b = compareNonDigitRun a b.
Proof.
  unfold compareNonDigitRun. revert a b.
  induction n as [|n IH]; intros [|ca a] [|cb b] Ha Hb; simpl in Ha, Hb; try lia;
    try reflexivity.
  - by rewrite !nondigit_loop_empty.
  - rewrite nondigit_loop_lex.
    change (Nat.max _ _) with (S (String.length b)). rewrite nondigit_loop_lex. simpl rest.
    f_equal. rewrite (IH "" b) by (simpl; lia). by rewrite (Nat.max_r _ _ (Nat.le_0_l _)).
  - rewrite nondigit_loop_lex.
    change (Nat.max _ _) with (S (String.length a)). rewrite nondigit_loop_lex. simpl rest.
    f_equal. rewrite (IH a "") by (simpl; lia). by rewrite (Nat.max_l _ _ (Nat.le_0_l _)).
  - rewrite nondigit_loop_lex.
    change (Nat.max _ _) with (S (Nat.max (String.length a) (String.length b))).
    rewrite nondigit_loop_lex. simpl rest. f_equal. apply IH; lia.
Qed.

Lemma opp_cmp_nondigit a b : opp_cmp (compareNonDigitRun a b) (compareNonDigitRun b a).
Proof. unfold compareNonDigitRun at 2. rewrite Nat.max_comm. apply opp_cmp_nondigit_loop. Qed.

Lemma tri_nondigit a b c :
  tri (compareNonDigitRun a b) (compareNonDigitRun b c) (compareNonDigitRun a c).
Proof.
  set (n := Nat.max (String.length a) (Nat.max (String.length b) (String.length c))).
  rewrite <- (nondigit_loop_more n a b), <- (nondigit_loop_more n b c),
    <- (nondigit_loop_more n a c) by (unfold n; lia).
  apply tri_nondigit_loop.
Qed.

(** *** Runs of digits *)

Definition string_cmp (a b : string) : Z :=
  if String.ltb a b then -1 else if String.ltb b a then 1 else 0.

Lemma string_ltb_spec a b : String.ltb a b = true <-> String.le a b /\ a <> b.
Proof.
  unfold String.ltb, String.le, String.leb, Is_true.
  destruct (String.compare a b) eqn:E.
  - split; [done|]. intros [_ []]. by apply String.compare_eq_iff.
  - split; [|done]. intros _. split; [done|]. intros ->.
    pose proof (String.compare_antisym b b) as H. rewrite E in H. discriminate H.
  - split; [done|]. by intros [].
Qed.

Lemma string_cmp_le a b : string_cmp a b <= 0 <-> String.le a b.
Proof.
  unfold string_cmp.
  destruct (String.ltb a b) eqn:Hab.
  { apply string_ltb_spec in Hab as []. split; [done|lia]. }
  destruct (String.ltb b a) eqn:Hba.
  { apply string_ltb_spec in Hba as [Hba Hne]. split; [lia|]. intros Hle.
    destruct Hne. by apply (anti_symm String.le). }
  split; [|lia]. intros _. destruct (total String.le a b) as [|Hle]; [done|].
  destruct (decide (b = a)) as [->|Hne]; [reflexivity|].
  by rewrite (proj2 (string_ltb_spec b a)) in Hba.
Qed.

Lemma opp_cmp_string a b : opp_cmp (string_cmp a b) (string_cmp b a).
Proof.
  unfold opp_cmp, string_cmp.
  destruct (String.ltb a b) eqn:Hab, (String.ltb b a) eqn:Hba; try lia.
  apply string_ltb_spec in Hab as [Hab Hne]. apply string_ltb_spec in Hba as [Hba _].
  destruct Hne. by apply (anti_symm String.le).
Qed.

Lemma tri_of_order {A} (f : A -> A -> Z) (R : relation A) `{!Transitive R} :
  (forall x y, opp_cmp (f x y) (f y x)) -> (forall x y, f x y <= 0 <-> R x y) ->
  forall x y z, tri (f x y) (f y z) (f x z).
Proof.
  intros Hopp HR x y z Hxy Hyz.
  pose proof (proj1 (HR _ _) Hxy) as Rxy. pose proof (proj1 (HR _ _) Hyz) as Ryz.
  assert (f x z <= 0) as Hxz by (apply HR; by transitivity y).
  split; [done|]. pose proof (Hopp x y). pose proof (Hopp y z). pose proof (Hopp x z).
  unfold opp_cmp in *. split; [intros Heq|intros [Heq1 Heq2]].
  - assert (R z x) as Rzx by (apply HR; lia).
    assert (f y x <= 0) by (apply HR; by transitivity z).
    assert (f z y <= 0) by (apply HR; by transitivity x). lia.
  - assert (R z y) by (apply HR; lia). assert (R y x) by (apply HR; lia).
    assert (f z x <= 0) by (apply HR; by transitivity y). lia.
Qed.

Lemma tri_string a b c : tri (string_cmp a b) (string_cmp b c) (string_cmp a c).
Proof. apply (tri_of_order _ String.le); [apply opp_cmp_string|apply string_cmp_le]. Qed.

Definition nat_cmp (a b : nat) : Z := Z.sgn (Z.of_nat a - Z.of_nat b).

Lemma compareDigitRun_lex a b :
  compareDigitRun a b =
  let a := trim_left_byte "0" a in
  let b := trim_left_byte "0" b in
  lex (nat_cmp (String.length a) (String.length b)) (string_cmp a b).
Proof.
  unfold compareDigitRun, lex, nat_cmp, string_cmp. cbv zeta.
  set (n := String.length (trim_left_byte "0" a)).
  set (m := String.length (trim_left_byte "0" b)).
  destruct (Nat.eqb_spec n m) as [->|Hne]; simpl; [by rewrite Z.sub_diag|].
  destruct (Nat.ltb_spec n m).
  - by rewrite Z.sgn_neg by lia.
  - by rewrite Z.sgn_pos by lia.
Qed.

Lemma opp_cmp_digit a b : opp_cmp (compareDigitRun a b) (compareDigitRun b a).
Proof.
  rewrite !compareDigitRun_lex. apply opp_cmp_lex; [|apply opp_cmp_string].
  unfold opp_cmp, nat_cmp. lia.
Qed.

Lemma tri_digit a b c : tri (compareDigitRun a b) (compareDigitRun b c) (compareDigitRun a c).
Proof.
  rewrite !compareDigitRun_lex. apply tri_lex; [|apply tri_string].
  unfold tri, nat_cmp. lia.
Qed.
#[export] Hint Resolve opp_cmp_nondigit tri_nondigit opp_cmp_digit tri_digit : cmp.

(** *** Version parts *)

Lemma span_length p s :
  (String.length (span p s).1 + String.length (span p s).2 = String.length s)%nat.
Proof. induction s as [|c s IH]; simpl; [done|]. destruct (p c); simpl; lia. Qed.

Lemma span_app p s : ((span p s).1 ++ (span p s).2)%string = s.
Proof. induction s as [|c s IH]; simpl; [done|]. destruct (p c); simpl; [by rewrite str_app_cons, IH|done]. Qed.

Definition next_part (s : string) : string := after_digits (after_nondigits s).

(** One iteration consumes at least one byte of a non-empty string. *)
Lemma next_part_length s :
  (String.length (next_part s) <= String.length s - 1)%nat.
Proof.
  destruct s as [|c s]; [done|]. unfold next_part, after_digits, after_nondigits.
  simpl. destruct (isDigit c) eqn:E; simpl.
  - rewrite E. simpl. pose proof (span_length isDigit s). lia.
  - pose proof (span_length (fun c => negb (isDigit c)) s).
    pose proof (span_length isDigit (span (fun c => negb (isDigit c)) s).2). lia.
Qed.

Lemma compareVersionPart_loop_empty n : compareVersionPart_loop n "" "" = 0.
Proof. by destruct n. Qed.

Lemma compareVersionPart_loop_fuel n m a b :
  (String.length a + String.length b <= n)%nat ->
  (String.length a + String.length b <= m)%nat ->
  compareVersionPart_loop n a b = compareVersionPart_loop m a b.
Proof.
  revert m a b. induction n as [|n IH]; intros [|m] a b Hn Hm; [done| | |].
  - destruct a, b; simpl in Hn; try lia; done.
  - destruct a, b; simpl in Hm; try lia; done.
  - simpl. destruct (_ || _) eqn:E; [|done].
    destruct (negb _); [done|]. destruct (negb _); [done|].
    pose proof (next_part_length a). pose proof (next_part_length b).
    apply IH; unfold next_part in *; destruct a, b; simpl in *; try discriminate; lia.
Qed.

(** The defining equation of the loop, free of any iteration bound. *)
Lemma compareVersionPart_step a b :
  compareVersionPart a b =
  lex (compareNonDigitRun (nondigit_run a) (nondigit_run b))
    (lex (compareDigitRun (digit_run (after_nondigits a)) (digit_run (after_nondigits b)))
      (compareVersionPart (next_part a) (next_part b))).
Proof.
  unfold compareVersionPart at 1.
  rewrite (compareVersionPart_loop_fuel _ (S (String.length a + String.length b))) by lia.
  simpl. destruct (_ || _) eqn:E.
  - unfold lex. destruct (negb _); [done|]. destruct (negb _); [done|].
    pose proof (next_part_length a). pose proof (next_part_length b).
    apply compareVersionPart_loop_fuel; unfold next_part in *;
      destruct a, b; simpl in *; try discriminate; lia.
  - by destruct a, b.
Qed.

Lemma opp_cmp_part_bound n a b :
  (String.length a + String.length b <= n)%nat ->
  opp_cmp (compareVersionPart a b) (compareVersionPart b a).
Proof.
  revert a b. induction n as [|n IH]; intros a b Hn.
  { destruct a, b; simpl in Hn; try lia. unfold opp_cmp, compareVersionPart; simpl; lia. }
  destruct (decide (String.length a + String.length b = 0)%nat) as [H0|H0].
  { apply IH. lia. }
  rewrite (compareVersionPart_step a b), (compareVersionPart_step b a).
  repeat apply opp_cmp_lex; auto with cmp.
  apply IH. pose proof (next_part_length a). pose proof (next_part_length b). lia.
Qed.

Lemma tri_part_bound n a b c :
  (String.length a + String.length b + String.length c <= n)%nat ->
  tri (compareVersionPart a b) (compareVersionPart b c) (compareVersionPart a c).
Proof.
  revert a b c. induction n as [|n IH]; intros a b c Hn.
  { destruct a, b, c; simpl in Hn; try lia. unfold tri, compareVersionPart; simpl; lia. }
  destruct (decide (String.length a + String.length b + String.length c = 0)%nat) as [H0|H0].
  { apply IH. lia. }
  rewrite (compareVersionPart_step a b), (compareVersionPart_step b c),
    (compareVersionPart_step a c).
  repeat apply tri_lex; auto with cmp.
  apply IH. pose proof (next_part_length a). pose proof (next_part_length b).
  pose proof (next_part_length c). lia.
Qed.

Lemma opp_cmp_part a b : opp_cmp (compareVersionPart a b) (compareVersionPart b a).
Proof. by eapply opp_cmp_part_bound. Qed.

Lemma tri_part a b c :
  tri (compareVersionPart a b) (compareVersionPart b c) (compareVersionPart a c).
Proof. by eapply tri_part_bound. Qed.
#[export] Hint Resolve opp_cmp_part tri_part : cmp.

Lemma Compare_lex a b :
  Compare a b =
  lex (compareDigitRun (splitEpoch a).1 (splitEpoch b).1)
    (lex (compareVersionPart (splitUpstreamRevision (splitEpoch a).2).1
                             (splitUpstreamRevision (splitEpoch b).2).1)
         (compareVersionPart (splitUpstreamRevision (splitEpoch a).2).2
                             (splitUpstreamRevision (splitEpoch b).2).2)).
Proof.
  unfold Compare, lex.
  destruct (splitEpoch a), (splitEpoch b); simpl.
  destruct (negb _); [done|].
  by destruct (splitUpstreamRevision s0), (splitUpstreamRevision s2).
Qed.

Lemma Compare_opp a b : opp_cmp (Compare a b) (Compare b a).
Proof. rewrite !Compare_lex. auto with cmp. Qed.

Lemma Compare_tri a b c : tri (Compare a b) (Compare b c) (Compare a c).
Proof. rewrite !Compare_lex. repeat apply tri_lex; auto with cmp. Qed.

(** ** The theorems *)

(** C40: Compare is a three-way comparison by a total preorder on version strings:
    its result is -1, 0 or 1, swapping the arguments negates it, a version is equal
    to itself, and "not newer than" is transitive (with equality only when both
    comparisons are equalities), so sorting and picking the newest candidate are
    well defined on every input, malformed versions included. *)
Theorem Compare_total_preorder (a b c : string) :
  (Compare a b = -1 \/ Compare a b = 0 \/ Compare a b = 1) /\
  Compare b a = - Compare a b /\
  Compare a a = 0 /\
  (Compare a b <= 0 -> Compare b c <= 0 ->
   Compare a c <= 0 /\ (Compare a c = 0 <-> Compare a b = 0 /\ Compare b c = 0)).
Proof.
  pose proof (Compare_opp a b) as [Hab Hba]. pose proof (Compare_opp a a) as [_ Haa].
  split; [done|]. split; [done|]. split; [lia|]. apply Compare_tri.
Qed.

(** The number a run of digits denotes. *)
Fixpoint digits_value_from (acc : Z) (s : string) : Z :=
  match s with
  | EmptyString => acc
  | String c s' => digits_value_from (10 * acc + (byte_of c - byte_of "0")) s'
  end.
Definition digits_value (s : string) : Z := digits_value_from 0 s.

Fixpoint all_digits (s : string) : bool :=
  match s with
  | EmptyString => true
  | String c s' => isDigit c && all_digits s'
  end.

Definition pow10 (s : string) : Z := 10 ^ Z.of_nat (String.length s).

Lemma pow10_cons c s : pow10 (String c s) = 10 * pow10 s.
Proof. unfold pow10. simpl String.length. rewrite Nat2Z.inj_succ, Z.pow_succ_r by lia. lia. Qed.

Lemma pow10_pos s : 0 < pow10 s.
Proof. unfold pow10. apply Z.pow_pos_nonneg; lia. Qed.

Lemma digits_value_from_acc acc s :
  digits_value_from acc s = acc * pow10 s + digits_value s.
Proof.
  unfold digits_value. revert acc. induction s as [|c s IH]; intros acc; [unfold pow10; simpl; lia|].
  cbn [digits_value_from]. rewrite IH, (IH (10 * 0 + _)), pow10_cons. lia.
Qed.

Lemma digits_value_cons c s :
  digits_value (String c s) = (byte_of c - byte_of "0") * pow10 s + digits_value s.
Proof. unfold digits_value at 1. cbn [digits_value_from]. rewrite digits_value_from_acc. lia. Qed.

Lemma isDigit_range c : isDigit c = true -> 0 <= byte_of c - byte_of "0" <= 9.
Proof. unfold isDigit. intros H. zbool. change (byte_of "9") with (byte_of "0" + 9) in *. lia. Qed.

Lemma digits_value_range s : all_digits s = true -> 0 <= digits_value s < pow10 s.
Proof.
  induction s as [|c s IH]; simpl; intros H; [unfold pow10, digits_value; simpl; lia|].
  zbool. rewrite digits_value_cons, pow10_cons. pose proof (isDigit_range c ltac:(done)). pose proof (pow10_pos s).
  specialize (IH ltac:(done)). nia.
Qed.

Lemma byte_of_inj c d : byte_of c = byte_of d -> c = d.
Proof.
  unfold byte_of. intros H. apply Nat2Z.inj in H.
  by rewrite <- (ascii_nat_embedding c), <- (ascii_nat_embedding d), H.
Qed.

Lemma trim_zeros_value s : digits_value (trim_left_byte "0" s) = digits_value s.
Proof.
  induction s as [|c s IH]; simpl; [done|]. case_decide; subst; [|done].
  rewrite IH, digits_value_cons. lia.
Qed.

Lemma trim_zeros_digits s : all_digits s = true -> all_digits (trim_left_byte "0" s) = true.
Proof. induction s as [|c s IH]; simpl; [done|]. intros Hd. case_decide; [zbool; auto|done]. Qed.

(** What is left after trimming zeros has a positive leading digit. *)
Lemma trim_zeros_lower s :
  all_digits s = true ->
  let t := trim_left_byte "0" s in
  t = "" \/ (pow10 t <= 10 * digits_value t).
Proof.
  induction s as [|c s IH]; simpl; [by left|]. intros H. zbool.
  case_decide as Hc; [by apply IH|]. right.
  rewrite pow10_cons, digits_value_cons. pose proof (isDigit_range c ltac:(done)).
  assert (byte_of c <> byte_of "0") by (intros E; by apply Hc, byte_of_inj).
  pose proof (digits_value_range s ltac:(done)). pose proof (pow10_pos s). nia.
Qed.

Lemma ascii_compare_byte c d :
  Ascii.compare c d = (byte_of c ?= byte_of d).
Proof.
  unfold Ascii.compare, byte_of. rewrite <- !nat_N_Z.
  unfold nat_of_ascii. rewrite !N2Nat.id. symmetry. apply N2Z.inj_compare.
Qed.

Lemma string_cmp_cons c d a b :
  string_cmp (String c a) (String d b) = lex (Z.sgn (byte_of c - byte_of d)) (string_cmp a b).
Proof.
  unfold string_cmp, lex, String.ltb. simpl. rewrite !ascii_compare_byte.
  rewrite (Z.compare_antisym (byte_of c) (byte_of d)).
  destruct (Z.compare_spec (byte_of c) (byte_of d)) as [->|H|H]; simpl.
  - by rewrite Z.sub_diag.
  - by rewrite Z.sgn_neg by lia.
  - by rewrite Z.sgn_pos by lia.
Qed.

Lemma string_cmp_value a b :
  String.length a = String.length b -> all_digits a = true -> all_digits b = true ->
  string_cmp a b = Z.sgn (digits_value a - digits_value b).
Proof.
  revert b. induction a as [|c a IH]; intros [|d b] Hl Ha Hb; simpl in *; try discriminate; [done|].
  zbool. rewrite string_cmp_cons, !digits_value_cons.
  assert (pow10 a = pow10 b) as Hp by (unfold pow10; congruence).
  pose proof (digits_value_range a ltac:(done)). pose proof (digits_value_range b ltac:(done)).
  pose proof (pow10_pos b). unfold lex. rewrite (IH b), Hp in * by congruence.
  destruct (Z.compare_spec (byte_of c) (byte_of d)) as [->|Hlt|Hlt].
  - rewrite Z.sub_diag. simpl. f_equal. lia.
  - rewrite (Z.sgn_neg (byte_of c - _)) by lia. simpl. symmetry. apply Z.sgn_neg. nia.
  - rewrite (Z.sgn_pos (byte_of c - _)) by lia. simpl. symmetry. apply Z.sgn_pos. nia.
Qed.

Lemma pow10_mono a b :
  (String.length a < String.length b)%nat -> 10 * pow10 a <= pow10 b.
Proof.
  intros H. unfold pow10. rewrite <- Z.pow_succ_r by lia. apply Z.pow_le_mono_r; lia.
Qed.

Lemma trimmed_shorter_smaller a b :
  all_digits a = true -> all_digits b = true ->
  let a' := trim_left_byte "0" a in let b' := trim_left_byte "0" b in
  (String.length a' < String.length b')%nat -> digits_value a' < digits_value b'.
Proof.
  intros Ha Hb. cbv zeta. intros Hlt.
  destruct (trim_zeros_lower b Hb) as [E|Hlow]; [rewrite E in Hlt; simpl in Hlt; lia|].
  pose proof (digits_value_range _ (trim_zeros_digits a Ha)).
  pose proof (pow10_mono _ _ Hlt). lia.
Qed.

(** compareDigitRun compares two runs of decimal digits by the numbers they
    denote, whatever their length and leading zeros: no machine integer is involved,
    so an arbitrarily long version segment cannot overflow. *)
Theorem compareDigitRun_numeric (a b : string) :
  all_digits a = true -> all_digits b = true ->
  compareDigitRun a b = Z.sgn (digits_value a - digits_value b).
Proof.
  intros Ha Hb. rewrite compareDigitRun_lex. cbv zeta.
  rewrite <- (trim_zeros_value a), <- (trim_zeros_value b).
  set (a' := trim_left_byte "0" a). set (b' := trim_left_byte "0" b).
  unfold lex, nat_cmp.
  destruct (Nat.lt_trichotomy (String.length a') (String.length b')) as [H|[H|H]].
  - pose proof (trimmed_shorter_smaller a b Ha Hb H : digits_value a' < digits_value b').
    rewrite (Z.sgn_neg (Z.of_nat _ - _)) by lia. simpl. symmetry. apply Z.sgn_neg. lia.
  - rewrite H, Z.sub_diag. simpl. apply string_cmp_value; by try apply trim_zeros_digits.
  - pose proof (trimmed_shorter_smaller b a Hb Ha H : digits_value b' < digits_value a').
    rewrite (Z.sgn_pos (Z.of_nat _ - _)) by lia. simpl. symmetry. apply Z.sgn_pos. lia.
Qed.

Lemma compareDigitRun_numeric_witness :
  compareDigitRun "0018446744073709551616" "99" = 1.
Proof. rewrite compareDigitRun_numeric by reflexivity. reflexivity. Defined.

(** *** The tilde rule *)

Lemma span_app_stop p s t :
  (forall c, first_byte t = c -> t <> "" -> p c = false) ->
  span p (s ++ t) = ((span p s).1, ((span p s).2 ++ t)%string).
Proof.
  intros Ht. induction s as [|c s IH]; simpl.
  - destruct t as [|d t]; [done|]. simpl. by rewrite (Ht d eq_refl).
  - rewrite IH. by destruct (p c).
Qed.

Lemma span_app_more p s t :
  (span p s).2 <> "" -> span p (s ++ t) = ((span p s).1, ((span p s).2 ++ t)%string).
Proof.
  induction s as [|c s IH]; [done|]. rewrite str_app_cons. simpl.
  destruct (p c); simpl; [|done]. intros H. by rewrite IH.
Qed.

Lemma span_app_all p s t :
  (span p s).2 = "" -> span p (s ++ t) = ((s ++ (span p t).1)%string, (span p t).2).
Proof.
  induction s as [|c s IH]; [intros _; rewrite !str_app_nil_l; by destruct (span p t)|]. rewrite str_app_cons. simpl.
  destruct (p c); simpl; [|done]. intros H. by rewrite IH.
Qed.

Lemma nondigit_tilde_prefix a t : compareNonDigitRun (a ++ String "~" t) a = -1.
Proof.
  unfold compareNonDigitRun. set (n := Nat.max _ _).
  assert (String.length a < n)%nat as Hn.
  { unfold n. rewrite str_length_app. simpl. lia. }
  clearbody n. revert n Hn. induction a as [|c a IH]; intros [|n] Hn; simpl in Hn; try lia.
  - done.
  - rewrite str_app_cons. simpl. rewrite Z.eqb_refl. apply IH. lia.
Qed.

Lemma lex_refl_nondigit a d : lex (compareNonDigitRun a a) d = d.
Proof. pose proof (opp_cmp_nondigit a a). unfold opp_cmp in *. by replace (compareNonDigitRun a a) with 0 by lia. Qed.

Lemma lex_refl_digit a d : lex (compareDigitRun a a) d = d.
Proof. pose proof (opp_cmp_digit a a). unfold opp_cmp in *. by replace (compareDigitRun a a) with 0 by lia. Qed.

(** a tilde sorts before everything, even the end of the string: whatever
    follows it, a version part extended with a "~" suffix is older than the part
    itself. *)
Theorem tilde_sorts_before_end (a t : string) :
  compareVersionPart (a ++ String "~" t) a = -1.
Proof.
  remember (String.length a) as n eqn:Hn. revert a Hn.
  induction n as [n IH] using lt_wf_ind. intros a ->.
  rewrite compareVersionPart_step. unfold nondigit_run, after_nondigits, next_part.
  destruct (decide ((span (fun c => negb (isDigit c)) a).2 = "")) as [E|E].
  - rewrite (span_app_all _ _ _ E). simpl.
    pose proof (span_app (fun c => negb (isDigit c)) a) as Ha. rewrite E in Ha.
    rewrite str_app_nil_r in Ha. rewrite Ha. by rewrite nondigit_tilde_prefix.
  - rewrite (span_app_more _ _ _ E). simpl. rewrite lex_refl_nondigit.
    unfold after_nondigits, digit_run, after_digits. rewrite (span_app_more _ _ _ E). simpl.
    rewrite (span_app_stop isDigit) by (intros c <- _; done). simpl. rewrite lex_refl_digit.
    apply (IH (String.length (next_part a))); [|done].
    pose proof (next_part_length a). destruct a; [done|]. simpl in *. lia.
Qed.

End DebVersion.
