(* ===== verification/Alerting.v ===== *)
(** * Alerting: the hub's alert engine

    Models internal/alerting: the per-alert state machine (alert.go), hysteresis
    (hysteresis.go), deadman rules (deadman.go), silences (silence.go), the dedup
    fingerprint (fingerprint.go) and the manager that owns the alerts (manager.go).
    The HTTP heartbeat of externaldeadman.go is not modelled.

    - [Alert]: [EvaluateFor] as a function on the alert record; the theorems
      characterise the state after any evaluation history, the recorded transitions
      and the notifications.
    - [Hysteresis], [Deadman], [Silences]: the three condition helpers.
    - [Manager]: alerts keyed by fingerprint; a refinement theorem shows the shared
      map to be a family of independent state machines. SHA-256 is a parameter. *)

From stdpp Require Import base gmap strings list sorting.
From Stdlib Require Import ZArith Lia Ascii.
From S2P Require Import Prelude GoStd Schema.
Import GoString GoTime GoFloat.

Local Open Scope string_scope.
Local Open Scope Z_scope.

Module Alert.

(** State is a string type in Go: the four named values, or anything else. *)
Inductive State : Type :=
| StateInactive
| StatePending
| StateFiring
| StateResolved
| StateOther (s : string).

Global Instance State_eq_dec : EqDecision State.
Proof. solve_decision. Defined.

Record Transition := mkTransition { tr_From : State; tr_To : State; tr_At : Time }.

Record t := mkAlert {
  Fingerprint : string;
  RuleID : string;
  Labels : gmap string string;
  Severity : string;
  St : State;
  PendingSince : Time;
  FiringSince : Time;
  ResolvedAt : Time;
  LastEval : Time;
  Value : float64;
  History : list Transition;
}.

Definition NewAlert (fingerprint ruleID : string) (labels : gmap string string)
    (severity : string) : t :=
  mkAlert fingerprint ruleID labels severity StateInactive zero zero zero zero f_zero [].

(** *** field updates *)
Definition set_eval (a : t) (now : Time) (value : float64) : t :=
  mkAlert (Fingerprint a) (RuleID a) (Labels a) (Severity a) (St a) (PendingSince a)
    (FiringSince a) (ResolvedAt a) now value (History a).
Definition set_PendingSince (a : t) (x : Time) : t :=
  mkAlert (Fingerprint a) (RuleID a) (Labels a) (Severity a) (St a) x
    (FiringSince a) (ResolvedAt a) (LastEval a) (Value a) (History a).
Definition set_FiringSince (a : t) (x : Time) : t :=
  mkAlert (Fingerprint a) (RuleID a) (Labels a) (Severity a) (St a) (PendingSince a)
    x (ResolvedAt a) (LastEval a) (Value a) (History a).
Definition set_ResolvedAt (a : t) (x : Time) : t :=
  mkAlert (Fingerprint a) (RuleID a) (Labels a) (Severity a) (St a) (PendingSince a)
    (FiringSince a) x (LastEval a) (Value a) (History a).

Definition transition (a : t) (to : State) (now : Time) : t :=
  mkAlert (Fingerprint a) (RuleID a) (Labels a) (Severity a) to (PendingSince a)
    (FiringSince a) (ResolvedAt a) (LastEval a) (Value a)
    (History a ++ [mkTransition (St a) to now])%list.

(** EvaluateFor: the new alert, and whether the caller should notify. *)
Definition EvaluateFor (a : t) (now : Time) (conditionTrue : bool) (value : float64)
    (forDuration : Duration) : t * bool :=
  let a := set_eval a now value in
  match St a with
  | StateInactive | StateResolved =>
      if negb conditionTrue then (a, false)
      else
        let a := transition a StatePending now in
        let a := set_PendingSince a now in
        if forDuration <=? 0 then
          let a := transition a StateFiring now in
          (set_FiringSince a now, true)
        else (a, false)
  | StatePending =>
      if negb conditionTrue then (transition a StateInactive now, false)
      else if forDuration <=? sub now (PendingSince a) then
        let a := transition a StateFiring now in
        (set_FiringSince a now, true)
      else (a, false)
  | StateFiring =>
      if conditionTrue then (a, false)
      else
        let a := transition a StateResolved now in
        (set_ResolvedAt a now, true)
  | StateOther _ => (a, false)
  end.

Definition Evaluate (a : t) (now : Time) (conditionTrue : bool) (value : float64) : t * bool :=
  EvaluateFor a now conditionTrue value 0.

(** ** Evaluation histories *)

Record Eval := mkEval { ev_now : Time; ev_cond : bool; ev_value : float64 }.

Definition eval (d : Duration) (a : t) (e : Eval) : t * bool :=
  EvaluateFor a (ev_now e) (ev_cond e) (ev_value e) d.

Definition run (d : Duration) (a : t) (evs : list Eval) : t :=
  fold_left (fun a e => (eval d a e).1) evs a.

(** the states entered by the evaluations that asked to notify, in order *)
Fixpoint notified (d : Duration) (a : t) (evs : list Eval) : list State :=
  match evs with
  | [] => []
  | e :: rest =>
      let (a', n) := eval d a e in
      if n then St a' :: notified d a' rest else notified d a' rest
  end.

Lemma run_snoc d a evs e : run d a (evs ++ [e]) = (eval d (run d a evs) e).1.
Proof. unfold run. by rewrite fold_left_app. Qed.

(** *** The state after a history *)

(** the longest run of true conditions at the end of the history *)
Fixpoint trailing_true (evs : list Eval) : list Eval :=
  match evs with
  | [] => []
  | e :: rest =>
      if forallb ev_cond (e :: rest) then e :: rest else trailing_true rest
  end.

Lemma trailing_true_snoc evs e :
  trailing_true (evs ++ [e]) = if ev_cond e then (trailing_true evs ++ [e])%list else [].
Proof.
  induction evs as [|x evs IH]; simpl; [by destruct (ev_cond e)|].
  rewrite IH, forallb_app. simpl.
  destruct (ev_cond e), (ev_cond x), (forallb ev_cond evs); done.
Qed.

Definition fires_within (d : Duration) (e0 : Eval) (rest : list Eval) : bool :=
  (d <=? 0) || existsb (fun e => d <=? sub (ev_now e) (ev_now e0)) rest.

(** the history without the false conditions at its end *)
Fixpoint strip_false (evs : list Eval) : list Eval :=
  match evs with
  | [] => []
  | e :: rest =>
      if forallb (fun x => negb (ev_cond x)) (e :: rest) then [] else e :: strip_false rest
  end.

Lemma strip_false_snoc evs e :
  strip_false (evs ++ [e]) = if ev_cond e then (evs ++ [e])%list else strip_false evs.
Proof.
  induction evs as [|x evs IH]; simpl; [by destruct (ev_cond e)|].
  rewrite IH, forallb_app. simpl.
  destruct (ev_cond e), (ev_cond x), (forallb _ evs); done.
Qed.

(** the last run of true conditions of the history, still open or ended *)
Definition last_run (evs : list Eval) : list Eval := trailing_true (strip_false evs).

Definition last_held (evs : list Eval) : bool := default false (ev_cond <$> last evs).

(** The state a history leads to: what the last run of true conditions came to, and
    whether it is still open. *)
Definition expected_state (d : Duration) (evs : list Eval) : State :=
  match last_run evs with
  | [] => StateInactive
  | e0 :: rest =>
      match fires_within d e0 rest, last_held evs with
      | true, true => StateFiring
      | true, false => StateResolved
      | false, true => StatePending
      | false, false => StateInactive
      end
  end.

Lemma last_run_snoc evs e :
  last_run (evs ++ [e]) =
    if ev_cond e then if last_held evs then (last_run evs ++ [e])%list else [e] else last_run evs.
Proof.
  unfold last_run, last_held. rewrite strip_false_snoc.
  destruct (ev_cond e) eqn:He; [|done]. rewrite trailing_true_snoc, He.
  induction evs as [|x evs _] using rev_ind; [done|].
  rewrite last_snoc, strip_false_snoc. simpl. rewrite trailing_true_snoc.
  destruct (ev_cond x) eqn:Hx; simpl; [|done]. by rewrite trailing_true_snoc, Hx.
Qed.

Lemma last_held_snoc evs e : last_held (evs ++ [e]) = ev_cond e.
Proof. unfold last_held. by rewrite last_snoc. Qed.

Lemma last_held_run evs : last_held evs = true -> last_run evs <> [].
Proof.
  induction evs as [|x evs _] using rev_ind; [done|].
  rewrite last_held_snoc, last_run_snoc. intros ->.
  destruct (last_held evs); [|done]. by destruct (last_run evs).
Qed.

Lemma pending_since_run d a evs :
  St a = StateInactive ->
  St (run d a evs) = expected_state d evs /\
  match last_run evs with
  | e0 :: _ => PendingSince (run d a evs) = ev_now e0
  | [] => True
  end.
Proof.
  intros Ha. induction evs as [|e evs [IHs IHp]] using rev_ind; [done|].
  rewrite run_snoc. unfold expected_state in *. rewrite last_run_snoc, last_held_snoc.
  set (b := run d a evs) in *. clearbody b.
  pose proof (last_held_run evs) as Hne.
  unfold eval, EvaluateFor. cbv zeta. simpl St.
  destruct (last_held evs) eqn:Hl; destruct (last_run evs) as [|e0 rest] eqn:Hr;
    try (exfalso; by apply Hne);
    destruct (ev_cond e) eqn:He; try (destruct (fires_within d e0 rest) eqn:Ef);
    rewrite IHs; simpl; rewrite ?IHs, ?Ef; auto; unfold fires_within in *;
    rewrite ?existsb_app, ?orb_assoc, ?Ef, ?IHp; simpl; rewrite ?orb_false_r;
    repeat match goal with |- context [d <=? ?x] => destruct (d <=? x) eqn:? end; simpl; rewrite ?IHs; auto.
Qed.

(** C37: the state of an alert is a function of its evaluation history: inactive
    while no condition has been true; otherwise decided by the last run of true
    conditions. The run fires when the condition has held, at every evaluation in
    between, for at least [for] since the first evaluation of the run (at once if
    [for] is not positive). While the run is open the alert is firing if it fires and
    pending if not; once a false condition has ended it, resolved if it fired and
    inactive if not, whatever happened before the run. *)
Theorem state_after_history (fp rule : string) (labels : gmap string string) (sev : string)
    (d : Duration) (evs : list Eval) :
  St (run d (NewAlert fp rule labels sev) evs) = expected_state d evs.
Proof. by apply pending_since_run. Qed.

(** *** The recorded transitions *)

Definition allowed (from to : State) : bool :=
  match from, to with
  | StateInactive, StatePending | StateResolved, StatePending
  | StatePending, StateInactive | StatePending, StateFiring
  | StateFiring, StateResolved => true
  | _, _ => false
  end.

(** a connected path of allowed transitions from [s] to [s'] *)
Inductive path : State -> list Transition -> State -> Prop :=
| path_nil s : path s [] s
| path_snoc s h m s' at_ :
    path s h m -> allowed m s' = true -> path s (h ++ [mkTransition m s' at_]) s'.

Lemma path_History d a evs :
  St a = StateInactive -> History a = [] ->
  path StateInactive (History (run d a evs)) (St (run d a evs)).
Proof.
  intros Hs Hh. induction evs as [|e evs IH] using rev_ind.
  { simpl. rewrite Hs, Hh. constructor. }
  rewrite run_snoc. set (b := run d a evs) in *. clearbody b.
  destruct (ev_cond e) eqn:Hc; unfold eval, EvaluateFor; cbv zeta; simpl; rewrite Hc;
    destruct (St b) eqn:Hb; simpl; rewrite ?Hb;
    repeat match goal with |- context [d <=? ?x] => destruct (d <=? x) end; simpl; rewrite ?Hb;
    auto using path.
  all: eapply path_snoc; [eapply path_snoc; [done|done]|done].
Qed.

(** every recorded transition is one of the five of the lifecycle (inactive or
    resolved to pending, pending to inactive or firing, firing to resolved), each
    starts where the previous one ended, and the last one ends in the current state:
    the history replays the alert's whole life, nothing skipped. *)
Theorem history_replays_lifecycle (fp rule : string) (labels : gmap string string) (sev : string)
    (d : Duration) (evs : list Eval) :
  path StateInactive (History (run d (NewAlert fp rule labels sev) evs))
    (St (run d (NewAlert fp rule labels sev) evs)).
Proof. by apply path_History. Qed.

(** *** Notifications *)

(** [alternates s l]: [l] is s, opposite of s, s, ... *)
Fixpoint alternates (s : State) (l : list State) : Prop :=
  match l with
  | [] => True
  | x :: rest =>
      x = s /\ alternates (if decide (s = StateFiring) then StateResolved else StateFiring) rest
  end.

(** the next notification an alert can cause *)
Definition next_notification (s : State) : State :=
  if decide (s = StateFiring) then StateResolved else StateFiring.

Lemma notified_alternates d a evs :
  (forall s, St a <> StateOther s) -> alternates (next_notification (St a)) (notified d a evs).
Proof.
  revert a. induction evs as [|e evs IH]; intros a Ha; simpl; [done|].
  unfold eval, EvaluateFor. cbv zeta. simpl.
  destruct (ev_cond e); destruct (St a) eqn:Hs; simpl;
    repeat match goal with |- context [d <=? ?x] => destruct (d <=? x) end; simpl; rewrite ?Hs;
    try (exfalso; by eapply Ha);
    try (split; [done|]);
    match goal with |- alternates _ (notified d ?b evs) =>
      let H := fresh in pose proof (IH b) as H; simpl in H; rewrite ?Hs in H; apply H; naive_solver end.
Qed.

(** the notifications of one alert alternate, firing first: between two firing
    notifications there is always exactly one resolved notification, however often
    the rule is evaluated in between. *)
Theorem notifications_alternate (fp rule : string) (labels : gmap string string) (sev : string)
    (d : Duration) (evs : list Eval) :
  alternates StateFiring (notified d (NewAlert fp rule labels sev) evs).
Proof. by apply (notified_alternates d (NewAlert fp rule labels sev) evs). Qed.

End Alert.

Module Hysteresis.

Record HysteresisThreshold := mkHysteresis { FireAbove : float64; ResolveBelow : float64 }.

Definition ConditionTrue (h : HysteresisThreshold) (value : float64) (wasActive : bool) : bool :=
  if wasActive then negb (flt value (ResolveBelow h)) else fgt value (FireAbove h).

(** The state the caller passes as [wasActive]: firing or pending. *)
Definition active (s : Alert.State) : bool :=
  match s with Alert.StatePending | Alert.StateFiring => true | _ => false end.

(** A rule with hysteresis, evaluated on successive values. *)
Definition step (h : HysteresisThreshold) (d : Duration) (a : Alert.t) (tv : Time * float64)
  : Alert.t * bool :=
  Alert.EvaluateFor a tv.1 (ConditionTrue h tv.2 (active (Alert.St a))) tv.2 d.

Fixpoint steps (h : HysteresisThreshold) (d : Duration) (a : Alert.t) (tvs : list (Time * float64))
  : Alert.t * nat :=
  match tvs with
  | [] => (a, 0%nat)
  | tv :: rest =>
      let (a', n) := step h d a tv in
      let (a'', k) := steps h d a' rest in
      (a'', ((if n then 1 else 0) + k)%nat)
  end.

(** neither above the fire threshold nor below the resolve threshold *)
Definition in_band (h : HysteresisThreshold) (v : float64) : Prop :=
  fgt v (FireAbove h) = false /\ flt v (ResolveBelow h) = false.

(** a value that stays between the two thresholds (or is NaN) never makes a
    settled alert flap: whatever the number of evaluations, an alert that is firing
    stays firing, one that is inactive or resolved stays so, no transition is recorded
    and nothing is notified. *)
Theorem hysteresis_no_flapping (h : HysteresisThreshold) (d : Duration) (a : Alert.t)
    (tvs : list (Time * float64)) :
  Alert.St a <> Alert.StatePending -> Forall (fun tv => in_band h tv.2) tvs ->
  let r := steps h d a tvs in
  Alert.St r.1 = Alert.St a /\ Alert.History r.1 = Alert.History a /\ r.2 = 0%nat.
Proof.
  intros Ha Hband. simpl. revert a Ha.
  induction Hband as [|[now v] tvs [Hf Hr] Hband IH]; intros a Ha; simpl; [done|].
  assert (exists a', step h d a (now, v) = (a', false) /\
            Alert.St a' = Alert.St a /\ Alert.History a' = Alert.History a) as (a' & Hstep & Hs & Hh).
  { simpl in Hf, Hr. unfold step, Alert.EvaluateFor, ConditionTrue. cbv zeta. simpl.
    destruct (Alert.St a) eqn:E; simpl; rewrite ?Hf, ?Hr; simpl; try done; eexists; split_and!; try done. }
  rewrite Hstep. destruct (IH a') as (IH1 & IH2 & IH3); [congruence|].
  destruct (steps h d a' tvs) as [a'' k]. simpl in *. subst k. split_and!; congruence.
Qed.

Lemma hysteresis_no_flapping_witness :
  let h := mkHysteresis (f_of_Z 85) (f_of_Z 75) in
  let a := Alert.run 0 (Alert.NewAlert "fp" "cpu_hot" ∅ "warn")
             [Alert.mkEval (of_unix_milli 0) true (f_of_Z 90)] in
  (steps h 0 a [(of_unix_milli 1000, f_of_Z 80); (of_unix_milli 2000, f_of_Z 76)]).2 = 0%nat.
Proof.
  intros h a. apply hysteresis_no_flapping; [vm_compute; discriminate|].
  repeat constructor.
Defined.

End Hysteresis.

Module Deadman.

Record DeadmanTracker := mkDeadman {
  ExpectEvery : Duration;
  Grace : Duration;
  lastSeen : Time;
}.

Definition NewDeadmanTracker (expectEvery grace : Duration) : DeadmanTracker :=
  mkDeadman expectEvery grace zero.

Definition Observe (d : DeadmanTracker) (t : Time) : DeadmanTracker :=
  if after t (lastSeen d) then mkDeadman (ExpectEvery d) (Grace d) t else d.

Definition LastSeen (d : DeadmanTracker) : Time := lastSeen d.

Definition Overdue (d : DeadmanTracker) (now : Time) : bool * Duration :=
  if is_zero (lastSeen d) then (false, 0)
  else
    let elapsed := sub now (lastSeen d) in
    if int64 (ExpectEvery d + Grace d) <? elapsed then (true, elapsed) else (false, 0).

Definition observe_all (d : DeadmanTracker) (ts : list Time) : DeadmanTracker :=
  fold_left Observe ts d.

Definition latest (ts : list Time) : Time := foldr Z.max 0 ts.

Lemma observe_all_latest d ts :
  0 <= lastSeen d ->
  observe_all d ts = mkDeadman (ExpectEvery d) (Grace d) (Z.max (lastSeen d) (latest ts)).
Proof.
  revert d. induction ts as [|t ts IH]; intros d Hd; simpl.
  { rewrite Z.max_l by done. by destruct d. }
  unfold Observe, after. destruct (Z.ltb_spec (lastSeen d) t); rewrite IH by (simpl; lia); simpl;
    f_equal; unfold latest; lia.
Qed.

Lemma latest_perm ts ts' : ts ≡ₚ ts' -> latest ts = latest ts'.
Proof. induction 1; simpl; unfold latest in *; lia. Qed.

(** a deadman rule is overdue exactly when something has been observed and
    more than ExpectEvery + Grace has passed since the latest observation; the order
    in which observations arrive does not matter, so a late report of an old run
    never re-arms or clears the rule. *)
Theorem deadman_overdue_spec (expectEvery grace : Duration) (ts ts' : list Time) (now : Time) :
  ts ≡ₚ ts' ->
  Overdue (observe_all (NewDeadmanTracker expectEvery grace) ts) now =
  if latest ts' =? 0 then (false, 0)
  else if int64 (expectEvery + grace) <? sub now (latest ts')
       then (true, sub now (latest ts')) else (false, 0).
Proof.
  intros Hp. rewrite <- (latest_perm _ _ Hp). rewrite observe_all_latest by (simpl; unfold zero; lia).
  unfold Overdue, is_zero. simpl. unfold zero.
  assert (0 <= latest ts) by (clear; induction ts; simpl; lia).
  by rewrite Z.max_r by done.
Qed.

Lemma deadman_overdue_spec_witness :
  let t0 := of_unix_milli 0 in
  (Overdue (observe_all (NewDeadmanTracker (24 * hour) hour) [t0; t0 - hour]) (t0 + 31 * hour)).1 = true.
Proof.
  intros t0. rewrite (deadman_overdue_spec _ _ _ [t0 - hour; t0]) by apply Permutation_swap.
  vm_compute. reflexivity.
Defined.

End Deadman.

Module Silences.

Record Silence := mkSilence {
  ID : string;
  Matchers : gmap string string;
  StartsAt : Time;
  EndsAt : Time;
  CreatedBy : string;
  Comment : string;
}.

Inductive SilenceError : Set := ErrNoEndTime | ErrEndNotAfterStart.

(** [id] is the ULID drawn for the silence. *)
Definition NewSilence (id : string) (matchers : gmap string string) (startsAt endsAt : Time)
    (createdBy comment : string) : result SilenceError Silence :=
  if is_zero endsAt then Err ErrNoEndTime
  else if negb (after endsAt startsAt) then Err ErrEndNotAfterStart
  else Ok (mkSilence id matchers startsAt endsAt createdBy comment).

Definition Active (s : Silence) (t : Time) : bool :=
  negb (before t (StartsAt s)) && before t (EndsAt s).

(** the loop over the matchers *)
Fixpoint all_match (labels : gmap string string) (kvs : list (string * string)) : bool :=
  match kvs with
  | [] => true
  | (k, v) :: rest =>
      if negb (bool_decide (Schema.label labels k = v)) then false else all_match labels rest
  end.

Definition Matches (s : Silence) (labels : gmap string string) : bool :=
  if (size (Matchers s) =? 0)%nat then false
  else all_match labels (map_to_list (Matchers s)).

Abbreviation SilenceStore := (gmap string Silence) (only parsing).

Definition NewSilenceStore : gmap string Silence := ∅.
Definition Add (s : gmap string Silence) (sil : Silence) : gmap string Silence := <[ID sil := sil]> s.
Definition Remove (s : gmap string Silence) (id : string) : gmap string Silence := delete id s.

Definition Silenced (s : gmap string Silence) (t : Time) (labels : gmap string string) : bool :=
  existsb (fun sil => Active sil t && Matches sil labels) (map_to_list s).*2.

(** the silences in effect at [t], for a listing *)
Definition ActiveAt (s : gmap string Silence) (t : Time) : list Silence :=
  List.filter (fun sil => Active sil t) (map_to_list s).*2.

Lemma all_match_spec labels kvs :
  all_match labels kvs = true <-> Forall (fun kv => Schema.label labels kv.1 = kv.2) kvs.
Proof.
  induction kvs as [|[k v] kvs IH]; simpl; [by split|].
  rewrite Forall_cons. simpl. case_bool_decide; simpl; [rewrite IH|]; naive_solver.
Qed.

Lemma Matches_spec s labels :
  Matches s labels = true <->
  Matchers s <> ∅ /\ map_Forall (fun k v => Schema.label labels k = v) (Matchers s).
Proof.
  unfold Matches. destruct (Nat.eqb_spec (size (Matchers s)) 0) as [E|E].
  - apply map_size_empty_iff in E. split; [done|]. by intros [].
  - rewrite all_match_spec, map_Forall_to_list.
    assert (Matchers s <> ∅) by (intros H; by apply E; rewrite H, map_size_empty).
    split; [intros H'; split; [done|]|intros [_ H']]; eapply Forall_impl; eauto; by intros [].
Qed.

(** The stores the program builds: silences validated by NewSilence, added and
    removed in any order. *)
Inductive reachable : gmap string Silence -> Prop :=
| reach_new : reachable NewSilenceStore
| reach_add s sil id m st en by_ c :
    reachable s -> NewSilence id m st en by_ c = Ok sil -> reachable (Add s sil)
| reach_remove s id : reachable s -> reachable (Remove s id).

Lemma reachable_bounded s :
  reachable s -> map_Forall (fun id sil => ID sil = id /\ StartsAt sil < EndsAt sil) s.
Proof.
  induction 1 as [|s sil id m st en by_ c _ IH Hnew|s id _ IH]; [apply map_Forall_empty| |].
  - apply map_Forall_insert_2; [|done]. split; [done|]. unfold NewSilence in Hnew.
    destruct (is_zero en); [done|]. destruct (negb _) eqn:E; [done|].
    injection Hnew as <-. apply negb_false_iff, Z.ltb_lt in E. done.
  - by apply map_Forall_delete.
Qed.

(** a notification is suppressed at time [t] exactly when some stored silence
    with at least one matcher covers [t] (start included, end excluded) and every one
    of its matchers equals the alert's label; every stored silence has an end after
    its start, so after the last end time nothing is silenced any more. *)
Theorem silenced_spec (s : gmap string Silence) (t : Time) (labels : gmap string string) :
  reachable s ->
  (Silenced s t labels = true <->
     exists id sil, s !! id = Some sil /\ StartsAt sil <= t < EndsAt sil /\
       Matchers sil <> ∅ /\ map_Forall (fun k v => Schema.label labels k = v) (Matchers sil)) /\
  map_Forall (fun _ sil => StartsAt sil < EndsAt sil) s /\
  (map_Forall (fun _ sil => EndsAt sil <= t) s -> Silenced s t labels = false).
Proof.
  intros Hr. assert (Silenced s t labels = true <->
     exists id sil, s !! id = Some sil /\ StartsAt sil <= t < EndsAt sil /\
       Matchers sil <> ∅ /\ map_Forall (fun k v => Schema.label labels k = v) (Matchers sil)) as Hs.
  { unfold Silenced. rewrite existsb_exists. setoid_rewrite andb_true_iff.
    setoid_rewrite Matches_spec. unfold Active, before. split.
    - intros (sil & Hin & Ha & Hm). apply list_elem_of_In, list_elem_of_fmap in Hin as ([id sil'] & -> & Hin).
      apply elem_of_map_to_list in Hin. zbool. exists id, sil'. simpl in *. split_and!; naive_solver.
    - intros (id & sil & Hl & Ht & Hm). exists sil. split; [|split; [|done]].
      + apply list_elem_of_In, list_elem_of_fmap. exists (id, sil). by rewrite elem_of_map_to_list.
      + apply andb_true_iff. split; [apply negb_true_iff, Z.ltb_ge; lia|apply Z.ltb_lt; lia]. }
  split; [done|]. split.
  - intros id sil Hl. by destruct (reachable_bounded s Hr id sil Hl).
  - intros Hend. apply not_true_is_false. rewrite Hs. intros (id & sil & Hl & Ht & _).
    specialize (Hend id sil Hl). simpl in Hend. lia.
Qed.

Definition maintenance : Silence :=
  mkSilence "01" {["host" := "nas"]} (of_unix_milli 0) (of_unix_milli 1000) "ops" "".

Lemma silenced_spec_witness :
  Silenced (Add NewSilenceStore maintenance) (of_unix_milli 5) {["host" := "nas"]} = true.
Proof.
  apply silenced_spec.
  - apply (reach_add _ maintenance "01" {["host" := "nas"]} (of_unix_milli 0) (of_unix_milli 1000) "ops" "");
      [constructor|reflexivity].
  - exists "01", maintenance. split; [reflexivity|]. split; [vm_compute; split; congruence|].
    split; [vm_compute; discriminate|]. apply map_Forall_singleton. reflexivity.
Defined.

(** A matcher with an empty value is satisfied by an alert that does not carry the
    label at all, although the matcher is then not "present" in its labels. *)
Example empty_matcher_matches_absent_label :
  Matches (mkSilence "02" {["host" := ""]} 1 2 "ops" "") ∅ = true.
Proof. reflexivity. Qed.

End Silences.

Module Manager.
Section manager.

(** crypto/sha256 followed by hex encoding *)
Variable sha256_hex : string -> string.

Definition fingerprint_input (ruleID : string) (labels : gmap string string) : string :=
  ruleID ++ Schema.write_pairs labels (Schema.sorted_keys labels).

Definition Fingerprint (ruleID : string) (labels : gmap string string) : string :=
  "sha256:" ++ sha256_hex (fingerprint_input ruleID labels).

(** the dedup key identifies the rule and its label set: two (rule, labels)
    pairs free of separator bytes get the same fingerprint only if they are the same
    pair, unless SHA-256 maps their two distinct inputs to one digest. *)
Theorem fingerprint_identifies (r r' : string) (l l' : gmap string string) :
  lacks Schema.byte_1f r = true -> lacks Schema.byte_1f r' = true ->
  Schema.plain_labels l -> Schema.plain_labels l' ->
  (sha256_hex (fingerprint_input r l) = sha256_hex (fingerprint_input r' l') ->
   fingerprint_input r l = fingerprint_input r' l') ->
  Fingerprint r l = Fingerprint r' l' <-> r = r' /\ l = l'.
Proof.
  intros Hr Hr' Hl Hl' Hsha. split; [|by intros [-> ->]].
  unfold Fingerprint. intros E. apply (inj (String.append "sha256:")) in E.
  apply Hsha in E. by apply Schema.write_pairs_inj.
Qed.

Record Manager := mkManager {
  silences : option (gmap string Silences.Silence);
  alerts : gmap string Alert.t;
}.

Definition NewManager (silences : option (gmap string Silences.Silence)) : Manager :=
  mkManager silences ∅.

(** Evaluate: the manager after the call, the alert, and whether to notify. The map
    holds a pointer to the alert, so advancing the alert updates the entry. *)
Definition Evaluate (m : Manager) (now : Time) (ruleID : string) (labels : gmap string string)
    (severity : string) (conditionTrue : bool) (value : float64) (forDuration : Duration)
  : Manager * Alert.t * bool :=
  let fp := Fingerprint ruleID labels in
  let a := default (Alert.NewAlert fp ruleID labels severity) (alerts m !! fp) in
  let (a, transitioned) := Alert.EvaluateFor a now conditionTrue value forDuration in
  let m := mkManager (silences m) (<[fp := a]> (alerts m)) in
  if negb transitioned then (m, a, false)
  else
    match silences m with
    | Some st => if Silences.Silenced st now labels then (m, a, false) else (m, a, true)
    | None => (m, a, true)
    end.

Definition Get (m : Manager) (ruleID : string) (labels : gmap string string) : option Alert.t :=
  alerts m !! Fingerprint ruleID labels.

Definition Firing (m : Manager) : list Alert.t :=
  filter (fun a => Alert.St a = Alert.StateFiring) (map_to_list (alerts m)).*2.

Definition All (m : Manager) : list Alert.t := (map_to_list (alerts m)).*2.

(** ** The manager as a family of independent alerts *)

Record Call := mkCall {
  c_now : Time; c_rule : string; c_labels : gmap string string; c_severity : string;
  c_cond : bool; c_value : float64; c_for : Duration;
}.

Definition call_fp (c : Call) : string := Fingerprint (c_rule c) (c_labels c).

Definition call (m : Manager) (c : Call) : Manager * Alert.t * bool :=
  Evaluate m (c_now c) (c_rule c) (c_labels c) (c_severity c) (c_cond c) (c_value c) (c_for c).

Definition run (m : Manager) (cs : list Call) : Manager := fold_left (fun m c => (call m c).1.1) cs m.

(** one alert, evaluated by the calls of [cs] *)
Definition advance (a : Alert.t) (c : Call) : Alert.t :=
  (Alert.EvaluateFor a (c_now c) (c_cond c) (c_value c) (c_for c)).1.

Definition alone (fp : string) (cs : list Call) : option Alert.t :=
  match cs with
  | [] => None
  | c :: _ =>
      Some (fold_left advance cs (Alert.NewAlert fp (c_rule c) (c_labels c) (c_severity c)))
  end.

Lemma call_alerts m c fp :
  alerts (call m c).1.1 !! fp =
  if decide (call_fp c = fp) then
    Some (advance (default (Alert.NewAlert fp (c_rule c) (c_labels c) (c_severity c))
                     (alerts m !! fp)) c)
  else alerts m !! fp.
Proof.
  unfold call, Evaluate, advance, call_fp.
  destruct (Alert.EvaluateFor _ _ _ _ _) as [a tr] eqn:E.
  assert (forall X : Manager * Alert.t * bool,
    X.1.1 = mkManager (silences m) (<[Fingerprint (c_rule c) (c_labels c) := a]> (alerts m)) ->
    alerts X.1.1 !! fp = if decide (Fingerprint (c_rule c) (c_labels c) = fp) then
      Some a else alerts m !! fp) as HX.
  { intros X ->. simpl. rewrite lookup_insert. by case_decide. }
  rewrite HX by (destruct tr; simpl; [destruct (silences m); [destruct (Silences.Silenced _ _ _)|]|]; done).
  case_decide as Hfp; [|done]. subst fp. by rewrite E.
Qed.

Lemma alone_snoc fp cs c :
  alone fp (cs ++ [c]) =
  Some (advance (default (Alert.NewAlert fp (c_rule c) (c_labels c) (c_severity c)) (alone fp cs)) c).
Proof. destruct cs as [|c0 cs]; simpl; [done|]. by rewrite fold_left_app. Qed.

(** the manager refines a family of independent alerts: after any sequence of
    evaluations, the alert stored under a fingerprint is the one obtained by running a
    fresh state machine on the calls with that fingerprint alone, so neither the other
    alerts nor the silences influence its state and history; and a call asks to notify
    exactly when that alert makes a fresh transition that no silence covers. *)
Theorem manager_independent_alerts (sil : option (gmap string Silences.Silence))
    (cs : list Call) (c : Call) (fp : string) :
  let m := run (NewManager sil) cs in
  alerts m !! fp = alone fp (filter (fun c => call_fp c = fp) cs) /\
  (call m c).2 =
    (Alert.EvaluateFor
       (default (Alert.NewAlert (call_fp c) (c_rule c) (c_labels c) (c_severity c))
          (alone (call_fp c) (filter (fun c' => call_fp c' = call_fp c) cs)))
       (c_now c) (c_cond c) (c_value c) (c_for c)).2
    && negb (match sil with Some st => Silences.Silenced st (c_now c) (c_labels c) | None => false end).
Proof.
  assert (forall cs fp, alerts (run (NewManager sil) cs) !! fp =
            alone fp (filter (fun c => call_fp c = fp) cs)) as Halerts.
  { clear. intros cs fp. induction cs as [|c cs IH] using rev_ind; [done|].
    assert (run (NewManager sil) (cs ++ [c])%list = (call (run (NewManager sil) cs) c).1.1) as ->
      by (unfold run; by rewrite fold_left_app).
    rewrite call_alerts, IH, filter_app, filter_cons, filter_nil.
    case_decide; [by rewrite alone_snoc|by rewrite app_nil_r]. }
  assert (silences (run (NewManager sil) cs) = sil) as Hsil.
  { clear. induction cs as [|c cs IH] using rev_ind; [done|].
    unfold run in *. rewrite fold_left_app. simpl. unfold call, Evaluate.
    destruct (Alert.EvaluateFor _ _ _ _ _) as [a []]; simpl; [|done].
    destruct (silences _); [destruct (Silences.Silenced _ _ _)|]; done. }
  intros m. split; [apply Halerts|]. unfold call, Evaluate.
  change (Fingerprint (c_rule c) (c_labels c)) with (call_fp c). unfold m. rewrite Halerts.
  destruct (Alert.EvaluateFor _ _ _ _ _) as [a []]; simpl; [|done].
  rewrite Hsil. destruct sil; [destruct (Silences.Silenced _ _ _)|]; done.
Qed.

End manager.

Lemma fingerprint_identifies_witness :
  Fingerprint (fun s => s) "cpu_hot" {["host" := "a"]} <> Fingerprint (fun s => s) "cpu_hot" {["host" := "b"]}.
Proof.
  intros E. apply fingerprint_identifies in E as [_ E].
  - apply (f_equal (fun l : gmap string string => l !! "host")) in E. vm_compute in E. discriminate E.
  - reflexivity.
  - reflexivity.
  - apply map_Forall_to_list. vm_compute. repeat constructor.
  - apply map_Forall_to_list. vm_compute. repeat constructor.
  - by intros Heq.
Defined.

End Manager.
