(* ===== verification/AgentBuffer.v ===== *)
(** * AgentBuffer: the agent's outbound write-ahead log

    Models internal/agentbuffer: buffer.go (Open, recover, Close, Append, Len,
    segment reading, sealing and writing), segment.go (the active segment writer),
    capacity.go (EnforceCapacity and the discard policy) and backfill.go (Backfill,
    oldestItems, Ack).

    The state is the in-memory Buffer next to the directory it lives in. Files are
    byte strings; a .wal file holds one JSON line per record, a .wal.zst file the
    same lines compressed. encoding/json on Item, zstd and ULID generation are
    parameters ([Env]). Files whose name starts with .tmp- are never read by any of
    this code, so only the segment files are kept: writing a temporary file has no
    effect on them until the rename.

    Every system call asks the world's fault schedule for its outcome: success, a
    failure (after a partial write of [k] bytes, for writes) or a crash of the machine
    (with [k] bytes of the write on disk). A failure leaves the in-memory Buffer as the
    code leaves it at that point; a crash loses it, and the files are what recovery
    finds. Renames, file creation and removal are taken to be durable when they
    return. The schedule [[]] is the run without faults. *)

From stdpp Require Import base gmap strings list sorting.
From Stdlib Require Import ZArith Lia Ascii.
From S2P Require Import Prelude GoStd Schema.
Import GoString GoTime GoFloat Schema.

Local Open Scope string_scope.
Local Open Scope Z_scope.

Module AgentBuffer.

(** ** Data *)

Definition PriorityLogLine : Z := 0.
Definition PriorityMetric : Z := 1.
Definition PriorityEvent : Z := 2.

Definition DefaultMaxAge : Duration := 2 * hour.
Definition DefaultMaxBytes : Z := Z.shiftl 256 20.
Definition DefaultSegmentBytes : Z := Z.shiftl 4 20.

Record Item := mkItem {
  it_Seq : Z;
  it_Priority : Z;
  it_TS : Time;
  it_Metric : option Metric;
  it_Event : option Event;
  it_LogLine : option LogLine;
  it_Inventory : option Inventory;
}.

Global Instance Item_eq_dec : EqDecision Item.
Proof. solve_decision. Defined.

Definition with_seq (it : Item) (seq : Z) : Item :=
  mkItem seq (it_Priority it) (it_TS it) (it_Metric it) (it_Event it) (it_LogLine it)
    (it_Inventory it).

Record sealedSegment := mkSealed {
  ss_path : string;
  ss_minSeq : Z;
  ss_maxSeq : Z;
  ss_count : Z;
  ss_byteSize : Z;
}.

(** The open file is its path and whether it is still open. *)
Record segmentWriter := mkWriter {
  sw_path : string;
  sw_open : bool;
  sw_rawBytes : Z;
  sw_items : list Item;
}.

Record Buffer := mkBuffer {
  segmentBytes : Z;
  maxAge : Duration;
  maxBytes : Z;
  nextSeq : Z;
  active : option segmentWriter;
  sealed : list sealedSegment;
  totalLen : Z;
}.

Record DiscardedItem := mkDiscarded { di_Seq : Z; di_Priority : Z; di_Kind : string }.

Inductive BufErr : Set :=
| ErrIO (op : string)
| ErrNotExist
| ErrClosed
| ErrMarshal
| ErrParse
| ErrLineTooLong
| ErrDecompress
| ErrItemNotFound (seq : Z)
| ErrCtx
| ErrLimiter
| ErrSend
| ErrFuel.

(** ** The world *)

Inductive fault : Set := IoOk | IoFail (k : nat) | IoCrash (k : nat).

Record World := mkWorld {
  files : gmap string string;         (** the segment files of the directory *)
  faults : list fault;                (** outcomes of the system calls to come *)
  drawn : nat;                        (** ULIDs drawn so far *)
  clock : Time;                       (** time.Now, still during one call *)
  net : list (list Item * bool);      (** batches handed to the sender, and its verdict *)
}.

Record State := mkState { buf : Buffer; world : World }.

(** What the model takes from other packages. *)
Class Env := mkEnv {
  marshal : Item -> option string;
  unmarshal : string -> option Item;
  zstd_enc : string -> string;
  zstd_dec : string -> option string;
  ulid : nat -> string;
}.

Inductive outcome (A : Type) : Type :=
| Ret (a : A)
| Fail (e : BufErr)
| Crashed.
Arguments Ret {A} a.
Arguments Fail {A} e.
Arguments Crashed {A}.

Definition M (A : Type) : Type := State -> outcome A * State.

Global Instance M_ret : MRet M := fun A a st => (Ret a, st).
Global Instance M_bind : MBind M := fun A B f m st =>
  match m st with
  | (Ret a, st') => f a st'
  | (Fail e, st') => (Fail e, st')
  | (Crashed, st') => (Crashed, st')
  end.

Definition fail {A} (e : BufErr) : M A := fun st => (Fail e, st).
Definition get_buf : M Buffer := fun st => (Ret (buf st), st).
Definition get_world : M World := fun st => (Ret (world st), st).
Definition modify_buf (f : Buffer -> Buffer) : M unit :=
  fun st => (Ret tt, mkState (f (buf st)) (world st)).
Definition modify_world (f : World -> World) : M unit :=
  fun st => (Ret tt, mkState (buf st) (f (world st))).

(** a Go call whose error the caller inspects instead of returning *)
Definition try_ {A} (m : M A) : M (result BufErr A) := fun st =>
  match m st with
  | (Ret a, st') => (Ret (Ok a), st')
  | (Fail e, st') => (Ret (Err e), st')
  | (Crashed, st') => (Crashed, st')
  end.

Definition set_files (w : World) (fs : gmap string string) : World :=
  mkWorld fs (faults w) (drawn w) (clock w) (net w).
Definition set_faults (w : World) (fl : list fault) : World :=
  mkWorld (files w) fl (drawn w) (clock w) (net w).

(** A system call: its effect when it succeeds, and the part of it that is on disk
    when it fails or the machine crashes. *)
Definition sys (op : string) (effect : gmap string string -> gmap string string)
    (partial : nat -> gmap string string -> gmap string string) : M unit := fun st =>
  let w := world st in
  match faults w with
  | [] | IoOk :: _ =>
      (Ret tt, mkState (buf st) (set_faults (set_files w (effect (files w))) (tail (faults w))))
  | IoFail k :: rest =>
      (Fail (ErrIO op), mkState (buf st) (set_faults (set_files w (partial k (files w))) rest))
  | IoCrash k :: rest =>
      (Crashed, mkState (buf st) (set_faults (set_files w (partial k (files w))) rest))
  end.

(** a system call with no effect on the segment files *)
Definition sys_noop (op : string) : M unit := sys op id (fun _ => id).

Definition sys_put (op path contents : string) : M unit :=
  sys op (fun fs => <[path := contents]> fs) (fun _ => id).

Definition sys_remove (path : string) : M unit :=
  w ← get_world;
  match files w !! path with
  | None => fail ErrNotExist
  | Some _ => sys "remove" (delete path) (fun _ => id)
  end.

(** *** field updates of the Buffer *)
Definition set_nextSeq (x : Z) (b : Buffer) : Buffer :=
  mkBuffer (segmentBytes b) (maxAge b) (maxBytes b) x (active b) (sealed b) (totalLen b).
Definition set_active (x : option segmentWriter) (b : Buffer) : Buffer :=
  mkBuffer (segmentBytes b) (maxAge b) (maxBytes b) (nextSeq b) x (sealed b) (totalLen b).
Definition set_sealed (x : list sealedSegment) (b : Buffer) : Buffer :=
  mkBuffer (segmentBytes b) (maxAge b) (maxBytes b) (nextSeq b) (active b) x (totalLen b).
Definition set_totalLen (x : Z) (b : Buffer) : Buffer :=
  mkBuffer (segmentBytes b) (maxAge b) (maxBytes b) (nextSeq b) (active b) (sealed b) x.

Definition nl : ascii := Ascii false true false true false false false false.
Definition cr : ascii := Ascii true false true true false false false false.

Section buffer.
Context `{Env}.

(** ** Segment files (buffer.go) *)

(** json.Marshal of every record, one line each; [None] if one of them fails. *)
Fixpoint marshal_lines (items : list Item) : option string :=
  match items with
  | [] => Some ""
  | it :: rest =>
      match marshal it, marshal_lines rest with
      | Some line, Some more => Some (line ++ String nl more)%string
      | _, _ => None
      end
  end.

Definition maxTokenSize : Z := 8 * 1024 * 1024.

Definition drop_cr (line : string) : string := trim_suffix line (String cr "").

(** the tokens of a bufio.Scanner with the default ScanLines *)
Definition scan_lines (s : string) : list string :=
  let pieces := split_byte nl s in
  match last pieces with
  | Some "" => removelast pieces
  | _ => pieces
  end.

Fixpoint decode_lines (lines : list string) : result BufErr (list Item) :=
  match lines with
  | [] => Ok []
  | line :: rest =>
      if maxTokenSize <=? Z.of_nat (String.length line) then Err ErrLineTooLong
      else
        let line := drop_cr line in
        if bool_decide (line = "") then decode_lines rest
        else match unmarshal line with
             | None => Err ErrParse
             | Some it =>
                 match decode_lines rest with
                 | Ok items => Ok (it :: items)
                 | Err e => Err e
                 end
             end
  end.

Definition readSealedSegment (path : string) : M (list Item) :=
  _ ← sys_noop "open";
  w ← get_world;
  match files w !! path with
  | None => fail ErrNotExist
  | Some raw =>
      match zstd_dec raw with
      | None => fail ErrDecompress
      | Some text =>
          match decode_lines (scan_lines text) with
          | Ok items => mret items
          | Err e => fail e
          end
      end
  end.

(** writeSealedSegment: temporary file, write, fsync, close, rename. Until the
    rename nothing of it is visible under a segment name. *)
Definition writeSealedSegment (path : string) (items : list Item) : M unit :=
  _ ← sys_noop "create temp";
  match marshal_lines items with
  | None => fail ErrMarshal
  | Some text =>
      _ ← sys_noop "write temp";
      _ ← sys_noop "fsync temp";
      _ ← sys_noop "close temp";
      sys_put "rename" path (zstd_enc text)
  end.

Definition first_seq (items : list Item) : Z :=
  match items with it :: _ => it_Seq it | [] => 0 end.
Definition last_seq (items : list Item) : Z :=
  match last items with Some it => it_Seq it | None => 0 end.

(** os.Stat(path).Size() *)
Definition stat_size (path : string) : M Z :=
  _ ← sys_noop "stat";
  w ← get_world;
  match files w !! path with
  | Some raw => mret (Z.of_nat (String.length raw))
  | None => fail ErrNotExist
  end.

(** [if info, err := os.Stat(path); err == nil { byteSize = info.Size() }] *)
Definition stat_size_or (path : string) (d : Z) : M Z :=
  r ← try_ (stat_size path);
  match r with Ok n => mret n | Err _ => mret d end.

Definition inspectSealedSegment (path : string) : M sealedSegment :=
  items ← readSealedSegment path;
  size ← stat_size path;
  mret (mkSealed path (first_seq items) (last_seq items) (Z.of_nat (length items)) size).

(** The records of an orphaned .wal file up to the first line that does not parse. *)
Fixpoint decode_prefix (lines : list string) : list Item :=
  match lines with
  | [] => []
  | line :: rest =>
      if bool_decide (line = "") then decode_prefix rest
      else match unmarshal line with
           | None => []
           | Some it => it :: decode_prefix rest
           end
  end.

Definition sealOrphanedActiveSegment (path : string) : M sealedSegment :=
  _ ← sys_noop "read file";
  w ← get_world;
  match files w !! path with
  | None => fail ErrNotExist
  | Some raw =>
      let items := decode_prefix (split_byte nl raw) in
      let sealedPath := (trim_suffix path ".wal" ++ ".wal.zst")%string in
      _ ← writeSealedSegment sealedPath items;
      _ ← sys_remove path;
      size ← stat_size_or sealedPath 0;
      mret (mkSealed sealedPath (first_seq items) (last_seq items) (Z.of_nat (length items)) size)
  end.

(** ** The active segment (segment.go) *)

Definition newULIDName (suffix : string) : M string :=
  w ← get_world;
  _ ← modify_world (fun w => mkWorld (files w) (faults w) (S (drawn w)) (clock w) (net w));
  mret (ulid (drawn w) ++ suffix)%string.

Definition newSegmentWriter : M segmentWriter :=
  path ← newULIDName ".wal";
  w ← get_world;
  _ ← sys_put "open file" path (default "" (files w !! path));
  mret (mkWriter path true 0 []).

(** f.Sync() after a write: a crash before it completes leaves any prefix of the
    bytes just written on disk. *)
Definition sync_write (torn : nat -> gmap string string -> gmap string string) : M unit :=
  fun st =>
    match faults (world st) with
    | IoFail _ :: _ => sys_noop "fsync" st
    | _ => sys "fsync" id torn st
    end.

(** f.Write(data) on a file opened O_APPEND, then f.Sync() *)
Definition append_and_sync (path data : string) : M unit :=
  w ← get_world;
  let old := default "" (files w !! path) in
  let torn (k : nat) (fs : gmap string string) := <[path := (old ++ str_take k data)%string]> fs in
  _ ← sys "write" (fun fs => <[path := (old ++ data)%string]> fs) torn;
  sync_write torn.

Definition sw_write (sw : segmentWriter) (item : Item) : M segmentWriter :=
  match marshal item with
  | None => fail ErrMarshal
  | Some line =>
      let line := (line ++ String nl "")%string in
      if negb (sw_open sw) then fail ErrClosed
      else
        _ ← append_and_sync (sw_path sw) line;
        let sw := mkWriter (sw_path sw) (sw_open sw)
                    (sw_rawBytes sw + Z.of_nat (String.length line)) (sw_items sw ++ [item])%list in
        _ ← modify_buf (set_active (Some sw));
        mret sw
  end.

Definition sw_seal (sw : segmentWriter) : M sealedSegment :=
  if negb (sw_open sw) then fail ErrClosed
  else
    _ ← modify_buf (set_active (Some (mkWriter (sw_path sw) false (sw_rawBytes sw) (sw_items sw))));
    _ ← sys_noop "close";
    let sealedPath := (trim_suffix (sw_path sw) ".wal" ++ ".wal.zst")%string in
    _ ← writeSealedSegment sealedPath (sw_items sw);
    _ ← sys_remove (sw_path sw);
    size ← stat_size_or sealedPath 0;
    mret (mkSealed sealedPath (first_seq (sw_items sw)) (last_seq (sw_items sw))
            (Z.of_nat (length (sw_items sw))) size).

(** rewrite: truncate to empty, then write everything back *)
Definition sw_rewrite (sw : segmentWriter) : M unit :=
  if negb (sw_open sw) then fail ErrClosed
  else
    _ ← sys_put "truncate" (sw_path sw) "";
    match marshal_lines (sw_items sw) with
    | None => fail ErrMarshal
    | Some text =>
        _ ← append_and_sync (sw_path sw) text;
        modify_buf (set_active (Some
          (mkWriter (sw_path sw) (sw_open sw) (Z.of_nat (String.length text)) (sw_items sw))))
    end.

(** ** Append, Len, Close *)

Definition Append (item : Item) : M Z :=
  b ← get_buf;
  let seq := uint64 (nextSeq b + 1) in
  _ ← modify_buf (set_nextSeq seq);
  let item := with_seq item seq in
  sw ← match active b with
       | Some sw => mret sw
       | None =>
           sw ← newSegmentWriter;
           _ ← modify_buf (set_active (Some sw));
           mret sw
       end;
  sw ← sw_write sw item;
  _ ← modify_buf (fun b => set_totalLen (totalLen b + 1) b);
  _ ← (if segmentBytes b <=? sw_rawBytes sw then
         seg ← sw_seal sw;
         modify_buf (fun b => set_active None (set_sealed (sealed b ++ [seg])%list b))
       else mret tt);
  mret seq.

Definition Len : M Z := b ← get_buf; mret (totalLen b).

Definition Close : M unit :=
  b ← get_buf;
  match active b with
  | None => mret tt
  | Some sw =>
      seg ← sw_seal sw;
      modify_buf (fun b => set_active None (set_sealed (sealed b ++ [seg])%list b))
  end.

(** ** Open and recovery *)

Definition add_recovered (seg : sealedSegment) : M unit :=
  modify_buf (fun b =>
    set_nextSeq (Z.max (nextSeq b) (ss_maxSeq seg))
      (set_totalLen (totalLen b + ss_count seg)
        (set_sealed (sealed b ++ [seg])%list b))).

Fixpoint recover_sealed (paths : list string) : M unit :=
  match paths with
  | [] => mret tt
  | p :: rest =>
      seg ← inspectSealedSegment p;
      _ ← add_recovered seg;
      recover_sealed rest
  end.

Fixpoint recover_orphans (paths : list string) : M unit :=
  match paths with
  | [] => mret tt
  | p :: rest =>
      seg ← sealOrphanedActiveSegment p;
      _ ← (if ss_count seg =? 0 then mret tt else add_recovered seg);
      recover_orphans rest
  end.

Definition file_names (w : World) : list string := (map_to_list (files w)).*1.

Definition is_sealed_name (name : string) : bool := has_suffix ".wal.zst" name.
Definition is_active_name (name : string) : bool :=
  negb (has_suffix ".wal.zst" name) && has_suffix ".wal" name.

Definition recover : M unit :=
  _ ← sys_noop "read dir";
  w ← get_world;
  let sealedPaths := sort_strings (filter (fun n => is_sealed_name n = true) (file_names w)) in
  let activePaths := sort_strings (filter (fun n => is_active_name n = true) (file_names w)) in
  _ ← recover_sealed sealedPaths;
  recover_orphans activePaths.

(** Open with its options: segment size and capacity. *)
Definition empty_buffer (segBytes : Z) (age : Duration) (bytes : Z) : Buffer :=
  mkBuffer segBytes age bytes 0 None [] 0.

Definition Open (segBytes : Z) (age : Duration) (bytes : Z) : M unit :=
  _ ← sys_noop "mkdir";
  _ ← modify_buf (fun _ => empty_buffer segBytes age bytes);
  recover.

(** ** Ack and Backfill (backfill.go) *)

(** the prefix of at most [n] items, read segment by segment *)
Fixpoint oldest_sealed (n : nat) (acc : list Item) (segs : list sealedSegment) : M (list Item) :=
  match segs with
  | [] => mret acc
  | seg :: rest =>
      if (n <=? length acc)%nat then mret acc
      else
        items ← readSealedSegment (ss_path seg);
        oldest_sealed n (acc ++ take (n - length acc) items)%list rest
  end.

Definition oldestItems (n : nat) : M (list Item) :=
  b ← get_buf;
  acc ← oldest_sealed n [] (sealed b);
  match active b with
  | Some sw => mret (acc ++ take (n - length acc) (sw_items sw))%list
  | None => mret acc
  end.

(** the loop of Ack over the sealed segments, returning the kept ones *)
Fixpoint ack_sealed (upToSeq : Z) (segs : list sealedSegment) : M (list sealedSegment) :=
  match segs with
  | [] => mret []
  | seg :: rest =>
      if ss_maxSeq seg <=? upToSeq then
        r ← try_ (sys_remove (ss_path seg));
        match r with
        | Err ErrNotExist | Ok _ =>
            _ ← modify_buf (fun b => set_totalLen (totalLen b - ss_count seg) b);
            ack_sealed upToSeq rest
        | Err e => fail e
        end
      else if upToSeq <? ss_minSeq seg then
        kept ← ack_sealed upToSeq rest;
        mret (seg :: kept)
      else
        items ← readSealedSegment (ss_path seg);
        let remaining := List.filter (fun it => upToSeq <? it_Seq it) items in
        let removed := Z.of_nat (length items - length remaining) in
        match remaining with
        | [] =>
            _ ← sys_remove (ss_path seg);
            _ ← modify_buf (fun b => set_totalLen (totalLen b - ss_count seg) b);
            ack_sealed upToSeq rest
        | _ :: _ =>
            _ ← writeSealedSegment (ss_path seg) remaining;
            size ← stat_size_or (ss_path seg) (ss_byteSize seg);
            _ ← modify_buf (fun b => set_totalLen (totalLen b - removed) b);
            kept ← ack_sealed upToSeq rest;
            mret (mkSealed (ss_path seg) (first_seq remaining) (last_seq remaining)
                    (Z.of_nat (length remaining)) size :: kept)
        end
  end.

Definition Ack (upToSeq : Z) : M unit :=
  b ← get_buf;
  kept ← ack_sealed upToSeq (sealed b);
  _ ← modify_buf (set_sealed kept);
  b ← get_buf;
  match active b with
  | None => mret tt
  | Some sw =>
      let remaining := List.filter (fun it => upToSeq <? it_Seq it) (sw_items sw) in
      let removed := (length (sw_items sw) - length remaining)%nat in
      if (0 <? removed)%nat then
        let sw := mkWriter (sw_path sw) (sw_open sw) (sw_rawBytes sw) remaining in
        _ ← modify_buf (set_active (Some sw));
        _ ← sw_rewrite sw;
        modify_buf (fun b => set_totalLen (totalLen b - Z.of_nat removed) b)
      else mret tt
  end.

Definition DefaultBackfillBatchSize : nat := 200.

(** What happens to one round of Backfill: the context is done, the limiter's wait
    fails, the sender returns an error, or the batch is accepted. *)
Inductive round : Set := RoundCtxDone | RoundLimiter | RoundSendErr | RoundSendOk.

Definition log_batch (items : list Item) (ok : bool) : M unit :=
  modify_world (fun w => mkWorld (files w) (faults w) (drawn w) (clock w) (net w ++ [(items, ok)])%list).

Global Instance round_eq_dec : EqDecision round.
Proof. solve_decision. Defined.

(** Rounds past the end of the list are accepted. *)
Fixpoint Backfill_loop (fuel batchSize : nat) (rounds : list round) : M unit :=
  match fuel with
  | O => fail ErrFuel
  | S fuel' =>
      let r := default RoundSendOk (head rounds) in
      if decide (r = RoundCtxDone) then fail ErrCtx
      else
        items ← oldestItems batchSize;
        if decide (items = []) then mret tt
        else if decide (r = RoundLimiter) then fail ErrLimiter
        else if decide (r = RoundSendErr) then
          _ ← log_batch items false;
          fail ErrSend
        else
          _ ← log_batch items true;
          _ ← Ack (last_seq items);
          Backfill_loop fuel' batchSize (tail rounds)
  end.

(** One more round than there are buffered items is always enough, since every
    round acknowledges at least one ([backfill_spec] in AgentBufferProps). *)
Definition Backfill (optBatchSize : Z) (rounds : list round) : M unit :=
  let batchSize := if optBatchSize <=? 0 then DefaultBackfillBatchSize else Z.to_nat optBatchSize in
  b ← get_buf;
  Backfill_loop (S (Z.to_nat (totalLen b))) batchSize rounds.

(** ** EnforceCapacity (capacity.go) *)

Definition kindOf (it : Item) : string :=
  match it_LogLine it, it_Metric it, it_Inventory it with
  | Some _, _, _ => "log_line"
  | None, Some _, _ => "metric"
  | None, None, Some _ => "inventory"
  | None, None, None => "event"
  end.

Definition oldestTSLocked : M (option Time) :=
  b ← get_buf;
  first ← match sealed b with
          | [] => mret None
          | seg :: _ =>
              r ← try_ (readSealedSegment (ss_path seg));
              match r with
              | Ok (it :: _) => mret (Some (it_TS it))
              | _ => mret None
              end
          end;
  match first with
  | Some t => mret (Some t)
  | None =>
      match active b with
      | Some sw => match sw_items sw with
                   | it :: _ => mret (Some (it_TS it))
                   | [] => mret None
                   end
      | None => mret None
      end
  end.

Definition overCapacityLocked : M bool :=
  b ← get_buf;
  let totalBytes :=
    foldr Z.add 0 (ss_byteSize <$> sealed b)
    + match active b with Some sw => sw_rawBytes sw | None => 0 end in
  if maxBytes b <? totalBytes then mret true
  else
    oldest ← oldestTSLocked;
    match oldest with
    | Some t => w ← get_world; mret (maxAge b <? sub (clock w) t)
    | None => mret false
    end.

(** [consider]: the item of priority [prio] with the lowest sequence so far *)
Definition consider (prio : Z) (best : option Item) (it : Item) : option Item :=
  if negb (it_Priority it =? prio) then best
  else match best with
       | None => Some it
       | Some b => if it_Seq it <? it_Seq b then Some it else best
       end.

Fixpoint consider_sealed (prio : Z) (best : option Item) (segs : list sealedSegment) : M (option Item) :=
  match segs with
  | [] => mret best
  | seg :: rest =>
      r ← try_ (readSealedSegment (ss_path seg));
      let best := match r with
                  | Ok items => fold_left (consider prio) items best
                  | Err _ => best
                  end in
      consider_sealed prio best rest
  end.

Definition oldestWithPriorityLocked (prio : Z) : M (option Item) :=
  b ← get_buf;
  best ← consider_sealed prio None (sealed b);
  mret (match active b with
        | Some sw => fold_left (consider prio) (sw_items sw) best
        | None => best
        end).

Definition findDiscardVictimLocked : M (option Item) :=
  best ← oldestWithPriorityLocked PriorityLogLine;
  match best with
  | Some it => mret (Some it)
  | None => oldestWithPriorityLocked PriorityMetric
  end.

(** the items without the first one of sequence [seq], if there is one *)
Fixpoint remove_seq (seq : Z) (items : list Item) : option (list Item) :=
  match items with
  | [] => None
  | it :: rest =>
      if negb (it_Seq it =? seq) then cons it <$> remove_seq seq rest else Some rest
  end.

Fixpoint remove_sealed (seq : Z) (before : list sealedSegment) (segs : list sealedSegment) : M unit :=
  match segs with
  | [] => fail (ErrItemNotFound seq)
  | seg :: rest =>
      if (seq <? ss_minSeq seg) || (ss_maxSeq seg <? seq) then
        remove_sealed seq (before ++ [seg])%list rest
      else
        items ← readSealedSegment (ss_path seg);
        let filtered := List.filter (fun it => negb (it_Seq it =? seq)) items in
        if (length filtered =? length items)%nat then
          remove_sealed seq (before ++ [seg])%list rest
        else
          _ ← match filtered with
              | [] =>
                  _ ← sys_remove (ss_path seg);
                  modify_buf (set_sealed (before ++ rest)%list)
              | _ :: _ =>
                  _ ← writeSealedSegment (ss_path seg) filtered;
                  size ← stat_size_or (ss_path seg) (ss_byteSize seg);
                  modify_buf (set_sealed
                    (before ++ mkSealed (ss_path seg) (first_seq filtered) (last_seq filtered)
                                 (Z.of_nat (length filtered)) size :: rest)%list)
              end;
          modify_buf (fun b => set_totalLen (totalLen b - 1) b)
  end.

Definition removeItemLocked (seq : Z) : M unit :=
  b ← get_buf;
  match (sw ← active b; items ← remove_seq seq (sw_items sw); Some (sw, items)) with
  | Some (sw, items) =>
      let sw := mkWriter (sw_path sw) (sw_open sw) (sw_rawBytes sw) items in
      _ ← modify_buf (set_active (Some sw));
      _ ← sw_rewrite sw;
      modify_buf (fun b => set_totalLen (totalLen b - 1) b)
  | None => remove_sealed seq [] (sealed b)
  end.

Fixpoint enforce_loop (fuel : nat) (discarded : list DiscardedItem) : M (list DiscardedItem) :=
  match fuel with
  | O => fail ErrFuel
  | S fuel' =>
      over ← overCapacityLocked;
      if negb over then mret discarded
      else
        victim ← findDiscardVictimLocked;
        match victim with
        | None => mret discarded
        | Some it =>
            _ ← removeItemLocked (it_Seq it);
            enforce_loop fuel'
              (discarded ++ [mkDiscarded (it_Seq it) (it_Priority it) (kindOf it)])%list
        end
  end.

(** Every round discards one buffered item, so the number of items plus one bounds
    the rounds ([enforce_capacity_spec] below). *)
Definition EnforceCapacity : M (list DiscardedItem) :=
  b ← get_buf;
  enforce_loop (S (Z.to_nat (totalLen b))) [].

End buffer.
End AgentBuffer.
