(* ===== verification/AgentBufferSpec.v ===== *)
(** * AgentBufferSpec: what the agent's write-ahead log promises

    The abstract view of a [Buffer] (module AgentBuffer) is the list of its
    unacknowledged records, oldest first. [wf st items] relates the detailed state, the
    directory of segment files included, to that list. In a run without I/O faults every
    operation preserves [wf] and is a plain list function on the records: Append adds at
    the end, Ack filters by sequence, oldestItems takes a prefix, EnforceCapacity removes
    records that are not events, Close and Open keep the list. *)

From stdpp Require Import base gmap strings list sorting.
From Stdlib Require Import ZArith Lia Ascii.
From S2P Require Import Prelude GoStd Schema AgentBuffer.
Import GoString GoTime Schema AgentBuffer.

Local Open Scope string_scope.
Local Open Scope Z_scope.

Module AgentBufferSpec.

(** What the buffer relies on of its libraries: zstd decodes what it encodes, and a ULID
    drawn later is greater at the first byte where the two differ (ULIDs have a fixed
    length, so neither is a prefix of the other), whatever suffix is added to them. *)
Class EnvLaws `{Env} := mkEnvLaws {
  zstd_roundtrip : forall s, zstd_dec (zstd_enc s) = Some s;
  ulid_order : forall i j s t, (i < j)%nat ->
    String.compare (ulid i ++ s) (ulid j ++ t) = Lt;
}.

Section spec.
Context `{EnvLaws}.

(** ** Records that survive a round trip through a segment file

    A record is storable when encoding/json writes it as one non-empty line, shorter than
    the reader's 8 MiB limit, that decodes back to it. *)
Definition storable (it : Item) : Prop :=
  exists line, marshal it = Some line /\ unmarshal line = Some it /\ line <> "" /\
    lacks nl line = true /\ drop_cr line = line /\
    Z.of_nat (String.length line) < maxTokenSize.

Definition text (items : list Item) : string := default "" (marshal_lines items).

Definition line_of (it : Item) : string := default "" (marshal it).

Lemma storable_marshal it : storable it -> marshal it = Some (line_of it).
Proof. intros (line & E & _). unfold line_of. by rewrite E. Qed.

Lemma marshal_lines_storable items :
  Forall storable items ->
  marshal_lines items = Some (text items) /\ text items = join_before nl (line_of <$> items).
Proof.
  unfold text. induction 1 as [|it items Hit Hitems [IH1 IH2]]; [done|]. simpl.
  rewrite (storable_marshal _ Hit). destruct (marshal_lines items) as [t|]; [|done].
  simpl in *. by rewrite IH2.
Qed.

Lemma text_app a b :
  Forall storable a -> Forall storable b -> text (a ++ b) = (text a ++ text b)%string.
Proof.
  intros Ha Hb. rewrite (proj2 (marshal_lines_storable _ Ha)), (proj2 (marshal_lines_storable _ Hb)).
  rewrite (proj2 (marshal_lines_storable (a ++ b) (Forall_app_2 _ _ _ Ha Hb))).
  by rewrite fmap_app, join_before_app.
Qed.

Lemma text_singleton it : storable it -> text [it] = (line_of it ++ String nl "")%string.
Proof.
  intros Hs. unfold text. simpl. by rewrite (storable_marshal _ Hs).
Qed.

Lemma split_text_app items rest :
  Forall storable items ->
  split_byte nl (text items ++ rest) = ((line_of <$> items) ++ split_byte nl rest)%list.
Proof.
  intros Hs. rewrite (proj2 (marshal_lines_storable _ Hs)).
  apply split_byte_join_before.
  apply Forall_fmap. eapply Forall_impl; [done|].
  intros it (line & E & _ & _ & El & _). unfold line_of; simpl. by rewrite E.
Qed.

Lemma split_text items :
  Forall storable items -> split_byte nl (text items) = ((line_of <$> items) ++ [""])%list.
Proof. intros Hs. by rewrite <- (str_app_nil_r (text items)), split_text_app. Qed.

Lemma decode_lines_storable items :
  Forall storable items -> decode_lines (line_of <$> items) = Ok items.
Proof.
  induction 1 as [|it items Hit Hitems IH]; [done|].
  destruct Hit as (line & Em & Eu & Ene & _ & Ecr & Elen).
  assert (line_of it = line) as El by (unfold line_of; by rewrite Em).
  rewrite fmap_cons, El. simpl. rewrite (proj2 (Z.leb_gt _ _) Elen), Ecr.
  rewrite bool_decide_false by done. by rewrite Eu, IH.
Qed.

Lemma decode_text items :
  Forall storable items -> decode_lines (scan_lines (text items)) = Ok items.
Proof.
  intros Hs. unfold scan_lines. rewrite (split_text _ Hs), last_snoc.
  rewrite removelast_last. by apply decode_lines_storable.
Qed.

Lemma decode_prefix_lines items rest :
  Forall storable items ->
  decode_prefix ((line_of <$> items) ++ rest)%list = (items ++ decode_prefix rest)%list.
Proof.
  induction 1 as [|it items Hit Hitems IH]; [done|].
  destruct Hit as (line & Em & Eu & Ene & _).
  assert (line_of it = line) as El by (unfold line_of; by rewrite Em).
  rewrite fmap_cons, El. simpl. rewrite bool_decide_false by done. by rewrite Eu, IH.
Qed.

Lemma decode_prefix_text items :
  Forall storable items -> decode_prefix (split_byte nl (text items)) = items.
Proof.
  intros Hs. rewrite (split_text _ Hs), (decode_prefix_lines _ _ Hs). simpl.
  by rewrite app_nil_r.
Qed.

(** ** Segment files *)

Definition sname (k : nat) : string := (ulid k ++ ".wal.zst")%string.
Definition aname (k : nat) : string := (ulid k ++ ".wal")%string.

Definition enc (items : list Item) : string := zstd_enc (text items).

(** the state of a run without faults *)
Definition clean (b : Buffer) (fs : gmap string string) (d : nat) (c : Time)
    (n : list (list Item * bool)) : State := mkState b (mkWorld fs [] d c n).

Lemma bind_ret {A B} (m : M A) (f : A -> M B) st a st' :
  m st = (Ret a, st') -> (m ≫= f) st = f a st'.
Proof. intros E. unfold mbind, M_bind. by rewrite E. Qed.

Lemma modify_clean f b fs d c n :
  modify_buf f (clean b fs d c n) = (Ret tt, clean (f b) fs d c n).
Proof. done. Qed.

Lemma read_clean p items b fs d c n :
  Forall storable items -> fs !! p = Some (enc items) ->
  readSealedSegment p (clean b fs d c n) = (Ret items, clean b fs d c n).
Proof.
  intros Hs E. unfold readSealedSegment, clean. simpl.
  unfold mbind, M_bind, sys_noop, sys, get_world; simpl. rewrite E.
  unfold enc. rewrite zstd_roundtrip, (decode_text _ Hs). done.
Qed.

Lemma write_clean p items b fs d c n :
  Forall storable items ->
  writeSealedSegment p items (clean b fs d c n) = (Ret tt, clean b (<[p := enc items]> fs) d c n).
Proof.
  intros Hs. unfold writeSealedSegment, clean.
  rewrite (proj1 (marshal_lines_storable _ Hs)). done.
Qed.

Lemma stat_clean p dflt items b fs d c n :
  fs !! p = Some (enc items) ->
  stat_size_or p dflt (clean b fs d c n) =
    (Ret (Z.of_nat (String.length (enc items))), clean b fs d c n).
Proof.
  intros E. unfold stat_size_or, stat_size, try_, clean, mbind, M_bind, sys_noop, sys, get_world.
  simpl. by rewrite E.
Qed.

Lemma remove_clean p raw b fs d c n :
  fs !! p = Some raw ->
  sys_remove p (clean b fs d c n) = (Ret tt, clean b (delete p fs) d c n).
Proof.
  intros E. unfold sys_remove, clean, mbind, M_bind, sys, get_world. simpl. by rewrite E.
Qed.

(** *** Names *)

Lemma str_compare_refl s : String.compare s s = Eq.
Proof. pose proof (String.compare_antisym s s) as E. by destruct (String.compare s s). Qed.

Lemma ulid_name_inj i j s t : (ulid i ++ s = ulid j ++ t)%string -> i = j.
Proof.
  intros E. destruct (lt_eq_lt_dec i j) as [[Hl|He]|Hl]; [|done|].
  - apply (ulid_order _ _ s t) in Hl. by rewrite E, str_compare_refl in Hl.
  - apply (ulid_order _ _ t s) in Hl. by rewrite E, str_compare_refl in Hl.
Qed.

Lemma sname_inj i j : sname i = sname j -> i = j.
Proof. apply ulid_name_inj. Qed.

Lemma aname_inj i j : aname i = aname j -> i = j.
Proof. apply ulid_name_inj. Qed.

Lemma sname_aname i j : sname i <> aname j.
Proof.
  intros E. pose proof (ulid_name_inj _ _ _ _ E) as ->. apply (f_equal String.length) in E.
  unfold sname, aname in E. rewrite !str_length_app in E. simpl in E. lia.
Qed.

Lemma seal_name k : (trim_suffix (aname k) ".wal" ++ ".wal.zst")%string = sname k.
Proof. unfold aname, sname. by rewrite trim_suffix_app. Qed.

(** ** The abstraction

    [segs] are the sealed segments, each the number of its ULID and its records; [act] is
    the active segment, if there is one. *)
Definition seg_of (s : nat * list Item) : sealedSegment :=
  mkSealed (sname s.1) (first_seq s.2) (last_seq s.2) (Z.of_nat (length s.2))
    (Z.of_nat (String.length (enc s.2))).

Definition writer_of (s : nat * list Item) : segmentWriter :=
  mkWriter (aname s.1) true (Z.of_nat (String.length (text s.2))) s.2.

Definition act_items (act : option (nat * list Item)) : list Item := from_option snd [] act.

Definition contents (segs : list (nat * list Item)) (act : option (nat * list Item)) : list Item :=
  (concat segs.*2 ++ act_items act)%list.

Definition ids (segs : list (nat * list Item)) (act : option (nat * list Item)) : list nat :=
  (segs.*1 ++ option_list (fst <$> act))%list.

(** A file no tracked segment owns: what recovery of an empty .wal leaves behind. *)
Definition stray (d : nat) (segs : list (nat * list Item)) (act : option (nat * list Item))
    (p raw : string) : Prop :=
  exists k, (k < d)%nat /\ p = sname k /\ raw = enc [] /\ k ∉ segs.*1 /\
    forall ka, fst <$> act = Some ka -> (k < ka)%nat.

Record wf_segs (b : Buffer) (fs : gmap string string) (d : nat)
    (segs : list (nat * list Item)) (act : option (nat * list Item)) : Prop := mkWf {
  wf_sealed : sealed b = seg_of <$> segs;
  wf_active : active b = writer_of <$> act;
  wf_total : totalLen b = Z.of_nat (length (contents segs act));
  wf_seqs : StronglySorted Z.lt (it_Seq <$> contents segs act);
  wf_range : Forall (fun it => 1 <= it_Seq it <= nextSeq b) (contents segs act);
  wf_next : 0 <= nextSeq b;
  wf_store : Forall storable (contents segs act);
  wf_ids : StronglySorted lt (ids segs act);
  wf_drawn : Forall (fun k => (k < d)%nat) (ids segs act);
  wf_file_s : forall k items, (k, items) ∈ segs -> fs !! sname k = Some (enc items);
  wf_file_a : forall k items, act = Some (k, items) -> fs !! aname k = Some (text items);
  wf_other : forall p raw, fs !! p = Some raw ->
    (exists k, k ∈ segs.*1 /\ p = sname k) \/ (exists k, fst <$> act = Some k /\ p = aname k) \/
    stray d segs act p raw;
}.

(** The buffer holds exactly the records [items], oldest first. *)
Definition wf (st : State) (items : list Item) : Prop :=
  exists segs act, wf_segs (buf st) (files (world st)) (drawn (world st)) segs act /\
    contents segs act = items.

(** no I/O fault is scheduled *)
Definition fault_free (st : State) : Prop := faults (world st) = [].

Section shrink.
Variables (b b' : Buffer) (fs fs' : gmap string string) (d : nat).
Variables (segs segs' : list (nat * list Item)) (act act' : option (nat * list Item)).

(** Operations that only remove records. *)
Lemma wf_shrink :
  wf_segs b fs d segs act ->
  sublist segs'.*1 segs.*1 -> fst <$> act' = fst <$> act ->
  sublist (contents segs' act') (contents segs act) ->
  (forall k items, (k, items) ∈ segs' -> fs' !! sname k = Some (enc items)) ->
  (forall k items, act' = Some (k, items) -> fs' !! aname k = Some (text items)) ->
  (forall p raw, fs' !! p = Some raw -> (exists k, k ∈ segs'.*1 /\ p = sname k) \/
     (exists k, fst <$> act' = Some k /\ p = aname k) \/
     (fs !! p = Some raw /\ forall k, k ∈ segs.*1 -> p <> sname k)) ->
  sealed b' = seg_of <$> segs' -> active b' = writer_of <$> act' ->
  nextSeq b' = nextSeq b -> totalLen b' = Z.of_nat (length (contents segs' act')) ->
  wf_segs b' fs' d segs' act'.
Proof.
  intros W Hids Hact Hsub Hs Ha Hother Es Ea En Et.
  assert (sublist (ids segs' act') (ids segs act)) as Hids'.
  { unfold ids. rewrite Hact. by apply sublist_app. }
  destruct W as [W1 W2 W3 W4 W5 W6 W7 W8 W9 W10 W11 W12]. constructor; try done.
  - eapply sorted_sublist; [|exact W4]. by apply fmap_sublist.
  - rewrite En. by eapply sublist_Forall.
  - by rewrite En.
  - by eapply sublist_Forall.
  - by eapply sorted_sublist.
  - by eapply sublist_Forall.
  - intros p raw Hp. destruct (Hother p raw Hp) as [?|[?|[Hold Hnot]]]; [auto|auto|].
    destruct (W12 p raw Hold) as [(k & Hk & ->)|[(k & Hk & ->)|(k & Hd & -> & -> & Hk & Hka)]].
    + by destruct (Hnot k Hk).
    + right. left. exists k. by rewrite Hact.
    + right. right. exists k. repeat split; try done.
      * intros Hin. by apply (Hnot k); [eapply elem_of_sublist|].
      * intros ka. rewrite Hact. auto.
Qed.
End shrink.

(** ** Append and Close *)

Lemma aname_fresh b fs d segs act : wf_segs b fs d segs act -> fs !! aname d = None.
Proof.
  intros W. destruct (fs !! aname d) as [raw|] eqn:E; [|done].
  destruct (wf_other _ _ _ _ _ W _ _ E) as [(k & _ & Ek)|[(k & Hk & Ek)|(k & Hk & Ek & _)]];
    [by destruct (sname_aname k d)| |by destruct (sname_aname k d)].
  apply aname_inj in Ek as <-. destruct act as [[ka its]|]; [|done]. injection Hk as ->.
  pose proof (wf_drawn _ _ _ _ _ W) as Hd. unfold ids in Hd. apply Forall_app in Hd as [_ Hd].
  simpl in Hd. apply Forall_cons in Hd as [Hd _]. lia.
Qed.

Lemma wf_raise_next b fs d segs act x :
  wf_segs b fs d segs act -> nextSeq b <= x -> wf_segs (set_nextSeq x b) fs d segs act.
Proof.
  intros [W1 W2 W3 W4 W5 W6 W7 W8 W9 W10 W11 W12] Hx. constructor; simpl; try done; [|lia].
  eapply Forall_impl; [exact W5|]. simpl. intros. lia.
Qed.

(** a new, empty active segment *)
Lemma wf_new_writer b fs d segs :
  wf_segs b fs d segs None ->
  wf_segs (set_active (Some (writer_of (d, []))) b) (<[aname d := ""]> fs) (S d) segs (Some (d, [])).
Proof.
  intros W. pose proof (aname_fresh _ _ _ _ _ W) as Hfresh.
  destruct W as [W1 W2 W3 W4 W5 W6 W7 W8 W9 W10 W11 W12].
  unfold contents, ids in *. simpl in *. rewrite app_nil_r in *.
  constructor; unfold contents, ids; simpl; rewrite ?app_nil_r; try done.
  - by apply sorted_snoc.
  - apply Forall_app. split; [|repeat constructor; lia].
    eapply Forall_impl; [exact W9|]. simpl. lia.
  - intros k items Hk. rewrite lookup_insert_ne by (symmetry; apply sname_aname). auto.
  - intros k items [= <- <-]. by rewrite lookup_insert_eq.
  - intros p raw Hp. destruct (decide (p = aname d)) as [->|Hne]; [eauto|].
    rewrite lookup_insert_ne in Hp by done.
    destruct (W12 p raw Hp) as [?|[(k & Hk & _)|(k & Hd & -> & -> & Hk & _)]]; [auto|done|].
    right. right. exists k. repeat split; auto. intros ka [= <-]. done.
Qed.

(** one more record in the active segment *)
Lemma wf_push b fs d segs k items it :
  wf_segs b fs d segs (Some (k, items)) -> storable it ->
  Forall (fun x => it_Seq x < it_Seq it) (contents segs (Some (k, items))) ->
  1 <= it_Seq it <= nextSeq b ->
  wf_segs (set_totalLen (totalLen b + 1) (set_active (Some (writer_of (k, items ++ [it])%list)) b))
    (<[aname k := text (items ++ [it])]> fs) d segs (Some (k, items ++ [it])%list).
Proof.
  intros W Hst Hlt Hrange. destruct W as [W1 W2 W3 W4 W5 W6 W7 W8 W9 W10 W11 W12].
  assert (contents segs (Some (k, items ++ [it])%list) =
    contents segs (Some (k, items)) ++ [it])%list as E.
  { unfold contents. simpl. by rewrite app_assoc. }
  constructor; simpl; rewrite ?E; try done.
  - rewrite length_app. simpl. lia.
  - rewrite fmap_app. apply sorted_snoc; [done|]. by apply Forall_fmap.
  - apply Forall_app. split; [done|]. by apply Forall_singleton.
  - apply Forall_app. split; [done|]. by apply Forall_singleton.
  - intros j items' Hj. rewrite lookup_insert_ne by (symmetry; apply sname_aname). auto.
  - intros j items' [= <- <-]. by rewrite lookup_insert_eq.
  - intros p raw Hp. destruct (decide (p = aname k)) as [->|Hne]; [eauto|].
    rewrite lookup_insert_ne in Hp by done. exact (W12 p raw Hp).
Qed.

Lemma contents_seal segs k items :
  contents (segs ++ [(k, items)])%list None = contents segs (Some (k, items)).
Proof. unfold contents. rewrite fmap_app, concat_app. simpl. by rewrite !app_nil_r. Qed.

(** the active segment becomes the newest sealed one *)
Lemma wf_sealed_active b b' fs d segs k items :
  wf_segs b fs d segs (Some (k, items)) ->
  sealed b' = (sealed b ++ [seg_of (k, items)])%list -> active b' = None ->
  nextSeq b' = nextSeq b -> totalLen b' = totalLen b ->
  wf_segs b' (delete (aname k) (<[sname k := enc items]> fs)) d (segs ++ [(k, items)])%list None.
Proof.
  intros [W1 W2 W3 W4 W5 W6 W7 W8 W9 W10 W11 W12] Es Ea En Et.
  pose proof (contents_seal segs k items) as Ec.
  assert (ids (segs ++ [(k, items)])%list None = ids segs (Some (k, items))) as Ei.
  { unfold ids. rewrite fmap_app. simpl. by rewrite app_nil_r. }
  assert (k ∉ segs.*1) as Hk.
  { pose proof (sorted_NoDup _ W8) as Hnd. unfold ids in Hnd. apply NoDup_app in Hnd as (_ & Hd & _).
    intros Hin. by apply (Hd k Hin), list_elem_of_singleton. }
  constructor; rewrite ?Ec, ?Ei, ?En; try done.
  - by rewrite Es, W1, fmap_app.
  - by rewrite Et.
  - intros j items' Hj. rewrite lookup_delete_ne by (symmetry; apply sname_aname).
    apply elem_of_app in Hj as [Hj|Hj%list_elem_of_singleton].
    + rewrite lookup_insert_ne; [auto|]. intros ->%sname_inj.
      apply Hk. by apply list_elem_of_fmap_2 with (f := fst) in Hj.
    + injection Hj as -> ->. by rewrite lookup_insert_eq.
  - intros p raw Hp. apply lookup_delete_Some in Hp as [Hne Hp].
    rewrite fmap_app. destruct (decide (p = sname k)) as [->|Hne'].
    { left. exists k. split; [|done]. apply elem_of_app. right. by apply list_elem_of_singleton. }
    rewrite lookup_insert_ne in Hp by done.
    destruct (W12 p raw Hp) as [(j & Hj & ->)|[(j & Hj & ->)|(j & Hd & -> & -> & Hj & Hka)]].
    + left. exists j. split; [|done]. apply elem_of_app. by left.
    + by injection Hj as ->.
    + right. right. exists j. repeat split; try done. rewrite fmap_app, elem_of_app.
      intros [?|Hj'%list_elem_of_singleton]; [done|]. simpl in Hj'. subst.
      specialize (Hka _ eq_refl). simpl in Hka. lia.
Qed.

Lemma seal_clean k items raw b fs d c n :
  Forall storable items -> fs !! aname k = Some raw ->
  exists b', sw_seal (writer_of (k, items)) (clean b fs d c n) =
    (Ret (seg_of (k, items)), clean b' (delete (aname k) (<[sname k := enc items]> fs)) d c n)
    /\ sealed b' = sealed b /\ nextSeq b' = nextSeq b /\ totalLen b' = totalLen b.
Proof.
  intros Hs Hf. unfold sw_seal. cbn [sw_open writer_of negb sw_path sw_items fst snd].
  eexists. split; [|shelve].
  erewrite bind_ret by done. erewrite bind_ret by done. cbn zeta. rewrite seal_name.
  erewrite bind_ret by (by apply write_clean).
  erewrite bind_ret.
  2: { eapply remove_clean. rewrite lookup_insert_ne; [done|apply sname_aname]. }
  erewrite bind_ret.
  2: { apply stat_clean. rewrite lookup_delete_ne by (symmetry; apply sname_aname).
       by rewrite lookup_insert_eq. }
  reflexivity.
  Unshelve. done.
Qed.

Lemma write_active_clean k items it b fs d c n :
  Forall storable items -> storable it -> fs !! aname k = Some (text items) ->
  sw_write (writer_of (k, items)) it (clean b fs d c n) =
    (Ret (writer_of (k, items ++ [it])%list),
     clean (set_active (Some (writer_of (k, items ++ [it])%list)) b)
       (<[aname k := text (items ++ [it])]> fs) d c n).
Proof.
  intros Hs Hit Hf. unfold sw_write. rewrite (storable_marshal _ Hit).
  assert (text (items ++ [it]) = text items ++ (line_of it ++ String nl ""))%string as Et.
  { rewrite text_app, text_singleton; [done|done|done|by repeat constructor]. }
  unfold writer_of. cbn [sw_open negb sw_path sw_items sw_rawBytes fst snd].
  unfold append_and_sync, sync_write, mbind, M_bind, get_world, sys, clean. simpl.
  rewrite Hf. simpl. rewrite Et, !str_length_app, !Nat2Z.inj_add. done.
Qed.

(** What a fault-free operation leaves alone: the outside world apart from the files. *)
Definition same_outside (st st' : State) : Prop :=
  fault_free st' /\ clock (world st') = clock (world st) /\ net (world st') = net (world st).

Lemma clean_eta st : fault_free st ->
  st = clean (buf st) (files (world st)) (drawn (world st)) (clock (world st)) (net (world st)).
Proof. destruct st as [b [fs fl d c n]]. unfold fault_free. simpl. by intros ->. Qed.

Lemma Forall_lt_next b fs d segs act x :
  wf_segs b fs d segs act -> nextSeq b < x -> Forall (fun it => it_Seq it < x) (contents segs act).
Proof.
  intros W Hx. eapply Forall_impl; [apply (wf_range _ _ _ _ _ W)|]. simpl. intros. lia.
Qed.

Lemma wf_store_act b fs d segs k items :
  wf_segs b fs d segs (Some (k, items)) -> Forall storable items.
Proof. intros W. pose proof (wf_store _ _ _ _ _ W) as Hs. by apply Forall_app in Hs as [_ Hs]. Qed.

(** Append once there is an active segment *)
Lemma push_clean b fs d c n segs k items it :
  let b0 := set_nextSeq (nextSeq b + 1) b in
  wf_segs b fs d segs (Some (k, items)) -> storable it -> it_Seq it = nextSeq b + 1 ->
  exists b' fs',
    (sw ← sw_write (writer_of (k, items)) it;
     _ ← modify_buf (fun b => set_totalLen (totalLen b + 1) b);
     _ ← (if segmentBytes b <=? sw_rawBytes sw then
            seg ← sw_seal sw;
            modify_buf (fun b => set_active None (set_sealed (sealed b ++ [seg])%list b))
          else mret tt);
     mret (nextSeq b + 1)) (clean b0 fs d c n) = (Ret (nextSeq b + 1), clean b' fs' d c n) /\
    nextSeq b' = nextSeq b + 1 /\
    exists segs' act', wf_segs b' fs' d segs' act' /\
      contents segs' act' = (contents segs (Some (k, items)) ++ [it])%list.
Proof.
  intros b0 W Hit Hseq.
  assert (wf_segs b0 fs d segs (Some (k, items))) as W0 by (apply wf_raise_next; [done|lia]).
  pose proof (wf_next _ _ _ _ _ W) as Hn0.
  pose proof (wf_push _ _ _ _ _ _ it W0 Hit
    ltac:(apply (Forall_lt_next _ _ _ _ _ _ W); lia) ltac:(simpl; lia)) as W1.
  pose proof (wf_store_act _ _ _ _ _ _ W1) as Hst1.
  assert (contents segs (Some (k, items ++ [it])%list) =
    contents segs (Some (k, items)) ++ [it])%list as Ec by (unfold contents; simpl; by rewrite app_assoc).
  erewrite bind_ret by (apply write_active_clean; [by eapply wf_store_act|done|];
    by apply (wf_file_a _ _ _ _ _ W)).
  erewrite bind_ret by done.
  destruct (segmentBytes b <=? _).
  - destruct (seal_clean k (items ++ [it])%list (text (items ++ [it]))
      (set_totalLen (totalLen b0 + 1) (set_active (Some (writer_of (k, items ++ [it])%list)) b0))
      (<[aname k := text (items ++ [it])]> fs) d c n) as (b2 & Eseal & Es & En & Et);
      [done|by rewrite lookup_insert_eq|].
    erewrite bind_ret by (erewrite bind_ret by exact Eseal; reflexivity).
    eexists _, _. split; [reflexivity|]. split; [by simpl; rewrite En|].
    eexists _, None. split; [|by rewrite contents_seal].
    eapply wf_sealed_active; [exact W1|simpl; by rewrite Es|done|done|done].
  - eexists _, _. split; [reflexivity|]. split; [done|]. eauto.
Qed.

Lemma Append_clean b fs d c n segs act it :
  wf_segs b fs d segs act -> nextSeq b + 1 < 2 ^ 64 -> storable (with_seq it (nextSeq b + 1)) ->
  exists b' fs' d', Append it (clean b fs d c n) = (Ret (nextSeq b + 1), clean b' fs' d' c n) /\
    nextSeq b' = nextSeq b + 1 /\
    exists segs' act', wf_segs b' fs' d' segs' act' /\
      contents segs' act' = (contents segs act ++ [with_seq it (nextSeq b + 1)])%list.
Proof.
  intros W Hlt Hst. pose proof (wf_next _ _ _ _ _ W) as Hn. unfold Append.
  erewrite bind_ret by done. cbn [buf clean].
  assert (uint64 (nextSeq b + 1) = nextSeq b + 1) as -> by (apply wrap_u_small; lia).
  erewrite bind_ret by done. rewrite (wf_active _ _ _ _ _ W).
  destruct act as [[k items]|]; simpl.
  - erewrite bind_ret by done.
    destruct (push_clean b fs d c n segs k items (with_seq it (nextSeq b + 1)) W Hst eq_refl)
      as (b' & fs' & E & En & Hwf). eexists b', fs', d. eauto.
  - pose proof (wf_new_writer _ _ _ _ W) as W'.
    erewrite bind_ret.
    2: { unfold newSegmentWriter, newULIDName, mbind, M_bind, get_world, modify_world, sys_put, sys. simpl.
         change (ulid d ++ ".wal")%string with (aname d). rewrite (aname_fresh _ _ _ _ _ W). reflexivity. }
    destruct (push_clean _ _ (S d) c n segs d [] (with_seq it (nextSeq b + 1)) W' Hst eq_refl)
      as (b' & fs' & E & En & segs' & act' & Hwf & Ec). eexists b', fs', (S d). split; [exact E|].
    split; [done|]. exists segs', act'. split; [done|]. rewrite Ec. unfold contents. simpl. done.
Qed.

Lemma Close_clean b fs d c n segs act :
  wf_segs b fs d segs act ->
  exists b' fs', Close (clean b fs d c n) = (Ret tt, clean b' fs' d c n) /\
    nextSeq b' = nextSeq b /\
    exists segs', wf_segs b' fs' d segs' None /\ contents segs' None = contents segs act.
Proof.
  intros W. unfold Close. erewrite bind_ret by done. cbn [buf clean]. rewrite (wf_active _ _ _ _ _ W).
  destruct act as [[k items]|]; simpl; [|by eauto 10].
  destruct (seal_clean k items (text items) b fs d c n) as (b' & E & Es & En & Et);
    [by eapply wf_store_act|by apply (wf_file_a _ _ _ _ _ W)|].
  erewrite bind_ret by exact E. eexists _, _. split; [reflexivity|]. split; [done|].
  exists (segs ++ [(k, items)])%list. split; [|apply contents_seal].
  eapply wf_sealed_active; [exact W|simpl; by rewrite Es|done|done|done].
Qed.

(** ** Reading and acknowledging *)

(** What reading a sealed segment needs to know of it. *)
Definition seg_ready (fs : gmap string string) (s : nat * list Item) : Prop :=
  fs !! sname s.1 = Some (enc s.2) /\ Forall storable s.2 /\
  StronglySorted Z.lt (it_Seq <$> s.2) /\ Forall (fun it => 1 <= it_Seq it) s.2.

Lemma elem_concat {A B} (segs : list (A * list B)) k items x :
  (k, items) ∈ segs -> x ∈ items -> x ∈ concat segs.*2.
Proof.
  intros Hk Hx. apply list_elem_of_In, in_concat. exists items.
  rewrite <- !list_elem_of_In. split; [|done]. by apply list_elem_of_fmap_2 with (f := snd) in Hk.
Qed.

Lemma seg_sublist {A B} (segs : list (A * list B)) k items :
  (k, items) ∈ segs -> sublist items (concat segs.*2).
Proof.
  intros (l1 & l2 & ->)%list_elem_of_split. rewrite fmap_app, concat_app. simpl.
  apply sublist_inserts_l, sublist_inserts_r. done.
Qed.

Lemma wf_ready b fs d segs act : wf_segs b fs d segs act -> Forall (seg_ready fs) segs.
Proof.
  intros W. apply Forall_forall. intros [k items] Hk.
  assert (sublist items (contents segs act)) as Hsub.
  { unfold contents. apply sublist_inserts_r. by eapply seg_sublist. }
  split; [by apply (wf_file_s _ _ _ _ _ W)|].
  split; [eapply sublist_Forall; [exact Hsub|]; by apply (wf_store _ _ _ _ _ W)|].
  split; [eapply sorted_sublist; [by apply fmap_sublist|]; by apply (wf_seqs _ _ _ _ _ W)|].
  eapply sublist_Forall; [exact Hsub|]. eapply Forall_impl; [apply (wf_range _ _ _ _ _ W)|].
  simpl. lia.
Qed.

Lemma wf_NoDup b fs d segs act : wf_segs b fs d segs act -> NoDup segs.*1.
Proof.
  intros W. pose proof (sorted_NoDup _ (wf_ids _ _ _ _ _ W)) as Hnd. by apply NoDup_app in Hnd as [? _].
Qed.

Lemma oldest_sealed_clean m segs acc b fs d c n :
  Forall (fun s => fs !! sname s.1 = Some (enc s.2) /\ Forall storable s.2) segs ->
  oldest_sealed m acc (seg_of <$> segs) (clean b fs d c n) =
    (Ret (acc ++ take (m - length acc) (concat segs.*2))%list, clean b fs d c n).
Proof.
  intros Hs. revert acc. induction Hs as [|[k items] segs (Hf & Hst) Hs IH]; intros acc; simpl.
  - by rewrite take_nil, app_nil_r.
  - destruct (Nat.leb_spec m (length acc)).
    + replace (m - length acc)%nat with 0%nat by lia. by rewrite take_0, app_nil_r.
    + erewrite bind_ret by (by apply read_clean). rewrite IH.
      rewrite take_app, <- app_assoc, length_app, length_take. cbn [snd].
      by replace (m - (length acc + _))%nat with (m - length acc - length items)%nat by lia.
Qed.

Lemma oldestItems_clean m b fs d c n segs act :
  wf_segs b fs d segs act ->
  oldestItems m (clean b fs d c n) = (Ret (take m (contents segs act)), clean b fs d c n).
Proof.
  intros W. unfold oldestItems. erewrite bind_ret by done. cbn [buf clean].
  rewrite (wf_sealed _ _ _ _ _ W). erewrite bind_ret.
  2: { apply oldest_sealed_clean. eapply Forall_impl; [by eapply wf_ready|].
       intros s (? & ? & _). done. }
  rewrite (wf_active _ _ _ _ _ W). unfold contents. rewrite take_app. simpl.
  replace (m - 0)%nat with m by lia. destruct act as [[k items]|]; simpl.
  - rewrite length_take.
    by replace (m - _ `min` _)%nat with (m - length (concat segs.*2))%nat by lia.
  - by rewrite take_nil, app_nil_r.
Qed.

Definition unacked (upToSeq : Z) (items : list Item) : list Item :=
  List.filter (fun it => upToSeq <? it_Seq it) items.

Lemma unacked_app m a b : unacked m (a ++ b)%list = (unacked m a ++ unacked m b)%list.
Proof. apply List.filter_app. Qed.

Lemma filter_full {A} (f : A -> bool) l :
  (length l <= length (List.filter f l))%nat -> List.filter f l = l.
Proof.
  induction l as [|x l IH]; simpl; [done|]. destruct (f x); simpl; intros Hl.
  - f_equal. apply IH. lia.
  - pose proof (filter_length_le f l). lia.
Qed.

Fixpoint ack_segs (m : Z) (segs : list (nat * list Item)) : list (nat * list Item) :=
  match segs with
  | [] => []
  | (k, items) :: rest =>
      match unacked m items with
      | [] => ack_segs m rest
      | r => (k, r) :: ack_segs m rest
      end
  end.

Fixpoint ack_files (m : Z) (segs : list (nat * list Item)) (fs : gmap string string) :
    gmap string string :=
  match segs with
  | [] => fs
  | (k, items) :: rest =>
      ack_files m rest
        match unacked m items with
        | [] => delete (sname k) fs
        | r => <[sname k := enc r]> fs
        end
  end.

Lemma ack_segs_concat m segs : concat (ack_segs m segs).*2 = unacked m (concat segs.*2).
Proof.
  induction segs as [|[k items] segs IH]; [done|]. rewrite fmap_cons. cbn [concat snd ack_segs].
  rewrite unacked_app, <- IH. destruct (unacked m items) as [|it r]; done.
Qed.

Lemma ack_segs_ids m segs : sublist (ack_segs m segs).*1 segs.*1.
Proof.
  induction segs as [|[k items] segs IH]; [done|]. simpl.
  destruct (unacked m items); simpl; by constructor.
Qed.

Lemma ack_files_ne m segs fs p :
  (forall k, k ∈ segs.*1 -> p <> sname k) -> ack_files m segs fs !! p = fs !! p.
Proof.
  revert fs. induction segs as [|[k items] segs IH]; intros fs Hp; [done|]. simpl.
  rewrite IH by (intros j Hj; apply Hp; by right).
  assert (p <> sname k) by (apply Hp; by left).
  destruct (unacked m items); [by rewrite lookup_delete_ne|by rewrite lookup_insert_ne].
Qed.

Lemma ack_files_lookup m segs fs k :
  NoDup segs.*1 -> k ∈ segs.*1 ->
  (exists items, (k, items) ∈ ack_segs m segs /\ ack_files m segs fs !! sname k = Some (enc items)
     /\ forall items', (k, items') ∈ ack_segs m segs -> items' = items) \/
  (k ∉ (ack_segs m segs).*1 /\ ack_files m segs fs !! sname k = None).
Proof.
  revert fs. induction segs as [|[j items] segs IH]; intros fs Hnd Hk; [by apply not_elem_of_nil in Hk|].
  simpl in *. apply NoDup_cons in Hnd as [Hj Hnd].
  assert (j ∉ (ack_segs m segs).*1) as Hj' by (intros Hin; by eapply Hj, elem_of_sublist, ack_segs_ids).
  assert (forall its, (j, its) ∉ ack_segs m segs) as Hj''.
  { intros its Hin. apply Hj'. by apply (list_elem_of_fmap_2 fst) in Hin. }
  apply elem_of_cons in Hk as [->|Hk].
  - rewrite ack_files_ne by (intros i Hi E%sname_inj; by subst).
    destruct (unacked m items) as [|it r].
    + right. split; [done|apply lookup_delete_eq].
    + left. exists (it :: r). split; [by left|]. split; [apply lookup_insert_eq|].
      intros its [[=]|Hin]%elem_of_cons; [done|by apply Hj'' in Hin].
  - assert (k <> j) as Hne by (intros ->; done).
    destruct (IH match unacked m items with
        | [] => delete (sname j) fs
        | r => <[sname j := enc r]> fs
        end Hnd Hk) as [(its & Hin & E & Hu)|[Hin E]]; rewrite E.
    + left. exists its. destruct (unacked m items); [done|]. split; [by right|]. split; [done|].
      intros its' [[=]|Hin']%elem_of_cons; [congruence|auto].
    + right. split; [|done]. destruct (unacked m items); [done|]. simpl.
      intros [?|?]%elem_of_cons; done.
Qed.

Lemma seq_bounds items it :
  StronglySorted Z.lt (it_Seq <$> items) -> it ∈ items ->
  first_seq items <= it_Seq it <= last_seq items.
Proof.
  intros Hs (l1 & l2 & ->)%list_elem_of_split. rewrite fmap_app, fmap_cons in Hs. split.
  - destruct l1 as [|x l1]; simpl; [done|]. simpl in Hs. apply StronglySorted_inv in Hs as [_ Hx].
    rewrite Forall_forall in Hx. apply Z.lt_le_incl, Hx, elem_of_app. right. by left.
  - unfold last_seq. rewrite last_app_cons. apply sorted_app_inv in Hs as [_ Hs].
    apply StronglySorted_inv in Hs as [_ Hx]. rewrite Forall_forall in Hx.
    destruct (last (it :: l2)) as [y|] eqn:E; [|by apply last_None in E].
    apply last_Some in E as (l & E). destruct l as [|z l]; simplify_eq/=; [done|].
    apply Z.lt_le_incl, Hx, list_elem_of_fmap_2, elem_of_app. right. by left.
Qed.

Lemma unacked_nil m items :
  StronglySorted Z.lt (it_Seq <$> items) -> last_seq items <= m -> unacked m items = [].
Proof.
  intros Hs Hl. unfold unacked. destruct (List.filter _ items) as [|it r] eqn:E; [done|].
  assert (In it (it :: r)) as Hin by by left. rewrite <- E in Hin.
  apply filter_In in Hin as [Hin Hlt]. apply list_elem_of_In in Hin.
  pose proof (seq_bounds _ _ Hs Hin). zbool. lia.
Qed.

Lemma unacked_id m items :
  StronglySorted Z.lt (it_Seq <$> items) -> m < first_seq items -> unacked m items = items.
Proof.
  intros Hs Hf. unfold unacked. rewrite forallb_filter_id; [done|].
  apply forallb_forall. intros it Hin. apply list_elem_of_In in Hin.
  pose proof (seq_bounds _ _ Hs Hin). apply Z.ltb_lt. lia.
Qed.

Lemma ack_sealed_clean m segs b fs d c n :
  0 <= m -> NoDup segs.*1 -> Forall (seg_ready fs) segs ->
  ack_sealed m (seg_of <$> segs) (clean b fs d c n) =
    (Ret (seg_of <$> ack_segs m segs),
     clean (set_totalLen (totalLen b - (Z.of_nat (length (concat segs.*2)) -
              Z.of_nat (length (unacked m (concat segs.*2))))) b)
       (ack_files m segs fs) d c n).
Proof.
  intros Hm. revert b fs. induction segs as [|[k items] segs IH]; intros b fs Hnd Hs.
  { simpl. unfold mret, M_ret. rewrite Z.sub_0_r. by destruct b. }
  rewrite fmap_cons in Hnd.
  apply NoDup_cons in Hnd as [Hk Hnd]. apply Forall_cons in Hs as [(Hf & Hst & Hsort & _) Hs].
  cbn [fst snd] in *.
  assert (forall x, Forall (seg_ready (<[sname k := x]> fs)) segs /\
                    Forall (seg_ready (delete (sname k) fs)) segs) as Hs'.
  { intros x. rewrite !Forall_forall in *. split; intros [j its] Hj; destruct (Hs _ Hj) as [E ?];
      (split; [|done]); simpl in *; rewrite ?lookup_insert_ne, ?lookup_delete_ne; try done;
      intros Ej%sname_inj; subst; apply Hk; by apply (list_elem_of_fmap_2 fst) in Hj. }
  rewrite !fmap_cons. cbn [concat ack_sealed seg_of ss_maxSeq ss_minSeq ss_path ss_count ss_byteSize fst snd
    ack_segs ack_files].
  rewrite unacked_app, !length_app.
  destruct (Z.leb_spec (last_seq items) m) as [Hle|Hgt]; [|destruct (Z.ltb_spec m (first_seq items))].
  - rewrite (unacked_nil m items) by done.
    erewrite bind_ret by (unfold try_; erewrite remove_clean by done; reflexivity).
    cbv beta iota. erewrite bind_ret by apply modify_clean. rewrite IH by (try done; by apply (Hs' "")).
    do 2 f_equal. unfold set_totalLen. simpl. f_equal. lia.
  - rewrite (unacked_id m items) by done. destruct items as [|it r]; [simpl in *; lia|].
    erewrite bind_ret by (by apply IH). rewrite insert_id by done.
    unfold mret, M_ret. do 2 f_equal. unfold set_totalLen. simpl. f_equal. lia.
  - erewrite bind_ret by (by apply read_clean). cbn zeta. fold (unacked m items).
    pose proof (filter_length_le (fun it => m <? it_Seq it) items) as Hlen. fold (unacked m items) in Hlen.
    assert (Forall storable (unacked m items)) as Hst' by (eapply sublist_Forall; [apply filter_sublist|done]).
    destruct (unacked m items) as [|it r] eqn:Eu.
    + erewrite bind_ret by (by eapply remove_clean). erewrite bind_ret by apply modify_clean.
      rewrite IH by (try done; by apply (Hs' "")).
      do 2 f_equal. unfold set_totalLen. simpl. f_equal. lia.
    + erewrite bind_ret by (by apply write_clean).
      erewrite bind_ret by (apply stat_clean, lookup_insert_eq). erewrite bind_ret by apply modify_clean.
      erewrite bind_ret by (apply IH; [done|by apply Hs']).
      unfold mret, M_ret. do 2 f_equal. unfold set_totalLen. simpl in *. f_equal. lia.
Qed.

Lemma rewrite_clean k items b fs d c n x :
  Forall storable items ->
  sw_rewrite (mkWriter (aname k) true x items) (clean b fs d c n) =
    (Ret tt, clean (set_active (Some (writer_of (k, items))) b) (<[aname k := text items]> fs) d c n).
Proof.
  intros Hs. unfold sw_rewrite. cbn [sw_open negb sw_path sw_items].
  rewrite (proj1 (marshal_lines_storable _ Hs)).
  unfold append_and_sync, sync_write, mbind, M_bind, get_world, sys_put, sys, clean, modify_buf. simpl.
  rewrite lookup_insert_eq. simpl. rewrite insert_insert_eq. done.
Qed.

Definition ack_act (m : Z) (act : option (nat * list Item)) : option (nat * list Item) :=
  (fun s => (s.1, unacked m s.2)) <$> act.

Lemma ack_contents m segs act :
  contents (ack_segs m segs) (ack_act m act) = unacked m (contents segs act).
Proof.
  unfold contents. rewrite unacked_app, ack_segs_concat. by destruct act as [[k items]|].
Qed.

(** the files after an Ack: the sealed segments, then the active one *)
Definition ack_all_files (m : Z) (segs : list (nat * list Item)) (act : option (nat * list Item))
    (fs : gmap string string) : gmap string string :=
  match act with
  | Some (k, items) => <[aname k := text (unacked m items)]> (ack_files m segs fs)
  | None => ack_files m segs fs
  end.

Lemma wf_ack b b' fs d segs act m :
  wf_segs b fs d segs act ->
  sealed b' = seg_of <$> ack_segs m segs -> active b' = writer_of <$> ack_act m act ->
  nextSeq b' = nextSeq b ->
  totalLen b' = Z.of_nat (length (unacked m (contents segs act))) ->
  wf_segs b' (ack_all_files m segs act fs) d (ack_segs m segs) (ack_act m act).
Proof.
  intros W Es Ea En Et. pose proof (wf_NoDup _ _ _ _ _ W) as Hnd.
  assert (forall k, ack_all_files m segs act fs !! sname k = ack_files m segs fs !! sname k) as Hsn.
  { intros k. unfold ack_all_files. destruct act as [[j items]|]; [|done].
    rewrite lookup_insert_ne; [done|]. intros E. by apply (sname_aname k j). }
  eapply wf_shrink; try done.
  - apply ack_segs_ids.
  - by destruct act as [[k items]|].
  - rewrite ack_contents. apply filter_sublist.
  - intros k items Hk. rewrite Hsn.
    assert (k ∈ (ack_segs m segs).*1) as Hk' by (by apply (list_elem_of_fmap_2 fst) in Hk).
    destruct (ack_files_lookup m segs fs k Hnd) as [(its & _ & E & Hu)|[Hnot _]]; [|by rewrite E, (Hu _ Hk)|done].
    eapply elem_of_sublist, ack_segs_ids. done.
  - intros k items. destruct act as [[j its]|]; [|done]. intros [= <- <-]. simpl. by rewrite lookup_insert_eq.
  - intros p raw Hp. destruct (decide (p ∈ sname <$> segs.*1)) as [(k & -> & Hk)%list_elem_of_fmap|Hp'].
    + rewrite Hsn in Hp. left. exists k. split; [|done].
      destruct (ack_files_lookup m segs fs k Hnd Hk) as [(its & Hin & _)|[_ E]]; [|by rewrite E in Hp].
      by apply (list_elem_of_fmap_2 fst) in Hin.
    + assert (forall k, k ∈ segs.*1 -> p <> sname k) as Hne.
      { intros k Hk ->. by apply Hp', list_elem_of_fmap_2. }
      right. unfold ack_all_files in Hp. destruct act as [[j its]|]; simpl.
      * destruct (decide (p = aname j)) as [->|Hj]; [left; eauto|]. right.
        rewrite lookup_insert_ne in Hp by done. by rewrite ack_files_ne in Hp.
      * right. by rewrite ack_files_ne in Hp.
  - by rewrite ack_contents.
Qed.

Lemma Ack_clean m b fs d c n segs act :
  0 <= m -> wf_segs b fs d segs act ->
  exists b' fs', Ack m (clean b fs d c n) = (Ret tt, clean b' fs' d c n) /\
    nextSeq b' = nextSeq b /\ wf_segs b' fs' d (ack_segs m segs) (ack_act m act).
Proof.
  intros Hm W. pose proof (wf_total _ _ _ _ _ W) as Ht. unfold contents in Ht. rewrite length_app in Ht.
  unfold Ack. erewrite bind_ret by done. cbn [buf clean]. rewrite (wf_sealed _ _ _ _ _ W).
  erewrite bind_ret by (apply ack_sealed_clean; [done|by eapply wf_NoDup|by eapply wf_ready]).
  erewrite bind_ret by apply modify_clean. erewrite bind_ret by done. cbn [buf clean active set_sealed set_totalLen].
  rewrite (wf_active _ _ _ _ _ W). destruct act as [[k items]|] eqn:Ea; simpl.
  - fold (unacked m items).
    pose proof (filter_length_le (fun it => m <? it_Seq it) items) as Hlen. fold (unacked m items) in Hlen.
    destruct (Nat.ltb_spec 0 (length items - length (unacked m items))) as [Hlt|Hge].
    + erewrite bind_ret by apply modify_clean.
      erewrite bind_ret.
      2: { apply rewrite_clean. eapply sublist_Forall; [apply filter_sublist|]. by eapply wf_store_act. }
      eexists _, _. split; [apply modify_clean|]. split; [done|].
      eapply (wf_ack _ _ _ _ _ (Some (k, items))); try done. simpl. unfold contents in *. simpl in *.
      rewrite unacked_app, length_app. lia.
    + assert (unacked m items = items) as Eu.
      { apply filter_full. fold (unacked m items). lia. }
      eexists _, _. split; [reflexivity|]. split; [done|].
      assert (fs !! aname k = Some (text items)) as Ek by by apply (wf_file_a _ _ _ _ _ W).
      assert (ack_files m segs fs = ack_all_files m segs (Some (k, items)) fs) as ->.
      { unfold ack_all_files. rewrite Eu, insert_id; [done|]. rewrite ack_files_ne; [done|].
        intros j _ E. by apply (sname_aname j k). }
      eapply (wf_ack _ _ _ _ _ (Some (k, items))); try done; simpl; rewrite ?Eu; [by rewrite (wf_active _ _ _ _ _ W)|].
      unfold contents in *. simpl in *. rewrite unacked_app, length_app, Eu. lia.
  - eexists _, _. split; [reflexivity|]. split; [done|].
    eapply (wf_ack _ _ _ _ _ None); try done; simpl; [by rewrite (wf_active _ _ _ _ _ W)|].
    unfold contents in *. simpl in *. rewrite app_nil_r. lia.
Qed.

(** ** Discarding over capacity *)

Definition without (seq : Z) (items : list Item) : list Item :=
  List.filter (fun it => negb (it_Seq it =? seq)) items.

Lemma without_app x a b : without x (a ++ b)%list = (without x a ++ without x b)%list.
Proof. apply List.filter_app. Qed.

Lemma without_notin x items : x ∉ it_Seq <$> items -> without x items = items.
Proof.
  intros Hx. unfold without. apply forallb_filter_id, forallb_forall. intros it Hin.
  apply negb_true_iff, Z.eqb_neq. intros <-. apply Hx, list_elem_of_fmap_2. by apply list_elem_of_In.
Qed.

Lemma sorted_seqs_NoDup items : StronglySorted Z.lt (it_Seq <$> items) -> NoDup (it_Seq <$> items).
Proof.
  induction items as [|it items IH]; simpl; intros Hs; [constructor|].
  apply StronglySorted_inv in Hs as [Hs Hx]. constructor; [|auto].
  intros Hin. rewrite Forall_forall in Hx. specialize (Hx _ Hin). lia.
Qed.

Lemma without_cons it items :
  NoDup (it_Seq <$> (it :: items)) -> without (it_Seq it) (it :: items) = items.
Proof.
  intros [Hn _]%NoDup_cons. simpl. rewrite Z.eqb_refl. simpl. by apply without_notin.
Qed.

Lemma length_without x items :
  NoDup (it_Seq <$> items) -> x ∈ it_Seq <$> items ->
  length items = S (length (without x items)).
Proof.
  intros Hnd (it & -> & (l1 & l2 & ->)%list_elem_of_split)%list_elem_of_fmap.
  rewrite fmap_app in Hnd. apply NoDup_app in Hnd as (_ & Hd & Hnd).
  rewrite without_app, (without_cons it l2 Hnd), without_notin, !length_app; [simpl; lia|].
  intros Hin. apply (Hd _ Hin). by left.
Qed.

Lemma remove_seq_spec x items :
  NoDup (it_Seq <$> items) ->
  remove_seq x items = if decide (x ∈ it_Seq <$> items) then Some (without x items) else None.
Proof.
  induction items as [|it items IH]; intros Hnd; [done|]. simpl.
  destruct (Z.eqb_spec (it_Seq it) x) as [<-|Hne]; simpl.
  - rewrite decide_True by by left. f_equal. symmetry. apply without_notin. by apply NoDup_cons in Hnd as [? _].
  - rewrite IH by (by apply NoDup_cons in Hnd as [_ ?]).
    destruct (decide (x ∈ it_Seq <$> items)) as [Hin|Hin]; simpl.
    + rewrite decide_True; [done|]. apply elem_of_cons. by right.
    + rewrite decide_False; [done|]. intros [?|?]%elem_of_cons; done.
Qed.

(** the sealed segments once record [x] of segment [k] is gone *)
Definition drop_from (x : Z) (k : nat) (items : list Item) : list (nat * list Item) :=
  match without x items with [] => [] | r => [(k, r)] end.

Definition drop_files (x : Z) (k : nat) (items : list Item) (fs : gmap string string) :
    gmap string string :=
  match without x items with [] => delete (sname k) fs | r => <[sname k := enc r]> fs end.

Lemma remove_sealed_clean x l1 k items l2 before b fs d c n :
  Forall (seg_ready fs) (l1 ++ (k, items) :: l2)%list ->
  x ∉ it_Seq <$> concat l1.*2 -> x ∈ it_Seq <$> items ->
  remove_sealed x before (seg_of <$> (l1 ++ (k, items) :: l2))%list (clean b fs d c n) =
    (Ret tt, clean (set_totalLen (totalLen b - 1)
               (set_sealed (before ++ (seg_of <$> (l1 ++ drop_from x k items ++ l2)))%list b))
       (drop_files x k items fs) d c n).
Proof.
  revert before. induction l1 as [|[j its] l1 IH]; intros before Hs Hx1 Hx.
  - clear Hx1. rewrite !app_nil_l, fmap_cons in *. cbn [remove_sealed seg_of ss_minSeq ss_maxSeq ss_path ss_byteSize fst snd].
    apply Forall_cons in Hs as [(Hf & Hst & Hsort & _) _]. cbn [fst snd] in *.
    pose proof (length_without x items (sorted_seqs_NoDup _ Hsort) Hx) as Hlen.
    assert (Forall storable (without x items)) as Hst' by (eapply sublist_Forall; [apply filter_sublist|done]).
    apply list_elem_of_fmap in Hx as (it & -> & Hin). pose proof (seq_bounds _ _ Hsort Hin) as Hb.
    rewrite (proj2 (Z.ltb_ge _ _) (proj1 Hb)), (proj2 (Z.ltb_ge _ _) (proj2 Hb)). cbn [orb].
    erewrite bind_ret by (apply (read_clean _ items); done). fold (without (it_Seq it) items).
    destruct (Nat.eqb_spec (length (without (it_Seq it) items)) (length items)); [lia|].
    unfold drop_from, drop_files. destruct (without (it_Seq it) items) as [|y r].
    + erewrite bind_ret by (erewrite bind_ret by (by eapply remove_clean); apply modify_clean). done.
    + erewrite bind_ret.
      2: { erewrite bind_ret by (by apply write_clean).
           erewrite bind_ret by (apply stat_clean, lookup_insert_eq). apply modify_clean. }
      rewrite modify_clean. do 3 f_equal.
  - simpl in *. apply Forall_cons in Hs as [(Hf & Hst & Hsort & _) Hs]. cbn [fst snd] in *.
    rewrite fmap_app, not_elem_of_app in Hx1. destruct Hx1 as [Hx0 Hx1].
    specialize (IH (before ++ [seg_of (j, its)])%list Hs Hx1 Hx). rewrite <- app_assoc in IH.
    destruct (_ || _); [done|].
    erewrite bind_ret by (by apply read_clean). fold (without x its).
    rewrite (without_notin x its Hx0), Nat.eqb_refl. done.
Qed.

Lemma split_segs x (segs : list (nat * list Item)) :
  x ∈ it_Seq <$> concat segs.*2 ->
  exists l1 k items l2, segs = (l1 ++ (k, items) :: l2)%list /\
    x ∉ it_Seq <$> concat l1.*2 /\ x ∈ it_Seq <$> items.
Proof.
  induction segs as [|[k items] segs IH]; intros Hx; [by apply not_elem_of_nil in Hx|].
  rewrite fmap_cons in Hx. simpl in Hx. rewrite fmap_app, elem_of_app in Hx.
  destruct (decide (x ∈ it_Seq <$> items)) as [Hin|Hin].
  - exists [], k, items, segs. split; [done|]. split; [apply not_elem_of_nil|done].
  - destruct Hx as [?|Hx]; [done|]. destruct (IH Hx) as (l1 & j & its & l2 & -> & H1 & H2).
    exists ((k, items) :: l1), j, its, l2. split; [done|]. split; [|done].
    rewrite fmap_cons. simpl. by rewrite fmap_app, not_elem_of_app.
Qed.

Lemma drop_from_concat x k items : concat (drop_from x k items).*2 = without x items.
Proof. unfold drop_from. destruct (without x items); simpl; by rewrite ?app_nil_r. Qed.

Lemma drop_files_ne x k items fs p : p <> sname k -> drop_files x k items fs !! p = fs !! p.
Proof.
  intros Hp. unfold drop_files.
  destruct (without x items); [by rewrite lookup_delete_ne|by rewrite lookup_insert_ne].
Qed.

Lemma drop_from_files x k items fs j its :
  (j, its) ∈ drop_from x k items -> j = k /\ drop_files x k items fs !! sname j = Some (enc its).
Proof.
  unfold drop_from, drop_files. destruct (without x items) as [|y r]; [by intros ?%not_elem_of_nil|].
  intros [= -> ->]%list_elem_of_singleton. by rewrite lookup_insert_eq.
Qed.

Lemma drop_files_kept x k items fs raw :
  drop_files x k items fs !! sname k = Some raw -> k ∈ (drop_from x k items).*1.
Proof.
  unfold drop_from, drop_files.
  destruct (without x items); [by rewrite lookup_delete_eq|]. intros _. by left.
Qed.

Lemma contents_mid l1 k items l2 act :
  contents (l1 ++ (k, items) :: l2)%list act =
    (concat l1.*2 ++ items ++ concat l2.*2 ++ act_items act)%list.
Proof. unfold contents. rewrite fmap_app, concat_app. simpl. by rewrite <- !app_assoc. Qed.

Lemma wf_drop b b' fs d l1 k items l2 act x :
  wf_segs b fs d (l1 ++ (k, items) :: l2)%list act ->
  x ∉ it_Seq <$> concat l1.*2 -> x ∈ it_Seq <$> items ->
  let segs' := (l1 ++ drop_from x k items ++ l2)%list in
  sealed b' = seg_of <$> segs' -> active b' = active b -> nextSeq b' = nextSeq b ->
  totalLen b' = totalLen b - 1 ->
  wf_segs b' (drop_files x k items fs) d segs' act /\
  contents segs' act = without x (contents (l1 ++ (k, items) :: l2)%list act).
Proof.
  intros W Hx1 Hx segs' Es Ea En Et.
  pose proof (sorted_seqs_NoDup _ (wf_seqs _ _ _ _ _ W)) as Hnd.
  assert (x ∈ it_Seq <$> contents (l1 ++ (k, items) :: l2)%list act) as Hin.
  { rewrite contents_mid, !fmap_app, !elem_of_app. auto. }
  assert (contents segs' act = without x (contents (l1 ++ (k, items) :: l2)%list act)) as Ec.
  { rewrite contents_mid in Hnd |- *. unfold contents, segs'.
    rewrite !fmap_app, !concat_app, drop_from_concat, <- !app_assoc.
    rewrite !without_app, (without_notin x (concat l1.*2)) by done.
    rewrite !fmap_app in Hnd. apply NoDup_app in Hnd as (_ & _ & Hnd).
    apply NoDup_app in Hnd as (_ & Hd & _). specialize (Hd x Hx).
    rewrite not_elem_of_app in Hd. destruct Hd as [Hd1 Hd2]. by rewrite (without_notin x (concat l2.*2)), (without_notin x (act_items act)). }
  assert (k ∉ l1.*1 /\ k ∉ l2.*1) as [Hk1 Hk2].
  { pose proof (wf_NoDup _ _ _ _ _ W) as Hids. rewrite fmap_app in Hids. simpl in Hids.
    apply NoDup_app in Hids as (_ & Hd & Hids). apply NoDup_cons in Hids as [? _]. split; [|done].
    intros Hk. apply (Hd k Hk). by left. }
  assert (sublist (drop_from x k items).*1 [k]) as Hdrop.
  { unfold drop_from. destruct (without x items); simpl; [apply sublist_nil_l|done]. }
  split; [|done]. eapply wf_shrink; [exact W|..]; try done.
  - unfold segs'. rewrite !fmap_app. apply sublist_app; [done|]. rewrite fmap_cons.
    change ((k, items).1 :: l2.*1) with ([k] ++ l2.*1)%list. by apply sublist_app.
  - rewrite Ec. apply filter_sublist.
  - intros j its Hj. unfold segs' in Hj. rewrite !elem_of_app in Hj.
    destruct Hj as [Hj|[Hj|Hj]]; [|by apply drop_from_files|].
    all: rewrite drop_files_ne by (intros ->%sname_inj; apply (list_elem_of_fmap_2 fst) in Hj; done).
    all: apply (wf_file_s _ _ _ _ _ W), elem_of_app.
    + by left.
    + right. by right.
  - intros j its Hj. rewrite drop_files_ne by (intros E; by apply (sname_aname k j)).
    by apply (wf_file_a _ _ _ _ _ W).
  - intros p raw Hp. destruct (decide (p ∈ sname <$> segs'.*1)) as [(j & -> & Hj)%list_elem_of_fmap|Hp'];
      [by eauto|]. right. right. split.
    + destruct (decide (p = sname k)) as [->|]; [|by rewrite drop_files_ne in Hp].
      destruct Hp'. apply list_elem_of_fmap_2. unfold segs'. rewrite !fmap_app, !elem_of_app.
      right. left. by eapply drop_files_kept.
    + intros j Hj ->. apply Hp', list_elem_of_fmap_2. unfold segs'. rewrite !fmap_app, !elem_of_app.
      rewrite fmap_app, fmap_cons, elem_of_app, elem_of_cons in Hj.
      destruct Hj as [Hj|[->|Hj]]; [by left| |by right; right].
      right. left. by eapply drop_files_kept.
  - by rewrite Ea, (wf_active _ _ _ _ _ W).
  - rewrite Ec, Et, (wf_total _ _ _ _ _ W), (length_without x _ Hnd Hin). lia.
Qed.

Lemma removeItem_clean x b fs d c n segs act :
  wf_segs b fs d segs act -> x ∈ it_Seq <$> contents segs act ->
  exists b' fs' segs' act', removeItemLocked x (clean b fs d c n) = (Ret tt, clean b' fs' d c n) /\
    nextSeq b' = nextSeq b /\ wf_segs b' fs' d segs' act' /\
    contents segs' act' = without x (contents segs act).
Proof.
  intros W Hx. pose proof (sorted_seqs_NoDup _ (wf_seqs _ _ _ _ _ W)) as Hnd.
  pose proof (length_without x _ Hnd Hx) as Hlen.
  unfold removeItemLocked. erewrite bind_ret by done. cbn [buf clean].
  rewrite (wf_active _ _ _ _ _ W).
  destruct (decide (x ∈ it_Seq <$> act_items act)) as [Hin|Hout].
  - destruct act as [[k items]|]; [|by apply not_elem_of_nil in Hin]. simpl in Hin |- *.
    unfold contents in Hnd. rewrite fmap_app in Hnd. apply NoDup_app in Hnd as (_ & Hd & Hnd).
    rewrite remove_seq_spec, decide_True by done. simpl.
    assert (x ∉ it_Seq <$> concat segs.*2) as Hns by (intros Hs; by apply (Hd x Hs)).
    erewrite bind_ret by apply modify_clean.
    erewrite bind_ret.
    2: { apply rewrite_clean. eapply sublist_Forall; [apply filter_sublist|]. by eapply wf_store_act. }
    assert (contents segs (Some (k, without x items)) = without x (contents segs (Some (k, items)))) as Ec.
    { unfold contents. by rewrite without_app, (without_notin _ _ Hns). }
    eexists _, _, segs, (Some (k, without x items)). split; [apply modify_clean|]. split; [done|].
    split; [|done]. eapply wf_shrink; [exact W|..]; try done.
    + rewrite Ec. apply filter_sublist.
    + intros j its Hj. rewrite lookup_insert_ne by (intros E; by apply (sname_aname j k)).
      by apply (wf_file_s _ _ _ _ _ W).
    + intros j its [= <- <-]. by rewrite lookup_insert_eq.
    + intros p raw Hp. destruct (decide (p = aname k)) as [->|Hne]; [right; left; eauto|].
      rewrite lookup_insert_ne in Hp by done.
      destruct (decide (p ∈ sname <$> segs.*1)) as [(j & -> & Hj)%list_elem_of_fmap|Hp']; [by eauto|].
      right. right. split; [done|]. intros j Hj ->. by apply Hp', list_elem_of_fmap_2.
    + apply (wf_sealed _ _ _ _ _ W).
    + simpl. rewrite Ec, (wf_total _ _ _ _ _ W), Hlen. lia.
  - assert (x ∈ it_Seq <$> concat segs.*2) as Hs.
    { unfold contents in Hx. rewrite fmap_app, elem_of_app in Hx. by destruct Hx. }
    destruct (split_segs x segs Hs) as (l1 & k & items & l2 & -> & Hx1 & Hxi).
    eexists _, _, _, act. split.
    { etransitivity; [|apply (remove_sealed_clean x l1 k items l2 []); [by eapply wf_ready|done|done]].
      rewrite (wf_sealed _ _ _ _ _ W).
      destruct act as [[j its]|]; [|done]. simpl.
      unfold contents in Hnd. rewrite fmap_app in Hnd. apply NoDup_app in Hnd as (_ & _ & Hnd).
      rewrite remove_seq_spec, decide_False by done. done. }
    split; [done|]. by eapply wf_drop.
Qed.

End spec.
End AgentBufferSpec.
