(* ===== verification/AgentBufferDemo.v ===== *)
(** * AgentBufferDemo: a concrete environment for the write-ahead log

    A small codec and name supply that satisfy the laws of AgentBufferSpec, and a buffer
    with three records in it. They show that the hypotheses of the theorems can hold and
    are the inputs the theorems are tried on. *)

From stdpp Require Import base gmap strings list.
From Stdlib Require Import ZArith Lia Ascii.
From S2P Require Import Prelude GoStd Schema AgentBuffer AgentBufferSpec.
Import GoString GoTime Schema AgentBuffer AgentBufferSpec.

Local Open Scope string_scope.
Local Open Scope Z_scope.

Module AgentBufferDemo.

(** [n] copies of the byte [c], then [s] *)
Fixpoint rep (c : ascii) (n : nat) (s : string) : string :=
  match n with O => s | S n' => String c (rep c n' s) end.

Fixpoint count_run (c : ascii) (s : string) : nat * string :=
  match s with
  | String d s' => if decide (c = d) then let '(n, r) := count_run c s' in (S n, r) else (O, s)
  | EmptyString => (O, s)
  end.

(** Records without payload, in unary: sequence, priority and timestamp. *)
Definition demo_marshal (it : Item) : option string :=
  Some (String "{" (rep "s" (Z.to_nat (it_Seq it)) (rep "p" (Z.to_nat (it_Priority it))
         (rep "t" (Z.to_nat (it_TS it)) "}")))).

Definition demo_unmarshal (s : string) : option Item :=
  match s with
  | String "{" s =>
      let '(n, s) := count_run "s" s in
      let '(p, s) := count_run "p" s in
      let '(t, s) := count_run "t" s in
      if decide (s = "}") then Some (mkItem (Z.of_nat n) (Z.of_nat p) (Z.of_nat t) None None None None)
      else None
  | _ => None
  end.

Definition demo_ulid (k : nat) : string := rep "b" k "a".

Global Instance demo_env : Env :=
  mkEnv demo_marshal demo_unmarshal (fun s => s) Some demo_ulid.

Lemma demo_ulid_order i j s t :
  (i < j)%nat -> String.compare (demo_ulid i ++ s) (demo_ulid j ++ t) = Lt.
Proof.
  revert j. induction i as [|i IH]; intros [|j] Hij; try lia; [done|].
  unfold demo_ulid in *. simpl. apply IH. lia.
Qed.

Global Instance demo_laws : EnvLaws.
Proof. constructor; [done|apply demo_ulid_order]. Defined.

Definition demo_item (seq prio ts : Z) : Item := mkItem seq prio ts None None None None.

(** An event, a log line and a metric, the first of them in a sealed segment. *)
Definition demo_items : list Item := [demo_item 1 2 0; demo_item 2 0 1; demo_item 3 1 2].

Definition demo_buffer : Buffer :=
  mkBuffer 100 hour 4 3 (Some (writer_of (1%nat, [demo_item 2 0 1; demo_item 3 1 2])))
    [seg_of (0%nat, [demo_item 1 2 0])] 3.

Definition demo_files : gmap string string :=
  <[sname 0 := enc [demo_item 1 2 0]]> {[aname 1 := text [demo_item 2 0 1; demo_item 3 1 2]]}.

Definition demo_state : State := clean demo_buffer demo_files 2 10 [].

Ltac solve_storable := eexists; split; [reflexivity|]; repeat split; try done; vm_compute; congruence.

Lemma demo_storable seq prio ts :
  (seq, prio, ts) ∈ [(1, 2, 0); (2, 0, 1); (3, 1, 2); (4, 1, 3)] -> storable (demo_item seq prio ts).
Proof.
  intros Hin. repeat (apply elem_of_cons in Hin as [[= -> -> ->]|Hin]; [solve_storable|]).
  by apply not_elem_of_nil in Hin.
Qed.

Lemma demo_wf : wf demo_state demo_items.
Proof.
  exists [(0%nat, [demo_item 1 2 0])], (Some (1%nat, [demo_item 2 0 1; demo_item 3 1 2])).
  split; [|done]. constructor; simpl; try done.
  - repeat constructor.
  - repeat constructor; simpl; lia.
  - repeat constructor; apply demo_storable; set_solver.
  - repeat constructor.
  - repeat constructor.
  - intros k items [= -> ->]%list_elem_of_singleton. done.
  - intros k items [= <- <-]. done.
  - intros p raw Hp. unfold demo_files in Hp. apply lookup_insert_Some in Hp as [[<- <-]|[_ Hp]].
    + left. exists 0%nat. split; [by left|done].
    + apply lookup_singleton_Some in Hp as [<- <-]. right. left. by exists 1%nat.
Qed.

End AgentBufferDemo.
