(* ===== verification/AgentBufferProps.v ===== *)
(** * AgentBufferProps: the correctness of the write-ahead log without I/O faults

    The operations of AgentBuffer against the abstract view of AgentBufferSpec: every
    theorem starts from a buffer that holds a list of records ([wf]), runs one operation
    of the code to completion and says which list the buffer holds afterwards. *)

From stdpp Require Import base gmap strings list sorting.
From Stdlib Require Import ZArith Lia Ascii.
From S2P Require Import Prelude GoStd Schema AgentBuffer AgentBufferSpec AgentBufferDemo.
Import GoString GoTime Schema AgentBuffer AgentBufferSpec AgentBufferDemo.

Local Open Scope string_scope.
Local Open Scope Z_scope.

Module AgentBufferProps.

Section props.
Context `{EnvLaws}.

(** ** The discard order *)

Definition by_prio (prio : Z) (items : list Item) : list Item :=
  List.filter (fun it => it_Priority it =? prio) items.

(** What capacity enforcement may discard, in the order it does: the log lines from
    oldest to newest, then the metrics from oldest to newest. *)
Definition discard_queue (items : list Item) : list Item :=
  (by_prio PriorityLogLine items ++ by_prio PriorityMetric items)%list.

Lemma consider_later prio items best :
  Forall (fun it => it_Seq best <= it_Seq it) items ->
  fold_left (consider prio) items (Some best) = Some best.
Proof.
  induction 1 as [|it items Hit Hitems IH]; [done|]. simpl. unfold consider at 2.
  destruct (it_Priority it =? prio); simpl; [|done].
  by rewrite (proj2 (Z.ltb_ge _ _) Hit).
Qed.

Lemma consider_sorted prio items :
  StronglySorted Z.lt (it_Seq <$> items) ->
  fold_left (consider prio) items None = head (by_prio prio items).
Proof.
  induction items as [|it items IH]; [done|]. rewrite fmap_cons. intros Hs.
  apply StronglySorted_inv in Hs as [Hs Hx]. simpl. unfold consider at 2.
  destruct (it_Priority it =? prio); simpl; [|by apply IH].
  apply consider_later. apply (proj1 (Forall_fmap it_Seq (Z.lt (it_Seq it)) items)) in Hx. eapply Forall_impl; [exact Hx|]. simpl. lia.
Qed.

Lemma consider_sealed_clean prio best segs b fs d c n :
  Forall (seg_ready fs) segs ->
  consider_sealed prio best (seg_of <$> segs) (clean b fs d c n) =
    (Ret (fold_left (consider prio) (concat segs.*2) best), clean b fs d c n).
Proof.
  intros Hs. revert best. induction Hs as [|[k items] segs (Hf & Hst & _) Hs IH]; intros best; [done|].
  rewrite !fmap_cons. cbn [consider_sealed seg_of ss_path fst snd concat]. rewrite fold_left_app, <- IH.
  erewrite bind_ret by (unfold try_; erewrite read_clean by done; reflexivity). done.
Qed.

Lemma oldestWithPriority_clean prio b fs d c n segs act :
  wf_segs b fs d segs act ->
  oldestWithPriorityLocked prio (clean b fs d c n) =
    (Ret (head (by_prio prio (contents segs act))), clean b fs d c n).
Proof.
  intros W. unfold oldestWithPriorityLocked. erewrite bind_ret by done. cbn [buf clean].
  rewrite (wf_sealed _ _ _ _ _ W).
  erewrite bind_ret by (apply consider_sealed_clean; by eapply wf_ready).
  rewrite (wf_active _ _ _ _ _ W), <- (consider_sorted prio) by apply (wf_seqs _ _ _ _ _ W).
  unfold contents. rewrite fold_left_app. by destruct act as [[k items]|].
Qed.

Lemma findDiscardVictim_clean b fs d c n segs act :
  wf_segs b fs d segs act ->
  findDiscardVictimLocked (clean b fs d c n) =
    (Ret (head (discard_queue (contents segs act))), clean b fs d c n).
Proof.
  intros W. unfold findDiscardVictimLocked, discard_queue.
  erewrite bind_ret by (by eapply oldestWithPriority_clean).
  destruct (by_prio PriorityLogLine (contents segs act)); [|done]. simpl.
  by erewrite oldestWithPriority_clean.
Qed.

(** *** The budget

    What the buffer takes on disk is the compressed size of its sealed segments and
    the size of the active one; its age is that of the first record of its first
    segment. *)

Definition bytes_of (segs : list (nat * list Item)) (act : option (nat * list Item)) : Z :=
  foldr Z.add 0 ((fun s => Z.of_nat (String.length (enc s.2))) <$> segs)
  + from_option (fun s => Z.of_nat (String.length (text s.2))) 0 act.

Definition first_record (segs : list (nat * list Item)) (act : option (nat * list Item)) : option Item :=
  match segs with
  | (_, it :: _) :: _ => Some it
  | _ => head (act_items act)
  end.

Definition over_by (maxB : Z) (maxA : Duration) (now : Time) segs act : bool :=
  (maxB <? bytes_of segs act) ||
  from_option (fun it => maxA <? sub now (it_TS it)) false (first_record segs act).

(** The buffer takes more than maxBytes on disk, or its first record is older than
    maxAge. *)
Definition over_budget (st : State) : Prop :=
  exists segs act, wf_segs (buf st) (files (world st)) (drawn (world st)) segs act /\
    (maxBytes (buf st) < bytes_of segs act \/
     exists it, first_record segs act = Some it /\ maxAge (buf st) < sub (clock (world st)) (it_TS it)).

Lemma oldestTS_clean b fs d c n segs act :
  wf_segs b fs d segs act ->
  oldestTSLocked (clean b fs d c n) = (Ret (it_TS <$> first_record segs act), clean b fs d c n).
Proof.
  intros W. unfold oldestTSLocked. erewrite bind_ret by done. cbn [buf clean].
  rewrite (wf_sealed _ _ _ _ _ W), (wf_active _ _ _ _ _ W). pose proof (wf_ready _ _ _ _ _ W) as Hr.
  destruct segs as [|[k items] segs]; simpl.
  - erewrite bind_ret by done. by destruct act as [[ka [|it items]]|].
  - apply Forall_cons in Hr as [(Hf & Hst & _) _].
    destruct items as [|it items]; (erewrite bind_ret;
      [|erewrite bind_ret by (unfold try_; erewrite read_clean by done; reflexivity); reflexivity]); [|done].
    by destruct act as [[ka [|it items]]|].
Qed.

Lemma overCapacity_clean b fs d c n segs act :
  wf_segs b fs d segs act ->
  overCapacityLocked (clean b fs d c n) =
    (Ret (over_by (maxBytes b) (maxAge b) c segs act), clean b fs d c n).
Proof.
  intros W. unfold overCapacityLocked, over_by. erewrite bind_ret by done. cbn [buf clean].
  rewrite (wf_sealed _ _ _ _ _ W), (wf_active _ _ _ _ _ W).
  assert (foldr Z.add 0 (ss_byteSize <$> (seg_of <$> segs)) +
    match writer_of <$> act with Some sw => sw_rawBytes sw | None => 0 end = bytes_of segs act) as ->.
  { unfold bytes_of. rewrite <- list_fmap_compose. by destruct act. }
  destruct (_ <? bytes_of _ _); [done|]. erewrite bind_ret by (by apply oldestTS_clean).
  by destruct (first_record segs act).
Qed.

Lemma over_by_spec b fs d c n segs act :
  wf_segs b fs d segs act ->
  over_by (maxBytes b) (maxAge b) c segs act = true <-> over_budget (clean b fs d c n).
Proof.
  assert (forall segs act, over_by (maxBytes b) (maxAge b) c segs act = true <->
    (maxBytes b < bytes_of segs act \/
     exists it, first_record segs act = Some it /\ maxAge b < sub c (it_TS it))) as Hspec.
  { intros sg ac. unfold over_by. rewrite orb_true_iff, Z.ltb_lt.
    destruct (first_record sg ac) as [it|]; simpl; [rewrite Z.ltb_lt|]; naive_solver. }
  intros W. split.
  - intros Ho%Hspec. exists segs, act. by split.
  - intros (segs' & act' & W' & Ho). cbn [buf world clean files drawn clock] in *. apply Hspec in Ho.
    pose proof (overCapacity_clean b fs d c n _ _ W) as E.
    rewrite (overCapacity_clean b fs d c n _ _ W') in E. by injection E as <-.
Qed.

Lemma by_prio_without prio x items : by_prio prio (without x items) = without x (by_prio prio items).
Proof.
  unfold by_prio, without. induction items as [|it items IH]; [done|]. simpl.
  destruct (it_Priority it =? prio) eqn:Ep, (it_Seq it =? x) eqn:Es; simpl; rewrite ?Ep, ?Es; simpl;
    by rewrite ?IH.
Qed.

Lemma by_prio_NoDup prio items : NoDup (it_Seq <$> items) -> NoDup (it_Seq <$> by_prio prio items).
Proof. intros Hnd. eapply sublist_NoDup; [done|]. apply fmap_sublist, filter_sublist. Qed.

Lemma by_prio_elem prio items it : it ∈ by_prio prio items <-> it ∈ items /\ it_Priority it = prio.
Proof. unfold by_prio. by rewrite !list_elem_of_In, filter_In, Z.eqb_eq. Qed.

Lemma seq_unique items x y :
  NoDup (it_Seq <$> items) -> x ∈ items -> y ∈ items -> it_Seq x = it_Seq y -> x = y.
Proof.
  induction items as [|it items IH]; [by intros _ ?%not_elem_of_nil|]. rewrite fmap_cons.
  intros [Hn Hnd]%NoDup_cons [->|Hx]%elem_of_cons [->|Hy]%elem_of_cons E; auto.
  - destruct Hn. rewrite E. by apply list_elem_of_fmap_2.
  - destruct Hn. rewrite <- E. by apply list_elem_of_fmap_2.
Qed.

(** Discarding the head of the queue leaves the rest of it. *)
Lemma discard_queue_without items v q :
  NoDup (it_Seq <$> items) -> discard_queue items = v :: q ->
  discard_queue (without (it_Seq v) items) = q.
Proof.
  unfold discard_queue. intros Hnd E. rewrite !by_prio_without.
  pose proof (by_prio_NoDup PriorityLogLine _ Hnd) as Hnd0.
  pose proof (by_prio_NoDup PriorityMetric _ Hnd) as Hnd1.
  destruct (by_prio PriorityLogLine items) as [|v0 q0] eqn:E0; simpl in E.
  - rewrite E in *. simpl. exact (without_cons v q Hnd1).
  - injection E as -> <-. rewrite (without_cons v q0 Hnd0). f_equal. apply without_notin.
    intros (m & Em & Hm)%list_elem_of_fmap. apply by_prio_elem in Hm as [Hm Hp].
    assert (v ∈ by_prio PriorityLogLine items) as Hv by (rewrite E0; by left).
    apply by_prio_elem in Hv as [Hv Hp']. assert (v = m) as -> by (by apply (seq_unique items)).
    rewrite Hp in Hp'. done.
Qed.

Definition discarded_of (it : Item) : DiscardedItem :=
  mkDiscarded (it_Seq it) (it_Priority it) (kindOf it).

(** the records of [items] whose sequence is not one of [victims]' *)
Definition except (victims items : list Item) : list Item :=
  List.filter (fun it => bool_decide (it_Seq it ∉ it_Seq <$> victims)) items.

Lemma except_nil items : except [] items = items.
Proof. unfold except. apply forallb_filter_id, forallb_forall. intros it _. by apply bool_decide_true, not_elem_of_nil. Qed.

Lemma except_cons v vs items : except (v :: vs) items = except vs (without (it_Seq v) items).
Proof.
  unfold except, without. induction items as [|it items IH]; [done|]. cbn [List.filter].
  destruct (Z.eqb_spec (it_Seq it) (it_Seq v)) as [E|E]; cbn [negb List.filter].
  - rewrite bool_decide_false; [done|]. rewrite E. intros Hn. apply Hn. by left.
  - rewrite (bool_decide_ext (it_Seq it ∉ it_Seq <$> v :: vs) (it_Seq it ∉ it_Seq <$> vs)).
    + by rewrite IH.
    + rewrite fmap_cons, elem_of_cons. naive_solver.
Qed.

(** Records discarded one after the other, the buffer being over its budget before
    each one. *)
Inductive discards : State -> list Item -> State -> Prop :=
| discards_nil st : discards st [] st
| discards_cons st v st1 vs st2 :
    over_budget st -> removeItemLocked (it_Seq v) st = (Ret tt, st1) ->
    discards st1 vs st2 -> discards st (v :: vs) st2.

Lemma enforce_loop_clean fuel disc b fs d c n segs act :
  wf_segs b fs d segs act -> (length (contents segs act) < fuel)%nat ->
  exists j b' fs' segs' act', let victims := take j (discard_queue (contents segs act)) in
    enforce_loop fuel disc (clean b fs d c n) =
      (Ret (disc ++ (discarded_of <$> victims))%list, clean b' fs' d c n) /\
    discards (clean b fs d c n) victims (clean b' fs' d c n) /\
    nextSeq b' = nextSeq b /\ wf_segs b' fs' d segs' act' /\
    contents segs' act' = except victims (contents segs act) /\
    discard_queue (contents segs' act') = drop j (discard_queue (contents segs act)) /\
    (~ over_budget (clean b' fs' d c n) \/
     over_budget (clean b' fs' d c n) /\ discard_queue (contents segs' act') = []).
Proof.
  revert disc b fs segs act. induction fuel as [|fuel IH]; intros disc b fs segs act W Hfuel; [lia|].
  simpl. erewrite bind_ret by (by apply overCapacity_clean).
  pose proof (over_by_spec b fs d c n segs act W) as Hover.
  destruct (over_by _ _ _ _ _); simpl.
  2: { exists 0%nat, b, fs, segs, act. rewrite take_0, drop_0, app_nil_r, except_nil.
       split_and!; [done|constructor|done..|].
       left. by intros Ho%Hover. }
  apply proj1 in Hover. specialize (Hover eq_refl).
  erewrite bind_ret by (by eapply findDiscardVictim_clean).
  destruct (discard_queue (contents segs act)) as [|v q] eqn:Eq; simpl.
  { exists 0%nat, b, fs, segs, act. rewrite app_nil_r, except_nil.
    split_and!; [done|constructor|done..|by right]. }
  pose proof (sorted_seqs_NoDup _ (wf_seqs _ _ _ _ _ W)) as Hnd.
  assert (it_Seq v ∈ it_Seq <$> contents segs act) as Hv.
  { apply list_elem_of_fmap_2. assert (v ∈ discard_queue (contents segs act)) as Hv by (rewrite Eq; by left).
    unfold discard_queue in Hv. apply elem_of_app in Hv as [Hv|Hv]; by apply by_prio_elem in Hv as [? _]. }
  destruct (removeItem_clean (it_Seq v) b fs d c n segs act W Hv) as (b1 & fs1 & segs1 & act1 & E1 & En1 & W1 & Ec1).
  erewrite bind_ret by exact E1. pose proof (length_without _ _ Hnd Hv) as Hlen.
  destruct (IH (disc ++ [discarded_of v])%list b1 fs1 segs1 act1 W1) as (j & b' & fs' & segs' & act' & E & Hd & En & W' & Ec & Eq' & Hdone);
    [rewrite Ec1; lia|].
  rewrite Ec1, (discard_queue_without _ _ _ Hnd Eq) in *.
  exists (S j), b', fs', segs', act'. simpl. split_and!; [|by econstructor|congruence|done| |done|done].
  - etransitivity; [exact E|]. by rewrite <- app_assoc.
  - by rewrite Ec, except_cons.
Qed.

(** ** Backfill *)

Lemma unacked_prefix l1 l2 :
  StronglySorted Z.lt (it_Seq <$> (l1 ++ l2)%list) -> l1 <> [] ->
  unacked (last_seq l1) (l1 ++ l2)%list = l2.
Proof.
  intros Hs Hne. rewrite fmap_app in Hs. rewrite unacked_app.
  destruct (sorted_app_inv _ _ _ Hs) as [Hs1 Hs2].
  rewrite (unacked_nil _ l1) by done. simpl. destruct l2 as [|y l2]; [done|]. apply unacked_id; [done|].
  simpl. unfold last_seq. destruct (last l1) as [x|] eqn:E; [|by apply last_None in E].
  apply last_Some in E as (l & ->). rewrite fmap_app, <- app_assoc in Hs.
  apply sorted_app_inv in Hs as [_ Hs]. simpl in Hs. apply StronglySorted_inv in Hs as [_ Hx].
  by apply Forall_cons in Hx as [? _].
Qed.

Lemma seq_nonneg_last b fs d segs act l1 l2 :
  wf_segs b fs d segs act -> contents segs act = (l1 ++ l2)%list -> 0 <= last_seq l1.
Proof.
  intros W E. unfold last_seq. destruct (last l1) as [x|] eqn:El; [|lia].
  apply last_Some in El as (l & ->). pose proof (wf_range _ _ _ _ _ W) as Hr. rewrite E in Hr.
  rewrite Forall_forall in Hr. assert (1 <= it_Seq x <= nextSeq b); [|lia].
  apply Hr. rewrite !elem_of_app. left. right. by left.
Qed.

(** the records of the batches the sender accepted *)
Definition accepted (log : list (list Item * bool)) : list Item :=
  concat (List.filter snd log).*1.

(** what stopped a Backfill that did not run to the end *)
Definition round_error (e : BufErr) (r : round) : Prop :=
  match r with
  | RoundCtxDone => e = ErrCtx
  | RoundLimiter => e = ErrLimiter
  | RoundSendErr => e = ErrSend
  | RoundSendOk => False
  end.

Definition backfill_outcome (rounds : list round) (o : outcome unit) (remaining : list Item) : Prop :=
  match o with
  | Ret _ => remaining = []
  | Fail e => exists r, r ∈ rounds /\ round_error e r
  | Crashed => False
  end.

Lemma backfill_outcome_tail rounds o remaining :
  backfill_outcome (tail rounds) o remaining -> backfill_outcome rounds o remaining.
Proof.
  destruct rounds as [|r rounds]; [done|]. destruct o as [[]|e|]; simpl; [done| |done].
  intros (r' & Hr & He). exists r'. split; [by right|done].
Qed.

Lemma head_round rounds r :
  default RoundSendOk (head rounds) = r -> r <> RoundSendOk -> r ∈ rounds.
Proof. destruct rounds as [|r' rounds]; simpl; intros <- Hne; [done|by left]. Qed.

Lemma Backfill_loop_clean fuel batchSize rounds b fs d c n segs act :
  wf_segs b fs d segs act -> (length (contents segs act) < fuel)%nat -> (0 < batchSize)%nat ->
  exists o b' fs' segs' act' log,
    Backfill_loop fuel batchSize rounds (clean b fs d c n) = (o, clean b' fs' d c (n ++ log)%list) /\
    nextSeq b' = nextSeq b /\ wf_segs b' fs' d segs' act' /\
    contents segs act = (accepted log ++ contents segs' act')%list /\
    Forall (fun batch => (0 < length batch.1 <= batchSize)%nat) log /\
    backfill_outcome rounds o (contents segs' act').
Proof.
  intros W Hfuel Hbs. revert rounds b fs n segs act W Hfuel.
  induction fuel as [|fuel IH]; intros rounds b fs n segs act W Hfuel; [lia|]. cbn [Backfill_loop].
  set (r := default RoundSendOk (head rounds)).
  assert (forall x e, r = x -> x <> RoundSendOk -> round_error e x ->
    backfill_outcome rounds (Fail e) (contents segs act)) as Hstop.
  { intros x e Ex Hx He. exists x. split; [by apply head_round|done]. }
  destruct (decide (r = RoundCtxDone)) as [E|N1].
  { eexists (Fail ErrCtx), b, fs, segs, act, []. rewrite app_nil_r. split_and!; eauto; by eapply Hstop. }
  erewrite bind_ret by (by eapply oldestItems_clean).
  destruct (contents segs act) as [|x rest] eqn:Ec.
  { eexists (Ret tt), b, fs, segs, act, []. by rewrite app_nil_r, take_nil, Ec. }
  set (batch := take batchSize (x :: rest)) in *.
  assert (x :: rest = batch ++ drop batchSize (x :: rest))%list as Esplit by (unfold batch; by rewrite take_drop).
  assert (batch <> []) as Hbne by (unfold batch; destruct batchSize; [lia|done]).
  assert (0 < length batch <= batchSize)%nat as Hblen
    by (split; [destruct batch; [done|simpl; lia]|unfold batch; rewrite length_take; lia]).
  rewrite decide_False by done.
  destruct (decide (r = RoundLimiter)) as [E|N2].
  { eexists (Fail ErrLimiter), b, fs, segs, act, []. rewrite app_nil_r, Ec. split_and!; eauto; by eapply Hstop. }
  destruct (decide (r = RoundSendErr)) as [E|N3].
  { eexists (Fail ErrSend), b, fs, segs, act, [(batch, false)]. rewrite Ec. split_and!; try done; [by apply Forall_singleton|by eapply Hstop]. }
  erewrite (bind_ret _ _ _ _ (clean b fs d c (n ++ [(batch, true)])%list)) by done.
  pose proof (seq_nonneg_last _ _ _ _ _ _ _ W ltac:(rewrite Ec; exact Esplit)) as Hnn.
  destruct (Ack_clean (last_seq batch) b fs d c (n ++ [(batch, true)])%list segs act Hnn W)
    as (b1 & fs1 & E1 & En1 & W1).
  assert (contents (ack_segs (last_seq batch) segs) (ack_act (last_seq batch) act)
    = drop batchSize (x :: rest)) as Ec1.
  { rewrite ack_contents, Ec, Esplit, unacked_prefix; [by rewrite <- Esplit| |done].
    rewrite <- Esplit, <- Ec. apply (wf_seqs _ _ _ _ _ W). }
  erewrite bind_ret by exact E1.
  destruct (IH (tail rounds) b1 fs1 (n ++ [(batch, true)])%list _ _ W1)
    as (o & b' & fs' & segs' & act' & log & E & En & W' & Ec' & Hlog & Ho).
  { rewrite Ec1, length_drop. simpl in *. lia. }
  exists o, b', fs', segs', act', ((batch, true) :: log). rewrite <- app_assoc in E.
  split_and!; [done|congruence|done| |by constructor|by apply backfill_outcome_tail].
  change (accepted ((batch, true) :: log)) with (batch ++ accepted log)%list.
  by rewrite <- app_assoc, <- Ec', Ec1.
Qed.

(** ** Properties *)

Lemma wf_clean st items :
  wf st items -> fault_free st -> exists b fs d c n segs act,
    st = clean b fs d c n /\ wf_segs b fs d segs act /\ contents segs act = items.
Proof.
  intros (segs & act & W & E) Hff. destruct st as [b [fs fl d c n]]. unfold fault_free in Hff.
  simpl in *. subst fl. eexists _, _, _, _, _, _, _. split; [reflexivity|eauto].
Qed.

(** Append returns the next sequence number and adds the record, with that sequence,
    at the end of the buffered records; every other record is kept in place, and the new
    sequence is greater than all of theirs. *)
Theorem append_spec st items it :
  let seq := nextSeq (buf st) + 1 in
  wf st items -> fault_free st -> seq < 2 ^ 64 -> storable (with_seq it seq) ->
  exists st', Append it st = (Ret seq, st') /\ wf st' (items ++ [with_seq it seq])%list /\
    nextSeq (buf st') = seq /\ same_outside st st' /\ Forall (fun x => it_Seq x < seq) items.
Proof.
  intros seq Hwf Hff Hseq Hst. subst seq.
  destruct (wf_clean _ _ Hwf Hff) as (b & fs & d & c & n & segs & act & -> & W & <-).
  destruct (Append_clean b fs d c n segs act it W Hseq Hst) as (b' & fs' & d' & E & En & segs' & act' & W' & Ec).
  eexists. split; [exact E|]. split; [by exists segs', act'|]. split; [done|]. split; [done|].
  eapply Forall_lt_next; [exact W|]. simpl. lia.
Qed.

(** Ack(n) removes exactly the records with sequence at most [n], wherever they are
    (whole sealed segments, part of one, the active segment), and keeps the others in
    order. *)
Theorem ack_spec st items upToSeq :
  wf st items -> fault_free st -> 0 <= upToSeq ->
  exists st', Ack upToSeq st = (Ret tt, st') /\
    wf st' (List.filter (fun it => upToSeq <? it_Seq it) items) /\
    nextSeq (buf st') = nextSeq (buf st) /\ same_outside st st'.
Proof.
  intros Hwf Hff Hn.
  destruct (wf_clean _ _ Hwf Hff) as (b & fs & d & c & n & segs & act & -> & W & <-).
  destruct (Ack_clean upToSeq b fs d c n segs act Hn W) as (b' & fs' & E & En & W').
  eexists. split; [exact E|]. split; [|done]. eexists _, _. split; [exact W'|apply ack_contents].
Qed.

Lemma backfill_full st items batchSize rounds :
  wf st items -> fault_free st ->
  exists o st' log remaining, Backfill batchSize rounds st = (o, st') /\
    net (world st') = (net (world st) ++ log)%list /\ wf st' remaining /\ fault_free st' /\ nextSeq (buf st') = nextSeq (buf st) /\
    items = (accepted log ++ remaining)%list /\
    Forall (fun batch => 0 < Z.of_nat (length batch.1) <= Z.max batchSize 200) log /\
    (0 < batchSize -> Forall (fun batch => Z.of_nat (length batch.1) <= batchSize) log) /\
    backfill_outcome rounds o remaining.
Proof.
  intros Hwf Hff.
  destruct (wf_clean _ _ Hwf Hff) as (b & fs & d & c & n & segs & act & -> & W & <-).
  set (bs := if batchSize <=? 0 then DefaultBackfillBatchSize else Z.to_nat batchSize).
  assert (0 < bs)%nat as Hbs by (unfold bs, DefaultBackfillBatchSize; destruct (Z.leb_spec batchSize 0); lia).
  assert (Z.of_nat bs <= Z.max batchSize 200 /\ (0 < batchSize -> Z.of_nat bs = batchSize)) as [Hb1 Hb2]
    by (unfold bs, DefaultBackfillBatchSize; destruct (Z.leb_spec batchSize 0); lia).
  destruct (Backfill_loop_clean (S (Z.to_nat (totalLen b))) bs rounds b fs d c n segs act W)
    as (o & b' & fs' & segs' & act' & log & E & En & W' & Ec & Hlog & Ho);
    [rewrite (wf_total _ _ _ _ _ W); lia|done|].
  eexists o, _, log, _. split; [exact E|]. split; [done|]. split; [by exists segs', act'|].
  split; [done|]. split; [done|]. split; [done|]. split; [|split; [|done]].
  - eapply Forall_impl; [exact Hlog|]. simpl. intros. lia.
  - intros Hpos. eapply Forall_impl; [exact Hlog|]. simpl. intros. lia.
Qed.

(** C11: on a disk without I/O errors, Backfill sends the buffered records oldest first
    in batches of at most the batch size and removes exactly the records of the accepted
    batches: at any point where it stops, what was accepted followed by what is still
    buffered is the list it started from. It ends without an error only when nothing is
    left, and with an error only because the context, the rate limiter or the sender
    reported one. (On a failing disk it also returns the errors of reading and of Ack,
    which are not covered here.) *)
Theorem backfill_spec st items batchSize rounds :
  wf st items -> fault_free st ->
  exists o st' log remaining, Backfill batchSize rounds st = (o, st') /\
    net (world st') = (net (world st) ++ log)%list /\ wf st' remaining /\
    items = (accepted log ++ remaining)%list /\
    Forall (fun batch => 0 < Z.of_nat (length batch.1) <= Z.max batchSize 200) log /\
    (0 < batchSize -> Forall (fun batch => Z.of_nat (length batch.1) <= batchSize) log) /\
    backfill_outcome rounds o remaining.
Proof.
  intros Hwf Hff. destruct (backfill_full st items batchSize rounds Hwf Hff) as (o & st' & log & rem & H1 & H2 & H3 & _ & _ & H4).
  by exists o, st', log, rem.
Qed.

(** C12: on a disk without I/O errors, EnforceCapacity finishes without an error. It
    discards records one after the other, each while the buffer is over its budget (it
    takes more than maxBytes on disk, or its first record is older than maxAge): only
    log lines and metrics, never an event, the log lines oldest first and then the
    metrics oldest first; it keeps every other record and reports exactly what it
    discarded. It stops at the first moment the buffer is within its budget, or over
    it with nothing left that may be discarded; on a buffer within its budget it
    changes nothing. *)
Theorem enforce_capacity_spec st items :
  wf st items -> fault_free st ->
  exists j st', let victims := take j (discard_queue items) in
    EnforceCapacity st = (Ret (discarded_of <$> victims), st') /\
    wf st' (except victims items) /\
    Forall (fun it => it_Priority it = PriorityLogLine \/ it_Priority it = PriorityMetric) victims /\
    discards st victims st' /\
    (~ over_budget st' \/ over_budget st' /\ victims = discard_queue items) /\
    (~ over_budget st -> victims = [] /\ st' = st).
Proof.
  intros Hwf Hff.
  destruct (wf_clean _ _ Hwf Hff) as (b & fs & d & c & n & segs & act & -> & W & <-).
  destruct (enforce_loop_clean (S (Z.to_nat (totalLen b))) [] b fs d c n segs act W)
    as (j & b' & fs' & segs' & act' & E & Hd & En & W' & Ec & Eq & Hdone);
    [rewrite (wf_total _ _ _ _ _ W); lia|].
  exists j, (clean b' fs' d c n). split; [exact E|]. split; [by exists segs', act'|]. split_and!; [|done| |].
  - apply Forall_take, Forall_forall. intros it Hit. unfold discard_queue in Hit.
    apply elem_of_app in Hit as [Hit|Hit]; apply by_prio_elem in Hit as [_ ?]; auto.
  - destruct Hdone as [?|[? Hnil]]; [by left|right]. split; [done|]. rewrite Eq in Hnil.
    apply take_ge. apply (f_equal length) in Hnil. rewrite length_drop in Hnil. simpl in Hnil. lia.
  - intros Hn. inversion Hd; subst; [done|]. by destruct Hn.
Qed.

End props.

(** *** The theorems on the demo buffer *)

Lemma append_spec_witness :
  exists st', Append (demo_item 0 1 3) demo_state = (Ret 4, st') /\
    wf st' (demo_items ++ [demo_item 4 1 3])%list.
Proof.
  destruct (append_spec demo_state demo_items (demo_item 0 1 3) demo_wf eq_refl eq_refl)
    as (st' & E & W & _); [apply demo_storable; set_solver|].
  exists st'. split; [exact E|exact W].
Defined.

Lemma ack_spec_witness :
  exists st', Ack 2 demo_state = (Ret tt, st') /\ wf st' [demo_item 3 1 2].
Proof.
  destruct (ack_spec demo_state demo_items 2 demo_wf eq_refl) as (st' & E & W & _); [done|].
  exists st'. split; [exact E|exact W].
Defined.

Lemma backfill_spec_witness :
  exists o st' log remaining, Backfill 2 [RoundSendOk; RoundSendErr] demo_state = (o, st') /\
    net (world st') = log /\ demo_items = (accepted log ++ remaining)%list /\ wf st' remaining.
Proof.
  destruct (backfill_spec demo_state demo_items 2 [RoundSendOk; RoundSendErr] demo_wf eq_refl)
    as (o & st' & log & remaining & E & En & W & Ec & _).
  exists o, st', log, remaining. split; [exact E|]. split; [exact En|]. by split.
Defined.

Lemma enforce_capacity_spec_witness :
  exists j st', EnforceCapacity demo_state = (Ret (discarded_of <$> take j (discard_queue demo_items)), st') /\
    discards demo_state (take j (discard_queue demo_items)) st'.
Proof.
  destruct (enforce_capacity_spec demo_state demo_items demo_wf eq_refl) as (j & st' & E & _ & _ & Hd & _).
  exists j, st'. split; [exact E|exact Hd].
Defined.

(** The code evaluated on the same buffer: the second batch is refused and stays. *)
Example backfill_runs :
  let '(o, st') := Backfill 2 [RoundSendOk; RoundSendErr] demo_state in
  o = Fail ErrSend /\ net (world st') = [([demo_item 1 2 0; demo_item 2 0 1], true); ([demo_item 3 1 2], false)] /\
  totalLen (buf st') = 1.
Proof. vm_compute. done. Qed.

(** Over budget, the log line goes first, then the metric; the event stays. *)
Example enforce_runs :
  (EnforceCapacity demo_state).1 =
    Ret [mkDiscarded 2 0 "event"; mkDiscarded 3 1 "event"].
Proof. vm_compute. done. Qed.

End AgentBufferProps.
