(* ===== verification/AgentBufferCrash.v ===== *)
(** * AgentBufferCrash: recovery of the write-ahead log

    What Open finds on a directory, and the durability of Append: whatever system call
    fails or is cut short by a crash, reopening the directory brings back every record
    that was buffered, and the new one once Append has returned. *)

From stdpp Require Import base gmap strings list sorting.
From Stdlib Require Import ZArith Lia Ascii.
From S2P Require Import Prelude GoStd Schema AgentBuffer AgentBufferSpec AgentBufferDemo AgentBufferProps.
Import GoString GoTime Schema AgentBuffer AgentBufferSpec AgentBufferDemo AgentBufferProps.

Local Open Scope string_scope.
Local Open Scope Z_scope.

Module AgentBufferCrash.

Section crash.
Context `{EnvLaws}.

(** ** What a directory holds

    [cs k] and [ca k] are the records of the sealed and of the unsealed file number [k]. *)
Record disk (fs : gmap string string) (d : nat) (cs ca : nat -> list Item) : Prop := mkDisk {
  dk_names : forall p raw, fs !! p = Some raw -> exists k, (k < d)%nat /\ (p = sname k \/ p = aname k);
  dk_s : forall k raw, fs !! sname k = Some raw -> raw = enc (cs k) /\ Forall storable (cs k);
  dk_a : forall k raw, fs !! aname k = Some raw ->
    decode_prefix (split_byte nl raw) = ca k /\ Forall storable (ca k);
  dk_both : forall k raw raw', fs !! sname k = Some raw -> fs !! aname k = Some raw' -> cs k = ca k;
}.

(** the numbers of the files present under a naming scheme, in order *)
Definition present (name : nat -> string) (fs : gmap string string) (d : nat) : list nat :=
  filter (fun k => is_Some (fs !! name k)) (seq 0 d).

Definition rec_segs (fs : gmap string string) (d : nat) (cs ca : nat -> list Item) :
    list (nat * list Item) :=
  (((fun k => (k, cs k)) <$> present sname fs d) ++
   filter (fun s => s.2 <> []) ((fun k => (k, ca k)) <$> present aname fs d))%list.

(** [recovers fs d recs]: opening the directory brings back the records [recs]. *)
Definition recovers (fs : gmap string string) (d : nat) (recs : list Item) : Prop :=
  exists cs ca, disk fs d cs ca /\ concat (rec_segs fs d cs ca).*2 = recs.

Lemma seq_sorted a n : StronglySorted lt (seq a n).
Proof.
  revert a. induction n as [|n IH]; intros a; simpl; [constructor|]. constructor; [done|].
  apply Forall_forall. intros x Hx%elem_of_seq. lia.
Qed.

Lemma present_sorted name fs d : StronglySorted lt (present name fs d).
Proof. eapply sorted_sublist; [apply sublist_filter|apply seq_sorted]. Qed.

Lemma present_elem name fs d k : k ∈ present name fs d <-> (k < d)%nat /\ is_Some (fs !! name k).
Proof. unfold present. rewrite list_elem_of_filter, elem_of_seq. naive_solver lia. Qed.

(** *** The directory listing *)

Lemma has_suffix_neg s : has_suffix ".wal.zst" (s ++ ".wal") = false.
Proof.
  unfold has_suffix. destruct (strip_suffix ".wal.zst" (s ++ ".wal")) as [b|] eqn:E; [|done].
  apply strip_suffix_Some in E. exfalso.
  apply (f_equal (strip_suffix "t")) in E.
  replace (b ++ ".wal.zst")%string with ((b ++ ".wal.zs") ++ "t")%string in E
    by (by rewrite <- str_app_assoc).
  rewrite strip_suffix_app in E. apply strip_suffix_Some in E.
  replace (s ++ ".wal")%string with ((s ++ ".wa") ++ "l")%string in E by (by rewrite <- str_app_assoc).
  assert (String.length ((s ++ ".wa") ++ "l") = String.length ((b ++ ".wal.zs") ++ "t")) as El by by rewrite E.
  rewrite !str_length_app in El. simpl in El.
  apply (f_equal (fun x => String.get (String.length x - 1) x)) in E. revert E.
  assert (forall a c, String.get (String.length (a ++ String c "") - 1) (a ++ String c "") = Some c) as Hlast.
  { intros a c. induction a as [|x a IH]; [done|]. rewrite str_app_cons. simpl. rewrite Nat.sub_0_r.
    rewrite str_length_app in *. simpl in *. replace (String.length a + 1)%nat with (S (String.length a + 1 - 1)) by lia.
    exact IH. }
  rewrite !Hlast. done.
Qed.

Lemma sname_sealed k : is_sealed_name (sname k) = true /\ is_active_name (sname k) = false.
Proof. unfold is_sealed_name, is_active_name, sname. by rewrite has_suffix_app. Qed.

Lemma aname_active k : is_sealed_name (aname k) = false /\ is_active_name (aname k) = true.
Proof. unfold is_sealed_name, is_active_name, aname. by rewrite has_suffix_neg, has_suffix_app. Qed.

Lemma names_sorted (suffix : string) l :
  StronglySorted lt l -> StronglySorted String.le ((fun k => (ulid k ++ suffix)%string) <$> l).
Proof.
  induction 1 as [|x l Hs IH Hx]; simpl; constructor; [done|]. apply Forall_fmap.
  eapply Forall_impl; [exact Hx|]. intros y Hy. simpl. unfold String.le, String.leb.
  by rewrite ulid_order.
Qed.

Lemma listing (suffix : string) (sel : string -> bool) fs d :
  (forall p raw, fs !! p = Some raw -> sel p = true -> exists k, (k < d)%nat /\ p = (ulid k ++ suffix)%string) ->
  (forall k, sel (ulid k ++ suffix)%string = true) ->
  sort_strings (filter (fun n => sel n = true) (map_to_list fs).*1) =
    (fun k => (ulid k ++ suffix)%string) <$> present (fun k => (ulid k ++ suffix)%string) fs d.
Proof.
  intros Hin His. rewrite <- (sort_strings_id (_ <$> present _ _ _))
    by (apply names_sorted, present_sorted).
  apply sort_strings_perm. apply NoDup_Permutation.
  - apply NoDup_filter, NoDup_fst_map_to_list.
  - apply NoDup_fmap_2; [intros i j; apply ulid_name_inj|apply sorted_NoDup, present_sorted].
  - intros p. rewrite list_elem_of_filter, !list_elem_of_fmap. split.
    + intros (Hp & [p' raw] & -> & Hraw%elem_of_map_to_list). simpl in *.
      destruct (Hin _ _ Hraw Hp) as (k & Hk & ->). exists k. split; [done|]. apply present_elem. eauto.
    + intros (k & -> & (Hk & raw & Hraw)%present_elem). split; [apply His|].
      exists ((ulid k ++ suffix)%string, raw). split; [done|]. by apply elem_of_map_to_list.
Qed.

(** ** Recovery *)

Lemma inspect_clean k items b fs d c n :
  Forall storable items -> fs !! sname k = Some (enc items) ->
  inspectSealedSegment (sname k) (clean b fs d c n) = (Ret (seg_of (k, items)), clean b fs d c n).
Proof.
  intros Hs Hf. unfold inspectSealedSegment. erewrite bind_ret by (by apply read_clean).
  unfold stat_size, clean, mbind, M_bind, sys_noop, sys, get_world. simpl. by rewrite Hf.
Qed.

Lemma sealOrphaned_clean k items raw b fs d c n :
  Forall storable items -> fs !! aname k = Some raw -> decode_prefix (split_byte nl raw) = items ->
  sealOrphanedActiveSegment (aname k) (clean b fs d c n) =
    (Ret (seg_of (k, items)), clean b (delete (aname k) (<[sname k := enc items]> fs)) d c n).
Proof.
  intros Hs Hf Hd. unfold sealOrphanedActiveSegment.
  erewrite (bind_ret _ _ _ _ (clean b fs d c n)) by done. erewrite bind_ret by done. cbn [files world clean].
  rewrite Hf, Hd. cbn zeta. rewrite seal_name.
  erewrite bind_ret by (by apply write_clean).
  erewrite bind_ret.
  2: { eapply remove_clean. rewrite lookup_insert_ne; [done|apply sname_aname]. }
  erewrite bind_ret.
  2: { apply stat_clean. rewrite lookup_delete_ne by (symmetry; apply sname_aname).
       by rewrite lookup_insert_eq. }
  done.
Qed.

(** the buffer once the segments [l] are recovered into it *)
Definition add_segs (l : list (nat * list Item)) (b : Buffer) : Buffer :=
  mkBuffer (segmentBytes b) (maxAge b) (maxBytes b)
    (fold_left (fun x s => Z.max x (last_seq s.2)) l (nextSeq b)) (active b)
    (sealed b ++ (seg_of <$> l))%list (totalLen b + Z.of_nat (length (concat l.*2))).

Lemma add_segs_nil b : add_segs [] b = b.
Proof. destruct b. unfold add_segs. simpl. by rewrite app_nil_r, Z.add_0_r. Qed.

Lemma add_segs_app l1 l2 b : add_segs l2 (add_segs l1 b) = add_segs (l1 ++ l2)%list b.
Proof.
  unfold add_segs. simpl. rewrite fold_left_app, fmap_app, <- app_assoc. f_equal.
  rewrite fmap_app, concat_app, length_app. lia.
Qed.

Lemma add_recovered_clean s b fs d c n :
  add_recovered (seg_of s) (clean b fs d c n) = (Ret tt, clean (add_segs [s] b) fs d c n).
Proof.
  unfold add_recovered. rewrite modify_clean. unfold add_segs. simpl. rewrite app_nil_r. done.
Qed.

Lemma recover_sealed_clean cs l b fs d c n :
  (forall k, k ∈ l -> fs !! sname k = Some (enc (cs k)) /\ Forall storable (cs k)) ->
  recover_sealed (sname <$> l) (clean b fs d c n) =
    (Ret tt, clean (add_segs ((fun k => (k, cs k)) <$> l) b) fs d c n).
Proof.
  revert b. induction l as [|k l IH]; intros b Hl; [simpl; by rewrite add_segs_nil|].
  destruct (Hl k ltac:(by left)) as [Hf Hs]. rewrite !fmap_cons. cbn [recover_sealed].
  erewrite bind_ret by (by apply inspect_clean). erewrite bind_ret by apply add_recovered_clean.
  rewrite IH by (intros j Hj; apply Hl; by right). by rewrite add_segs_app.
Qed.

Fixpoint orphan_files (ca : nat -> list Item) (l : list nat) (fs : gmap string string) :
    gmap string string :=
  match l with
  | [] => fs
  | k :: l => orphan_files ca l (delete (aname k) (<[sname k := enc (ca k)]> fs))
  end.

Lemma recover_orphans_clean ca l b fs d c n :
  NoDup l ->
  (forall k, k ∈ l -> exists raw, fs !! aname k = Some raw /\
     decode_prefix (split_byte nl raw) = ca k /\ Forall storable (ca k)) ->
  recover_orphans (aname <$> l) (clean b fs d c n) =
    (Ret tt, clean (add_segs (filter (fun s => s.2 <> []) ((fun k => (k, ca k)) <$> l)) b)
               (orphan_files ca l fs) d c n).
Proof.
  revert b fs. induction l as [|k l IH]; intros b fs Hnd Hl; [simpl; by rewrite add_segs_nil|].
  apply NoDup_cons in Hnd as [Hk Hnd].
  destruct (Hl k ltac:(by left)) as (raw & Hf & Hd & Hs). rewrite !fmap_cons. cbn [recover_orphans orphan_files].
  erewrite bind_ret by (by eapply sealOrphaned_clean). rewrite filter_cons. cbn [seg_of ss_count fst snd].
  assert (forall j, j ∈ l -> exists raw,
    delete (aname k) (<[sname k := enc (ca k)]> fs) !! aname j = Some raw /\
     decode_prefix (split_byte nl raw) = ca j /\ Forall storable (ca j)) as Hl'.
  { intros j Hj. rewrite lookup_delete_ne by (intros ->%aname_inj; done).
    rewrite lookup_insert_ne by apply sname_aname. apply Hl. by right. }
  destruct (ca k) as [|x r] eqn:Ek; simpl.
  - erewrite bind_ret by done. by rewrite IH.
  - erewrite bind_ret by apply (add_recovered_clean (k, x :: r)). rewrite IH by done.
    by rewrite add_segs_app.
Qed.

Lemma recover_clean b fs d c n cs ca :
  disk fs d cs ca ->
  recover (clean b fs d c n) =
    (Ret tt, clean (add_segs (rec_segs fs d cs ca) b) (orphan_files ca (present aname fs d) fs) d c n).
Proof.
  intros [D1 D2 D3 D4]. unfold recover. erewrite (bind_ret _ _ _ _ (clean b fs d c n)) by done.
  erewrite bind_ret by done. cbn [files world clean]. unfold file_names. cbn [files].
  rewrite (listing ".wal.zst" is_sealed_name fs d).
  2: { intros p raw Hp Hsel. destruct (D1 p raw Hp) as (k & Hk & [->| ->]); [by exists k|].
       by rewrite (proj1 (aname_active k)) in Hsel. }
  2: { intros k. apply sname_sealed. }
  rewrite (listing ".wal" is_active_name fs d).
  2: { intros p raw Hp Hsel. destruct (D1 p raw Hp) as (k & Hk & [->| ->]); [|by exists k].
       by rewrite (proj2 (sname_sealed k)) in Hsel. }
  2: { intros k. apply aname_active. }
  erewrite bind_ret.
  2: { apply (recover_sealed_clean cs). intros k (Hk & raw & Hraw)%present_elem.
       destruct (D2 _ _ Hraw) as [-> ?]. done. }
  etransitivity; [apply (recover_orphans_clean ca)|].
  - apply sorted_NoDup, present_sorted.
  - intros k (Hk & raw & Hraw)%present_elem. exists raw. destruct (D3 _ _ Hraw). done.
  - by rewrite add_segs_app.
Qed.

Lemma orphan_files_lookup ca l fs k :
  NoDup l ->
  (orphan_files ca l fs !! sname k = if decide (k ∈ l) then Some (enc (ca k)) else fs !! sname k) /\
  (orphan_files ca l fs !! aname k = if decide (k ∈ l) then None else fs !! aname k).
Proof.
  revert fs. induction l as [|j l IH]; intros fs Hnd; [done|]. apply NoDup_cons in Hnd as [Hj Hnd]. simpl.
  destruct (IH (delete (aname j) (<[sname j := enc (ca j)]> fs)) Hnd) as [-> ->].
  rewrite (lookup_delete_ne _ _ (sname k)) by (symmetry; apply sname_aname).
  destruct (decide (k = j)) as [->|Hne].
  - destruct (decide (j ∈ l)); [done|]. destruct (decide (j ∈ j :: l)) as [|Hn]; [|destruct Hn; by left].
    by rewrite lookup_insert_eq, lookup_delete_eq.
  - rewrite lookup_insert_ne by (by intros ?%sname_inj).
    rewrite lookup_delete_ne by (by intros ?%aname_inj).
    rewrite lookup_insert_ne by (by apply sname_aname).
    destruct (decide (k ∈ l)) as [Hin|Hin], (decide (k ∈ j :: l)) as [Hin'|Hin']; try done.
    + destruct Hin'. by right.
    + by apply elem_of_cons in Hin' as [?|?].
Qed.

Lemma orphan_files_names ca l fs d p raw :
  (forall p raw, fs !! p = Some raw -> exists k, (k < d)%nat /\ (p = sname k \/ p = aname k)) ->
  Forall (fun k => (k < d)%nat) l -> orphan_files ca l fs !! p = Some raw ->
  exists k, (k < d)%nat /\ (p = sname k \/ p = aname k).
Proof.
  revert fs. induction l as [|j l IH]; intros fs Hn Hl Hp; [by eapply Hn|].
  apply Forall_cons in Hl as [Hj Hl]. simpl in Hp. eapply IH; [|done|done].
  intros q r Hq. apply lookup_delete_Some in Hq as [_ Hq].
  apply lookup_insert_Some in Hq as [[<- _]|[_ Hq]]; eauto.
Qed.

(** A rebooted machine: no fault is scheduled any more; the buffer in memory is gone,
    and Open does not look at it. *)
Definition reboot (st : State) : State := mkState (buf st) (set_faults (world st) []).

(** the segments of a recovered directory can be read back *)
Lemma rec_segs_stored fs d cs ca :
  disk fs d cs ca ->
  Forall (fun s => orphan_files ca (present aname fs d) fs !! sname s.1 = Some (enc s.2) /\
                   Forall storable s.2) (rec_segs fs d cs ca).
Proof.
  intros [D1 D2 D3 D4]. unfold rec_segs. apply Forall_app. split; apply Forall_forall.
  - intros s (k & -> & (Hk & raw & Hraw)%present_elem)%list_elem_of_fmap. simpl.
    destruct (D2 _ _ Hraw) as [-> Hs]. split; [|done].
    rewrite (proj1 (orphan_files_lookup ca _ fs k (sorted_NoDup _ (present_sorted aname fs d)))).
    destruct (decide _) as [(_ & raw' & Hraw')%present_elem|]; [|done].
    by rewrite (D4 _ _ _ Hraw Hraw').
  - intros s [_ (k & -> & Hk)%list_elem_of_fmap]%list_elem_of_filter. simpl.
    rewrite (proj1 (orphan_files_lookup ca _ fs k (sorted_NoDup _ (present_sorted aname fs d)))).
    rewrite decide_True by done. split; [done|].
    apply present_elem in Hk as (_ & raw & Hraw). by destruct (D3 _ _ Hraw).
Qed.

Lemma Open_clean sb age bytes b fs d c n cs ca :
  disk fs d cs ca ->
  Open sb age bytes (clean b fs d c n) =
    (Ret tt, clean (add_segs (rec_segs fs d cs ca) (empty_buffer sb age bytes))
               (orphan_files ca (present aname fs d) fs) d c n).
Proof.
  intros D. unfold Open. erewrite (bind_ret _ _ _ _ (clean b fs d c n)) by done.
  erewrite bind_ret by apply modify_clean. by apply recover_clean.
Qed.

(** [holds st recs]: the buffer reads back as [recs], and counts them. *)
Definition holds (st : State) (recs : list Item) : Prop :=
  (forall m, oldestItems m st = (Ret (take m recs), st)) /\
  totalLen (buf st) = Z.of_nat (length recs).

Lemma open_recovers sb age bytes st recs :
  recovers (files (world st)) (drawn (world st)) recs ->
  exists st', Open sb age bytes (reboot st) = (Ret tt, st') /\ holds st' recs.
Proof.
  destruct st as [b [fs fl d c n]]. simpl. intros (cs & ca & D & <-).
  eexists. split; [by apply (Open_clean sb age bytes b fs d c n cs ca)|]. split; [|done].
  intros m. unfold oldestItems. erewrite bind_ret by done. simpl.
  erewrite bind_ret by (apply oldest_sealed_clean, rec_segs_stored; done).
  simpl. by rewrite Nat.sub_0_r.
Qed.

(** ** The directory of a well-formed buffer *)

Definition assoc (segs : list (nat * list Item)) (k : nat) : list Item :=
  default [] ((list_to_map segs : gmap nat (list Item)) !! k).

Lemma assoc_in segs k items : NoDup segs.*1 -> (k, items) ∈ segs -> assoc segs k = items.
Proof. intros Hnd Hin. unfold assoc. by rewrite (elem_of_list_to_map_1 _ _ _ Hnd Hin). Qed.

Lemma assoc_notin segs k : k ∉ segs.*1 -> assoc segs k = [].
Proof. intros Hk. unfold assoc. by rewrite (not_elem_of_list_to_map_1 _ _ Hk). Qed.

Lemma assoc_concat segs : NoDup segs.*1 -> concat (assoc segs <$> segs.*1) = concat segs.*2.
Proof.
  intros Hnd. f_equal. rewrite <- list_fmap_compose. apply list_fmap_ext. intros i [k items] Hi. simpl.
  apply assoc_in; [done|]. by apply list_elem_of_lookup_2 in Hi.
Qed.

Lemma concat_sublist {A B} (f : A -> list B) l1 l2 :
  sublist l1 l2 -> NoDup l2 -> (forall x, x ∈ l2 -> x ∉ l1 -> f x = []) ->
  concat (f <$> l2) = concat (f <$> l1).
Proof.
  induction 1 as [|x l1 l2 Hs IH|x l1 l2 Hs IH]; intros Hnd Hf; [done| |];
    apply NoDup_cons in Hnd as [Hx Hnd]; simpl.
  - f_equal. apply IH; [done|]. intros y Hy Hn. apply Hf; [by right|].
    intros [->|?]%elem_of_cons; done.
  - rewrite (Hf x); [|by left|].
    + simpl. apply IH; [done|]. intros y Hy Hn. apply Hf; [by right|done].
    + intros Hin. apply Hx. by eapply elem_of_sublist.
Qed.

Lemma present_concat name fs d segs :
  StronglySorted lt segs.*1 ->
  (forall k, k ∈ segs.*1 -> (k < d)%nat /\ is_Some (fs !! name k)) ->
  concat (assoc segs <$> present name fs d) = concat segs.*2.
Proof.
  intros Hs Hin. rewrite <- assoc_concat by by apply sorted_NoDup.
  apply concat_sublist.
  - apply sorted_subset_sublist; [done|apply present_sorted|]. intros k Hk. by apply present_elem, Hin.
  - apply sorted_NoDup, present_sorted.
  - intros k _. apply assoc_notin.
Qed.

Lemma concat_nonempty (l : list (nat * list Item)) :
  concat (filter (fun s => s.2 <> []) l).*2 = concat l.*2.
Proof.
  induction l as [|[k items] l IH]; [done|]. rewrite filter_cons.
  destruct (decide _) as [Hne|He]; rewrite !fmap_cons; cbn [concat snd] in *; rewrite IH; [done|].
  destruct items; [done|]. by destruct He.
Qed.

Lemma rec_segs_concat fs d cs ca :
  concat (rec_segs fs d cs ca).*2 =
    (concat (cs <$> present sname fs d) ++ concat (ca <$> present aname fs d))%list.
Proof.
  unfold rec_segs. rewrite fmap_app, concat_app, concat_nonempty, <- !list_fmap_compose. done.
Qed.

Section directory.
Variables (fs : gmap string string) (d : nat) (segs acts : list (nat * list Item)).

(** A directory with the sealed segments [segs], the unsealed ones [acts], and strays:
    the general form of what the operations can leave behind. *)
Definition directory : Prop :=
  StronglySorted lt segs.*1 /\ StronglySorted lt acts.*1 /\
  Forall (fun k => (k < d)%nat) segs.*1 /\ Forall (fun k => (k < d)%nat) acts.*1 /\
  Forall (fun s => fs !! sname s.1 = Some (enc s.2) /\ Forall storable s.2) segs /\
  Forall (fun s => exists raw, fs !! aname s.1 = Some raw /\
    decode_prefix (split_byte nl raw) = s.2 /\ Forall storable s.2) acts /\
  (forall k i1 i2, (k, i1) ∈ segs -> (k, i2) ∈ acts -> i1 = i2) /\
  (forall p raw, fs !! p = Some raw -> (exists k, k ∈ segs.*1 /\ p = sname k) \/
     (exists k, k ∈ acts.*1 /\ p = aname k) \/
     (exists k, (k < d)%nat /\ p = sname k /\ raw = enc [] /\ k ∉ segs.*1 /\ k ∉ acts.*1)).

Lemma key_item (l : list (nat * list Item)) k : k ∈ l.*1 -> exists items, (k, items) ∈ l.
Proof. intros ([j items] & -> & Hin)%list_elem_of_fmap. eauto. Qed.

Lemma directory_disk : directory -> disk fs d (assoc segs) (assoc acts).
Proof.
  intros (Hss & Hsa & Hds & Hda & Hfs & Hfa & Hboth & Hother).
  pose proof (sorted_NoDup _ Hss) as Hns. pose proof (sorted_NoDup _ Hsa) as Hna.
  rewrite !Forall_forall in *. constructor.
  - intros p raw Hp. destruct (Hother p raw Hp) as [(k & Hk & ->)|[(k & Hk & ->)|(k & Hk & -> & _)]]; eauto.
  - intros k raw Hp. destruct (Hother _ raw Hp) as [(j & Hj & E)|[(j & _ & E)|(j & _ & E & -> & Hn & _)]];
      [|by destruct (sname_aname k j)|]; apply sname_inj in E as <-.
    + destruct (key_item _ _ Hj) as [items Hin]. rewrite (assoc_in _ _ _ Hns Hin).
      destruct (Hfs _ Hin) as [Hf Hst]. simpl in *. split; [congruence|done].
    + rewrite (assoc_notin _ _ Hn). split; [done|constructor].
  - intros k raw Hp. destruct (Hother _ raw Hp) as [(j & _ & E)|[(j & Hj & E)|(j & _ & E & _)]];
      [by destruct (sname_aname j k)| |by destruct (sname_aname j k)]. apply aname_inj in E as <-.
    destruct (key_item _ _ Hj) as [items Hin]. rewrite (assoc_in _ _ _ Hna Hin).
    destruct (Hfa _ Hin) as (raw' & Hf & Hd & Hst). simpl in *. split; [congruence|done].
  - intros k raw raw' Hp Hp'.
    destruct (Hother _ raw' Hp') as [(j & _ & E)|[(j & Hj & E)|(j & _ & E & _)]];
      [by destruct (sname_aname j k)| |by destruct (sname_aname j k)]. apply aname_inj in E as <-.
    destruct (Hother _ raw Hp) as [(j & Hj' & E)|[(j & _ & E)|(j & _ & E & _ & _ & Hn)]];
      [|by destruct (sname_aname k j)|]; apply sname_inj in E as <-; [|done].
    destruct (key_item _ _ Hj') as [i1 H1], (key_item _ _ Hj) as [i2 H2].
    rewrite (assoc_in _ _ _ Hns H1), (assoc_in _ _ _ Hna H2). eauto.
Qed.

Lemma directory_present : directory ->
  (forall k, k ∈ segs.*1 -> k ∈ present sname fs d) /\ (forall k, k ∈ present aname fs d <-> k ∈ acts.*1).
Proof.
  intros (Hss & Hsa & Hds & Hda & Hfs & Hfa & Hboth & Hother). rewrite !Forall_forall in *. split.
  - intros k Hk. apply present_elem. split; [by apply Hds|]. destruct (key_item _ _ Hk) as [items Hin].
    destruct (Hfs _ Hin) as [Hf _]. eauto.
  - intros k. split.
    + intros (Hk & raw & Hp)%present_elem.
      destruct (Hother _ raw Hp) as [(j & _ & E)|[(j & Hj & E)|(j & _ & E & _)]];
        [by destruct (sname_aname j k)| |by destruct (sname_aname j k)]. by apply aname_inj in E as <-.
    + intros Hk. apply present_elem. split; [by apply Hda|]. destruct (key_item _ _ Hk) as [items Hin].
      destruct (Hfa _ Hin) as (raw & Hf & _). eauto.
Qed.

Lemma directory_concat : directory ->
  concat (rec_segs fs d (assoc segs) (assoc acts)).*2 = (concat segs.*2 ++ concat acts.*2)%list.
Proof.
  intros D. destruct (directory_present D) as [P1 P2].
  rewrite rec_segs_concat, !present_concat; try done; try apply D.
  - intros k Hk. apply present_elem. by apply P2.
  - intros k Hk. by apply present_elem, P1.
Qed.

Lemma recovers_gen : directory -> recovers fs d (concat segs.*2 ++ concat acts.*2).
Proof.
  intros D. exists (assoc segs), (assoc acts). split; [by apply directory_disk|by apply directory_concat].
Qed.
End directory.

Lemma wf_stored b fs d segs act : wf_segs b fs d segs act ->
  Forall (fun s => fs !! sname s.1 = Some (enc s.2) /\ Forall storable s.2) segs.
Proof. intros W. eapply Forall_impl; [by eapply wf_ready|]. intros s (? & ? & _). done. Qed.

Lemma wf_ids_split b fs d segs act : wf_segs b fs d segs act ->
  StronglySorted lt segs.*1 /\ Forall (fun k => (k < d)%nat) segs.*1.
Proof.
  intros W. pose proof (wf_ids _ _ _ _ _ W) as Hs. pose proof (wf_drawn _ _ _ _ _ W) as Hd.
  unfold ids in *. apply sorted_app_inv in Hs as [? _]. by apply Forall_app in Hd as [? _].
Qed.

Lemma wf_act_id b fs d segs k items : wf_segs b fs d segs (Some (k, items)) ->
  (k < d)%nat /\ k ∉ segs.*1 /\ StronglySorted lt (segs ++ [(k, items)])%list.*1.
Proof.
  intros W. pose proof (wf_ids _ _ _ _ _ W) as Hs. pose proof (wf_drawn _ _ _ _ _ W) as Hd.
  unfold ids in *. simpl in *. apply Forall_app in Hd as [_ Hd]. apply Forall_cons in Hd as [Hd _].
  split; [done|]. rewrite fmap_app. split; [|done].
  apply sorted_NoDup, NoDup_app in Hs as (_ & Hn & _). intros Hin. apply (Hn k Hin). by left.
Qed.

Lemma wf_directory b fs d segs act :
  wf_segs b fs d segs act -> directory fs d segs (option_list act).
Proof.
  intros W. destruct (wf_ids_split _ _ _ _ _ W) as [Hsrt Hdr]. split_and!; try done.
  - destruct act as [[k items]|]; repeat constructor.
  - destruct act as [[k items]|]; [|constructor]. apply Forall_singleton. by eapply wf_act_id.
  - by eapply wf_stored.
  - destruct act as [[k items]|]; [|constructor]. apply Forall_singleton. exists (text items).
    pose proof (wf_store_act _ _ _ _ _ _ W). split_and!; [|by apply decode_prefix_text|done].
    by apply (wf_file_a _ _ _ _ _ W).
  - intros k i1 i2 Hi1 Hi2. destruct act as [[j items]|]; [|by apply not_elem_of_nil in Hi2].
    apply list_elem_of_singleton in Hi2 as [= -> ->]. apply (list_elem_of_fmap_2 fst) in Hi1.
    by destruct (wf_act_id _ _ _ _ _ _ W) as (_ & ? & _).
  - intros p raw Hp. destruct (wf_other _ _ _ _ _ W p raw Hp) as [?|[(k & Hk & ->)|(k & ? & -> & -> & ? & Hlt)]].
    + by left.
    + right. left. exists k. split; [|done]. destruct act as [[j items]|]; [|done]. injection Hk as <-. by left.
    + right. right. exists k. split_and!; try done. destruct act as [[j items]|]; [|apply not_elem_of_nil].
      intros ->%list_elem_of_singleton. specialize (Hlt _ eq_refl). simpl in Hlt. lia.
Qed.

Lemma option_contents segs act :
  (concat segs.*2 ++ concat (option_list act).*2)%list = contents segs act.
Proof. unfold contents. destruct act as [[k items]|]; simpl; by rewrite ?app_nil_r. Qed.

Lemma recovers_wf b fs d segs act : wf_segs b fs d segs act -> recovers fs d (contents segs act).
Proof. intros W. rewrite <- option_contents. by eapply recovers_gen, wf_directory. Qed.

(** the active file replaced by other bytes *)
Lemma recovers_active b fs d segs k items raw items' :
  wf_segs b fs d segs (Some (k, items)) ->
  decode_prefix (split_byte nl raw) = items' -> Forall storable items' ->
  recovers (<[aname k := raw]> fs) d (contents segs (Some (k, items'))).
Proof.
  intros W Hd Hst. destruct (wf_ids_split _ _ _ _ _ W). destruct (wf_act_id _ _ _ _ _ _ W) as (Hk & Hn & _).
  unfold contents. simpl. rewrite <- (app_nil_r items').
  apply (recovers_gen _ d segs [(k, items')]). split_and!; simpl; try done.
  - repeat constructor.
  - by repeat constructor.
  - eapply Forall_impl; [by eapply wf_stored|]. intros s [Hf Hs].
    rewrite lookup_insert_ne by (symmetry; apply sname_aname). done.
  - apply Forall_singleton. exists raw. by rewrite lookup_insert_eq.
  - intros j i1 i2 Hin [= -> ->]%list_elem_of_singleton. by apply (list_elem_of_fmap_2 fst) in Hin.
  - intros p raw' Hp. apply lookup_insert_Some in Hp as [[<- _]|[Hne Hp]].
    + right. left. exists k. split; [by left|done].
    + destruct (wf_other _ _ _ _ _ W p raw' Hp) as [?|[(j & [= <-] & ->)|(j & ? & -> & -> & Hj & Hlt)]]; [auto|done|].
      right. right. exists j. split_and!; try done. intros ->%list_elem_of_singleton.
      specialize (Hlt _ eq_refl). simpl in Hlt. lia.
Qed.

(** both the sealed copy and the unsealed file are there *)
Lemma recovers_both b fs d segs k items :
  wf_segs b fs d segs (Some (k, items)) ->
  recovers (<[sname k := enc items]> fs) d (contents segs (Some (k, items)) ++ items).
Proof.
  intros W. destruct (wf_ids_split _ _ _ _ _ W). destruct (wf_act_id _ _ _ _ _ _ W) as (Hk & Hn & Hsort).
  pose proof (wf_store_act _ _ _ _ _ _ W) as Hst.
  replace (contents segs (Some (k, items)) ++ items)%list with
    (concat (segs ++ [(k, items)])%list.*2 ++ concat [(k, items)].*2)%list.
  2: { rewrite <- contents_seal. unfold contents. simpl. by rewrite !app_nil_r. }
  apply (recovers_gen _ d (segs ++ [(k, items)])%list [(k, items)]). split_and!; try done.
  - repeat constructor.
  - rewrite fmap_app. apply Forall_app. split; [done|]. by apply Forall_singleton.
  - by apply Forall_singleton.
  - apply Forall_app. split.
    + apply Forall_forall. intros [j its] Hin. simpl.
      destruct (proj1 (Forall_forall _ _) (wf_stored _ _ _ _ _ W) _ Hin) as [Hf Hs].
      rewrite lookup_insert_ne; [done|]. intros E%sname_inj. subst.
      by apply (list_elem_of_fmap_2 fst) in Hin.
    + apply Forall_singleton. by rewrite lookup_insert_eq.
  - apply Forall_singleton. exists (text items). split_and!; [|by apply decode_prefix_text|done].
    rewrite lookup_insert_ne by apply sname_aname. by apply (wf_file_a _ _ _ _ _ W).
  - intros j i1 i2 Hin [= -> ->]%list_elem_of_singleton.
    apply elem_of_app in Hin as [Hin|[= ->]%list_elem_of_singleton]; [|done].
    by apply (list_elem_of_fmap_2 fst) in Hin.
  - intros p raw' Hp. rewrite fmap_app. apply lookup_insert_Some in Hp as [[<- _]|[Hne Hp]].
    + left. exists k. split; [|done]. apply elem_of_app. right. by left.
    + destruct (wf_other _ _ _ _ _ W p raw' Hp) as [(j & Hj & ->)|[(j & [= <-] & ->)|(j & ? & -> & -> & Hj & Hlt)]].
      * left. exists j. split; [|done]. apply elem_of_app. by left.
      * right. left. exists k. split; [by left|done].
      * specialize (Hlt _ eq_refl). simpl in Hlt.
        right. right. exists j. split_and!; try done; [rewrite not_elem_of_app; split; [done|]|];
          intros ->%list_elem_of_singleton; simpl in *; lia.
Qed.

(** ** Torn writes *)

(** A record whose line cannot be cut short into another valid record: a JSON object
    has no proper prefix that is a JSON value. *)
Definition durable (it : Item) : Prop :=
  storable it /\
  forall k, (k < String.length (line_of it))%nat -> str_take k (line_of it) <> "" ->
    unmarshal (str_take k (line_of it)) = None.

Lemma lacks_take c k s : lacks c s = true -> lacks c (str_take k s) = true.
Proof.
  revert k. induction s as [|x s IH]; intros [|k]; simpl; try done.
  intros [Hx Hs]%andb_true_iff. apply andb_true_iff. auto.
Qed.

Lemma torn_decode items it k :
  Forall storable items -> durable it ->
  exists items', (items' = items \/ items' = items ++ [it])%list /\
    decode_prefix (split_byte nl (text items ++ str_take k (line_of it ++ String nl ""))) = items'.
Proof.
  intros Hs [(line & Em & Eu & Ene & El & _) Hpre].
  assert (line_of it = line) as E by (unfold line_of; by rewrite Em). rewrite E in *.
  rewrite split_text_app, decode_prefix_lines by done.
  destruct (Nat.le_gt_cases k (String.length line)) as [Hk|Hk].
  - rewrite str_take_app, split_byte_lacks by (try apply lacks_take; done). simpl.
    destruct (decide (str_take k line = "")) as [Hz|Hz].
    { rewrite bool_decide_true by done. exists items. rewrite app_nil_r. auto. }
    rewrite bool_decide_false by done. destruct (Nat.eq_dec k (String.length line)) as [->|Hne].
    + rewrite str_take_all, Eu by done. eauto.
    + rewrite Hpre by (try lia; done). exists items. rewrite app_nil_r. auto.
  - rewrite str_take_all by (rewrite str_length_app; simpl; lia).
    rewrite split_byte_lacks_app by done. simpl. rewrite bool_decide_false, Eu by done. eauto.
Qed.

(** ** Runs with faults

    [safe m st Q C]: if [m] returns from [st], [Q] holds of the result and the state; if it
    fails or the machine crashes, [C] holds of the directory. *)
Definition safe {A} (m : M A) (st : State) (Q : A -> State -> Prop)
    (C : gmap string string -> nat -> Prop) : Prop :=
  match m st with
  | (Ret a, st') => Q a st'
  | (_, st') => C (files (world st')) (drawn (world st'))
  end.

Lemma safe_bind {A B} (m : M A) (f : A -> M B) st Q C :
  safe m st (fun a st' => safe (f a) st' Q C) C -> safe (m ≫= f) st Q C.
Proof. unfold safe, mbind, M_bind. by destruct (m st) as [[a|e|] st']. Qed.

Lemma safe_eq {A} (m m' : M A) st st' Q C : m st = m' st' -> safe m' st' Q C -> safe m st Q C.
Proof. unfold safe. by intros ->. Qed.

Lemma safe_mono {A} (m : M A) st (Q Q' : A -> State -> Prop) (C C' : gmap string string -> nat -> Prop) :
  safe m st Q C -> (forall a st', Q a st' -> Q' a st') -> (forall fs d, C fs d -> C' fs d) ->
  safe m st Q' C'.
Proof. unfold safe. destruct (m st) as [[a|e|] st']; auto. Qed.

(** the directory and the name supply of a state *)
Definition at_disk (st : State) (fs : gmap string string) (d : nat) : Prop :=
  files (world st) = fs /\ drawn (world st) = d.

Lemma safe_sys op eff part st fs d (Q : unit -> State -> Prop) (C : gmap string string -> nat -> Prop) :
  at_disk st fs d ->
  (forall st', at_disk st' (eff fs) d -> Q tt st') -> (forall k, C (part k fs) d) ->
  safe (sys op eff part) st Q C.
Proof.
  intros [<- <-] HQ HC. unfold safe, sys.
  destruct (faults (world st)) as [|[|k|k] rest]; simpl; try apply HC; apply HQ; done.
Qed.

Lemma safe_noop op st fs d (Q : unit -> State -> Prop) (C : gmap string string -> nat -> Prop) :
  at_disk st fs d -> (forall st', at_disk st' fs d -> Q tt st') -> C fs d -> safe (sys_noop op) st Q C.
Proof. intros Hst HQ HC. by eapply safe_sys. Qed.

Lemma safe_write_sealed p items st fs d (Q : unit -> State -> Prop) (C : gmap string string -> nat -> Prop) :
  at_disk st fs d -> Forall storable items ->
  (forall st', at_disk st' (<[p := enc items]> fs) d -> Q tt st') -> C fs d ->
  safe (writeSealedSegment p items) st Q C.
Proof.
  intros Hst Hs HQ HC. unfold writeSealedSegment. rewrite (proj1 (marshal_lines_storable _ Hs)).
  apply safe_bind. eapply safe_noop; [done| |done]. intros st1 H1.
  apply safe_bind. eapply safe_noop; [done| |done]. intros st2 H2.
  apply safe_bind. eapply safe_noop; [done| |done]. intros st3 H3.
  apply safe_bind. eapply safe_noop; [done| |done]. intros st4 H4.
  by eapply safe_sys.
Qed.

Lemma safe_remove p raw st fs d (Q : unit -> State -> Prop) (C : gmap string string -> nat -> Prop) :
  at_disk st fs d -> fs !! p = Some raw ->
  (forall st', at_disk st' (delete p fs) d -> Q tt st') -> C fs d -> safe (sys_remove p) st Q C.
Proof.
  intros [Hf Hd] Hp HQ HC. unfold sys_remove. apply safe_bind. unfold safe at 1, get_world. simpl.
  rewrite Hf, Hp. by eapply safe_sys.
Qed.

Lemma safe_stat p dflt st fs d (Q : Z -> State -> Prop) (C : gmap string string -> nat -> Prop) :
  at_disk st fs d -> (forall n st', at_disk st' fs d -> Q n st') -> C fs d ->
  safe (stat_size_or p dflt) st Q C.
Proof.
  intros [<- <-] HQ HC. unfold safe, stat_size_or, stat_size, try_, mbind, M_bind, sys_noop, sys, get_world.
  destruct (faults (world st)) as [|[|k|k] rest]; simpl; try done; try (by apply HQ).
  all: destruct (files (world st) !! p); by apply HQ.
Qed.

Lemma safe_modify f st (Q : unit -> State -> Prop) C fs d :
  at_disk st fs d -> (forall st', at_disk st' fs d -> Q tt st') -> safe (modify_buf f) st Q C.
Proof. intros Hst HQ. unfold safe, modify_buf. by apply HQ. Qed.

Lemma safe_append_sync path data old st fs d (Q : unit -> State -> Prop) (C : gmap string string -> nat -> Prop) :
  at_disk st fs d -> fs !! path = Some old ->
  (forall st', at_disk st' (<[path := (old ++ data)%string]> fs) d -> Q tt st') ->
  (forall k, C (<[path := (old ++ str_take k data)%string]> fs) d) ->
  safe (append_and_sync path data) st Q C.
Proof.
  intros [Hf Hd] Hold HQ HC. unfold append_and_sync. apply safe_bind. unfold safe at 1, get_world. simpl.
  rewrite Hf, Hold. simpl. apply safe_bind. eapply safe_sys; [done| |done].
  intros st' [Hf' Hd']. unfold safe, sync_write, sys_noop, sys.
  destruct (faults (world st')) as [|[|k|k] rest]; simpl; try (apply HQ; split; simpl; [rewrite Hf'|]; done).
  - rewrite Hf', Hd'. specialize (HC (String.length data)). rewrite str_take_all in HC by done. apply HC.
  - rewrite Hf', Hd', insert_insert_eq. apply HC.
Qed.

Lemma safe_sw_write b fs d segs k items it st :
  wf_segs b fs d segs (Some (k, items)) -> durable it -> at_disk st fs d ->
  safe (sw_write (writer_of (k, items)) it) st
    (fun sw st' => sw = writer_of (k, items ++ [it])%list /\
       at_disk st' (<[aname k := text (items ++ [it])]> fs) d)
    (fun fs' d' => d' = d /\ exists items', (items' = items \/ items' = items ++ [it])%list /\
       recovers fs' d (contents segs (Some (k, items')))).
Proof.
  intros W Hit Hst. pose proof (wf_store_act _ _ _ _ _ _ W) as Hs. destruct Hit as [Hstor Hpre].
  assert (text (items ++ [it]) = text items ++ (line_of it ++ String nl ""))%string as Et.
  { rewrite text_app, text_singleton; [done|done|done|by repeat constructor]. }
  unfold sw_write. rewrite (storable_marshal _ Hstor). cbn [sw_open writer_of negb].
  apply safe_bind. eapply safe_append_sync; [done|by apply (wf_file_a _ _ _ _ _ W)| |].
  - intros st1 H1. rewrite Et. eapply safe_bind, safe_modify; [done|]. intros st2 H2.
    unfold safe. cbn. split; [|done]. unfold writer_of. simpl.
    by rewrite Et, !str_length_app, !Nat2Z.inj_add.
  - intros j. split; [done|]. destruct (torn_decode items it j Hs (conj Hstor Hpre)) as (items' & Hi & E).
    exists items'. split; [done|]. eapply recovers_active; [done|done|].
    destruct Hi as [->| ->]; [done|]. apply Forall_app. split; [done|]. by apply Forall_singleton.
Qed.

Lemma safe_sw_seal b fs d segs k items st :
  wf_segs b fs d segs (Some (k, items)) -> at_disk st fs d ->
  safe (sw_seal (writer_of (k, items))) st
    (fun _ st' => at_disk st' (delete (aname k) (<[sname k := enc items]> fs)) d)
    (fun fs' d' => d' = d /\ (recovers fs' d (contents segs (Some (k, items))) \/
       recovers fs' d (contents segs (Some (k, items)) ++ items))).
Proof.
  intros W Hst. pose proof (wf_store_act _ _ _ _ _ _ W) as Hs.
  pose proof (recovers_wf _ _ _ _ _ W) as Hr. pose proof (recovers_both _ _ _ _ _ _ W) as Hb.
  unfold sw_seal. cbn [sw_open writer_of negb sw_path sw_items fst snd].
  apply safe_bind. eapply safe_modify; [done|]. intros st1 H1.
  apply safe_bind. eapply safe_noop; [done| |by auto]. intros st2 H2. cbn zeta. rewrite seal_name.
  apply safe_bind. eapply safe_write_sealed; [done|done| |by auto]. intros st3 H3.
  assert (<[sname k := enc items]> fs !! aname k = Some (text items)) as Ha.
  { rewrite lookup_insert_ne by apply sname_aname. by apply (wf_file_a _ _ _ _ _ W). }
  apply safe_bind. eapply safe_remove; [done|exact Ha| |by auto]. intros st4 H4.
  apply safe_bind. eapply safe_stat; [done| |].
  - intros n st5 H5. done.
  - split; [done|]. left. rewrite <- contents_seal.
    apply (recovers_wf (set_active None (set_sealed (sealed b ++ [seg_of (k, items)])%list b))).
    by eapply wf_sealed_active.
Qed.

Lemma wf_raise_drawn b fs d segs act : wf_segs b fs d segs act -> wf_segs b fs (S d) segs act.
Proof.
  intros [W1 W2 W3 W4 W5 W6 W7 W8 W9 W10 W11 W12]. constructor; try done.
  - eapply Forall_impl; [exact W9|]. simpl. lia.
  - intros p raw Hp. destruct (W12 p raw Hp) as [?|[?|(k & Hk & ?)]]; [auto|auto|].
    right. right. exists k. split; [lia|done].
Qed.

Lemma safe_new_writer b fs d segs st :
  wf_segs b fs d segs None -> at_disk st fs d ->
  safe (sw ← newSegmentWriter; _ ← modify_buf (set_active (Some sw)); mret sw) st
    (fun sw st' => sw = writer_of (d, []) /\ at_disk st' (<[aname d := ""]> fs) (S d))
    (fun fs' d' => recovers fs' d' (contents segs None)).
Proof.
  intros W [<- <-].
  set (w' := mkWorld (files (world st)) (faults (world st)) (S (drawn (world st))) (clock (world st)) (net (world st))).
  assert (newSegmentWriter st =
    (_ ← sys_put "open file" (aname (drawn (world st))) ""; mret (writer_of (drawn (world st), []))) (mkState (buf st) w')) as E.
  { unfold newSegmentWriter, newULIDName, mbind, M_bind, get_world, modify_world. simpl.
    fold (aname (drawn (world st))). by rewrite (aname_fresh _ _ _ _ _ W). }
  apply safe_bind. eapply safe_eq; [exact E|]. eapply safe_bind, (safe_sys _ _ _ _ (files (world st)) (S (drawn (world st)))).
  - done.
  - intros st' H'. unfold safe at 1. cbn. apply safe_bind. eapply safe_modify; [done|].
    intros st'' H''. done.
  - intros _. eapply recovers_wf. by apply wf_raise_drawn.
Qed.

(** What reopening finds after an Append of [new] to [items] that did not return: the
    records without or with the new one, or, when the crash came between the rename of
    the compressed segment and the removal of the unsealed file, with the records of the
    last segment a second time. *)
Definition after_crash (items : list Item) (new : Item) (recs : list Item) : Prop :=
  (recs = items \/ recs = items ++ [new] \/
   exists old seg, items ++ [new] = old ++ seg /\ recs = old ++ seg ++ seg)%list.

Lemma safe_push b fs d segs k items it seq st :
  wf_segs b fs d segs (Some (k, items)) -> durable it -> it_Seq it = seq -> nextSeq b = seq ->
  Forall (fun x => it_Seq x < seq) (contents segs (Some (k, items))) -> 1 <= seq ->
  at_disk st fs d ->
  safe (sw ← sw_write (writer_of (k, items)) it;
        _ ← modify_buf (fun b => set_totalLen (totalLen b + 1) b);
        _ ← (if segmentBytes b <=? sw_rawBytes sw then
               seg ← sw_seal sw;
               modify_buf (fun b => set_active None (set_sealed (sealed b ++ [seg])%list b))
             else mret tt);
        mret seq) st
    (fun a st' => a = seq /\ recovers (files (world st')) (drawn (world st'))
                               (contents segs (Some (k, items)) ++ [it]))
    (fun fs' d' => exists recs, recovers fs' d' recs /\ after_crash (contents segs (Some (k, items))) it recs).
Proof.
  intros W Hit Hseq Hn Hlt Hpos Hst.
  assert (contents segs (Some (k, items ++ [it])%list) =
    contents segs (Some (k, items)) ++ [it])%list as Ec by (unfold contents; simpl; by rewrite app_assoc).
  pose proof (wf_push _ _ _ _ _ _ it W (proj1 Hit) ltac:(by rewrite Hseq) ltac:(lia)) as W1.
  pose proof (recovers_wf _ _ _ _ _ W1) as Hr1. rewrite Ec in Hr1.
  apply safe_bind. eapply safe_mono; [by eapply safe_sw_write| |].
  2: { intros fs' d' (-> & items' & Hi & Hr). eexists. split; [exact Hr|]. unfold after_crash.
       destruct Hi as [->| ->]; [by left|]. rewrite Ec. auto. }
  intros sw st1 [-> H1]. apply safe_bind. eapply safe_modify; [done|]. intros st2 H2.
  apply safe_bind. destruct (_ <=? _).
  - apply safe_bind. eapply safe_mono; [by eapply safe_sw_seal| |].
    2: { intros fs' d' [-> [Hr|Hr]]; eexists; (split; [exact Hr|]); rewrite Ec; unfold after_crash; [auto|].
         right. right. exists (concat segs.*2), (items ++ [it])%list. rewrite <- Ec. unfold contents. simpl.
         by rewrite <- app_assoc. }
    intros seg st3 H3. eapply (safe_modify _ _ _ _ _ _ H3). intros st4 [H4 H4']. unfold safe. simpl. split; [done|].
    rewrite H4, H4', <- Ec, <- contents_seal.
    apply (recovers_wf (set_active None (set_sealed (sealed b ++ [seg_of (k, items ++ [it])%list])%list
             (set_totalLen (totalLen b + 1) b)))).
    by eapply wf_sealed_active.
  - unfold safe. simpl. destruct H2 as [-> ->]. done.
Qed.

(** C1: Append is durable. Whatever system call of it fails or is interrupted by a crash of
    the machine, reopening the directory succeeds and brings back every record that was
    buffered before; once Append has returned, it brings back exactly those records
    followed by the new one. *)
Theorem append_crash_safe st items it sb age bytes :
  let seq := nextSeq (buf st) + 1 in
  wf st items -> seq < 2 ^ 64 -> durable (with_seq it seq) ->
  exists o st1 st2 recs, Append it st = (o, st1) /\
    Open sb age bytes (reboot st1) = (Ret tt, st2) /\ holds st2 recs /\
    match o with
    | Ret a => a = seq /\ recs = (items ++ [with_seq it seq])%list
    | _ => after_crash items (with_seq it seq) recs
    end.
Proof.
  intros seq Hwf Hlt Hit. subst seq. destruct Hwf as (segs & act & W & <-).
  assert (safe (Append it) st
    (fun a st' => a = nextSeq (buf st) + 1 /\ recovers (files (world st')) (drawn (world st'))
       (contents segs act ++ [with_seq it (nextSeq (buf st) + 1)]))
    (fun fs' d' => exists recs, recovers fs' d' recs /\
       after_crash (contents segs act) (with_seq it (nextSeq (buf st) + 1)) recs)) as Hsafe.
  2: { unfold safe in Hsafe. destruct (Append it st) as [o st1]. destruct o as [a|e|].
       - destruct Hsafe as [-> Hr]. destruct (open_recovers sb age bytes _ _ Hr) as (st2 & E & Hh).
         by eexists _, _, _, _.
       - destruct Hsafe as (recs & Hr & Ha). destruct (open_recovers sb age bytes _ _ Hr) as (st2 & E & Hh).
         by eexists _, _, _, _.
       - destruct Hsafe as (recs & Hr & Ha). destruct (open_recovers sb age bytes _ _ Hr) as (st2 & E & Hh).
         by eexists _, _, _, _. }
  pose proof (wf_next _ _ _ _ _ W) as Hn. destruct st as [b w]. simpl in *.
  assert (wf_segs (set_nextSeq (nextSeq b + 1) b) (files w) (drawn w) segs act) as W0
    by (apply wf_raise_next; [done|lia]).
  unfold Append. apply safe_bind. unfold safe at 1, get_buf. cbn [buf].
  assert (uint64 (nextSeq b + 1) = nextSeq b + 1) as -> by (apply wrap_u_small; lia).
  apply safe_bind. eapply safe_modify; [done|]. intros st1 H1. cbn zeta.
  rewrite (wf_active _ _ _ _ _ W). destruct act as [[k items]|].
  - apply safe_bind. unfold safe at 1. cbn.
    eapply (safe_push _ _ _ _ _ _ _ _ _ W0); try done; try (simpl; lia).
    by apply (Forall_lt_next _ _ _ _ _ _ W); lia.
  - pose proof (wf_new_writer _ _ _ _ W0) as W1. pose proof (aname_fresh _ _ _ _ _ W) as Hfresh.
    assert (contents segs (Some (drawn w, [])) = contents segs None) as Ec by done.
    apply safe_bind. eapply safe_mono; [apply (safe_new_writer _ _ _ _ st1 W H1)| |].
    2: { intros fs' d' Hr. exists (contents segs None). split; [done|]. by left. }
    intros sw st2 [-> H2]. rewrite <- Ec.
    eapply (safe_push _ _ _ _ _ _ _ _ _ W1); try done; try (simpl; lia).
    rewrite Ec. by apply (Forall_lt_next _ _ _ _ _ _ W); lia.
Qed.

(** ** Reopening a well-formed directory *)

Lemma fold_max_ge (l : list (nat * list Item)) x :
  x <= fold_left (fun x s => Z.max x (last_seq s.2)) l x /\
  forall s, s ∈ l -> last_seq s.2 <= fold_left (fun x s => Z.max x (last_seq s.2)) l x.
Proof.
  revert x. induction l as [|t l IH]; intros x; simpl; [split; [done|by intros s ?%not_elem_of_nil]|].
  destruct (IH (Z.max x (last_seq t.2))) as [Hx Hl]. split; [lia|].
  intros s [->|Hs]%elem_of_cons; [lia|auto].
Qed.

Lemma rec_segs_ids b fs d segs act :
  wf_segs b fs d segs act ->
  StronglySorted lt (rec_segs fs d (assoc segs) (assoc (option_list act))).*1.
Proof.
  intros W. pose proof (wf_directory _ _ _ _ _ W) as D. destruct (directory_present _ _ _ _ D) as [P1 P2].
  unfold rec_segs. rewrite fmap_app, <- list_fmap_compose. simpl. rewrite list_fmap_id.
  assert (sublist (filter (fun s => s.2 <> []) ((fun k => (k, assoc (option_list act) k)) <$> present aname fs d)).*1
    (present aname fs d)) as Hsub.
  { etransitivity; [apply fmap_sublist, sublist_filter|]. rewrite <- list_fmap_compose. simpl. by rewrite list_fmap_id. }
  eapply sorted_sublist; [apply sublist_app; [reflexivity|exact Hsub]|].
  destruct act as [[k items]|].
  - assert (present aname fs d = [k]) as ->.
    { assert (StronglySorted lt [k]) as Hk by (constructor; constructor).
      pose proof (present_sorted aname fs d) as Hp.
      apply (anti_symm sublist); (apply sorted_subset_sublist; [done|done|]); intros x Hx; by apply P2. }
    apply sorted_snoc; [apply present_sorted|]. apply Forall_forall.
    intros j (Hj & raw & Hp)%present_elem.
    destruct (wf_other _ _ _ _ _ W _ _ Hp) as [(i & Hi & E)|[(i & _ & E)|(i & _ & E & _ & _ & Hlt)]].
    + apply sname_inj in E as <-. destruct (wf_act_id _ _ _ _ _ _ W) as (_ & _ & Hsort).
      rewrite fmap_app in Hsort. simpl in Hsort. clear -Hi Hsort.
      apply list_elem_of_split in Hi as (l1 & l2 & E). rewrite E, <- app_assoc in Hsort.
      apply sorted_app_inv in Hsort as [_ Hsort]. simpl in Hsort. apply StronglySorted_inv in Hsort as [_ Hf].
      apply Forall_app in Hf as [_ Hf]. by apply Forall_cons in Hf as [? _].
    + by destruct (sname_aname j i).
    + apply sname_inj in E as <-. by apply (Hlt k).
  - assert (present aname fs d = []) as ->; [|rewrite app_nil_r; apply present_sorted].
    destruct (present aname fs d) as [|k l]; [done|].
    assert (k ∈ (option_list (@None (nat * list Item))).*1) as Hk by (apply P2; by left).
    by apply not_elem_of_nil in Hk.
Qed.

Lemma reopen_clean sb age bytes b fs d c n segs act :
  wf_segs b fs d segs act ->
  exists b' fs' segs', Open sb age bytes (clean b fs d c n) = (Ret tt, clean b' fs' d c n) /\
    wf_segs b' fs' d segs' None /\ contents segs' None = contents segs act.
Proof.
  intros W. pose proof (wf_directory _ _ _ _ _ W) as D. pose proof (directory_disk _ _ _ _ D) as K.
  destruct (directory_present _ _ _ _ D) as [P1 P2].
  set (rs := rec_segs fs d (assoc segs) (assoc (option_list act))).
  pose proof (rec_segs_stored _ _ _ _ K) as Hstored. fold rs in Hstored.
  assert (contents rs None = contents segs act) as Ec.
  { rewrite <- (option_contents segs act), <- (directory_concat _ _ _ _ D). unfold contents. simpl. by rewrite app_nil_r. }
  destruct (fold_max_ge rs 0) as [Hm0 Hm].
  eexists _, _, rs. split; [by apply Open_clean|]. fold rs. split; [|done].
  constructor; rewrite ?Ec; try done.
  - simpl. rewrite <- (app_nil_r (concat rs.*2)). change (concat rs.*2 ++ [])%list with (contents rs None). by rewrite Ec.
  - apply (wf_seqs _ _ _ _ _ W).
  - pose proof (wf_range _ _ _ _ _ W) as Hr. pose proof (wf_seqs _ _ _ _ _ W) as Hq.
    rewrite Forall_forall in Hr |- *. intros it Hit. split; [by apply Hr|]. cbn [nextSeq add_segs empty_buffer].
    rewrite <- Ec in Hit, Hq. unfold contents in Hit, Hq. simpl in Hit, Hq. rewrite app_nil_r in Hit, Hq.
    apply list_elem_of_In, in_concat in Hit as (items & Hi & Hx). apply list_elem_of_In in Hi, Hx.
    apply list_elem_of_fmap in Hi as ([k items'] & -> & Hk). simpl in Hx.
    pose proof (sorted_sublist _ _ _ (fmap_sublist it_Seq _ _ (seg_sublist _ _ _ Hk)) Hq) as Hs.
    pose proof (seq_bounds _ _ Hs Hx). specialize (Hm _ Hk). simpl in Hm. lia.
  - apply (wf_store _ _ _ _ _ W).
  - unfold ids. simpl. rewrite app_nil_r. by eapply rec_segs_ids.
  - unfold ids. simpl. rewrite app_nil_r. apply Forall_forall.
    intros k ([j items] & -> & Hin)%list_elem_of_fmap. unfold rs, rec_segs in Hin.
    apply elem_of_app in Hin as [(i & [= -> ->] & Hi)%list_elem_of_fmap|[_ (i & [= -> ->] & Hi)%list_elem_of_fmap]%list_elem_of_filter];
      by apply present_elem in Hi as [? _].
  - intros k items Hin. rewrite Forall_forall in Hstored. by apply (Hstored _ Hin).
  - intros p raw Hp. pose proof (sorted_NoDup _ (present_sorted aname fs d)) as Hnd.
    assert (exists k, (k < d)%nat /\ (p = sname k \/ p = aname k)) as (k & Hk & Hpk).
    { eapply orphan_files_names; [apply K| |exact Hp]. apply Forall_forall. by intros k [? _]%present_elem. }
    destruct (orphan_files_lookup (assoc (option_list act)) _ fs k Hnd) as [Es Ea].
    destruct Hpk as [->| ->].
    + rewrite Es in Hp. destruct (decide (k ∈ rs.*1)) as [Hin|Hout]; [eauto|].
      unfold rs, rec_segs in Hout. rewrite fmap_app, not_elem_of_app in Hout. destruct Hout as [Ho1 Ho2].
      right. right. exists k. split_and!; try done; [|unfold rs, rec_segs; rewrite fmap_app, not_elem_of_app; done].
      destruct (decide (k ∈ present aname fs d)) as [Hka|Hka].
      * destruct (assoc (option_list act) k) as [|x l] eqn:Eas; [congruence|]. destruct Ho2.
        apply list_elem_of_fmap. exists (k, x :: l). split; [done|]. apply list_elem_of_filter.
        split; [done|]. apply list_elem_of_fmap. exists k. by rewrite Eas.
      * destruct Ho1. apply list_elem_of_fmap. exists (k, assoc segs k). split; [done|].
        apply list_elem_of_fmap. exists k. split; [done|]. apply present_elem. eauto.
    + rewrite Ea in Hp. destruct (decide _) as [|Hka]; [done|]. destruct Hka. apply present_elem. eauto.
Qed.

(** C14: stopping and starting the agent between two operations keeps the buffer, on a
    disk without I/O errors: with the active segment sealed by Close, or left as it is
    by a kill that no operation was in the middle of, Open brings back the same records
    in the same order, and the buffer is again well-formed, so that every other property
    applies to it. A kill inside an operation is not covered: [append_crash_safe] says
    what it leaves of an Append, and [ack_crash_loses_unacked] and
    [seal_crash_duplicates] what it can do inside Ack and a seal. *)
Theorem reopen_spec st items sb age bytes :
  wf st items -> fault_free st ->
  exists st1 st2 st3,
    Open sb age bytes st = (Ret tt, st1) /\ wf st1 items /\
    Close st = (Ret tt, st2) /\ wf st2 items /\
    Open sb age bytes st2 = (Ret tt, st3) /\ wf st3 items.
Proof.
  intros Hwf Hff.
  destruct (wf_clean _ _ Hwf Hff) as (b & fs & d & c & n & segs & act & -> & W & <-).
  destruct (reopen_clean sb age bytes b fs d c n segs act W) as (b1 & fs1 & segs1 & E1 & W1 & Ec1).
  destruct (Close_clean b fs d c n segs act W) as (b2 & fs2 & E2 & _ & segs2 & W2 & Ec2).
  destruct (reopen_clean sb age bytes b2 fs2 d c n segs2 None W2) as (b3 & fs3 & segs3 & E3 & W3 & Ec3).
  eexists _, _, _. split_and!; [exact E1| |exact E2| |exact E3|]; (eexists _, None; split; [done|congruence]).
Qed.

End crash.

Lemma append_crash_safe_witness :
  exists o st1 st2 recs,
    Append (demo_item 0 1 3) (mkState demo_buffer (mkWorld demo_files [IoOk; IoCrash 3] 2 10 [])) = (o, st1) /\
    Open 100 hour 4 (reboot st1) = (Ret tt, st2) /\ holds st2 recs.
Proof.
  destruct (append_crash_safe (mkState demo_buffer (mkWorld demo_files [IoOk; IoCrash 3] 2 10 []))
    demo_items (demo_item 0 1 3) 100 hour 4 demo_wf) as (o & st1 & st2 & recs & E1 & E2 & Hh & _).
  - done.
  - split; [apply demo_storable; set_solver|]. intros k Hk. change (k < 10)%nat in Hk.
    do 10 (destruct k as [|k]; [vm_compute; congruence|]). lia.
  - exists o, st1, st2, recs. split; [exact E1|]. by split.
Defined.

Lemma reopen_spec_witness :
  exists st1, Open 100 hour 4 demo_state = (Ret tt, st1) /\ wf st1 demo_items.
Proof.
  destruct (reopen_spec demo_state demo_items 100 hour 4 demo_wf eq_refl) as (st1 & _ & _ & E & W & _).
  exists st1. by split.
Defined.

(** ** Where durability ends

    Runs of the code on the demo buffer that the theorems above exclude. *)

Definition with_faults (fl : list fault) (st : State) : State :=
  mkState (buf st) (set_faults (world st) fl).

(** the records Open finds after a crash *)
Definition reopened (st : State) : outcome (list Item) :=
  (oldestItems 100 (Open 100 hour 1000 (reboot st)).2).1.

(** Ack rewrites the active segment in place: a crash between its truncation and the
    write loses record 3, which nobody has acknowledged. *)
Example ack_crash_loses_unacked :
  let st1 := (Ack 2 (with_faults [IoOk; IoOk; IoCrash 0] demo_state)).2 in
  reopened st1 = Ret [].
Proof. vm_compute. done. Qed.

(** A write that fails half way leaves its bytes in the file: a later Append succeeds, is
    synced and returns its sequence, and recovery stops before its record. *)
Example append_after_short_write_lost :
  let st1 := (Append (demo_item 0 1 3) (with_faults [IoFail 3] demo_state)).2 in
  let '(o, st2) := Append (demo_item 0 1 3) st1 in
  o = Ret 5 /\ reopened st2 = Ret demo_items.
Proof. vm_compute. done. Qed.

(** A crash between the rename of a sealed segment and the removal of the unsealed file:
    recovery lists the segment twice, and the records come back twice. *)
Example seal_crash_duplicates :
  let st := mkState (mkBuffer 1 hour 1000 3 (active demo_buffer) (sealed demo_buffer) 3)
              (mkWorld demo_files (repeat IoOk 8 ++ [IoCrash 0])%list 2 10 []) in
  let st1 := (Append (demo_item 0 1 3) st).2 in
  reopened st1 = Ret (demo_items ++ [demo_item 4 1 3] ++ [demo_item 2 0 1; demo_item 3 1 2; demo_item 4 1 3])%list.
Proof. vm_compute. done. Qed.

(** When sealing fails after the file is closed, the closed writer stays in place and
    every later Append fails. *)
Example seal_failure_blocks_append :
  let st := mkState (mkBuffer 1 hour 1000 3 (active demo_buffer) (sealed demo_buffer) 3)
              (mkWorld demo_files [IoOk; IoOk; IoFail 0] 2 10 []) in
  let st1 := (Append (demo_item 0 1 3) st).2 in
  (Append (demo_item 0 1 3) st1).1 = Fail ErrClosed.
Proof. vm_compute. done. Qed.

End AgentBufferCrash.
