(* ===== verification/AgentBufferDelivery.v ===== *)
(** * AgentBufferDelivery: collectors, backfill and capacity running together

    The agent's collectors append records (sink.go) while its delivery loop runs Backfill
    (backfill.go) and capacity enforcement may run (capacity.go); each method of Buffer
    holds the mutex for its whole duration, and Backfill takes it separately for reading
    the oldest items and for acknowledging them. So an execution is a sequence of whole
    method calls, in which appends and discards fall anywhere between the read, the send
    and the acknowledgement of a batch, and the process may be killed and restarted
    between any two of them. *)

From stdpp Require Import base gmap strings list.
From Stdlib Require Import ZArith Lia Ascii.
From S2P Require Import Prelude GoStd Schema AgentBuffer AgentBufferSpec AgentBufferDemo AgentBufferProps AgentBufferCrash.
Import GoString GoTime Schema AgentBuffer AgentBufferSpec AgentBufferDemo AgentBufferProps AgentBufferCrash.

Local Open Scope string_scope.
Local Open Scope Z_scope.

Module AgentBufferDelivery.

(** Where the delivery loop stands: between batches, holding a batch it has read, or
    holding one the hub has accepted. *)
Inductive flight : Type :=
| Idle
| Fetched (batch : list Item)
| Sent (batch : list Item).

Record sys_state := mkSys {
  ds_st : State;
  ds_flight : flight;
  ds_appended : list Item;    (** records whose Append has returned *)
  ds_confirmed : list Item;   (** records in batches the hub accepted *)
  ds_discarded : list DiscardedItem; (** what EnforceCapacity reported *)
}.

Section delivery.
Context `{EnvLaws}.
Context (sb : Z) (age : Duration) (bytes : Z).

Inductive step : sys_state -> sys_state -> Prop :=
| step_append st st' it seq fl ap co di :
    storable (with_seq it (nextSeq (buf st) + 1)) -> nextSeq (buf st) + 1 < 2 ^ 64 ->
    Append it st = (Ret seq, st') ->
    step (mkSys st fl ap co di) (mkSys st' fl (ap ++ [with_seq it seq]) co di)
| step_fetch st st' n batch ap co di :
    oldestItems n st = (Ret batch, st') -> batch <> [] ->
    step (mkSys st Idle ap co di) (mkSys st' (Fetched batch) ap co di)
| step_send_fails st batch ap co di :
    step (mkSys st (Fetched batch) ap co di) (mkSys st Idle ap co di)
| step_send st batch ap co di :
    step (mkSys st (Fetched batch) ap co di) (mkSys st (Sent batch) ap (co ++ batch) di)
| step_ack st st' batch ap co di :
    Ack (last_seq batch) st = (Ret tt, st') ->
    step (mkSys st (Sent batch) ap co di) (mkSys st' Idle ap co di)
| step_enforce st st' fl ap co di gone :
    EnforceCapacity st = (Ret gone, st') ->
    step (mkSys st fl ap co di) (mkSys st' fl ap co (di ++ gone))
| step_restart st st' fl ap co di :
    Open sb age bytes st = (Ret tt, st') ->
    step (mkSys st fl ap co di) (mkSys st' Idle ap co di).

Inductive reachable (init : sys_state) : sys_state -> Prop :=
| reach_init : reachable init init
| reach_step s s' : reachable init s -> step s s' -> reachable init s'.

(** The batch in flight covers every buffered record up to its last sequence. *)
Definition covers (batch items : list Item) (next : Z) : Prop :=
  0 <= last_seq batch <= next /\
  forall it, it ∈ items -> it_Seq it <= last_seq batch -> it ∈ batch.

Definition flight_ok (fl : flight) (items confirmed : list Item) (next : Z) : Prop :=
  match fl with
  | Idle => True
  | Fetched batch => covers batch items next
  | Sent batch => covers batch items next /\ forall it, it ∈ batch -> it ∈ confirmed
  end.

Record inv (s : sys_state) (items : list Item) : Prop := mkInv {
  inv_wf : wf (ds_st s) items;
  inv_ff : fault_free (ds_st s);
  inv_flight : flight_ok (ds_flight s) items (ds_confirmed s) (nextSeq (buf (ds_st s)));
  inv_kept : forall it, it ∈ ds_appended s ->
    it ∈ items \/ it ∈ ds_confirmed s \/ discarded_of it ∈ ds_discarded s;
}.

Lemma covers_sub batch items items' next :
  (forall it, it ∈ items' -> it ∈ items) -> covers batch items next -> covers batch items' next.
Proof. intros Hs [Hl Hc]. split; [done|]. auto. Qed.

Lemma flight_sub fl items items' co next :
  (forall it, it ∈ items' -> it ∈ items) -> flight_ok fl items co next -> flight_ok fl items' co next.
Proof. intros Hs. destruct fl; simpl; [done| |]; intros Hf; try split; try apply Hf; by eapply covers_sub, Hf. Qed.

Lemma flight_push fl items co next it :
  it_Seq it = next + 1 -> flight_ok fl items co next -> flight_ok fl (items ++ [it]) co (next + 1).
Proof.
  intros Hq. assert (forall batch, covers batch items next -> covers batch (items ++ [it]) (next + 1)) as Hc.
  { intros batch [Hl Hc]. split; [lia|]. intros x [Hx|Hx%list_elem_of_singleton]%elem_of_app; [auto|].
    subst x. lia. }
  destruct fl; simpl; [done|auto|]. intros [? ?]. auto.
Qed.

Lemma fetch_covers b fs d segs act n :
  wf_segs b fs d segs act ->
  covers (take n (contents segs act)) (contents segs act) (nextSeq b).
Proof.
  intros W. set (items := contents segs act).
  pose proof (take_drop n items) as Esplit. split.
  - split; [eapply seq_nonneg_last; [exact W|by rewrite Esplit]|].
    pose proof (wf_range _ _ _ _ _ W) as Hr. pose proof (wf_next _ _ _ _ _ W) as Hn.
    unfold last_seq. destruct (last (take n items)) as [x|] eqn:E; [|lia].
    apply last_Some in E as (l & E). rewrite Forall_forall in Hr. apply Hr.
    fold items. rewrite <- Esplit, E, !elem_of_app. left. right. by left.
  - intros it Hin Hle. destruct (decide (take n items = [])) as [Enil|Hne].
    { rewrite Enil in Hle. unfold last_seq in Hle. simpl in Hle.
      pose proof (wf_range _ _ _ _ _ W) as Hr. rewrite Forall_forall in Hr. specialize (Hr _ Hin). lia. }
    rewrite <- Esplit in Hin. apply elem_of_app in Hin as [?|Hin]; [done|].
    pose proof (unacked_prefix (take n items) (drop n items)) as Hu. rewrite Esplit in Hu.
    specialize (Hu (wf_seqs _ _ _ _ _ W) Hne). rewrite <- Hu in Hin. unfold unacked in Hin.
    apply list_elem_of_In, filter_In in Hin as [_ Hlt]. zbool. lia.
Qed.

Lemma except_elem items victims it :
  NoDup (it_Seq <$> items) -> (forall v, v ∈ victims -> v ∈ items) -> it ∈ items ->
  it ∈ except victims items \/ it ∈ victims.
Proof.
  intros Hnd Hv Hin. destruct (decide (it_Seq it ∈ it_Seq <$> victims)) as [(v & E & Hvin)%list_elem_of_fmap|Hn].
  - right. by rewrite (seq_unique items it v Hnd Hin (Hv _ Hvin) E).
  - left. unfold except. apply list_elem_of_In, filter_In. split; [by apply list_elem_of_In|].
    by apply bool_decide_true.
Qed.

(** Each method of the buffer, called in a state that satisfies the invariant: it returns,
    and what it leaves. *)
Lemma append_inv st fl ap co di items it :
  inv (mkSys st fl ap co di) items ->
  storable (with_seq it (nextSeq (buf st) + 1)) -> nextSeq (buf st) + 1 < 2 ^ 64 ->
  exists st', Append it st = (Ret (nextSeq (buf st) + 1), st') /\
    inv (mkSys st' fl (ap ++ [with_seq it (nextSeq (buf st) + 1)]) co di) (items ++ [with_seq it (nextSeq (buf st) + 1)]).
Proof.
  intros [Hwf Hff Hfl Hk] Hst Hlt; simpl in *.
  destruct (wf_clean _ _ Hwf Hff) as (b & fs & d & c & n' & segs & act & -> & W & <-); simpl in *.
  destruct (Append_clean b fs d c n' segs act it W Hlt Hst) as (b' & fs' & d' & E' & En & segs' & act' & W' & Ec).
  eexists. split; [exact E'|]. constructor; simpl; [by exists segs', act'|done| |].
  - rewrite En. by apply flight_push.
  - intros x [Hx|Hx]%elem_of_app; rewrite elem_of_app; [|auto]. destruct (Hk x Hx) as [?|[?|?]]; auto.
Qed.

Lemma fetch_inv st fl ap co di items n :
  inv (mkSys st fl ap co di) items ->
  oldestItems n st = (Ret (take n items), st) /\ inv (mkSys st (Fetched (take n items)) ap co di) items.
Proof.
  intros [Hwf Hff Hfl Hk]; simpl in *.
  destruct (wf_clean _ _ Hwf Hff) as (b & fs & d & c & n' & segs & act & -> & W & <-).
  split; [by apply oldestItems_clean|]. constructor; simpl; [done|done| |done]. by eapply fetch_covers.
Qed.

Lemma send_inv st batch ap co di items :
  inv (mkSys st (Fetched batch) ap co di) items -> inv (mkSys st (Sent batch) ap (co ++ batch) di) items.
Proof.
  intros [Hwf Hff Hfl Hk]; simpl in *. constructor; simpl; try done.
  - split; [done|]. intros it Hit. apply elem_of_app. by right.
  - intros it Hit. rewrite elem_of_app. destruct (Hk it Hit) as [?|[?|?]]; auto.
Qed.

Lemma ack_inv st batch ap co di items :
  inv (mkSys st (Sent batch) ap co di) items ->
  exists st', Ack (last_seq batch) st = (Ret tt, st') /\ inv (mkSys st' Idle ap co di) (unacked (last_seq batch) items).
Proof.
  intros [Hwf Hff [[Hl Hc] Hco] Hk]; simpl in *.
  destruct (wf_clean _ _ Hwf Hff) as (b & fs & d & c & n' & segs & act & -> & W & <-); simpl in *.
  destruct (Ack_clean (last_seq batch) b fs d c n' segs act (proj1 Hl) W) as (b' & fs' & E' & En & W').
  eexists. split; [exact E'|]. constructor; simpl; [eexists _, _; split; [exact W'|apply ack_contents]|done|done|].
  intros it Hit. destruct (Hk it Hit) as [Hin|[?|?]]; [|auto|auto].
  destruct (Z.le_gt_cases (it_Seq it) (last_seq batch)) as [Hle|Hgt]; [auto|].
  left. apply list_elem_of_In, filter_In. split; [by apply list_elem_of_In|]. by apply Z.ltb_lt.
Qed.

Lemma enforce_inv st fl ap co di items :
  inv (mkSys st fl ap co di) items ->
  exists gone st' items', EnforceCapacity st = (Ret gone, st') /\ items' `sublist_of` items /\
    inv (mkSys st' fl ap co (di ++ gone)) items'.
Proof.
  intros [Hwf Hff Hfl Hk]; simpl in *.
  destruct (wf_clean _ _ Hwf Hff) as (b & fs & d & c & n' & segs & act & -> & W & <-); simpl in *.
  destruct (enforce_loop_clean (S (Z.to_nat (totalLen b))) [] b fs d c n' segs act W)
    as (j & b' & fs' & segs' & act' & E' & _ & En & W' & Ec & _); [rewrite (wf_total _ _ _ _ _ W); lia|].
  eexists _, _, (contents segs' act'). split; [unfold EnforceCapacity; erewrite bind_ret by reflexivity; exact E'|].
  assert (contents segs' act' `sublist_of` contents segs act) as Hsub by (rewrite Ec; apply filter_sublist).
  split; [done|]. constructor; simpl; [by exists segs', act'|done| |].
  - rewrite En. eapply flight_sub; [|exact Hfl]. intros it Hit. by eapply elem_of_sublist.
  - intros it Hit. rewrite elem_of_app. destruct (Hk it Hit) as [Hin|[?|?]]; [|auto|auto].
    rewrite Ec. edestruct (except_elem (contents segs act)) as [?|Hv]; [..|by left|].
    + apply sorted_seqs_NoDup, (wf_seqs _ _ _ _ _ W).
    + intros v Hv. eapply elem_of_sublist in Hv; [|apply sublist_take].
      unfold discard_queue in Hv. apply elem_of_app in Hv as [Hv|Hv]; by apply by_prio_elem in Hv as [? _].
    + exact Hin.
    + right. right. right. by apply list_elem_of_fmap_2.
Qed.

Lemma reopened_inv st fl ap co di items :
  inv (mkSys st fl ap co di) items ->
  exists st', Open sb age bytes st = (Ret tt, st') /\ inv (mkSys st' Idle ap co di) items.
Proof.
  intros [Hwf Hff Hfl Hk]; simpl in *.
  destruct (wf_clean _ _ Hwf Hff) as (b & fs & d & c & n' & segs & act & -> & W & <-); simpl in *.
  destruct (reopen_clean sb age bytes b fs d c n' segs act W) as (b' & fs' & segs' & E' & W' & Ec).
  eexists. split; [exact E'|]. rewrite <- Ec in Hk |- *. constructor; simpl; [by exists segs', None|done|done|done].
Qed.

Lemma step_inv s s' items : inv s items -> step s s' -> exists items', inv s' items'.
Proof.
  intros I Hstep. destruct Hstep as
    [st st' it seq fl ap co di Hst Hlt E|st st' n batch ap co di E Hne|st batch ap co di|st batch ap co di
    |st st' batch ap co di E|st st' fl ap co di gone E|st st' fl ap co di E].
  - destruct (append_inv _ _ _ _ _ _ _ I Hst Hlt) as (st1 & E1 & I1). rewrite E1 in E. injection E as <- <-. eauto.
  - destruct (fetch_inv _ _ _ _ _ _ n I) as (E1 & I1). rewrite E1 in E. injection E as <- <-. eauto.
  - exists items. by destruct I; constructor.
  - eauto using send_inv.
  - destruct (ack_inv _ _ _ _ _ _ I) as (st1 & E1 & I1). rewrite E1 in E. injection E as <-. eauto.
  - destruct (enforce_inv _ _ _ _ _ _ I) as (gone1 & st1 & items1 & E1 & _ & I1). rewrite E1 in E. injection E as <- <-. eauto.
  - destruct (reopened_inv _ _ _ _ _ _ I) as (st1 & E1 & I1). rewrite E1 in E. injection E as <-. eauto.
Qed.

(** C2: no record is lost between Append and the hub, on a disk without I/O errors. In
    every execution that interleaves whole appends, the steps of the delivery loop (take
    a batch, send it, acknowledge it), capacity enforcement and restarts of the process
    between two such steps, each record whose Append returned is still buffered, or is
    in a batch the hub accepted, or was reported discarded by EnforceCapacity. A failing
    disk and a kill inside an operation are outside of it: what Append then keeps is
    [append_crash_safe], and [ack_crash_loses_unacked] and
    [append_after_short_write_lost] are records lost that way. *)
Theorem delivery_no_loss init items0 s :
  inv init items0 -> reachable init s ->
  exists items, wf (ds_st s) items /\ forall it, it ∈ ds_appended s ->
    it ∈ items \/ it ∈ ds_confirmed s \/ discarded_of it ∈ ds_discarded s.
Proof.
  intros I Hr. assert (exists items, inv s items) as [items [? _ _ ?]]; [|by exists items].
  induction Hr as [|s s' Hr [items IH] Hs]; [by exists items0|]. by eapply step_inv.
Qed.

End delivery.

(** From the demo buffer: fetch a batch, append while it is in flight, send, acknowledge. *)
Lemma delivery_no_loss_witness :
  let init := mkSys demo_state Idle demo_items [] [] in
  let st1 := (Append (demo_item 0 1 3) demo_state).2 in
  let st2 := (Ack 2 st1).2 in
  let batch := [demo_item 1 2 0; demo_item 2 0 1] in
  exists items, wf st2 items /\ forall it, it ∈ (demo_items ++ [demo_item 4 1 3])%list ->
    it ∈ items \/ it ∈ batch \/ discarded_of it ∈ ([] : list DiscardedItem).
Proof.
  intros init st1 st2 batch.
  apply (delivery_no_loss 100 hour 4 init demo_items (mkSys st2 Idle (demo_items ++ [demo_item 4 1 3])%list batch [])).
  - constructor; [exact demo_wf|done|done|]. intros it Hit. by left.
  - set (s1 := mkSys demo_state (Fetched batch) demo_items [] []).
    set (s2 := mkSys st1 (Fetched batch) (demo_items ++ [demo_item 4 1 3])%list [] []).
    set (s3 := mkSys st1 (Sent batch) (demo_items ++ [demo_item 4 1 3])%list batch []).
    apply (reach_step _ _ _ _ s3); [apply (reach_step _ _ _ _ s2); [apply (reach_step _ _ _ _ s1);
      [apply (reach_step _ _ _ _ init); [apply reach_init|]|]|]|].
    + by apply (step_fetch 100 hour 4 demo_state demo_state 2).
    + apply (step_append 100 hour 4 demo_state st1 (demo_item 0 1 3) 4);
        [apply (demo_storable 4 1 3); set_solver|done|by vm_compute].
    + apply (step_send 100 hour 4 st1 batch).
    + apply (step_ack 100 hour 4 st1 st2 batch). by vm_compute.
Defined.

End AgentBufferDelivery.
