(* ===== verification/Blackbox.v ===== *)
(** * Blackbox: the high-frequency ring recorder

    Models internal/blackbox: header.go and encode.go (the on-disk layout),
    recorder.go (the memory-mapped ring), reader.go (Dump).

    A file is its list of bytes. Fixed-width fields are [Z]; a float32 is its 32-bit
    pattern. The mapping and the file are one list: what Record writes is what a reader of
    the file sees. *)

From stdpp Require Import base list.
From Stdlib Require Import ZArith Lia.
From S2P Require Import Prelude.

Local Open Scope Z_scope.

(** ** encoding/binary, little endian *)
Module LittleEndian.

Fixpoint le (n : nat) (z : Z) : list Z :=
  match n with
  | O => []
  | S n' => z mod 256 :: le n' (z / 256)
  end.

Definition le_val (bs : list Z) : Z := foldr (fun b acc => b + 256 * acc) 0 bs.

(** an array of fields of [n] bytes each *)
Definition le_array (n : nat) (zs : list Z) : list Z := concat (le n <$> zs).

(** read one field of [n] bytes, and an array of [count] of them *)
Definition get (n : nat) (raw : list Z) : Z * list Z := (le_val (take n raw), drop n raw).

Fixpoint get_array (n count : nat) (raw : list Z) : list Z * list Z :=
  match count with
  | O => ([], raw)
  | S count' =>
      let '(z, raw) := get n raw in
      let '(zs, raw) := get_array n count' raw in
      (z :: zs, raw)
  end.

Lemma le_length n z : length (le n z) = n.
Proof. revert z. induction n as [|n IH]; intros z; simpl; [done|]. by rewrite IH. Qed.

Lemma le_array_cons n z zs : le_array n (z :: zs) = le n z ++ le_array n zs.
Proof. done. Qed.

Lemma le_array_length n zs : length (le_array n zs) = (length zs * n)%nat.
Proof.
  induction zs as [|z zs IH]; [done|]. rewrite le_array_cons, length_app, le_length, IH. done.
Qed.

Lemma le_val_le n z : 0 <= z < 256 ^ Z.of_nat n -> le_val (le n z) = z.
Proof.
  revert z. induction n as [|n IH]; intros z Hz; simpl.
  - simpl in Hz. lia.
  - fold (le_val (le n (z / 256))). rewrite IH.
    + pose proof (Z.div_mod z 256). lia.
    + rewrite Nat2Z.inj_succ, Z.pow_succ_r in Hz by lia.
      split; [apply Z.div_pos; lia|]. apply Z.div_lt_upper_bound; lia.
Qed.

Lemma get_le n z rest : 0 <= z < 256 ^ Z.of_nat n -> get n (le n z ++ rest) = (z, rest).
Proof.
  intros Hz. unfold get. rewrite take_app_le, drop_app_ge by (rewrite le_length; lia).
  rewrite le_length, Nat.sub_diag, drop_0. rewrite take_ge by (rewrite le_length; lia).
  by rewrite le_val_le.
Qed.

Lemma get_array_le n zs rest :
  Forall (fun z => 0 <= z < 256 ^ Z.of_nat n) zs ->
  get_array n (length zs) (le_array n zs ++ rest) = (zs, rest).
Proof.
  induction 1 as [|z zs Hz Hzs IH]; [done|]. rewrite le_array_cons, <- app_assoc. cbn [length get_array].
  rewrite get_le by done. by rewrite IH.
Qed.

End LittleEndian.

(** ** The record and the header *)
Module Blackbox.
Import LittleEndian.

Definition MaxCPUs : nat := 64.
Definition MaxSensors : nat := 24.
Definition MaxBlockDevices : nat := 16.

Record Sample := mkSample {
  TimestampUnixMilli : Z;
  NumCPUs : Z;
  CPUBusyPct : list Z;
  CPUFreqMHz : list Z;
  ThrottledMask : Z;
  NumSensors : Z;
  SensorTempMilliC : list Z;
  MemTotalKB : Z;
  MemAvailableKB : Z;
  MemCachedKB : Z;
  MemSwapUsedKB : Z;
  MemDirtyKB : Z;
  MemWritebackKB : Z;
  LoadAvg1 : Z;
  ProcsRunnable : Z;
  ProcsBlockedD : Z;
  InterruptsPerCPU : list Z;
  PSICPUSome10 : Z;
  PSIMemSome10 : Z;
  PSIMemFull10 : Z;
  PSIIOSome10 : Z;
  PSIIOFull10 : Z;
  NumBlockDevices : Z;
  BlockQueueDepth : list Z;
  BlockLatencyUs : list Z;
  EDACCorrectableDelta : Z;
  EDACUncorrectableDelta : Z;
}.

Definition u (bits z : Z) : Prop := 0 <= z < 2 ^ bits.
Definition s (bits z : Z) : Prop := - 2 ^ (bits - 1) <= z < 2 ^ (bits - 1).
Definition arr (n : nat) (P : Z -> Prop) (zs : list Z) : Prop := length zs = n /\ Forall P zs.

(** every field within the range of its Go type *)
Record sample_ok (x : Sample) : Prop := mkSampleOk {
  ok_ts : s 64 (TimestampUnixMilli x);
  ok_ncpu : u 16 (NumCPUs x);
  ok_busy : arr MaxCPUs (u 32) (CPUBusyPct x);
  ok_freq : arr MaxCPUs (u 32) (CPUFreqMHz x);
  ok_mask : u 64 (ThrottledMask x);
  ok_nsens : u 16 (NumSensors x);
  ok_temp : arr MaxSensors (s 32) (SensorTempMilliC x);
  ok_m1 : u 64 (MemTotalKB x);
  ok_m2 : u 64 (MemAvailableKB x);
  ok_m3 : u 64 (MemCachedKB x);
  ok_m4 : u 64 (MemSwapUsedKB x);
  ok_m5 : u 64 (MemDirtyKB x);
  ok_m6 : u 64 (MemWritebackKB x);
  ok_load : u 32 (LoadAvg1 x);
  ok_run : u 32 (ProcsRunnable x);
  ok_blk : u 32 (ProcsBlockedD x);
  ok_irq : arr MaxCPUs (u 64) (InterruptsPerCPU x);
  ok_p1 : u 32 (PSICPUSome10 x);
  ok_p2 : u 32 (PSIMemSome10 x);
  ok_p3 : u 32 (PSIMemFull10 x);
  ok_p4 : u 32 (PSIIOSome10 x);
  ok_p5 : u 32 (PSIIOFull10 x);
  ok_nblk : u 16 (NumBlockDevices x);
  ok_depth : arr MaxBlockDevices (u 32) (BlockQueueDepth x);
  ok_lat : arr MaxBlockDevices (u 32) (BlockLatencyUs x);
  ok_ce : u 64 (EDACCorrectableDelta x);
  ok_ue : u 64 (EDACUncorrectableDelta x);
}.

Definition sampleEncodedSize : nat := 1384.

Definition pad (n : nat) : list Z := replicate n 0.

Definition encodeSample (x : Sample) : list Z :=
  le 8 (wrap_u 64 (TimestampUnixMilli x)) ++ le 2 (NumCPUs x) ++ pad 6 ++
  le_array 4 (CPUBusyPct x) ++ le_array 4 (CPUFreqMHz x) ++ le 8 (ThrottledMask x) ++
  le 2 (NumSensors x) ++ pad 6 ++ le_array 4 (wrap_u 32 <$> SensorTempMilliC x) ++
  le 8 (MemTotalKB x) ++ le 8 (MemAvailableKB x) ++ le 8 (MemCachedKB x) ++
  le 8 (MemSwapUsedKB x) ++ le 8 (MemDirtyKB x) ++ le 8 (MemWritebackKB x) ++
  le 4 (LoadAvg1 x) ++ le 4 (ProcsRunnable x) ++ le 4 (ProcsBlockedD x) ++
  le_array 8 (InterruptsPerCPU x) ++
  le 4 (PSICPUSome10 x) ++ le 4 (PSIMemSome10 x) ++ le 4 (PSIMemFull10 x) ++
  le 4 (PSIIOSome10 x) ++ le 4 (PSIIOFull10 x) ++
  le 2 (NumBlockDevices x) ++ pad 6 ++ le_array 4 (BlockQueueDepth x) ++
  le_array 4 (BlockLatencyUs x) ++ le 8 (EDACCorrectableDelta x) ++
  le 8 (EDACUncorrectableDelta x).

Inductive BlackboxError : Set :=
| ErrRecordSize
| ErrHeaderShort
| ErrBadMagic
| ErrBadVersion
| ErrTruncated (record : Z)
| PanicDivideByZero.

(** binary.Read of every field in turn; the length is right, so it cannot fail *)
Definition read_sample (raw : list Z) : Sample :=
  let '(ts, raw) := get 8 raw in
  let '(ncpu, raw) := get 2 raw in let raw := drop 6 raw in
  let '(busy, raw) := get_array 4 MaxCPUs raw in
  let '(freq, raw) := get_array 4 MaxCPUs raw in
  let '(mask, raw) := get 8 raw in
  let '(nsens, raw) := get 2 raw in let raw := drop 6 raw in
  let '(temp, raw) := get_array 4 MaxSensors raw in
  let '(m1, raw) := get 8 raw in let '(m2, raw) := get 8 raw in let '(m3, raw) := get 8 raw in
  let '(m4, raw) := get 8 raw in let '(m5, raw) := get 8 raw in let '(m6, raw) := get 8 raw in
  let '(load, raw) := get 4 raw in let '(run, raw) := get 4 raw in let '(blk, raw) := get 4 raw in
  let '(irq, raw) := get_array 8 MaxCPUs raw in
  let '(p1, raw) := get 4 raw in let '(p2, raw) := get 4 raw in let '(p3, raw) := get 4 raw in
  let '(p4, raw) := get 4 raw in let '(p5, raw) := get 4 raw in
  let '(nblk, raw) := get 2 raw in let raw := drop 6 raw in
  let '(depth, raw) := get_array 4 MaxBlockDevices raw in
  let '(lat, raw) := get_array 4 MaxBlockDevices raw in
  let '(ce, raw) := get 8 raw in let '(ue, raw) := get 8 raw in
  mkSample (wrap_s 64 ts) ncpu busy freq mask nsens (wrap_s 32 <$> temp) m1 m2 m3 m4 m5 m6
    load run blk irq p1 p2 p3 p4 p5 nblk depth lat ce ue.

Definition decodeSample (raw : list Z) : result BlackboxError Sample :=
  if negb (length raw =? sampleEncodedSize)%nat then Err ErrRecordSize else Ok (read_sample raw).

Definition magic : list Z := [66; 84; 67; 82; 66; 76; 75; 66].
Definition formatVersion : Z := 1.
Definition headerSize : nat := 64.
Definition DefaultCapacity : Z := 900.

Record header := mkHeader {
  h_Magic : list Z;
  h_Version : Z;
  h_SampleSize : Z;
  h_Capacity : Z;
  h_WriteIndex : Z;
}.

Definition encodeHeader (h : header) : list Z :=
  let raw := h_Magic h ++ le 4 (h_Version h) ++ le 4 (h_SampleSize h) ++ le 4 (h_Capacity h) ++
             pad 4 ++ le 8 (h_WriteIndex h) in
  take headerSize (raw ++ pad headerSize).

Definition decodeHeader (raw : list Z) : result BlackboxError header :=
  if (length raw <? headerSize)%nat then Err ErrHeaderShort
  else
    let m := take 8 raw in
    let '(version, raw) := get 4 (drop 8 raw) in
    let '(size, raw) := get 4 raw in
    let '(cap, raw) := get 4 raw in
    let '(index, raw) := get 8 (drop 4 raw) in
    if negb (bool_decide (m = magic)) then Err ErrBadMagic
    else if negb (version =? formatVersion) then Err ErrBadVersion
    else Ok (mkHeader m version size cap index).

(** ** The recorder *)

(** The open file: [data] is the mapped region. *)
Record Recorder := mkRecorder { data : list Z; capacity : Z; writeIndex : Z }.

(** copy(dst[off:off+len(src)], src) inside the bounds of [dst] *)
Definition splice (dst : list Z) (off : nat) (src : list Z) : list Z :=
  take off dst ++ src ++ drop (off + length src) dst.

(** f.Truncate(size): cut, or extend with zeros *)
Definition truncate (size : nat) (contents : list Z) : list Z :=
  take size contents ++ pad (size - length contents).

Definition file_size (capacity : Z) : nat := headerSize + Z.to_nat capacity * sampleEncodedSize.

(** The file after preparation and the write index to resume from. *)
Definition prepareFile (contents : list Z) (size : nat) (capacity : Z) : list Z * Z :=
  let fresh := (truncate size [], 0) in
  if (headerSize <=? length contents)%nat then
    match decodeHeader (take headerSize contents) with
    | Ok h =>
        if (h_Capacity h =? capacity) && (h_SampleSize h =? Z.of_nat sampleEncodedSize)
        then (truncate size contents, h_WriteIndex h)
        else fresh
    | Err _ => fresh
    end
  else fresh.

Definition writeHeaderLocked (r : Recorder) : Recorder :=
  let h := mkHeader magic formatVersion (Z.of_nat sampleEncodedSize) (capacity r) (writeIndex r) in
  mkRecorder (splice (data r) 0 (encodeHeader h)) (capacity r) (writeIndex r).

(** Open; a missing file is one that O_CREATE just made, with no contents. *)
Definition Open (contents : list Z) (cap : Z) : Recorder :=
  let cap := if cap =? 0 then DefaultCapacity else cap in
  let size := file_size cap in
  let '(d, idx) := prepareFile contents size cap in
  writeHeaderLocked (mkRecorder d cap idx).

Definition record_offset (slot : Z) : nat := headerSize + Z.to_nat slot * sampleEncodedSize.

Definition Record_ (r : Recorder) (x : Sample) : Recorder :=
  let slot := writeIndex r mod capacity r in
  let d := splice (data r) (record_offset slot) (encodeSample x) in
  writeHeaderLocked (mkRecorder d (capacity r) (uint64 (writeIndex r + 1))).

(** ** Dump *)

(** the loop over the written slots, with the samples read so far *)
Fixpoint dump_loop (raw : list Z) (h : header) (start : Z) (i : Z) (n : nat) (samples : list Sample) :
    list Sample * option BlackboxError :=
  match n with
  | O => (samples, None)
  | S n' =>
      if h_Capacity h =? 0 then (samples, Some PanicDivideByZero)
      else
        let slot := uint64 (start + i) mod h_Capacity h in
        let offset := (headerSize + Z.to_nat slot * Z.to_nat (h_SampleSize h))%nat in
        if (length raw <? offset + Z.to_nat (h_SampleSize h))%nat then (samples, Some (ErrTruncated slot))
        else
          match decodeSample (take (Z.to_nat (h_SampleSize h)) (drop offset raw)) with
          | Err e => (samples, Some e)
          | Ok x => dump_loop raw h start (i + 1) n' (samples ++ [x])
          end
  end.

Definition Dump (raw : list Z) : list Sample * option BlackboxError :=
  match decodeHeader raw with
  | Err e => ([], Some e)
  | Ok h =>
      let written := if h_Capacity h <? h_WriteIndex h then h_Capacity h else h_WriteIndex h in
      if (h_Capacity h <? h_WriteIndex h) && (h_Capacity h =? 0) then ([], Some PanicDivideByZero)
      else
        let start := if h_Capacity h <? h_WriteIndex h then h_WriteIndex h mod h_Capacity h else 0 in
        dump_loop raw h start 0 (Z.to_nat written) []
  end.

(** ** The encodings are inverse to each other *)

Lemma wrap_u_s bits z : 0 < bits -> s bits z -> wrap_s bits (wrap_u bits z) = z.
Proof.
  intros Hb Hz. unfold s in Hz. unfold wrap_s, wrap_u.
  assert (2 ^ bits = 2 * 2 ^ (bits - 1)) as E.
  { rewrite <- Z.pow_succ_r by lia. f_equal. lia. }
  rewrite Zplus_mod_idemp_l, Z.mod_small by lia. lia.
Qed.

Lemma get_field n bits z rest : 256 ^ Z.of_nat n = 2 ^ bits -> u bits z -> get n (le n z ++ rest) = (z, rest).
Proof. intros E Hz. apply get_le. rewrite E. exact Hz. Qed.

Lemma get_array_field n bits count zs rest :
  256 ^ Z.of_nat n = 2 ^ bits -> arr count (u bits) zs -> get_array n count (le_array n zs ++ rest) = (zs, rest).
Proof.
  intros E [<- Hz]. apply get_array_le. eapply Forall_impl; [exact Hz|]. intros z. by rewrite E.
Qed.

Lemma arr_wrap count bits zs :
  0 < bits -> arr count (s bits) zs ->
  arr count (u bits) (wrap_u bits <$> zs) /\ wrap_s bits <$> (wrap_u bits <$> zs) = zs.
Proof.
  intros Hb [Hl Hz]. split; [split; [by rewrite length_fmap|]|].
  - apply Forall_fmap. eapply Forall_impl; [exact Hz|]. intros z _. apply wrap_u_range. lia.
  - rewrite <- list_fmap_compose. rewrite <- (list_fmap_id zs) at 2. apply list_fmap_ext.
    intros i z Hi. simpl. apply wrap_u_s; [done|]. rewrite Forall_lookup in Hz. by eapply Hz.
Qed.

Lemma drop_pad n rest : drop n (pad n ++ rest) = rest.
Proof. by rewrite drop_app_length' by (unfold pad; by rewrite length_replicate). Qed.

Lemma encodeSample_length x : sample_ok x -> length (encodeSample x) = sampleEncodedSize.
Proof.
  intros K. unfold encodeSample, pad. repeat rewrite length_app.
  rewrite !le_length, !le_array_length, length_fmap.
  rewrite (proj1 (ok_busy _ K)), (proj1 (ok_freq _ K)), (proj1 (ok_temp _ K)), (proj1 (ok_irq _ K)),
    (proj1 (ok_depth _ K)), (proj1 (ok_lat _ K)). done.
Qed.

(** one field of the reader *)
Ltac read_field :=
  first [ rewrite (get_field 8 64) by (try done; apply wrap_u_range; lia)
        | rewrite (get_field 4 32) by done
        | rewrite (get_field 2 16) by done
        | rewrite (get_array_field 4 32) by done
        | rewrite (get_array_field 8 64) by done
        | rewrite drop_pad ]; cbv beta iota zeta.

Lemma read_encode x : sample_ok x -> read_sample (encodeSample x) = x.
Proof.
  intros K. destruct x. destruct K. unfold read_sample, encodeSample.
  rewrite <- (app_nil_r (le 8 (EDACUncorrectableDelta _))).
  cbn [TimestampUnixMilli NumCPUs CPUBusyPct CPUFreqMHz ThrottledMask NumSensors SensorTempMilliC MemTotalKB MemAvailableKB
    MemCachedKB MemSwapUsedKB MemDirtyKB MemWritebackKB LoadAvg1 ProcsRunnable ProcsBlockedD InterruptsPerCPU
    PSICPUSome10 PSIMemSome10 PSIMemFull10 PSIIOSome10 PSIIOFull10 NumBlockDevices BlockQueueDepth BlockLatencyUs
    EDACCorrectableDelta EDACUncorrectableDelta] in *.
  destruct (arr_wrap MaxSensors 32 SensorTempMilliC0) as [Ht1 Ht2]; [done|done|].
  do 30 read_field. f_equal; [|done]. by apply wrap_u_s.
Qed.
(** *** The header *)

Record header_ok (h : header) : Prop := mkHeaderOk {
  hk_magic : h_Magic h = magic;
  hk_version : h_Version h = formatVersion;
  hk_size : u 32 (h_SampleSize h);
  hk_cap : u 32 (h_Capacity h);
  hk_index : u 64 (h_WriteIndex h);
}.

Lemma encodeHeader_eq h : header_ok h ->
  encodeHeader h = h_Magic h ++ le 4 (h_Version h) ++ le 4 (h_SampleSize h) ++ le 4 (h_Capacity h) ++
                   pad 4 ++ le 8 (h_WriteIndex h) ++ pad 32.
Proof.
  intros K. unfold encodeHeader. rewrite (hk_magic _ K).
  rewrite take_app_ge by (unfold pad; rewrite !length_app, !le_length, length_replicate; simpl; unfold headerSize; lia).
  rewrite <- !app_assoc. repeat (f_equal; []). unfold pad, headerSize.
  rewrite !length_app, !le_length, length_replicate. done.
Qed.

Lemma encodeHeader_length h : header_ok h -> length (encodeHeader h) = headerSize.
Proof.
  intros K. rewrite encodeHeader_eq by done. rewrite (hk_magic _ K). unfold pad.
  by rewrite !length_app, !le_length, !length_replicate.
Qed.

Lemma decode_encode_header h rest : header_ok h -> decodeHeader (encodeHeader h ++ rest) = Ok h.
Proof.
  intros K. unfold decodeHeader. rewrite length_app, encodeHeader_length by done.
  destruct (Nat.ltb_spec (headerSize + length rest) headerSize); [lia|].
  rewrite encodeHeader_eq, (hk_magic _ K), (hk_version _ K) by done.
  destruct K as [K1 K2 K3 K4 K5]. destruct h. cbn [h_Magic h_Version h_SampleSize h_Capacity h_WriteIndex] in *. subst.
  rewrite <- !app_assoc, take_app_length', drop_app_length' by done.
  rewrite (get_field 4 32) by done. cbv beta iota zeta.
  rewrite (get_field 4 32) by done. cbv beta iota zeta.
  rewrite (get_field 4 32) by done. cbv beta iota zeta. rewrite drop_pad.
  rewrite (get_field 8 64) by done. cbv beta iota zeta.
  rewrite bool_decide_true by done. done.
Qed.

(** *** Slices of a spliced file *)

Definition slice (off n : nat) (d : list Z) : list Z := take n (drop off d).

Lemma splice_length d off src : (off + length src <= length d)%nat -> length (splice d off src) = length d.
Proof. intros Hl. unfold splice. rewrite !length_app, length_take, length_drop. lia. Qed.

Lemma splice_lookup d off src k :
  (off + length src <= length d)%nat ->
  splice d off src !! k =
    if decide (off <= k < off + length src)%nat then src !! (k - off)%nat else d !! k.
Proof.
  intros Hl. unfold splice. assert (length (take off d) = off) as Ht by (rewrite length_take; lia).
  destruct (decide (k < off)%nat) as [Hk|Hk].
  - rewrite lookup_app_l by lia. rewrite lookup_take_lt by done. rewrite decide_False by lia. done.
  - rewrite lookup_app_r by lia. rewrite Ht. destruct (decide (k < off + length src)%nat) as [Hk2|Hk2].
    + rewrite lookup_app_l by lia. by rewrite decide_True by lia.
    + rewrite lookup_app_r by lia. rewrite lookup_drop, decide_False by lia. f_equal. lia.
Qed.

Lemma slice_lookup off n d k : slice off n d !! k = if decide (k < n)%nat then d !! (off + k)%nat else None.
Proof.
  unfold slice. case_decide; [by rewrite lookup_take_lt, lookup_drop by done|].
  rewrite lookup_take_ge by lia. done.
Qed.

Lemma slice_splice_same d off src :
  (off + length src <= length d)%nat -> slice off (length src) (splice d off src) = src.
Proof.
  intros Hl. apply list_eq. intros k. rewrite slice_lookup. case_decide as Hk.
  - rewrite splice_lookup, decide_True by lia. f_equal. lia.
  - symmetry. apply lookup_ge_None. lia.
Qed.

Lemma slice_splice_other d off src o n :
  (off + length src <= length d)%nat -> (o + n <= off \/ off + length src <= o)%nat ->
  slice o n (splice d off src) = slice o n d.
Proof.
  intros Hl Ho. apply list_eq. intros k. rewrite !slice_lookup. case_decide as Hk; [|done].
  rewrite splice_lookup, decide_False by lia. done.
Qed.

(** ** The ring *)

Definition the_header (r : Recorder) : header :=
  mkHeader magic formatVersion (Z.of_nat sampleEncodedSize) (capacity r) (writeIndex r).

(** [ring_ok r xs]: the file of [r] has its full size and a current header, and every
    one of the last [capacity] samples of [xs] is in the slot of its index. *)
Record ring_ok (r : Recorder) (xs : list Sample) : Prop := mkRing {
  rg_cap : 0 < capacity r < 2 ^ 32;
  rg_index : writeIndex r = Z.of_nat (length xs) /\ Z.of_nat (length xs) < 2 ^ 64;
  rg_size : length (data r) = file_size (capacity r);
  rg_head : slice 0 headerSize (data r) = encodeHeader (the_header r);
  rg_samples : Forall sample_ok xs;
  rg_slots : forall j x, xs !! j = Some x -> Z.of_nat (length xs) - capacity r <= Z.of_nat j ->
    slice (record_offset (Z.of_nat j mod capacity r)) sampleEncodedSize (data r) = encodeSample x;
}.

Lemma the_header_ok r xs : ring_ok r xs -> header_ok (the_header r).
Proof.
  intros [[Hc1 Hc2] [Hi Hn] _ _ _ _]. constructor; try done; unfold u; simpl; unfold sampleEncodedSize; lia.
Qed.

Lemma slot_bounds cap slot :
  0 <= slot < cap -> (headerSize <= record_offset slot)%nat /\
  (record_offset slot + sampleEncodedSize <= file_size cap)%nat.
Proof. intros Hs. unfold record_offset, file_size. split; [lia|]. nia. Qed.

Lemma slots_disjoint i j :
  0 <= i -> 0 <= j -> i <> j ->
  (record_offset i + sampleEncodedSize <= record_offset j \/
   record_offset j + sampleEncodedSize <= record_offset i)%nat.
Proof. intros Hi Hj Hne. unfold record_offset. assert (Z.to_nat i <> Z.to_nat j) by lia. nia. Qed.

(** Writing the header leaves the slots alone. *)
Lemma header_slots d cap wi slot x :
  length d = file_size cap -> header_ok (the_header (mkRecorder d cap wi)) -> 0 <= slot < cap ->
  slice (record_offset slot) sampleEncodedSize d = x ->
  slice (record_offset slot) sampleEncodedSize (data (writeHeaderLocked (mkRecorder d cap wi))) = x.
Proof.
  intros Hd Hh Hs <-. destruct (slot_bounds _ _ Hs) as [Hb1 Hb2].
  pose proof (encodeHeader_length _ Hh) as Hl. unfold writeHeaderLocked, the_header in *.
  cbn [data capacity writeIndex] in *. apply slice_splice_other; rewrite Hl; unfold file_size in *; lia.
Qed.

Lemma header_written d cap wi :
  length d = file_size cap -> header_ok (the_header (mkRecorder d cap wi)) ->
  let r := writeHeaderLocked (mkRecorder d cap wi) in
  length (data r) = file_size cap /\ slice 0 headerSize (data r) = encodeHeader (the_header r).
Proof.
  intros Hd Hh. pose proof (encodeHeader_length _ Hh) as Hl. unfold writeHeaderLocked.
  unfold the_header in *. cbn [data capacity writeIndex] in *.
  assert (0 + length (encodeHeader (mkHeader magic formatVersion (Z.of_nat sampleEncodedSize) cap wi)) <= length d)%nat
    as Hle by (rewrite Hl, Hd; unfold file_size; lia).
  split; [by rewrite splice_length|]. rewrite <- Hl at 1. by apply slice_splice_same.
Qed.

Lemma ring_record r xs x :
  ring_ok r xs -> sample_ok x -> Z.of_nat (length xs) + 1 < 2 ^ 64 -> ring_ok (Record_ r x) (xs ++ [x]).
Proof.
  intros R Hx Hn. pose proof (the_header_ok _ _ R) as Hh0. destruct R as [Hc [Hi _] Hs Hh Ho Hsl].
  pose proof (encodeSample_length _ Hx) as Hel.
  set (n := Z.of_nat (length xs)) in *. set (cap := capacity r) in *.
  pose proof (Z.mod_pos_bound n cap ltac:(lia)) as Hmod. destruct (slot_bounds cap (n mod cap) Hmod) as [Hb1 Hb2].
  unfold Record_. rewrite Hi. fold cap.
  assert (uint64 (n + 1) = n + 1) as -> by (apply wrap_u_small; lia).
  set (d := splice (data r) (record_offset (n mod cap)) (encodeSample x)).
  assert (length d = file_size cap) as Hd by (unfold d; rewrite splice_length; [done|rewrite Hel, Hs; lia]).
  assert (header_ok (the_header (mkRecorder d cap (n + 1)))) as Hh'.
  { destruct Hh0 as [? ? ? ? Hwi]. constructor; try done. unfold u in *. simpl in *. lia. }
  destruct (header_written d cap (n + 1) Hd Hh') as [Hw1 Hw2].
  constructor; simpl capacity; simpl writeIndex; fold cap; try done.
  - rewrite length_app. simpl. lia.
  - apply Forall_app. split; [done|]. by apply Forall_singleton.
  - intros j y Hj Hlo. rewrite length_app in Hlo. simpl in Hlo.
    apply header_slots; [done|done|apply Z.mod_pos_bound; lia|].
    destruct (decide (j = length xs)) as [->|Hne].
    + rewrite lookup_app_r, Nat.sub_diag in Hj by lia. injection Hj as <-.
      fold n. unfold d. rewrite <- Hel. apply slice_splice_same. rewrite Hel, Hs. lia.
    + assert (j < length (xs ++ [x]))%nat as Hlt by (by eapply lookup_lt_Some).
      rewrite length_app in Hlt. simpl in Hlt. rewrite lookup_app_l in Hj by lia.
      unfold d. rewrite slice_splice_other; [apply Hsl; [done|lia]|rewrite Hel, Hs; lia|].
      rewrite Hel. apply slots_disjoint; [apply Z.mod_pos_bound; lia|lia|].
      intros E. assert ((n - Z.of_nat j) mod cap = 0) as E0 by (rewrite Zminus_mod, E, Z.sub_diag; apply Z.mod_0_l; lia).
      rewrite Z.mod_small in E0; lia.
Qed.

Lemma data_header_rest r xs : ring_ok r xs -> exists rest, data r = encodeHeader (the_header r) ++ rest.
Proof.
  intros [_ _ _ Hh _ _]. exists (drop headerSize (data r)). rewrite <- Hh. unfold slice. rewrite drop_0. by rewrite take_drop.
Qed.

Lemma ring_reopen r xs : ring_ok r xs -> ring_ok (Open (data r) (capacity r)) xs.
Proof.
  intros R. pose proof (the_header_ok _ _ R) as Hh0. destruct (data_header_rest _ _ R) as [rest Hrest].
  pose proof R as [Hc [Hi Hn] Hs Hh Ho Hsl]. unfold Open, prepareFile.
  destruct (Z.eqb_spec (capacity r) 0); [lia|].
  destruct (Nat.leb_spec headerSize (length (data r))); [|rewrite Hs in *; unfold file_size in *; lia].
  assert (take headerSize (data r) = encodeHeader (the_header r) ++ []) as ->
    by (rewrite app_nil_r, <- Hh; unfold slice; by rewrite drop_0).
  rewrite (decode_encode_header _ _ Hh0). simpl h_Capacity. simpl h_SampleSize. rewrite !Z.eqb_refl. simpl andb. cbv iota.
  unfold truncate. rewrite take_ge, Hs, Nat.sub_diag by lia. rewrite app_nil_r. simpl h_WriteIndex.
  destruct (header_written (data r) (capacity r) (writeIndex r) Hs Hh0) as [Hw1 Hw2].
  constructor; try done. intros j y Hj Hlo. apply header_slots; try done; [|by apply Hsl].
  apply Z.mod_pos_bound. simpl. lia.
Qed.

Definition effective_capacity (cap : Z) : Z := if cap =? 0 then DefaultCapacity else cap.

(** A file this build cannot continue: too short, not a blackbox file, another version,
    another capacity or another record layout. *)
Definition foreign (contents : list Z) (cap : Z) : Prop :=
  (length contents < headerSize)%nat \/
  match decodeHeader (take headerSize contents) with
  | Ok h => h_Capacity h <> cap \/ h_SampleSize h <> Z.of_nat sampleEncodedSize
  | Err _ => True
  end.

Lemma prepare_foreign contents size cap :
  foreign contents cap -> prepareFile contents size cap = (truncate size [], 0).
Proof.
  intros Hf. unfold prepareFile. destruct (Nat.leb_spec headerSize (length contents)); [|done].
  destruct Hf as [Hf|Hf]; [lia|]. destruct (decodeHeader _) as [h|e]; [|done].
  destruct (Z.eqb_spec (h_Capacity h) cap), (Z.eqb_spec (h_SampleSize h) (Z.of_nat sampleEncodedSize)); try done.
  destruct Hf; done.
Qed.

Lemma ring_fresh contents cap :
  0 <= cap < 2 ^ 32 -> foreign contents (effective_capacity cap) -> ring_ok (Open contents cap) [].
Proof.
  intros Hc Hf. unfold Open. fold (effective_capacity cap). rewrite (prepare_foreign _ _ _ Hf).
  set (c := effective_capacity cap) in *.
  assert (0 < c < 2 ^ 32) as Hc' by (unfold c, effective_capacity, DefaultCapacity; destruct (Z.eqb_spec cap 0); lia).
  assert (length (truncate (file_size c) []) = file_size c) as Hl.
  { unfold truncate, pad. rewrite length_app, length_take, length_replicate. simpl length. lia. }
  assert (header_ok (the_header (mkRecorder (truncate (file_size c) []) c 0))) as Hh.
  { constructor; try done; unfold u; simpl; unfold sampleEncodedSize; lia. }
  destruct (header_written _ c 0 Hl Hh) as [Hw1 Hw2]. constructor; try done.
Qed.

Lemma dump_loop_ok r xs start base :
  ring_ok r xs -> 0 <= start < capacity r ->
  (forall t, 0 <= t -> (start + t) mod capacity r = (Z.of_nat base + t) mod capacity r) ->
  Z.of_nat (length xs) - capacity r <= Z.of_nat base ->
  forall k i acc, (base + i + k = length xs)%nat -> Z.of_nat (i + k) <= capacity r ->
  dump_loop (data r) (the_header r) start (Z.of_nat i) k acc = (acc ++ drop (base + i) xs, None).
Proof.
  intros R Hst Hslot Hbase. pose proof R as [Hc [Hi Hn] Hs Hh Ho Hsl].
  induction k as [|k IH]; intros i acc Hik Hcap.
  - cbn [dump_loop]. rewrite drop_ge by lia. by rewrite app_nil_r.
  - cbn [dump_loop the_header h_Capacity h_SampleSize]. destruct (Z.eqb_spec (capacity r) 0); [lia|].
    assert (uint64 (start + Z.of_nat i) = start + Z.of_nat i) as -> by (apply wrap_u_small; lia).
    rewrite Hslot by lia. rewrite Nat2Z.id.
    set (slot := (Z.of_nat base + Z.of_nat i) mod capacity r).
    assert (0 <= slot < capacity r) as Hsb by (apply Z.mod_pos_bound; lia).
    destruct (slot_bounds _ _ Hsb) as [_ Hb]. unfold record_offset in Hb. rewrite <- Hs in Hb.
    destruct (Nat.ltb_spec (length (data r)) (headerSize + Z.to_nat slot * sampleEncodedSize + sampleEncodedSize));
      [lia|].
    destruct (lookup_lt_is_Some_2 xs (base + i)%nat) as [x Hx]; [lia|].
    assert (take sampleEncodedSize (drop (headerSize + Z.to_nat slot * sampleEncodedSize) (data r)) = encodeSample x) as ->.
    { pose proof (Hsl _ _ Hx ltac:(lia)) as E. rewrite Nat2Z.inj_add in E. exact E. }
    assert (sample_ok x) as Hxo by (rewrite Forall_lookup in Ho; by eapply Ho).
    unfold decodeSample. rewrite (encodeSample_length _ Hxo), Nat.eqb_refl. cbn [negb].
    rewrite (read_encode _ Hxo). replace (Z.of_nat i + 1) with (Z.of_nat (S i)) by lia.
    rewrite IH by lia. rewrite <- app_assoc. f_equal. f_equal. simpl.
    rewrite Nat.add_succ_r. symmetry. by apply drop_S.
Qed.

(** the last [n] elements of a list *)
Definition lastn {A} (n : nat) (l : list A) : list A := drop (length l - n) l.

Lemma Dump_ring r xs : ring_ok r xs -> Dump (data r) = (lastn (Z.to_nat (capacity r)) xs, None).
Proof.
  intros R. destruct (data_header_rest _ _ R) as [rest Hrest]. pose proof R as [Hc [Hi Hn] _ _ _ _].
  unfold Dump. rewrite Hrest at 1. rewrite (decode_encode_header _ _ (the_header_ok _ _ R)).
  cbn [the_header h_Capacity h_WriteIndex]. rewrite Hi.
  destruct (Z.eqb_spec (capacity r) 0); [lia|]. rewrite andb_false_r. unfold lastn.
  destruct (Z.ltb_spec (capacity r) (Z.of_nat (length xs))) as [Hw|Hw].
  - rewrite <- Hi at 1. fold (the_header r). change 0 with (Z.of_nat 0).
    erewrite (dump_loop_ok r xs _ (length xs - Z.to_nat (capacity r))); [simpl; by rewrite Nat.add_0_r|done|..]; try lia.
    + apply Z.mod_pos_bound. lia.
    + intros t Ht. rewrite Zplus_mod_idemp_l.
      rewrite <- (Z_mod_plus_full (Z.of_nat (length xs - Z.to_nat (capacity r)) + t) 1 (capacity r)).
      f_equal. lia.
  - rewrite <- Hi at 1. fold (the_header r). change 0 with (Z.of_nat 0) at 2.
    erewrite (dump_loop_ok r xs 0 0); [simpl|done|lia|done|lia|lia|lia].
    by replace (length xs - Z.to_nat (capacity r))%nat with 0%nat by lia.
Qed.

(** ** Properties *)

(** decoding an encoded sample gives it back, for every sample whose fields are in the
    range of their Go types, and its encoding always has the fixed record size. *)
Theorem sample_roundtrip x :
  sample_ok x -> decodeSample (encodeSample x) = Ok x /\ length (encodeSample x) = sampleEncodedSize.
Proof.
  intros K. pose proof (encodeSample_length _ K) as Hl. split; [|done].
  unfold decodeSample. by rewrite Hl, Nat.eqb_refl, read_encode.
Qed.

(** what happens to the recorder: a sample, or a restart of the agent *)
Inductive op : Type := OpRecord (x : Sample) | OpRestart.

Definition apply (r : Recorder) (o : op) : Recorder :=
  match o with
  | OpRecord x => Record_ r x
  | OpRestart => Open (data r) (capacity r)
  end.

Definition recorded (ops : list op) : list Sample :=
  omap (fun o => match o with OpRecord x => Some x | OpRestart => None end) ops.

Lemma ring_run ops r xs :
  ring_ok r xs -> Forall sample_ok (recorded ops) -> Z.of_nat (length (xs ++ recorded ops)) < 2 ^ 64 ->
  ring_ok (fold_left apply ops r) (xs ++ recorded ops) /\ capacity (fold_left apply ops r) = capacity r.
Proof.
  revert r xs. induction ops as [|[x|] ops IH]; intros r xs R Hs Hn; simpl.
  - rewrite app_nil_r. done.
  - simpl in Hs, Hn. apply Forall_cons in Hs as [Hx Hs]. rewrite length_app in Hn. simpl in Hn.
    destruct (IH (Record_ r x) (xs ++ [x])) as [R' C']; [|done| |].
    + apply ring_record; [done|done|lia].
    + rewrite !length_app. simpl. lia.
    + rewrite <- app_assoc in R'. done.
  - pose proof (ring_reopen _ _ R) as R'. destruct (IH _ _ R' Hs Hn) as [R'' C'']. split; [done|].
    rewrite C''. unfold Open. pose proof (rg_cap _ _ R). destruct (Z.eqb_spec (capacity r) 0); [lia|].
    by destruct (prepareFile _ _ _).
Qed.

(** what the ring holds after any run from a file this build cannot continue *)
Lemma ring_run_dump contents cap ops :
  0 <= cap < 2 ^ 32 -> foreign contents (effective_capacity cap) ->
  Forall sample_ok (recorded ops) -> Z.of_nat (length (recorded ops)) < 2 ^ 64 ->
  Dump (data (fold_left apply ops (Open contents cap))) =
    (lastn (Z.to_nat (effective_capacity cap)) (recorded ops), None).
Proof.
  intros Hc Hf Hs Hn. destruct (ring_run ops _ [] (ring_fresh contents cap Hc Hf) Hs Hn) as [R C].
  rewrite (Dump_ring _ _ R), C. simpl. unfold Open. fold (effective_capacity cap).
  by destruct (prepareFile _ _ _).
Qed.

(** The ring keeps the last [capacity] samples across restarts: whatever mix of
    recorded samples and restarts follows the first Open on a file this build cannot
    continue, Dump of the file returns without an error exactly the last [capacity]
    samples recorded, oldest first. *)
Theorem ring_keeps_last contents cap ops :
  0 <= cap < 2 ^ 32 -> foreign contents (effective_capacity cap) ->
  Forall sample_ok (recorded ops) -> Z.of_nat (length (recorded ops)) < 2 ^ 64 ->
  Dump (data (fold_left apply ops (Open contents cap))) =
    (lastn (Z.to_nat (effective_capacity cap)) (recorded ops), None).
Proof. apply ring_run_dump. Qed.

Definition sample_at (ts : Z) : Sample :=
  mkSample ts 4 (replicate 64 0) (replicate 64 0) 0 2 (replicate 24 (-5)) 1 2 3 4 5 6 7 8 9
    (replicate 64 10) 1 2 3 4 5 1 (replicate 16 0) (replicate 16 0) 0 0.

Lemma sample_at_ok ts : s 64 ts -> sample_ok (sample_at ts).
Proof.
  intros Hts. constructor; unfold sample_at; try done; try (unfold u; simpl; lia);
    (split; [apply length_replicate|apply Forall_replicate; unfold u, s; lia]).
Qed.

Lemma sample_roundtrip_witness : decodeSample (encodeSample (sample_at 1700000000000)) = Ok (sample_at 1700000000000).
Proof. apply (sample_roundtrip (sample_at 1700000000000)). apply sample_at_ok. unfold s. lia. Defined.

(** Three samples and a restart through a ring of two slots. *)
Lemma ring_keeps_last_witness :
  Dump (data (fold_left apply [OpRecord (sample_at 1); OpRecord (sample_at 2); OpRestart; OpRecord (sample_at 3)]
    (Open [] 2))) = ([sample_at 2; sample_at 3], None).
Proof.
  etransitivity; [apply (ring_keeps_last [] 2)|reflexivity].
  - lia.
  - left. unfold headerSize. simpl. lia.
  - repeat (apply Forall_cons; split; [apply sample_at_ok; unfold s; lia|]). constructor.
  - simpl. lia.
Defined.

(** A header that claims no capacity but some samples makes Dump divide by zero: the
    reader trusts the field of a file it may have been handed from elsewhere. *)
Example dump_capacity_zero_panics :
  Dump (encodeHeader (mkHeader magic formatVersion (Z.of_nat sampleEncodedSize) 0 5)) = ([], Some PanicDivideByZero).
Proof. vm_compute. done. Qed.

End Blackbox.
