(* ===== verification/Samplers.v ===== *)
(** * Samplers: what the black box records each second

    Models internal/blackbox: sampler.go, sampler_cpu.go, sampler_proc.go, sampler_sysfs.go,
    sampler_block.go and run.go (the recording loop).

    One sample reads one state of the host, a [World]: what the procfs package answers, and
    the files under ProcRoot and SysRoot by their path elements below the root. A float32 of
    the sample is its bit pattern, as in Blackbox. Arrays of the sample have the length of
    the Go arrays. A write beyond an array panics in Go: here it leaves the empty list, which
    is no value of the array's type and stays empty under every later write ([store]);
    [sampler_type_safe] shows that it never happens. *)

From stdpp Require Import base gmap strings list sorting.
From Stdlib Require Import ZArith Lia Ascii SpecFloat.
From S2P Require Import Prelude GoStd GoConv GoIO Blackbox.
Import GoString GoConv GoIO GoFloat Blackbox.

Local Open Scope string_scope.
Local Open Scope Z_scope.

Module Samplers.

(** ** What the host answers *)

(** procfs.CPUStat, without the guest times the total leaves out *)
Record CPUStat := mkCPUStat {
  User : float64; Nice : float64; System : float64; Idle : float64;
  Iowait : float64; IRQ : float64; SoftIRQ : float64; Steal : float64;
}.

Record Stat := mkStat { CPU : gmap Z CPUStat; ProcessesRunning : Z; ProcessesBlocked : Z }.

Record Meminfo := mkMeminfo {
  MemTotal : option Z; MemAvailable : option Z; Cached : option Z; Dirty : option Z;
  Writeback : option Z; SwapTotal : option Z; SwapFree : option Z;
}.

Record World := mkWorld {
  fs_Stat : option Stat; (* s.fs.Stat(), as sampleCPU reads it *)
  fs_Stat_again : option Stat; (* and as sampleLoadAndProcs does *)
  fs_Meminfo : option Meminfo;
  fs_Load1 : option float64;
  procFile : list string -> option string;
  sysFile : list string -> option string;
  sysDir : list string -> option (list string); (* the names os.ReadDir lists *)
}.

Record blockCounters := mkBlockCounters { ios : Z; weightedIOTicks : Z }.

Record Sampler := mkSampler {
  prevAt : Z;
  cpuIDs : list Z;
  prevCPU : option (gmap Z CPUStat);
  prevThrottle : gmap Z Z;
  prevInterrupt : gmap Z Z;
  prevBlock : gmap string blockCounters;
  prevEDACCe : Z;
  prevEDACUe : Z;
}.

Definition NewSampler : Sampler := mkSampler GoTime.zero [] None ∅ ∅ ∅ 0 0.

(** a counter that went backwards was reset: no delta *)
Definition deltaUint64 (prev cur : Z) : Z := if cur <? prev then 0 else cur - prev.

Definition readUintFile (contents : option string) : option Z :=
  contents ≫= fun raw => ParseUint (TrimSpace raw) 64.
Definition readIntFile (contents : option string) : option Z :=
  contents ≫= fun raw => ParseInt64 (TrimSpace raw).

(** ** CPU *)

Definition cpuStatTotal (c : CPUStat) : float64 :=
  fadd (fadd (fadd (fadd (fadd (fadd (fadd (User c) (Nice c)) (System c)) (Idle c)) (Iowait c)) (IRQ c)) (SoftIRQ c)) (Steal c).

Definition cpuBusyRatio (prev cur : CPUStat) : option float64 :=
  let deltaTotal := fsub (cpuStatTotal cur) (cpuStatTotal prev) in
  if fle deltaTotal f_zero then None else
  let deltaIdle := fsub (fadd (Idle cur) (Iowait cur)) (fadd (Idle prev) (Iowait prev)) in
  let busy := fsub deltaTotal deltaIdle in
  let busy := if flt busy f_zero then f_zero else busy in
  Some (fdiv busy deltaTotal).

Definition busy_bits (prev cur : option CPUStat) : option Z :=
  match prev, cur with
  | Some p, Some c => (fun ratio => float32_bits (to_float32 (fmul ratio (f_of_Z 100)))) <$> cpuBusyRatio p c
  | _, _ => None
  end.

(** out[i] = v: beyond the array Go panics, and the panic is the empty list *)
Definition store (i : nat) (v : Z) (out : list Z) : list Z :=
  if (i <? length out)%nat then <[i := v]> out else [].

(** write [f id] at the index of each id, where there is a value to write *)
Fixpoint fill (f : Z -> option Z) (i : nat) (ids : list Z) (out : list Z) : list Z :=
  match ids with
  | [] => out
  | id :: rest => fill f (S i) rest (match f id with Some v => store i v out | None => out end)
  end.

Definition cpu_ids (stat : Stat) : list Z :=
  let ids := merge_sort Z.le (map_to_list (CPU stat)).*1 in
  if (MaxCPUs <? length ids)%nat then take MaxCPUs ids else ids.

(** NumCPUs and CPUBusyPct *)
Definition sampleCPU (w : World) (s : Sampler) : Sampler * (Z * list Z) :=
  let zeros := replicate MaxCPUs 0 in
  match fs_Stat w with
  | None => (s, (0, zeros))
  | Some stat =>
      let ids := cpu_ids stat in
      let busy :=
        match prevCPU s with
        | Some prev =>
            if negb (GoTime.is_zero (prevAt s))
            then fill (fun id => busy_bits (prev !! id) (CPU stat !! id)) 0 ids zeros
            else zeros
        | None => zeros
        end in
      (mkSampler (prevAt s) ids (Some (CPU stat)) (prevThrottle s) (prevInterrupt s) (prevBlock s)
         (prevEDACCe s) (prevEDACUe s),
       (wrap_u 16 (Z.of_nat (length ids)), busy))
  end.

Definition cpu_dir (id : Z) : list string :=
  ["devices"; "system"; "cpu"; "cpu" ++ (if Z.ltb id 0 then "-" ++ show (- id) else show id)].

Definition cpu_freq (w : World) (id : Z) : option Z :=
  (fun khz => wrap_u 32 (khz / 1000)) <$> readUintFile (sysFile w (cpu_dir id ++ ["cpufreq"; "scaling_cur_freq"])%list).
Definition cpu_throttle (w : World) (id : Z) : option Z :=
  readUintFile (sysFile w (cpu_dir id ++ ["thermal_throttle"; "core_throttle_count"])%list).

(** the throttle part of the loop: the new counts and the mask *)
Fixpoint throttle_loop (w : World) (prev : gmap Z Z) (i : nat) (ids : list Z) (cur : gmap Z Z) (mask : Z) : gmap Z Z * Z :=
  match ids with
  | [] => (cur, mask)
  | id :: rest =>
      match cpu_throttle w id with
      | Some count =>
          let mask := match prev !! id with
                      | Some p => if p <? count then Z.lor mask (uint64 (Z.shiftl 1 (Z.of_nat i))) else mask
                      | None => mask
                      end in
          throttle_loop w prev (S i) rest (<[id := count]> cur) mask
      | None => throttle_loop w prev (S i) rest cur mask
      end
  end.

(** CPUFreqMHz and ThrottledMask *)
Definition sampleCPUFreqAndThrottle (w : World) (s : Sampler) : Sampler * (list Z * Z) :=
  let zeros := replicate MaxCPUs 0 in
  if (length (cpuIDs s) =? 0)%nat then (s, (zeros, 0)) else
  let freq := fill (cpu_freq w) 0 (cpuIDs s) zeros in
  let '(cur, mask) := throttle_loop w (prevThrottle s) 0 (cpuIDs s) ∅ 0 in
  (mkSampler (prevAt s) (cpuIDs s) (prevCPU s) cur (prevInterrupt s) (prevBlock s) (prevEDACCe s) (prevEDACUe s),
   (freq, mask)).

(** ** hwmon sensors *)

Definition is_temp_input (name : string) : bool := has_prefix "temp" name && has_suffix "_input" name.

(** the inner loop over one device's inputs *)
Fixpoint sensor_inputs (w : World) (dir : string) (inputs : list string) (n : nat) (out : list Z) : nat * list Z :=
  match inputs with
  | [] => (n, out)
  | input :: rest =>
      if (MaxSensors <=? n)%nat then (n, out) else
      match readIntFile (sysFile w ["class"; "hwmon"; dir; input]) with
      | Some milliC => sensor_inputs w dir rest (S n) (store n (int32 milliC) out)
      | None => sensor_inputs w dir rest n out
      end
  end.

Fixpoint sensor_dirs (w : World) (dirs : list string) (n : nat) (out : list Z) : nat * list Z :=
  match dirs with
  | [] => (n, out)
  | dir :: rest =>
      if (MaxSensors <=? n)%nat then (n, out) else
      match sysDir w ["class"; "hwmon"; dir] with
      | None => sensor_dirs w rest n out
      | Some files =>
          let inputs := sort_strings (List.filter is_temp_input files) in
          let '(n, out) := sensor_inputs w dir inputs n out in
          sensor_dirs w rest n out
      end
  end.

(** NumSensors and SensorTempMilliC *)
Definition sampleSensors (w : World) : Z * list Z :=
  let zeros := replicate MaxSensors 0 in
  match sysDir w ["class"; "hwmon"] with
  | None => (0, zeros)
  | Some entries => let '(n, out) := sensor_dirs w (sort_strings entries) 0 zeros in (wrap_u 16 (Z.of_nat n), out)
  end.

(** ** Memory, load and processes *)

(** total, available, cached, swap used, dirty, writeback *)
Definition sampleMemory (w : World) : Z * Z * Z * Z * Z * Z :=
  match fs_Meminfo w with
  | None => (0, 0, 0, 0, 0, 0)
  | Some mi =>
      (default 0 (MemTotal mi), default 0 (MemAvailable mi), default 0 (Cached mi),
       match SwapTotal mi, SwapFree mi with
       | Some total, Some free => if free <=? total then total - free else 0
       | _, _ => 0
       end,
       default 0 (Dirty mi), default 0 (Writeback mi))
  end.

(** LoadAvg1, ProcsRunnable and ProcsBlockedD *)
Definition sampleLoadAndProcs (w : World) : Z * Z * Z :=
  let load := match fs_Load1 w with Some la => float32_bits (to_float32 la) | None => 0 end in
  match fs_Stat_again w with
  | Some stat => (load, wrap_u 32 (ProcessesRunning stat), wrap_u 32 (ProcessesBlocked stat))
  | None => (load, 0, 0)
  end.

(** ** Interrupts *)

(** for i := 0; i < n && i+1 < len(fields): totals[i] += v *)
Fixpoint add_columns (totals : list Z) (fields : list string) : list Z :=
  match totals, fields with
  | t :: totals', f :: fields' =>
      (match ParseUint f 64 with Some v => uint64 (t + v) | None => t end) :: add_columns totals' fields'
  | _, _ => totals
  end.

Definition add_line (totals : list Z) (line : string) : list Z :=
  match Fields line with
  | _ :: ((_ :: _) as columns) => add_columns totals columns
  | _ => totals
  end.

Definition parseInterruptTotals (text : string) (numCPUs : nat) : option (list Z) :=
  match scan_lines text with
  | [] => None
  | header :: lines =>
      let n := length (Fields header) in
      let n := if (0 <? numCPUs)%nat && (numCPUs <? n)%nat then numCPUs else n in
      Some (fold_left add_line lines (replicate n 0))
  end.

Fixpoint interrupt_loop (prev : gmap Z Z) (first : bool) (i : nat) (ids totals : list Z) (cur : gmap Z Z) (out : list Z) :
  gmap Z Z * list Z :=
  match ids, totals with
  | id :: ids', t :: totals' =>
      let out := match prev !! id with
                 | Some p => if negb first then store i (deltaUint64 p t) out else out
                 | None => out
                 end in
      interrupt_loop prev first (S i) ids' totals' (<[id := t]> cur) out
  | _, _ => (cur, out)
  end.

(** InterruptsPerCPU *)
Definition sampleInterrupts (w : World) (s : Sampler) : Sampler * list Z :=
  let zeros := replicate MaxCPUs 0 in
  match procFile w ["interrupts"] ≫= fun f => parseInterruptTotals f (length (cpuIDs s)) with
  | None => (s, zeros)
  | Some totals =>
      let '(cur, out) :=
        interrupt_loop (prevInterrupt s) (GoTime.is_zero (prevAt s)) 0 (cpuIDs s) totals ∅ zeros in
      (mkSampler (prevAt s) (cpuIDs s) (prevCPU s) (prevThrottle s) cur (prevBlock s) (prevEDACCe s) (prevEDACUe s), out)
  end.

(** ** Pressure stall information *)

(** the inner loop: the first avg10 field of the line decides *)
Fixpoint psi_fields (fields : list string) : option (option Z) :=
  match fields with
  | [] => None
  | f :: rest =>
      match trim_prefix_go "avg10=" f with
      | Some v => Some (float32_bits <$> ParseFloat 24 128 v)
      | None => psi_fields rest
      end
  end.

Fixpoint psi_lines (lines : list string) (line : string) : option Z :=
  match lines with
  | [] => None
  | l :: rest =>
      match Fields l with
      | [] => psi_lines rest line
      | f :: fields =>
          if bool_decide (f = line) then
            match psi_fields fields with
            | Some answer => answer
            | None => psi_lines rest line
            end
          else psi_lines rest line
      end
  end.

Definition readPSIAvg10 (contents : option string) (line : string) : option Z :=
  contents ≫= fun raw => psi_lines (split_byte newline raw) line.

(** PSICPUSome10, PSIMemSome10, PSIMemFull10, PSIIOSome10, PSIIOFull10 *)
Definition samplePSI (w : World) : Z * Z * Z * Z * Z :=
  let v resource line := default 0 (readPSIAvg10 (procFile w ["pressure"; resource]) line) in
  (v "cpu" "some", v "memory" "some", v "memory" "full", v "io" "some", v "io" "full").

(** ** Block devices *)

Definition virtualBlockPrefixes : list string := ["loop"; "ram"; "sr"; "dm-"; "md"; "zram"].
Definition isVirtualBlockDevice (name : string) : bool := existsb (fun p => has_prefix p name) virtualBlockPrefixes.

Record row := mkRow { r_name : string; r_inProgress : Z; r_ios : Z; r_weightedIOTicks : Z }.

Definition block_row (line : string) : option row :=
  let fields := Fields line in
  if (length fields <? 14)%nat then None else
  name ← fields !! 2%nat;
  if isVirtualBlockDevice name then None else
  rdIOs ← (fields !! 3%nat ≫= fun f => ParseUint f 64);
  wrIOs ← (fields !! 7%nat ≫= fun f => ParseUint f 64);
  inProgress ← (fields !! 11%nat ≫= fun f => ParseUint f 32);
  weightedTicks ← (fields !! 13%nat ≫= fun f => ParseUint f 64);
  Some (mkRow name inProgress (uint64 (rdIOs + wrIOs)) weightedTicks).

(** sort.Slice by name; the kernel lists a device once, so the order is determined *)
Definition row_le (a b : row) : Prop := String.le (r_name a) (r_name b).
Global Instance row_le_dec : RelDecision row_le.
Proof. intros a b. unfold row_le. apply _. Defined.

Definition block_rows (text : string) : list row := merge_sort row_le (omap block_row (scan_lines text)).

Definition latency (prev : blockCounters) (r : row) : option Z :=
  let deltaIOs := deltaUint64 (ios prev) (r_ios r) in
  let deltaTicks := deltaUint64 (weightedIOTicks prev) (r_weightedIOTicks r) in
  if 0 <? deltaIOs then Some (wrap_u 32 (uint64 (deltaTicks * 1000) / deltaIOs)) else None.

Fixpoint block_loop (prev : gmap string blockCounters) (first : bool) (n : nat) (rows : list row)
    (cur : gmap string blockCounters) (queue lat : list Z) : nat * gmap string blockCounters * list Z * list Z :=
  match rows with
  | [] => (n, cur, queue, lat)
  | r :: rest =>
      if (MaxBlockDevices <=? n)%nat then (n, cur, queue, lat) else
      let queue := store n (r_inProgress r) queue in
      let cur := <[r_name r := mkBlockCounters (r_ios r) (r_weightedIOTicks r)]> cur in
      let lat := match prev !! r_name r with
                 | Some p => if negb first then match latency p r with Some l => store n l lat | None => lat end else lat
                 | None => lat
                 end in
      block_loop prev first (S n) rest cur queue lat
  end.

(** NumBlockDevices, BlockQueueDepth and BlockLatencyUs *)
Definition sampleBlockDevices (w : World) (s : Sampler) : Sampler * (Z * list Z * list Z) :=
  let zeros := replicate MaxBlockDevices 0 in
  match procFile w ["diskstats"] with
  | None => (s, (0, zeros, zeros))
  | Some text =>
      let '(n, cur, queue, lat) :=
        block_loop (prevBlock s) (GoTime.is_zero (prevAt s)) 0 (block_rows text) ∅ zeros zeros in
      (mkSampler (prevAt s) (cpuIDs s) (prevCPU s) (prevThrottle s) (prevInterrupt s) cur (prevEDACCe s) (prevEDACUe s),
       (wrap_u 16 (Z.of_nat n), queue, lat))
  end.

(** ** EDAC *)

(** one memory controller: a count that can be read is added and marks the counters as found *)
Definition edac_count (w : World) (mc file : string) (acc : Z * bool) : Z * bool :=
  match readUintFile (sysFile w ["devices"; "system"; "edac"; "mc"; mc; file]) with
  | Some v => (uint64 (acc.1 + v), true)
  | None => acc
  end.

Fixpoint edac_loop (w : World) (entries : list string) (ce ue : Z) (found : bool) : Z * Z * bool :=
  match entries with
  | [] => (ce, ue, found)
  | e :: rest =>
      if negb (has_prefix "mc" e) then edac_loop w rest ce ue found else
      let '(ce, found) := edac_count w e "ce_count" (ce, found) in
      let '(ue, found) := edac_count w e "ue_count" (ue, found) in
      edac_loop w rest ce ue found
  end.

(** the counts of a sample, when some controller has them *)
Definition edac_counts (w : World) : option (Z * Z) :=
  match sysDir w ["devices"; "system"; "edac"; "mc"] with
  | None => None
  | Some entries => let '(ce, ue, found) := edac_loop w entries 0 0 false in if found then Some (ce, ue) else None
  end.

(** EDACCorrectableDelta and EDACUncorrectableDelta *)
Definition sampleEDAC (w : World) (s : Sampler) : Sampler * (Z * Z) :=
  match edac_counts w with
  | None => (s, (0, 0))
  | Some (ce, ue) =>
      (mkSampler (prevAt s) (cpuIDs s) (prevCPU s) (prevThrottle s) (prevInterrupt s) (prevBlock s) ce ue,
       if negb (GoTime.is_zero (prevAt s))
       then (deltaUint64 (prevEDACCe s) ce, deltaUint64 (prevEDACUe s) ue) else (0, 0))
  end.

(** ** One sample *)

Definition Sample_ (w : World) (s : Sampler) (now : Z) : Sampler * Sample :=
  let '(s, (ncpu, busy)) := sampleCPU w s in
  let '(s, (freq, mask)) := sampleCPUFreqAndThrottle w s in
  let '(nsens, temps) := sampleSensors w in
  let '(total, avail, cached, swap, dirty, writeback) := sampleMemory w in
  let '(load, running, blocked) := sampleLoadAndProcs w in
  let '(s, irqs) := sampleInterrupts w s in
  let '(psic, psims, psimf, psiis, psiif) := samplePSI w in
  let '(s, (nblk, queue, lat)) := sampleBlockDevices w s in
  let '(s, (ce, ue)) := sampleEDAC w s in
  (mkSampler now (cpuIDs s) (prevCPU s) (prevThrottle s) (prevInterrupt s) (prevBlock s) (prevEDACCe s) (prevEDACUe s),
   mkSample (int64 (GoTime.unix_milli now)) ncpu busy freq mask nsens temps total avail cached swap dirty writeback
     load running blocked irqs psic psims psimf psiis psiif nblk queue lat ce ue).

(** ** The recording loop: what the select of Run receives *)

Inductive tick := TickSample (now : Z) (w : World) | TickSync (err : option string).

(** the sampler, the recorder and the errors reported *)
Definition on_tick (st : Sampler * Recorder * list string) (t : tick) : Sampler * Recorder * list string :=
  let '(s, r, errs) := st in
  match t with
  | TickSample now w => let '(s, x) := Sample_ w s now in (s, Record_ r x, errs)
  | TickSync (Some err) => (s, r, errs ++ [err])%list
  | TickSync None => (s, r, errs)
  end.

Definition Run (s : Sampler) (r : Recorder) (ticks : list tick) : Sampler * Recorder * list string :=
  fold_left on_tick ticks (s, r, []).

(** ** Arrays *)

Lemma arr_replicate n (P : Z -> Prop) v : P v -> arr n P (replicate n v).
Proof. intros Hv. split; [apply length_replicate|by apply Forall_replicate]. Qed.

Lemma store_in i v out : (i < length out)%nat -> store i v out = <[i := v]> out.
Proof. intros Hi. unfold store. by rewrite (proj2 (Nat.ltb_lt _ _) Hi). Qed.

(** a panic is never undone *)
Lemma store_panic i v : store i v [] = [].
Proof. done. Qed.

Lemma arr_store n (P : Z -> Prop) i v out : (i < n)%nat -> arr n P out -> P v -> arr n P (store i v out).
Proof. intros Hi [Hl Ho] Hv. rewrite store_in by lia. split; [by rewrite length_insert|by apply Forall_insert]. Qed.

Lemma fill_arr n P f i ids out :
  (forall id v, f id = Some v -> P v) -> (i + length ids <= n)%nat -> arr n P out -> arr n P (fill f i ids out).
Proof.
  intros Hf. revert i out. induction ids as [|id ids IH]; intros i out Hl Ho; cbn [fill length] in *; [done|].
  apply IH; [lia|]. destruct (f id) as [v|] eqn:E; [|done]. apply arr_store; [lia|done|by apply (Hf id)].
Qed.

Lemma store_length i v out : (i < length out)%nat -> length (store i v out) = length out.
Proof. intros Hi. by rewrite store_in, length_insert. Qed.

Lemma fill_before f i ids out k : (k < i)%nat -> (i + length ids <= length out)%nat -> fill f i ids out !! k = out !! k.
Proof.
  revert i out. induction ids as [|id ids IH]; intros i out Hk Hl; cbn [fill length] in *; [done|].
  rewrite IH; [|lia|destruct (f id); rewrite ?store_length; lia].
  destruct (f id); [|done]. rewrite store_in by lia. by rewrite list_lookup_insert_ne by lia.
Qed.

(** each id's value ends up at the id's own index *)
Lemma fill_lookup f i ids out k id :
  (i + length ids <= length out)%nat -> ids !! k = Some id ->
  fill f i ids out !! (i + k)%nat = match f id with Some v => Some v | None => out !! (i + k)%nat end.
Proof.
  revert i out k. induction ids as [|id' ids IH]; intros i out k Hl Hk; [done|]. cbn [fill length] in *.
  destruct k as [|k]; simpl in Hk.
  - injection Hk as ->. rewrite Nat.add_0_r, fill_before; [|lia|destruct (f id); rewrite ?store_length; lia].
    destruct (f id); [|done]. rewrite store_in by lia. apply list_lookup_insert_eq. lia.
  - replace (i + S k)%nat with (S i + k)%nat by lia. rewrite IH; [|by destruct (f id'); rewrite ?store_length; lia|done].
    destruct (f id); [done|]. destruct (f id'); [|done]. rewrite store_in by lia. by rewrite list_lookup_insert_ne by lia.
Qed.

(** the mask of the loop: bit [j] is set when CPU [j]'s count grew *)
Definition throttled (w : World) (prev : gmap Z Z) (id : Z) : bool :=
  match cpu_throttle w id, prev !! id with
  | Some count, Some p => p <? count
  | _, _ => false
  end.

Lemma throttle_mask w prev i ids cur mask j :
  (i + length ids <= 64)%nat -> 0 <= j ->
  Z.testbit (throttle_loop w prev i ids cur mask).2 j =
    Z.testbit mask j ||
    ((Z.of_nat i <=? j) && match ids !! (Z.to_nat j - i)%nat with Some id => throttled w prev id | None => false end).
Proof.
  intros Hl Hj. revert i cur mask Hl. induction ids as [|id ids IH]; intros i cur mask Hl; cbn [throttle_loop length] in *.
  { simpl. destruct (Z.of_nat i <=? j); [|by rewrite orb_false_r]. simpl. by rewrite orb_false_r. }
  assert (Z.testbit (uint64 (Z.shiftl 1 (Z.of_nat i))) j = (Z.of_nat i =? j)) as Hbit.
  { unfold uint64. rewrite Z.shiftl_1_l, wrap_u_small; [by rewrite Z.pow2_bits_eqb by lia|].
    split; [lia|]. apply Z.pow_lt_mono_r; lia. }
  assert (forall cur' mask', Z.testbit mask' j = Z.testbit mask j || ((Z.of_nat i =? j) && throttled w prev id) ->
    Z.testbit (throttle_loop w prev (S i) ids cur' mask').2 j =
    Z.testbit mask j || ((Z.of_nat i <=? j) && match (id :: ids) !! (Z.to_nat j - i)%nat with
                                               | Some id => throttled w prev id | None => false end)) as Hstep.
  { intros cur' mask' Hm. rewrite IH by lia. rewrite Hm.
    destruct (Z.eqb_spec (Z.of_nat i) j) as [Hij|Hij].
    - replace (Z.of_nat (S i) <=? j) with false by (symmetry; apply Z.leb_gt; lia).
      replace (Z.of_nat i <=? j) with true by (symmetry; apply Z.leb_le; lia).
      replace (Z.to_nat j - i)%nat with 0%nat by lia. simpl. by rewrite orb_false_r.
    - rewrite orb_false_r. f_equal. destruct (Z.leb_spec (Z.of_nat i) j).
      + replace (Z.of_nat (S i) <=? j) with true by (symmetry; apply Z.leb_le; lia).
        by replace (Z.to_nat j - i)%nat with (S (Z.to_nat j - S i)) by lia.
      + by replace (Z.of_nat (S i) <=? j) with false by (symmetry; apply Z.leb_gt; lia). }
  unfold throttled in Hstep at 1. destruct (cpu_throttle w id) as [count|]; apply Hstep.
  - destruct (prev !! id) as [p|]; [|by rewrite andb_false_r, orb_false_r].
    destruct (p <? count); [|by rewrite andb_false_r, orb_false_r]. by rewrite Z.lor_spec, Hbit, andb_true_r.
  - by rewrite andb_false_r, orb_false_r.
Qed.

Lemma throttle_range w prev i ids cur mask :
  (i + length ids <= 64)%nat -> u 64 mask -> u 64 (throttle_loop w prev i ids cur mask).2.
Proof.
  revert i cur mask. induction ids as [|id ids IH]; intros i cur mask Hl Hm; cbn [throttle_loop length] in *; [done|].
  destruct (cpu_throttle w id) as [count|]; [|apply IH; [lia|done]].
  apply IH; [lia|]. destruct (prev !! id) as [p|]; [|done]. destruct (p <? count); [|done].
  pose proof (wrap_u_range 64 (Z.shiftl 1 (Z.of_nat i)) ltac:(lia)) as Hb. unfold uint64.
  set (b := wrap_u 64 _) in *. unfold u in *. split; [apply Z.lor_nonneg; lia|].
  destruct (Z.eq_dec (Z.lor mask b) 0) as [->|Hnz]; [lia|].
  apply Z.log2_lt_pow2; [pose proof (proj2 (Z.lor_nonneg mask b) ltac:(lia)); lia|].
  rewrite Z.log2_lor by lia.
  assert (forall v, 0 <= v < 2 ^ 64 -> Z.log2 v < 64) as Hlog.
  { intros v Hv. destruct (Z.eq_dec v 0) as [->|]; [done|]. apply Z.log2_lt_pow2; lia. }
  pose proof (Hlog mask Hm). pose proof (Hlog b Hb). lia.
Qed.

(** ** Every step stays within the types of the sample *)

Lemma wrap_s_range w z : 0 < w -> s w (wrap_s w z).
Proof.
  intros Hw. unfold s, wrap_s. pose proof (Z.mod_pos_bound (z + 2 ^ (w - 1)) (2 ^ w) ltac:(apply Z.pow_pos_nonneg; lia)).
  assert (2 ^ w = 2 * 2 ^ (w - 1)) by (rewrite <- Z.pow_succ_r by lia; f_equal; lia). lia.
Qed.

Lemma wrap_u_u w z : 0 <= w -> u w (wrap_u w z).
Proof. apply wrap_u_range. Qed.

Lemma delta_range prev cur : u 64 prev -> u 64 cur -> u 64 (deltaUint64 prev cur).
Proof. unfold deltaUint64, u. destruct (Z.ltb_spec cur prev); lia. Qed.

Lemma sensor_inputs_ok w dir inputs n out :
  (n <= MaxSensors)%nat -> arr MaxSensors (s 32) out ->
  let '(n', out') := sensor_inputs w dir inputs n out in (n' <= MaxSensors)%nat /\ arr MaxSensors (s 32) out'.
Proof.
  revert n out. induction inputs as [|input inputs IH]; intros n out Hn Ho; cbn [sensor_inputs]; [done|].
  destruct (Nat.leb_spec MaxSensors n); [done|]. destruct (readIntFile _); apply IH; try done.
  apply arr_store; [done..|]. by apply wrap_s_range.
Qed.

Lemma sensor_dirs_ok w dirs n out :
  (n <= MaxSensors)%nat -> arr MaxSensors (s 32) out ->
  let '(n', out') := sensor_dirs w dirs n out in (n' <= MaxSensors)%nat /\ arr MaxSensors (s 32) out'.
Proof.
  revert n out. induction dirs as [|dir dirs IH]; intros n out Hn Ho; cbn [sensor_dirs]; [done|].
  destruct (Nat.leb_spec MaxSensors n); [done|]. destruct (sysDir w _) as [files|]; [|by apply IH].
  pose proof (sensor_inputs_ok w dir (sort_strings (List.filter is_temp_input files)) n out Hn Ho) as Hi.
  destruct (sensor_inputs _ _ _ _ _) as [n' out']. destruct Hi. by apply IH.
Qed.

Lemma add_columns_ok totals fields : Forall (u 64) totals -> Forall (u 64) (add_columns totals fields).
Proof.
  intros Ht. revert fields. induction Ht as [|x totals Hx Ht IH]; intros [|f fields]; cbn [add_columns]; try by constructor.
  constructor; [|apply IH]. destruct (ParseUint f 64); [by apply wrap_u_u|done].
Qed.

Lemma parse_totals_ok text n totals : parseInterruptTotals text n = Some totals -> Forall (u 64) totals.
Proof.
  unfold parseInterruptTotals. destruct (scan_lines text) as [|header lines]; [done|]. intros [= <-].
  match goal with |- context [replicate ?n 0] => assert (Forall (u 64) (replicate n 0)) as H0 by by apply Forall_replicate end.
  revert H0. generalize (replicate (if (0 <? n)%nat && (n <? length (Fields header))%nat then n else length (Fields header)) 0).
  induction lines as [|l lines IH]; intros ts Hts; [done|]. cbn [fold_left].
  apply IH. unfold add_line. destruct (Fields l) as [|? [|? ?]]; try done. by apply add_columns_ok.
Qed.

Lemma interrupt_loop_ok prev first i ids totals cur out :
  map_Forall (fun _ => u 64) prev -> map_Forall (fun _ => u 64) cur -> Forall (u 64) totals ->
  (i + length ids <= MaxCPUs)%nat -> arr MaxCPUs (u 64) out ->
  let '(cur', out') := interrupt_loop prev first i ids totals cur out in
  map_Forall (fun _ => u 64) cur' /\ arr MaxCPUs (u 64) out'.
Proof.
  intros Hp. revert i totals cur out. induction ids as [|id ids IH]; intros i totals cur out Hc Ht Hl Ho; [done|].
  destruct Ht as [|x totals Hx Ht]; [done|]. cbn [interrupt_loop length] in *. apply IH; [|done|lia|].
  - by apply map_Forall_insert_2.
  - destruct (prev !! id) as [p|] eqn:E; [|done]. destruct (negb first); [|done].
    apply arr_store; [lia|done|]. apply delta_range; [by apply (Hp id)|done].
Qed.

Lemma block_row_ok line r : block_row line = Some r -> u 32 (r_inProgress r).
Proof.
  unfold block_row. destruct (_ <? 14)%nat; [done|]. intros H.
  repeat first [ apply bind_Some in H as (? & ? & H) | destruct (isVirtualBlockDevice _); [done|] ].
  injection H as <-. simpl.
  match goal with E : _ ≫= (fun f => ParseUint f 32) = Some _ |- _ => apply bind_Some in E as (f & _ & E); by apply ParseUint_range in E end.
Qed.

Lemma block_rows_ok text : Forall (fun r => u 32 (r_inProgress r)) (block_rows text).
Proof.
  unfold block_rows. rewrite merge_sort_Permutation. apply Forall_forall. intros r Hr.
  apply list_elem_of_omap in Hr as (line & _ & E). by apply block_row_ok in E.
Qed.

Lemma block_loop_ok prev first n rows cur queue lat :
  (n <= MaxBlockDevices)%nat -> Forall (fun r => u 32 (r_inProgress r)) rows ->
  arr MaxBlockDevices (u 32) queue -> arr MaxBlockDevices (u 32) lat ->
  let '(n', _, queue', lat') := block_loop prev first n rows cur queue lat in
  (n' <= MaxBlockDevices)%nat /\ arr MaxBlockDevices (u 32) queue' /\ arr MaxBlockDevices (u 32) lat'.
Proof.
  intros Hn Hr. revert n cur queue lat Hn. induction Hr as [|r rows Hr Hrs IH]; intros n cur queue lat Hn Hq Hlat;
    cbn [block_loop]; [done|].
  destruct (Nat.leb_spec MaxBlockDevices n); [done|]. apply IH; [done|by apply arr_store|].
  destruct (prev !! r_name r) as [p|]; [|done]. destruct (negb first); [|done].
  unfold latency. destruct (0 <? _); [|done]. apply arr_store; [done..|by apply wrap_u_u].
Qed.

Lemma edac_loop_ok w entries ce ue found :
  u 64 ce -> u 64 ue -> let '(ce', ue', _) := edac_loop w entries ce ue found in u 64 ce' /\ u 64 ue'.
Proof.
  revert ce ue found. induction entries as [|e entries IH]; intros ce ue found Hc Hu; cbn [edac_loop]; [done|].
  destruct (negb _); [by apply IH|]. unfold edac_count.
  destruct (readUintFile _), (readUintFile _); cbn; apply IH; try done; by apply wrap_u_u.
Qed.

Lemma edac_counts_ok w ce ue : edac_counts w = Some (ce, ue) -> u 64 ce /\ u 64 ue.
Proof.
  unfold edac_counts. destruct (sysDir w _) as [entries|]; [|done].
  pose proof (edac_loop_ok w entries 0 0 false ltac:(done) ltac:(done)) as H.
  destruct (edac_loop _ _ _ _ _) as [[ce' ue'] []]; [|done]. by intros [= <- <-].
Qed.

Lemma psi_range w line v : readPSIAvg10 w line = Some v -> u 32 v.
Proof.
  unfold readPSIAvg10. destruct w as [raw|]; [|done]. cbn [mbind option_bind].
  induction (split_byte newline raw) as [|l lines IH]; cbn [psi_lines]; [done|].
  destruct (Fields l) as [|f fields]; [done|]. case_bool_decide; [|done].
  assert (forall a, psi_fields fields = Some (Some a) -> u 32 a) as Hf.
  { clear. induction fields as [|f fields IH]; cbn [psi_fields]; [done|]. intros a.
    destruct (trim_prefix_go _ _) as [v|]; [|apply IH]. destruct (ParseFloat _ _ _); [|done].
    intros [= <-]. apply float32_bits_range. }
  destruct (psi_fields fields) as [a|]; [|done]. intros ->. by apply Hf.
Qed.

(** ** Runs *)

(** the counters kept from the previous sample are 64-bit, and the CPUs fit the arrays *)
Record sampler_ok (x : Sampler) : Prop := mkSamplerOk {
  so_ids : (length (cpuIDs x) <= MaxCPUs)%nat;
  so_irq : map_Forall (fun _ => u 64) (prevInterrupt x);
  so_ce : u 64 (prevEDACCe x);
  so_ue : u 64 (prevEDACUe x);
}.

(** procfs answers with uint64 values *)
Definition meminfo_ok (mi : Meminfo) : Prop :=
  forall f, f ∈ [MemTotal; MemAvailable; Cached; Dirty; Writeback; SwapTotal; SwapFree] -> u 64 (default 0 (f mi)).
Definition world_ok (w : World) : Prop := forall mi, fs_Meminfo w = Some mi -> meminfo_ok mi.

Lemma NewSampler_ok : sampler_ok NewSampler.
Proof. constructor; simpl; try (unfold u; lia). apply map_Forall_empty. Qed.

Lemma cpu_ids_length stat : (length (cpu_ids stat) <= MaxCPUs)%nat.
Proof. unfold cpu_ids. destruct (Nat.ltb_spec MaxCPUs (length (merge_sort Z.le (map_to_list (CPU stat)).*1))); [rewrite length_take|]; lia. Qed.

Lemma sampleCPU_ok w x :
  sampler_ok x -> let '(x', (n, busy)) := sampleCPU w x in sampler_ok x' /\ 0 <= n <= 64 /\ arr MaxCPUs (u 32) busy.
Proof.
  intros [H1 H2 H3 H4]. unfold sampleCPU. assert (arr MaxCPUs (u 32) (replicate MaxCPUs 0)) as Hz by by apply arr_replicate.
  destruct (fs_Stat w) as [stat|]; [|done]. pose proof (cpu_ids_length stat) as Hl. split; [by constructor|]. split.
  - unfold MaxCPUs in Hl. rewrite wrap_u_small by lia. lia.
  - destruct (prevCPU x) as [prev|]; [|done]. destruct (negb _); [|done]. apply fill_arr; [|done|done].
    intros id v. unfold busy_bits. destruct (prev !! id), (CPU stat !! id); try done.
    destruct (cpuBusyRatio _ _); [|done]. intros [= <-]. apply float32_bits_range.
Qed.

Lemma sampleCPUFreq_ok w x :
  sampler_ok x -> let '(x', (freq, mask)) := sampleCPUFreqAndThrottle w x in
  sampler_ok x' /\ arr MaxCPUs (u 32) freq /\ u 64 mask.
Proof.
  intros K. pose proof K as [H1 H2 H3 H4]. unfold sampleCPUFreqAndThrottle.
  assert (arr MaxCPUs (u 32) (replicate MaxCPUs 0)) as Hz by by apply arr_replicate.
  destruct (_ =? 0)%nat; [done|].
  pose proof (throttle_range w (prevThrottle x) 0 (cpuIDs x) ∅ 0 ltac:(unfold MaxCPUs in H1; lia) ltac:(done)) as Hm.
  destruct (throttle_loop _ _ _ _ _ _) as [cur mask]. split_and!; [by constructor| |done].
  apply fill_arr; [|done|done]. intros id v. unfold cpu_freq. destruct (readUintFile _); [|done]. intros [= <-]. by apply wrap_u_u.
Qed.

Lemma sampleSensors_ok w : let '(n, temps) := sampleSensors w in 0 <= n <= 24 /\ arr MaxSensors (s 32) temps.
Proof.
  unfold sampleSensors. assert (arr MaxSensors (s 32) (replicate MaxSensors 0)) as Hz by by apply arr_replicate.
  destruct (sysDir w _) as [entries|]; [|done].
  pose proof (sensor_dirs_ok w (sort_strings entries) 0 (replicate MaxSensors 0) ltac:(unfold MaxSensors; lia) Hz) as H.
  destruct (sensor_dirs _ _ _ _) as [n out]. destruct H as [Hn Ho]. split; [|done].
  unfold MaxSensors in Hn. rewrite wrap_u_small; lia.
Qed.

Lemma sampleMemory_ok w :
  world_ok w -> let '(a, b, c, d, e, f) := sampleMemory w in u 64 a /\ u 64 b /\ u 64 c /\ u 64 d /\ u 64 e /\ u 64 f.
Proof.
  intros Hw. unfold sampleMemory. destruct (fs_Meminfo w) as [mi|] eqn:E; [|done]. specialize (Hw mi E).
  assert (forall f, f ∈ [MemTotal; MemAvailable; Cached; Dirty; Writeback; SwapTotal; SwapFree] -> u 64 (default 0 (f mi))) as H by done.
  split_and!; try (apply H; set_solver).
  pose proof (H SwapTotal ltac:(set_solver)) as Ht. pose proof (H SwapFree ltac:(set_solver)) as Hf.
  destruct (SwapTotal mi), (SwapFree mi); try done. simpl in *. destruct (Z.leb_spec z0 z); [|done]. unfold u in *. lia.
Qed.

Lemma sampleInterrupts_ok w x :
  sampler_ok x -> let '(x', irqs) := sampleInterrupts w x in sampler_ok x' /\ arr MaxCPUs (u 64) irqs.
Proof.
  intros [H1 H2 H3 H4]. unfold sampleInterrupts. assert (arr MaxCPUs (u 64) (replicate MaxCPUs 0)) as Hz by by apply arr_replicate.
  destruct (procFile w _ ≫= _) as [totals|] eqn:E; [|done]. apply bind_Some in E as (f & _ & E%parse_totals_ok).
  pose proof (interrupt_loop_ok (prevInterrupt x) (GoTime.is_zero (prevAt x)) 0 (cpuIDs x) totals ∅
    (replicate MaxCPUs 0) H2 (map_Forall_empty _) E H1 Hz) as H.
  destruct (interrupt_loop _ _ _ _ _ _ _). destruct H. by split; [constructor|].
Qed.

Lemma sampleBlock_ok w x :
  sampler_ok x -> let '(x', (n, queue, lat)) := sampleBlockDevices w x in
  sampler_ok x' /\ 0 <= n <= 16 /\ arr MaxBlockDevices (u 32) queue /\ arr MaxBlockDevices (u 32) lat.
Proof.
  intros K. pose proof K as [H1 H2 H3 H4]. unfold sampleBlockDevices.
  assert (arr MaxBlockDevices (u 32) (replicate MaxBlockDevices 0)) as Hz by by apply arr_replicate.
  destruct (procFile w _) as [text|]; [|done].
  pose proof (block_loop_ok (prevBlock x) (GoTime.is_zero (prevAt x)) 0 (block_rows text) ∅ _ _
    ltac:(unfold MaxBlockDevices; lia) (block_rows_ok text) Hz Hz) as H.
  destruct (block_loop _ _ _ _ _ _ _) as [[[n cur] queue] lat]. destruct H as (Hn & Hq & Hl).
  split_and!; try done. all: unfold MaxBlockDevices in Hn; rewrite ?wrap_u_small; lia.
Qed.

Lemma sampleEDAC_ok w x :
  sampler_ok x -> let '(x', (ce, ue)) := sampleEDAC w x in sampler_ok x' /\ u 64 ce /\ u 64 ue.
Proof.
  intros K. pose proof K as [H1 H2 H3 H4]. unfold sampleEDAC.
  destruct (edac_counts w) as [[ce ue]|] eqn:E; [|done]. apply edac_counts_ok in E as [Hc Hu].
  destruct (negb _); (split; [by constructor|]); [|done]. split; by apply delta_range.
Qed.

Lemma sampleLoad_ok w : let '(l, r, b) := sampleLoadAndProcs w in u 32 l /\ u 32 r /\ u 32 b.
Proof.
  unfold sampleLoadAndProcs. destruct (fs_Load1 w), (fs_Stat_again w); split_and!; try done;
    first [apply float32_bits_range|by apply wrap_u_u].
Qed.

Lemma samplePSI_ok w : let '(a, b, c, d, e) := samplePSI w in u 32 a /\ u 32 b /\ u 32 c /\ u 32 d /\ u 32 e.
Proof.
  unfold samplePSI. split_and!; match goal with |- u 32 (default 0 ?o) => destruct o eqn:E; [by apply psi_range in E|done] end.
Qed.

(** the counts of a sample bound its arrays *)
Definition counts_ok (x : Sample) : Prop :=
  0 <= NumCPUs x <= 64 /\ 0 <= NumSensors x <= 24 /\ 0 <= NumBlockDevices x <= 16.

Lemma Sample_ok w x now :
  world_ok w -> sampler_ok x ->
  let '(x', out) := Sample_ w x now in sampler_ok x' /\ sample_ok out /\ counts_ok out /\ prevAt x' = now.
Proof.
  intros Hw Hx. unfold Sample_.
  pose proof (sampleCPU_ok w x Hx) as H. destruct (sampleCPU w x) as [x1 [ncpu busy]]. destruct H as (H1 & Hn & Hb).
  pose proof (sampleCPUFreq_ok w x1 H1) as H. destruct (sampleCPUFreqAndThrottle w x1) as [x2 [freq mask]]. destruct H as (H2 & Hf & Hm).
  pose proof (sampleSensors_ok w) as H. destruct (sampleSensors w) as [nsens temps]. destruct H as (Hns & Htemp).
  pose proof (sampleMemory_ok w Hw) as Hmem. destruct (sampleMemory w) as [[[[[m1 m2] m3] m4] m5] m6].
  pose proof (sampleLoad_ok w) as Hload. destruct (sampleLoadAndProcs w) as [[l1 l2] l3].
  pose proof (sampleInterrupts_ok w x2 H2) as H. destruct (sampleInterrupts w x2) as [x3 irqs]. destruct H as (H3 & Hirq).
  pose proof (samplePSI_ok w) as Hpsi. destruct (samplePSI w) as [[[[p1 p2] p3] p4] p5].
  pose proof (sampleBlock_ok w x3 H3) as H. destruct (sampleBlockDevices w x3) as [x4 [[nblk queue] lat]]. destruct H as (H4 & Hnb & Hq & Hlat).
  pose proof (sampleEDAC_ok w x4 H4) as H. destruct (sampleEDAC w x4) as [x5 [ce ue]]. destruct H as (H5 & Hce & Hue).
  destruct Hmem as (?&?&?&?&?&?), Hload as (?&?&?), Hpsi as (?&?&?&?&?).
  split; [destruct H5; by constructor|]. split; [|done].
  constructor; simpl; try done; try (unfold u; lia). by apply wrap_s_range.
Qed.

(** the samples a run takes *)
Fixpoint run_samples (x : Sampler) (ticks : list tick) : list Sample :=
  match ticks with
  | [] => []
  | TickSample now w :: rest => let '(x, out) := Sample_ w x now in out :: run_samples x rest
  | TickSync _ :: rest => run_samples x rest
  end.

Definition sync_errors (ticks : list tick) : list string :=
  omap (fun t => match t with TickSync err => err | TickSample _ _ => None end) ticks.

Definition tick_ok (t : tick) : Prop := match t with TickSample _ w => world_ok w | TickSync _ => True end.

Lemma run_samples_ok x ticks :
  sampler_ok x -> Forall tick_ok ticks -> Forall (fun out => sample_ok out /\ counts_ok out) (run_samples x ticks).
Proof.
  intros Hx Ht. revert x Hx. induction Ht as [|[now w|err] ticks Hw Ht IH]; intros x Hx; cbn [run_samples]; [done| |by apply IH].
  pose proof (Sample_ok w x now Hw Hx) as H. destruct (Sample_ w x now) as [x' out]. destruct H as (Hx' & Ho & Hc & _).
  constructor; [done|]. by apply IH.
Qed.

Lemma run_apply x r errs ticks :
  let '(_, r', errs') := fold_left on_tick ticks (x, r, errs) in
  r' = fold_left apply (OpRecord <$> run_samples x ticks) r /\ errs' = (errs ++ sync_errors ticks)%list.
Proof.
  revert x r errs. induction ticks as [|[now w|[err|]] ticks IH]; intros x r errs; cbn [fold_left run_samples].
  - by rewrite app_nil_r.
  - unfold on_tick at 2. destruct (Sample_ w x now) as [x' out]. apply IH.
  - cbn [on_tick]. specialize (IH x r (errs ++ [err])%list). destruct (fold_left _ _ _) as [[x' r'] errs'].
    destruct IH as [-> ->]. split; [done|]. by rewrite <- app_assoc.
  - apply IH.
Qed.

Lemma recorded_records xs : recorded (OpRecord <$> xs) = xs.
Proof. induction xs as [|x xs IH]; [done|]. rewrite fmap_cons. cbn. f_equal. apply IH. Qed.

(** ** Columns *)

Definition column (i : nat) (line : string) : Z :=
  match Fields line !! S i with Some f => default 0 (ParseUint f 64) | None => 0 end.

Lemma add_columns_lookup totals fields i t :
  u 64 t -> totals !! i = Some t ->
  add_columns totals fields !! i =
    Some (uint64 (t + match fields !! i with Some f => default 0 (ParseUint f 64) | None => 0 end)).
Proof.
  intros Ht. assert (uint64 (t + 0) = t) as H0 by (unfold uint64; rewrite wrap_u_small; unfold u in Ht; lia).
  revert fields i. induction totals as [|x totals IH]; intros [|f fields] [|i] Hi; try done; cbn [add_columns].
  - injection Hi as ->. by rewrite lookup_nil, H0.
  - by rewrite lookup_nil, H0.
  - injection Hi as ->. simpl. destruct (ParseUint f 64); simpl; [done|by rewrite H0].
  - simpl in Hi |- *. by apply IH.
Qed.

Lemma add_line_lookup totals line i t :
  u 64 t -> totals !! i = Some t -> add_line totals line !! i = Some (uint64 (t + column i line)).
Proof.
  intros Ht Hi. assert (uint64 (t + 0) = t) as H0 by (unfold uint64; rewrite wrap_u_small; unfold u in Ht; lia).
  unfold add_line, column. destruct (Fields line) as [|a [|b fs]]; [simpl; by rewrite H0| |].
  - simpl. by rewrite H0.
  - rewrite (add_columns_lookup _ _ _ _ Ht Hi). done.
Qed.

Lemma add_lines_lookup totals lines i t :
  u 64 t -> totals !! i = Some t ->
  fold_left add_line lines totals !! i = Some (uint64 (t + foldr Z.add 0 (column i <$> lines))).
Proof.
  revert totals t. induction lines as [|l lines IH]; intros totals t Ht Hi; cbn [fold_left].
  - simpl. unfold uint64. rewrite wrap_u_small; [by rewrite Z.add_0_r|unfold u in Ht; lia].
  - rewrite (IH _ (uint64 (t + column i l))); [|by apply wrap_u_u|by apply add_line_lookup].
    f_equal. unfold uint64, wrap_u. rewrite fmap_cons. cbn [foldr]. rewrite Zplus_mod_idemp_l. f_equal. lia.
Qed.

Lemma add_lines_length totals lines : length (fold_left add_line lines totals) = length totals.
Proof.
  revert totals. induction lines as [|l lines IH]; intros totals; cbn [fold_left]; [done|]. rewrite IH.
  unfold add_line. destruct (Fields l) as [|a [|b fs]]; try done. generalize (b :: fs). clear.
  induction totals as [|x totals IH]; intros [|f fs]; cbn [add_columns length]; try done. by rewrite IH.
Qed.

(** the columns of the table that are counted *)
Definition counted (header : string) (numCPUs : nat) : nat :=
  if (numCPUs =? 0)%nat then length (Fields header) else Nat.min numCPUs (length (Fields header)).

Lemma interrupt_before prev first i ids totals cur out k :
  (k < i)%nat -> (i + length ids <= length out)%nat -> (interrupt_loop prev first i ids totals cur out).2 !! k = out !! k.
Proof.
  revert i totals cur out. induction ids as [|id ids IH]; intros i [|x totals] cur out Hk Hl; cbn [interrupt_loop length] in *; try done.
  rewrite IH; [|lia|destruct (prev !! id); [destruct (negb first); rewrite ?store_length|]; lia].
  destruct (prev !! id); [|done]. destruct (negb first); [|done]. rewrite store_in by lia. by rewrite list_lookup_insert_ne by lia.
Qed.

Lemma interrupt_lookup prev first i ids totals cur out k id t :
  (i + length ids <= length out)%nat -> ids !! k = Some id -> totals !! k = Some t ->
  (interrupt_loop prev first i ids totals cur out).2 !! (i + k)%nat =
    match prev !! id with
    | Some p => if first then out !! (i + k)%nat else Some (deltaUint64 p t)
    | None => out !! (i + k)%nat
    end.
Proof.
  revert i totals cur out k. induction ids as [|id' ids IH]; intros i [|x totals] cur out k Hl Hk Ht; try done.
  cbn [interrupt_loop length] in *. destruct k as [|k]; simpl in Hk, Ht.
  - injection Hk as ->. injection Ht as ->. rewrite Nat.add_0_r, interrupt_before;
      [|lia|destruct (prev !! id); [destruct (negb first); rewrite ?store_length|]; lia].
    destruct (prev !! id); [|done]. destruct first; [done|]. simpl. rewrite store_in by lia. apply list_lookup_insert_eq. lia.
  - replace (i + S k)%nat with (S i + k)%nat by lia.
    rewrite IH; [|destruct (prev !! id'); [destruct (negb first); rewrite ?store_length|]; lia|done|done].
    assert ((match prev !! id' with Some p => if negb first then store i (deltaUint64 p x) out else out | None => out end)
      !! (S i + k)%nat = out !! (S i + k)%nat) as Ho.
    { destruct (prev !! id'); [|done]. destruct (negb first); [|done]. rewrite store_in by lia. by rewrite list_lookup_insert_ne by lia. }
    by rewrite Ho.
Qed.

(** the counts kept for the next sample *)
Lemma interrupt_kept prev first i ids totals cur out id :
  id ∉ ids -> (interrupt_loop prev first i ids totals cur out).1 !! id = cur !! id.
Proof.
  revert i totals cur out. induction ids as [|id' ids IH]; intros i [|x totals] cur out Hid; cbn [interrupt_loop]; try done.
  apply not_elem_of_cons in Hid as [Hne Hid]. rewrite IH by done. by rewrite lookup_insert_ne.
Qed.

Lemma interrupt_cur prev first i ids totals cur out k id t :
  NoDup ids -> ids !! k = Some id -> totals !! k = Some t ->
  (interrupt_loop prev first i ids totals cur out).1 !! id = Some t.
Proof.
  intros Hnd. revert i totals cur out k. induction Hnd as [|id' ids Hid Hnd IH]; intros i [|x totals] cur out k Hk Ht; try done.
  destruct k as [|k]; simpl in Hk, Ht; cbn [interrupt_loop].
  - injection Hk as ->. injection Ht as ->. rewrite interrupt_kept by done. by rewrite lookup_insert_eq.
  - by eapply IH.
Qed.

Lemma cpu_ids_NoDup stat : NoDup (cpu_ids stat).
Proof.
  unfold cpu_ids. assert (NoDup (merge_sort Z.le (map_to_list (CPU stat)).*1)) as H.
  { rewrite merge_sort_Permutation. apply NoDup_fst_map_to_list. }
  destruct (_ <? _)%nat; [by apply NoDup_take|done].
Qed.

Lemma cpu_ids_sorted stat : StronglySorted Z.le (cpu_ids stat).
Proof.
  unfold cpu_ids. assert (StronglySorted Z.le (merge_sort Z.le (map_to_list (CPU stat)).*1)) as H by apply (StronglySorted_merge_sort Z.le).
  destruct (_ <? _)%nat; [|done]. eapply sorted_sublist; [apply sublist_take|done].
Qed.

(** each step at one CPU, and what it leaves alone *)
Lemma zeros_lookup {A} i (id : A) ids :
  (length ids <= MaxCPUs)%nat -> ids !! i = Some id -> replicate MaxCPUs 0 !! i = Some 0.
Proof. intros Hl Hi%lookup_lt_Some. apply lookup_replicate_2. lia. Qed.

Lemma fill_zeros f ids i id :
  (length ids <= MaxCPUs)%nat -> ids !! i = Some id ->
  fill f 0 ids (replicate MaxCPUs 0) !! i = Some (default 0 (f id)).
Proof.
  intros Hl Hi. pose proof (fill_lookup f 0 ids (replicate MaxCPUs 0) i id) as H. rewrite !Nat.add_0_l in H.
  rewrite H; [|by rewrite length_replicate|done]. destruct (f id); [done|]. by eapply zeros_lookup.
Qed.

Lemma busy_spec w x stat i id :
  fs_Stat w = Some stat -> cpu_ids stat !! i = Some id ->
  (sampleCPU w x).2.2 !! i =
    Some (default 0 (prev ← prevCPU x; if GoTime.is_zero (prevAt x) then None else busy_bits (prev !! id) (CPU stat !! id))).
Proof.
  intros Hst Hi. pose proof (cpu_ids_length stat) as Hl. unfold sampleCPU. rewrite Hst. cbn [snd].
  destruct (prevCPU x) as [prev|]; [|by eapply zeros_lookup]. cbn [mbind option_bind].
  destruct (GoTime.is_zero (prevAt x)); cbn [negb]; [by eapply zeros_lookup|].
  by rewrite (fill_zeros _ _ i id Hl Hi).
Qed.

Lemma freq_spec w x i id :
  (length (cpuIDs x) <= MaxCPUs)%nat -> cpuIDs x !! i = Some id ->
  let '(x', (freq, mask)) := sampleCPUFreqAndThrottle w x in
  freq !! i = Some (default 0 (cpu_freq w id)) /\ Z.testbit mask (Z.of_nat i) = throttled w (prevThrottle x) id.
Proof.
  intros Hl Hi. unfold sampleCPUFreqAndThrottle. pose proof (lookup_lt_Some _ _ _ Hi).
  destruct (Nat.eqb_spec (length (cpuIDs x)) 0); [lia|].
  pose proof (throttle_mask w (prevThrottle x) 0 (cpuIDs x) ∅ 0 (Z.of_nat i) Hl ltac:(lia)) as Hm.
  destruct (throttle_loop _ _ _ _ _ _) as [cur mask]. split; [by apply fill_zeros|].
  cbn [snd] in Hm. rewrite Hm, Z.bits_0. replace (Z.to_nat (Z.of_nat i) - 0)%nat with i by lia. rewrite Hi.
  by replace (Z.of_nat 0 <=? Z.of_nat i) with true by (symmetry; apply Z.leb_le; lia).
Qed.

Lemma freq_keeps w x :
  let x' := (sampleCPUFreqAndThrottle w x).1 in
  cpuIDs x' = cpuIDs x /\ prevAt x' = prevAt x /\ prevInterrupt x' = prevInterrupt x.
Proof. unfold sampleCPUFreqAndThrottle. destruct (_ =? 0)%nat; [done|]. by destruct (throttle_loop _ _ _ _ _ _). Qed.

Lemma irq_spec w x totals i id t :
  (length (cpuIDs x) <= MaxCPUs)%nat -> NoDup (cpuIDs x) ->
  procFile w ["interrupts"] ≫= (fun f => parseInterruptTotals f (length (cpuIDs x))) = Some totals ->
  cpuIDs x !! i = Some id -> totals !! i = Some t ->
  let '(x', irqs) := sampleInterrupts w x in
  prevInterrupt x' !! id = Some t /\
  irqs !! i = Some (default 0 (p ← prevInterrupt x !! id; if GoTime.is_zero (prevAt x) then None else Some (deltaUint64 p t))).
Proof.
  intros Hl Hnd Htot Hi Ht. unfold sampleInterrupts. rewrite Htot.
  pose proof (interrupt_lookup (prevInterrupt x) (GoTime.is_zero (prevAt x)) 0 (cpuIDs x) totals ∅ (replicate MaxCPUs 0) i id t
    ltac:(by rewrite length_replicate) Hi Ht) as H1.
  pose proof (interrupt_cur (prevInterrupt x) (GoTime.is_zero (prevAt x)) 0 (cpuIDs x) totals ∅ (replicate MaxCPUs 0) i id t
    Hnd Hi Ht) as H2.
  destruct (interrupt_loop _ _ _ _ _ _ _) as [cur out]. split; [done|]. cbn [snd] in H1. rewrite !Nat.add_0_l in H1.
  rewrite H1. destruct (prevInterrupt x !! id); cbn [mbind option_bind]; [|by eapply zeros_lookup].
  destruct (GoTime.is_zero (prevAt x)); [by eapply zeros_lookup|done].
Qed.

Lemma irq_keeps w x : cpuIDs (sampleInterrupts w x).1 = cpuIDs x.
Proof. unfold sampleInterrupts. destruct (procFile w _ ≫= _); [|done]. by destruct (interrupt_loop _ _ _ _ _ _ _). Qed.

Lemma block_keeps w x :
  cpuIDs (sampleBlockDevices w x).1 = cpuIDs x /\ prevInterrupt (sampleBlockDevices w x).1 = prevInterrupt x.
Proof. unfold sampleBlockDevices. destruct (procFile w _); [|done]. by destruct (block_loop _ _ _ _ _ _ _) as [[[? ?] ?] ?]. Qed.

Lemma edac_keeps w x : cpuIDs (sampleEDAC w x).1 = cpuIDs x /\ prevInterrupt (sampleEDAC w x).1 = prevInterrupt x.
Proof. unfold sampleEDAC. by destruct (edac_counts w) as [[? ?]|]. Qed.

(** what a sample reports of EDAC depends on the sampler's EDAC state alone *)
Lemma Sample_edac w x now :
  let '(x', out) := Sample_ w x now in
  prevAt x' = now /\
  match edac_counts w with
  | None => prevEDACCe x' = prevEDACCe x /\ prevEDACUe x' = prevEDACUe x /\
            EDACCorrectableDelta out = 0 /\ EDACUncorrectableDelta out = 0
  | Some (ce, ue) =>
      prevEDACCe x' = ce /\ prevEDACUe x' = ue /\
      EDACCorrectableDelta out = (if GoTime.is_zero (prevAt x) then 0 else deltaUint64 (prevEDACCe x) ce) /\
      EDACUncorrectableDelta out = (if GoTime.is_zero (prevAt x) then 0 else deltaUint64 (prevEDACUe x) ue)
  end.
Proof.
  set (P := fun y : Sampler => prevAt y = prevAt x /\ prevEDACCe y = prevEDACCe x /\ prevEDACUe y = prevEDACUe x).
  unfold Sample_. assert (P (sampleCPU w x).1) as H1 by (unfold P, sampleCPU; by destruct (fs_Stat w)).
  destruct (sampleCPU w x) as [x1 [ncpu busy]].
  assert (P (sampleCPUFreqAndThrottle w x1).1) as H2.
  { unfold P, sampleCPUFreqAndThrottle. destruct (_ =? 0)%nat; [done|]. by destruct (throttle_loop _ _ _ _ _ _). }
  destruct (sampleCPUFreqAndThrottle w x1) as [x2 [freq mask]].
  destruct (sampleSensors w) as [nsens temps]. destruct (sampleMemory w) as [[[[[m1 m2] m3] m4] m5] m6].
  destruct (sampleLoadAndProcs w) as [[l1 l2] l3]. destruct (samplePSI w) as [[[[p1 p2] p3] p4] p5].
  assert (P (sampleInterrupts w x2).1) as H3.
  { unfold P, sampleInterrupts. destruct (procFile w _ ≫= _); [|done]. by destruct (interrupt_loop _ _ _ _ _ _ _). }
  destruct (sampleInterrupts w x2) as [x3 irqs].
  assert (P (sampleBlockDevices w x3).1) as (E1 & E2 & E3).
  { unfold P, sampleBlockDevices. destruct (procFile w _); [|done]. by destruct (block_loop _ _ _ _ _ _ _) as [[[? ?] ?] ?]. }
  destruct (sampleBlockDevices w x3) as [x4 [[nblk queue] lat]]. cbn [fst] in E1, E2, E3.
  unfold sampleEDAC. rewrite E1, E2, E3.
  destruct (edac_counts w) as [[ce ue]|]; [|done]. by destruct (GoTime.is_zero (prevAt x)).
Qed.

(** the positive increments of a counter from a starting value *)
Fixpoint increments (base : Z) (cs : list Z) : Z :=
  match cs with
  | [] => 0
  | c :: rest => Z.max 0 (c - base) + increments c rest
  end.

Definition sum_Z (zs : list Z) : Z := foldr Z.add 0 zs.

(** the readings of one counter over some ticks *)
Definition readings (f : Z * Z -> Z) (ticks : list tick) : list Z :=
  omap (fun t => match t with TickSample _ w => f <$> edac_counts w | TickSync _ => None end) ticks.
Definition timed (t : tick) : Prop := match t with TickSample now _ => GoTime.is_zero now = false | TickSync _ => True end.

Lemma delta_max p c : deltaUint64 p c = Z.max 0 (c - p).
Proof. unfold deltaUint64. destruct (Z.ltb_spec c p); lia. Qed.

Lemma edac_run x ticks :
  GoTime.is_zero (prevAt x) = false -> Forall timed ticks ->
  sum_Z (EDACCorrectableDelta <$> run_samples x ticks) = increments (prevEDACCe x) (readings fst ticks) /\
  sum_Z (EDACUncorrectableDelta <$> run_samples x ticks) = increments (prevEDACUe x) (readings snd ticks).
Proof.
  intros Hx Ht. revert x Hx. induction Ht as [|[now w|err] ticks Hnow Ht IH]; intros x Hx; cbn [run_samples]; [done| |by apply IH].
  pose proof (Sample_edac w x now) as H. destruct (Sample_ w x now) as [x' out]. destruct H as [Hat H].
  specialize (IH x' ltac:(by rewrite Hat)) as [IH1 IH2]. rewrite !fmap_cons. unfold sum_Z in *. cbn [foldr].
  unfold readings. cbn [omap list_omap]. fold (readings fst ticks). fold (readings snd ticks).
  destruct (edac_counts w) as [[ce ue]|]; cbn [fmap option_fmap option_map fst snd increments]; rewrite IH1, IH2.
  - destruct H as (-> & -> & -> & ->). rewrite Hx, !delta_max. done.
  - destruct H as (-> & -> & -> & ->). done.
Qed.

(** ** The sign of the busy ratio *)

(** rounding keeps the sign *)
Lemma round_sign s m e l : flt (binary_round_aux prec emax s m e l) f_zero = true -> s = true.
Proof.
  destruct s; [done|]. unfold binary_round_aux, flt, SFltb, SFcompare, f_zero.
  destruct (shr_fexp _ _ m e l) as [r' e']. destruct (shr_fexp _ _ _ e' _) as [r'' e''].
  destruct (shr_m r''); [done| |done]. destruct (_ <=? _); done.
Qed.

Lemma fdiv_nonneg x y : flt x f_zero = false -> fle y f_zero = false -> flt (fdiv x y) f_zero = false.
Proof.
  intros Hx Hy. destruct x as [[]|[]| |[] m e], y as [[]|[]| |[] m' e']; try done.
  unfold fdiv, SFdiv. destruct (SFdiv_core_binary _ _ _ _ _ _) as [[q e''] l]. cbn [xorb].
  apply not_true_is_false; intros E. by apply round_sign in E.
Qed.

(** ** Properties *)

(** no write left an array: none of them has become the empty list a panic leaves *)
Definition no_panic (x : Sample) : Prop :=
  length (CPUBusyPct x) = 64%nat /\ length (CPUFreqMHz x) = 64%nat /\ length (InterruptsPerCPU x) = 64%nat /\
  length (SensorTempMilliC x) = 24%nat /\ length (BlockQueueDepth x) = 16%nat /\ length (BlockLatencyUs x) = 16%nat.

Lemma sample_ok_no_panic x : sample_ok x -> no_panic x.
Proof. intros Hx. unfold no_panic. destruct Hx; repeat match goal with H : arr _ _ _ |- _ => destruct H as [? _] end. done. Qed.

(** C33: no write of the sampler to an array of the sample panics, whatever the host's files
    hold and however many CPUs, temperature sensors, interrupt columns and block devices they list (what
    procfs makes of /proc/meminfo being uint64 values): in every sample of every run no
    write has left one of the fixed arrays (64 CPUs, 24 sensors, 16 devices), and the counts
    a reader of the sample takes as array bounds are within them. *)
Theorem sampler_type_safe (ticks : list tick) :
  Forall tick_ok ticks -> Forall (fun x => no_panic x /\ counts_ok x) (run_samples NewSampler ticks).
Proof.
  intros Ht. eapply Forall_impl; [by apply (run_samples_ok _ _ NewSampler_ok)|].
  intros x [Hx Hc]. split; [by apply sample_ok_no_panic|done].
Qed.

(** The recording loop and the ring together: after any sequence of sample and sync ticks,
    failing syncs included, the file dumps to exactly the last [capacity] samples taken, and
    every sync error was reported. *)
Theorem recording_loop contents cap ticks :
  0 <= cap < 2 ^ 32 -> foreign contents (effective_capacity cap) -> Forall tick_ok ticks ->
  Z.of_nat (length ticks) < 2 ^ 64 ->
  let '(_, r, errs) := Run NewSampler (Open contents cap) ticks in
  Dump (data r) = (lastn (Z.to_nat (effective_capacity cap)) (run_samples NewSampler ticks), None) /\
  errs = sync_errors ticks.
Proof.
  intros Hc Hf Ht Hn. pose proof (run_apply NewSampler (Open contents cap) [] ticks) as H. unfold Run.
  destruct (fold_left on_tick _ _) as [[x r] errs]. destruct H as [-> ->]. split; [|done].
  rewrite (ring_run_dump contents cap (OpRecord <$> run_samples NewSampler ticks) Hc Hf); rewrite recorded_records; [done| |].
  - eapply Forall_impl; [by apply (run_samples_ok _ _ NewSampler_ok)|]. by intros ? [].
  - assert (length (run_samples NewSampler ticks) <= length ticks)%nat; [|lia]. generalize NewSampler. clear.
    induction ticks as [|[now w|err] ticks IH]; intros x; cbn [run_samples length]; [done| |].
    + destruct (Sample_ w x now) as [x' out]. cbn [length]. specialize (IH x'). lia.
    + specialize (IH x). lia.
Qed.

(** /proc/interrupts is summed by column: the total of CPU [i] is the sum, modulo 2^64, of
    the numeric entries of column [i] over all the lines after the header, and there is one
    total per counted column. *)
Theorem interrupt_totals_spec header lines text numCPUs :
  scan_lines text = header :: lines ->
  exists totals, parseInterruptTotals text numCPUs = Some totals /\
    length totals = counted header numCPUs /\
    forall i, (i < length totals)%nat -> totals !! i = Some (uint64 (foldr Z.add 0 (column i <$> lines))).
Proof.
  intros E. unfold parseInterruptTotals. rewrite E. eexists. split; [done|].
  set (n := if _ : bool then numCPUs else _). assert (n = counted header numCPUs) as Hn.
  { unfold n, counted. destruct (Nat.ltb_spec 0 numCPUs), (Nat.ltb_spec numCPUs (length (Fields header))),
      (Nat.eqb_spec numCPUs 0); simpl; lia. }
  rewrite add_lines_length, length_replicate. split; [done|]. intros i Hi.
  rewrite (add_lines_lookup _ _ _ 0); [done|done|]. by apply lookup_replicate_2.
Qed.

(** Index [i] means the same logical CPU in every per-CPU array of a sample: with the CPUs
    of /proc/stat in ascending order, entry [i] of the busy percentages, the frequencies, the
    throttle mask and the interrupt deltas all describe CPU [i] of that list, and the
    interrupt count of that CPU is what the next sample's delta starts from. *)
Theorem per_cpu_alignment w x now stat totals :
  fs_Stat w = Some stat ->
  procFile w ["interrupts"] ≫= (fun f => parseInterruptTotals f (length (cpu_ids stat))) = Some totals ->
  let '(x', out) := Sample_ w x now in
  cpuIDs x' = cpu_ids stat /\ StronglySorted Z.le (cpuIDs x') /\ NumCPUs out = Z.of_nat (length (cpuIDs x')) /\
  forall i id, cpuIDs x' !! i = Some id ->
    CPUBusyPct out !! i =
      Some (default 0 (prev ← prevCPU x; if GoTime.is_zero (prevAt x) then None else busy_bits (prev !! id) (CPU stat !! id))) /\
    CPUFreqMHz out !! i = Some (default 0 (cpu_freq w id)) /\
    Z.testbit (ThrottledMask out) (Z.of_nat i) = throttled w (prevThrottle x) id /\
    forall t, totals !! i = Some t ->
      prevInterrupt x' !! id = Some t /\
      InterruptsPerCPU out !! i =
        Some (default 0 (p ← prevInterrupt x !! id; if GoTime.is_zero (prevAt x) then None else Some (deltaUint64 p t))).
Proof.
  intros Hst Htot. unfold Sample_.
  pose proof (fun i id => busy_spec w x stat i id Hst) as Hbusy.
  assert (exists x1 busy, sampleCPU w x = (x1, (wrap_u 16 (Z.of_nat (length (cpu_ids stat))), busy)) /\
    cpuIDs x1 = cpu_ids stat /\ prevAt x1 = prevAt x /\ prevThrottle x1 = prevThrottle x /\ prevInterrupt x1 = prevInterrupt x)
    as (x1 & busy & E1 & Hids & Hat & Hthr & Hirq).
  { unfold sampleCPU. rewrite Hst. by eexists _, _. }
  rewrite E1 in *. pose proof (cpu_ids_length stat) as Hl. pose proof (cpu_ids_NoDup stat) as Hnd.
  pose proof (fun i id => freq_spec w x1 i id ltac:(by rewrite Hids)) as Hfreq. pose proof (freq_keeps w x1) as (K1 & K2 & K3).
  destruct (sampleCPUFreqAndThrottle w x1) as [x2 [freq mask]].
  destruct (sampleSensors w) as [nsens temps]. destruct (sampleMemory w) as [[[[[m1 m2] m3] m4] m5] m6].
  destruct (sampleLoadAndProcs w) as [[l1 l2] l3]. destruct (samplePSI w) as [[[[p1 p2] p3] p4] p5].
  cbn [fst] in K1, K2, K3.
  pose proof (fun i id t => irq_spec w x2 totals i id t ltac:(by rewrite K1, Hids) ltac:(by rewrite K1, Hids) ltac:(by rewrite K1, Hids)) as Hi.
  pose proof (irq_keeps w x2) as K4. destruct (sampleInterrupts w x2) as [x3 irqs]. cbn [fst] in K4.
  pose proof (block_keeps w x3) as [K5 K6]. destruct (sampleBlockDevices w x3) as [x4 [[nblk queue] lat]]. cbn [fst] in K5, K6.
  pose proof (edac_keeps w x4) as [K7 K8]. destruct (sampleEDAC w x4) as [x5 [ce ue]]. cbn [fst] in K7, K8.
  cbn -[Z.testbit default]. rewrite K7, K5, K4, K1, Hids, K8, K6. rewrite K1, Hids, K2, K3, Hat, Hirq in Hi. rewrite Hids, Hthr in Hfreq.
  split_and!; [done|apply cpu_ids_sorted|rewrite wrap_u_small; [done|unfold MaxCPUs in Hl; lia]|].
  intros i id Hid. split; [by apply Hbusy|]. destruct (Hfreq i id Hid) as [H1 H2]. split_and!; [done|done|].
  intros t Ht. by apply Hi.
Qed.

(** EDAC counters are reported as increments: over a whole run the correctable (and the
    uncorrectable) deltas of the samples add up to the positive increments between the
    successive readings, starting from the first sample's reading; a reset counts for
    nothing and a sample without readings is skipped over. *)
Theorem edac_deltas_add_up now w ticks :
  timed (TickSample now w) -> Forall timed ticks ->
  let xs := run_samples NewSampler (TickSample now w :: ticks) in
  sum_Z (EDACCorrectableDelta <$> xs) = increments (default 0 (fst <$> edac_counts w)) (readings fst ticks) /\
  sum_Z (EDACUncorrectableDelta <$> xs) = increments (default 0 (snd <$> edac_counts w)) (readings snd ticks).
Proof.
  intros Hnow Ht. cbn [run_samples]. pose proof (Sample_edac w NewSampler now) as H.
  destruct (Sample_ w NewSampler now) as [x out]. destruct H as [Hat H]. cbn zeta.
  destruct (edac_run x ticks) as [H1 H2]; [by rewrite Hat|done|]. rewrite !fmap_cons. unfold sum_Z in *. cbn [foldr]. rewrite H1, H2.
  destruct (edac_counts w) as [[ce ue]|]; cbn [fmap option_fmap option_map fst snd default]; by destruct H as (-> & -> & -> & ->).
Qed.

(** The busy ratio of two CPU readings is never negative, whatever the counters did: going
    backwards, infinite or not a number included. *)
Theorem busy_ratio_nonneg prev cur ratio : cpuBusyRatio prev cur = Some ratio -> flt ratio f_zero = false.
Proof.
  unfold cpuBusyRatio. destruct (fle _ f_zero) eqn:Hd; [done|]. intros [= <-].
  apply fdiv_nonneg; [|done]. by destruct (flt (fsub _ _) f_zero) eqn:E.
Qed.

(** ** Witnesses *)

Definition cpu_at (user idle iowait : Z) : CPUStat :=
  mkCPUStat (f_of_Z user) f_zero f_zero (f_of_Z idle) (f_of_Z iowait) f_zero f_zero f_zero.

Definition lines_of (ls : list string) : string := foldr (fun l acc => l ++ String newline acc) "" ls.

(** a host with two CPUs, a disk and one memory controller *)
Definition demo_world (user0 irq ce : Z) : World :=
  mkWorld (Some (mkStat {[ 0 := cpu_at user0 1000 0; 1 := cpu_at 0 2000 0 ]} 3 1)) None
    (Some (mkMeminfo (Some 16384000) (Some 8192000) None None None (Some 2000000) (Some 1500000))) (Some (f_of_Z 1))
    (fun path => if decide (path = ["interrupts"]) then
                   Some (lines_of ["  CPU0  CPU1"; "  1: " ++ show irq ++ "  5  IO-APIC  timer"; "ERR: 0"])
                 else if decide (path = ["diskstats"]) then
                   Some (lines_of ["8 0 sda 100 0 2000 50 " ++ show irq ++ " 0 4000 100 7 300 " ++ show (1000 * irq); "7 0 loop0 5 0 10 1 0 0 0 0 0 0 0"])
                 else None)
    (fun path => if decide (path = ["devices"; "system"; "edac"; "mc"; "mc0"; "ce_count"]) then Some (lines_of [show ce])
                 else if decide (path = ["class"; "hwmon"; "hwmon0"; "temp1_input"]) then Some (lines_of ["45000"]) else None)
    (fun path => if decide (path = ["devices"; "system"; "edac"; "mc"]) then Some ["mc0"; "power"]
                 else if decide (path = ["class"; "hwmon"]) then Some ["hwmon0"]
                 else if decide (path = ["class"; "hwmon"; "hwmon0"]) then Some ["name"; "temp1_input"] else None).

Lemma demo_world_ok a b c : world_ok (demo_world a b c).
Proof.
  intros mi [= <-] f Hf. repeat (apply elem_of_cons in Hf as [->|Hf]; [unfold u; simpl; lia|]). by apply elem_of_nil in Hf.
Qed.

Definition demo_ticks : list tick :=
  [TickSample 1000 (demo_world 1000 10 5); TickSync (Some "disk gone"); TickSample 2000 (demo_world 2000 25 8);
   TickSample 3000 (demo_world 2500 20 2)].

Lemma demo_ticks_ok : Forall tick_ok demo_ticks.
Proof. unfold demo_ticks. rewrite !Forall_cons. split_and!; first [apply demo_world_ok|done|constructor]. Qed.

Lemma sampler_type_safe_witness :
  Forall (fun x => no_panic x /\ counts_ok x) (run_samples NewSampler demo_ticks) /\
  length (run_samples NewSampler demo_ticks) = 3%nat.
Proof. split; [apply (sampler_type_safe demo_ticks), demo_ticks_ok|vm_compute; reflexivity]. Defined.

Lemma recording_loop_witness :
  let '(_, r, errs) := Run NewSampler (Open [] 2) demo_ticks in
  Dump (data r) = (lastn 2 (run_samples NewSampler demo_ticks), None) /\ errs = ["disk gone"].
Proof.
  apply (recording_loop [] 2 demo_ticks); [lia|left; unfold headerSize; simpl; lia|apply demo_ticks_ok|simpl; lia].
Defined.

Lemma interrupt_totals_spec_witness :
  exists totals, parseInterruptTotals (lines_of ["CPU0 CPU1"; "1: 25 10 IO-APIC"; "8: 4 1 rtc0"; "ERR: 7"]) 2 = Some totals /\
    length totals = 2%nat /\
    forall i, (i < length totals)%nat ->
      totals !! i = Some (uint64 (foldr Z.add 0 (column i <$> ["1: 25 10 IO-APIC"; "8: 4 1 rtc0"; "ERR: 7"]))).
Proof. apply (interrupt_totals_spec "CPU0 CPU1"). vm_compute. reflexivity. Defined.

Lemma per_cpu_alignment_witness :
  let '(x', out) := Sample_ (demo_world 2000 25 8) (Sample_ (demo_world 1000 10 5) NewSampler 1000).1 2000 in
  CPUFreqMHz out !! 1%nat = Some 0 /\ InterruptsPerCPU out !! 0%nat = Some 15.
Proof.
  pose proof (per_cpu_alignment (demo_world 2000 25 8) (Sample_ (demo_world 1000 10 5) NewSampler 1000).1 2000
    (mkStat {[ 0 := cpu_at 2000 1000 0; 1 := cpu_at 0 2000 0 ]} 3 1) [25; 5] eq_refl ltac:(vm_compute; reflexivity)) as H.
  destruct (Sample_ _ _ 2000) as [x' out]. destruct H as (Hids & _ & _ & H). rewrite Hids in H.
  destruct (H 1%nat 1 ltac:(vm_compute; reflexivity)) as (_ & Hf & _).
  destruct (H 0%nat 0 ltac:(vm_compute; reflexivity)) as (_ & _ & _ & Hirq).
  destruct (Hirq 25 eq_refl) as [_ Hirq']. split; [rewrite Hf; vm_compute; reflexivity|rewrite Hirq'; vm_compute; reflexivity].
Defined.

Lemma edac_deltas_add_up_witness :
  sum_Z (EDACCorrectableDelta <$> run_samples NewSampler demo_ticks) = 3.
Proof.
  etransitivity; [apply (proj1 (edac_deltas_add_up 1000 (demo_world 1000 10 5) (tail demo_ticks) eq_refl ltac:(by repeat constructor)))|].
  vm_compute. reflexivity.
Defined.

Lemma busy_ratio_nonneg_witness :
  flt (default f_nan (cpuBusyRatio (cpu_at 1000 1000 0) (cpu_at 2000 1500 0))) f_zero = false.
Proof.
  apply (busy_ratio_nonneg (cpu_at 1000 1000 0) (cpu_at 2000 1500 0)). vm_compute. reflexivity.
Defined.

(** ** What the code does not guard against *)

(** iowait may decrease: the ratio is then above one *)
Example busy_ratio_above_one :
  match cpuBusyRatio (cpu_at 0 1000 500) (cpu_at 1000 1000 0) with
  | Some r => flt (f_of_Z 1) r
  | None => false
  end = true.
Proof. vm_compute. reflexivity. Qed.

(** a controller whose counter can be read only from the second sample on has its whole
    history reported as new errors *)
Example edac_late_controller :
  let absent := mkWorld None None None None (fun _ => None) (fun _ => None) (fun _ => None) in
  EDACCorrectableDelta <$> run_samples NewSampler [TickSample 1000 absent; TickSample 2000 (demo_world 0 0 4000)] = [0; 4000].
Proof. vm_compute. reflexivity. Qed.

End Samplers.
