(* ===== verification/RingSync.v ===== *)
(** * RingSync: the black box across a loss of power

    Models Sync and Close of internal/blackbox/recorder.go, and what the recording loop of
    run.go leaves on the disk when the machine stops. The recorder writes to a mapped file:
    a sample is in memory at once, and on the disk when the kernel gets to it, at the latest
    when Sync returns. [Blackbox] and [Samplers] follow the mapped memory, which a dead agent
    leaves behind whole; here the disk is a choice, byte by byte, among the contents the
    mapping has had since the last Sync. *)

From stdpp Require Import base gmap strings list numbers.
From Stdlib Require Import ZArith Lia.
From S2P Require Import Prelude GoStd Blackbox Samplers.
Import Blackbox Samplers.

Local Open Scope Z_scope.

Module RingSync.

(** The recorder and the contents of the mapping since the last Sync that returned without
    an error, newest first. *)
Record Mapped := mkMapped { rec : Recorder; images : list (list Z) }.

(** [ok]: whether msync succeeds; when it does, the disk has the present contents. *)
Definition Sync (ok : bool) (m : Mapped) : bool * Mapped :=
  if ok then (true, mkMapped (rec m) [data (rec m)]) else (false, m).

Inductive CloseError : Set := ErrMsync | ErrMunmap | ErrCloseFile.

(** the three calls are made whatever the ones before them return *)
Definition Close (sync_ok unmap_ok close_ok : bool) (m : Mapped) : option CloseError * list (list Z) :=
  let '(synced, m) := Sync sync_ok m in
  (if negb synced then Some ErrMsync else if negb unmap_ok then Some ErrMunmap else if negb close_ok then Some ErrCloseFile else None,
   images m).

Definition record (x : Sample) (m : Mapped) : Mapped :=
  let r := Record_ (rec m) x in mkMapped r (data r :: images m).

(** A tick of the loop of run.go, which discards the result of a Sync but for its report. *)
Definition on_tick_mapped (st : Sampler * Mapped) (t : tick) : Sampler * Mapped :=
  let '(s, m) := st in
  match t with
  | TickSample now w => let '(s, x) := Sample_ w s now in (s, record x m)
  | TickSync err => (s, (Sync (bool_decide (err = None)) m).2)
  end.

Definition run_mapped (contents : list Z) (cap : Z) (ticks : list tick) : Mapped :=
  (fold_left on_tick_mapped ticks (NewSampler, mkMapped (Open contents cap) [data (Open contents cap)])).2.

(** What the disk may hold after the power is lost: each byte is from one of the contents of
    the mapping since the last Sync, whatever pages or sectors are written together; the
    header, which lies within one sector, is from a single one. *)
Record survives (vs : list (list Z)) (disk : list Z) : Prop := mkSurvives {
  sv_header : exists v, v ∈ vs /\ slice 0 headerSize disk = slice 0 headerSize v;
  sv_byte : forall k, exists v, v ∈ vs /\ disk !! k = v !! k;
}.

(** ** Dump of any file of the right size *)

Definition slot_sample (raw : list Z) (slot : Z) : Sample := read_sample (slice (record_offset slot) sampleEncodedSize raw).

Definition layout (raw : list Z) (h : header) : Prop :=
  0 < h_Capacity h < 2 ^ 32 /\ h_SampleSize h = Z.of_nat sampleEncodedSize /\ length raw = file_size (h_Capacity h).

Lemma dump_loop_slots raw h start :
  layout raw h -> 0 <= start < h_Capacity h ->
  forall n i acc, Z.of_nat (i + n) <= h_Capacity h ->
  dump_loop raw h start (Z.of_nat i) n acc =
    (acc ++ ((fun t => slot_sample raw ((start + Z.of_nat t) mod h_Capacity h)) <$> seq i n), None).
Proof.
  intros (Hc & Hs & Hl) Hst. induction n as [|n IH]; intros i acc Hn.
  - cbn. by rewrite app_nil_r.
  - cbn [dump_loop seq]. destruct (Z.eqb_spec (h_Capacity h) 0); [lia|].
    assert (uint64 (start + Z.of_nat i) = start + Z.of_nat i) as -> by (apply wrap_u_small; lia).
    set (slot := (start + Z.of_nat i) mod h_Capacity h). rewrite Hs, Nat2Z.id.
    assert (0 <= slot < h_Capacity h) as Hsb by (apply Z.mod_pos_bound; lia).
    destruct (slot_bounds _ _ Hsb) as [_ Hb]. rewrite <- Hl in Hb. fold (record_offset slot).
    destruct (Nat.ltb_spec (length raw) (record_offset slot + sampleEncodedSize)); [lia|].
    fold (slice (record_offset slot) sampleEncodedSize raw). unfold decodeSample.
    assert (length (slice (record_offset slot) sampleEncodedSize raw) = sampleEncodedSize) as ->
      by (unfold slice; rewrite length_take, length_drop; lia).
    rewrite Nat.eqb_refl. cbn [negb]. replace (Z.of_nat i + 1) with (Z.of_nat (S i)) by lia.
    rewrite IH by lia. by rewrite <- app_assoc.
Qed.

(** the slot of the oldest sample, by the count of samples ever written *)
Definition oldest (cap n : Z) : Z := if cap <? n then n mod cap else 0.

Lemma dump_slots raw h :
  layout raw h -> 0 <= h_WriteIndex h -> decodeHeader raw = Ok h ->
  Dump raw = ((fun t => slot_sample raw ((oldest (h_Capacity h) (h_WriteIndex h) + Z.of_nat t) mod h_Capacity h)) <$>
    seq 0 (Z.to_nat (Z.min (h_Capacity h) (h_WriteIndex h))), None).
Proof.
  intros Hlay Hi Hd. pose proof Hlay as (Hc & _ & _). unfold Dump. rewrite Hd.
  destruct (Z.eqb_spec (h_Capacity h) 0); [lia|]. rewrite andb_false_r. fold (oldest (h_Capacity h) (h_WriteIndex h)).
  set (w := if _ : bool then _ else _). assert (w = Z.min (h_Capacity h) (h_WriteIndex h)) as ->
    by (unfold w; destruct (Z.ltb_spec (h_Capacity h) (h_WriteIndex h)); lia).
  change 0 with (Z.of_nat 0). rewrite (dump_loop_slots raw h); [done|done| |lia].
  unfold oldest. destruct (Z.ltb_spec (h_Capacity h) (h_WriteIndex h)); [apply Z.mod_pos_bound|]; lia.
Qed.

(** ** What a loss of power leaves *)

(** [m] has recorded [xs], the first [n0] of them before the last Sync. *)
Record since (n0 : nat) (m : Mapped) (xs : list Sample) : Prop := mkSince {
  sc_ring : ring_ok (rec m) xs;
  sc_synced : (n0 <= length xs)%nat;
  sc_images : forall v, v ∈ images m -> exists r n, v = data r /\ (n0 <= n <= length xs)%nat /\
    ring_ok r (take n xs) /\ capacity r = capacity (rec m);
}.

Lemma since_record n0 m xs x :
  since n0 m xs -> sample_ok x -> Z.of_nat (length xs) + 1 < 2 ^ 64 -> since n0 (record x m) (xs ++ [x]).
Proof.
  intros [R Hn Hi] Hx Hb. pose proof (ring_record _ _ _ R Hx Hb) as R'. constructor; [done|rewrite length_app; lia|].
  intros v [->|Hv]%elem_of_cons.
  - exists (Record_ (rec m) x), (length (xs ++ [x])). split_and!; [done|rewrite length_app; lia|done| |done]. by rewrite take_ge.
  - destruct (Hi v Hv) as (r & n & -> & Hr & Hk & Hc). exists r, n. split_and!; [done|lia|rewrite length_app; lia| |done].
    rewrite take_app_le by lia. done.
Qed.

Lemma since_sync n0 ok m xs : since n0 m xs -> since (if ok : bool then length xs else n0) (Sync ok m).2 xs.
Proof.
  intros S. destruct ok; [|done]. destruct S as [R Hn Hi]. constructor; [done|done|].
  intros v ->%list_elem_of_singleton. exists (rec m), (length xs). split_and!; try done. by rewrite firstn_all.
Qed.

(** a slot that no sample since the Sync was written to *)
Lemma slot_survives n0 m xs disk i x :
  since n0 m xs -> survives (images m) disk -> xs !! i = Some x -> (i < n0)%nat ->
  Z.of_nat (length xs) - capacity (rec m) <= Z.of_nat i ->
  slice (record_offset (Z.of_nat i mod capacity (rec m))) sampleEncodedSize disk = encodeSample x.
Proof.
  intros S Hd Hx Hi Hw. apply list_eq. intros k. rewrite slice_lookup.
  assert (sample_ok x) as Hok by (pose proof (rg_samples _ _ (sc_ring _ _ _ S)) as Ho; rewrite Forall_lookup in Ho; by eapply Ho).
  case_decide as Hk; [|symmetry; apply lookup_ge_None; rewrite encodeSample_length by done; lia].
  destruct (sv_byte _ _ Hd (record_offset (Z.of_nat i mod capacity (rec m)) + k)%nat) as (v & Hv & ->).
  destruct (sc_images _ _ _ S v Hv) as (r & n & -> & Hn & R & Hc).
  rewrite <- (rg_slots _ _ R i x); [by rewrite slice_lookup, Hc, decide_True by done| |].
  - rewrite lookup_take_lt by lia. done.
  - rewrite Hc, length_take. lia.
Qed.

Lemma survives_length n0 m xs disk : since n0 m xs -> survives (images m) disk -> length disk = file_size (capacity (rec m)).
Proof.
  intros S Hd. assert (forall k, is_Some (disk !! k) <-> (k < file_size (capacity (rec m)))%nat) as H.
  { intros k. destruct (sv_byte _ _ Hd k) as (v & Hv & ->). destruct (sc_images _ _ _ S v Hv) as (r & n & -> & Hn & R & <-).
    rewrite lookup_lt_is_Some. by rewrite (rg_size _ _ R). }
  setoid_rewrite lookup_lt_is_Some in H. pose proof (H (length disk)). pose proof (H (file_size (capacity (rec m)))). lia.
Qed.

(** the header on the disk is that of some moment since the Sync *)
Lemma header_survives n0 m xs disk :
  since n0 m xs -> survives (images m) disk ->
  exists h n, decodeHeader disk = Ok h /\ layout disk h /\ h_Capacity h = capacity (rec m) /\
    h_WriteIndex h = Z.of_nat n /\ (n0 <= n <= length xs)%nat.
Proof.
  intros S Hd. pose proof (survives_length _ _ _ _ S Hd) as Hl. destruct (sv_header _ _ Hd) as (v & Hv & Hh).
  destruct (sc_images _ _ _ S v Hv) as (r & n & -> & Hn & R & Hc). exists (the_header r), n.
  rewrite (rg_head _ _ R) in Hh. assert (disk = encodeHeader (the_header r) ++ drop headerSize disk) as Ed.
  { rewrite <- Hh. unfold slice. by rewrite drop_0, take_drop. }
  split_and!; [rewrite Ed; by eapply decode_encode_header, the_header_ok| |done| |lia|lia].
  - split_and!; [by apply (rg_cap _ _ R)|apply (rg_cap _ _ R)|done|]. cbn. by rewrite Hc.
  - cbn. rewrite (proj1 (rg_index _ _ R)), length_take. lia.
Qed.

Lemma survives_dump n0 m xs disk :
  since n0 m xs -> survives (images m) disk ->
  let capn := Z.to_nat (capacity (rec m)) in
  exists out n, Dump disk = (out, None) /\ (n0 <= n <= length xs)%nat /\ length out = (capn `min` n)%nat /\
    forall i x, xs !! i = Some x -> (i < n0)%nat -> (length xs <= i + capn)%nat -> out !! (i - (n - capn))%nat = Some x.
Proof.
  intros S Hd capn. destruct (header_survives _ _ _ _ S Hd) as (h & n & Hdec & Hlay & Hc & Hi & Hn).
  pose proof (rg_cap _ _ (sc_ring _ _ _ S)) as Hcap.
  eexists _, n. split; [apply (dump_slots _ h); [done|lia|done]|]. rewrite Hc, Hi, length_fmap, length_seq. split_and!; [lia|lia|lia|].
  intros i x Hx Hlt Hw. rewrite list_lookup_fmap, lookup_seq_lt by lia. cbn [fmap option_fmap option_map Nat.add].
  f_equal. unfold slot_sample.
  assert ((oldest (capacity (rec m)) (Z.of_nat n) + Z.of_nat (i - (n - capn))) mod capacity (rec m) = Z.of_nat i mod capacity (rec m)) as ->.
  { unfold oldest. destruct (Z.ltb_spec (capacity (rec m)) (Z.of_nat n)).
    - rewrite Zplus_mod_idemp_l, <- (Z_mod_plus_full (Z.of_nat i) 1 (capacity (rec m))). f_equal. lia.
    - f_equal. lia. }
  rewrite (slot_survives n0 m xs disk i x S Hd Hx Hlt) by lia. apply read_encode.
  pose proof (rg_samples _ _ (sc_ring _ _ _ S)) as Ho. rewrite Forall_lookup in Ho. by eapply Ho.
Qed.

(** ** The loop *)

Lemma since_weaken n0 n1 m xs : (n0 <= n1)%nat -> since n1 m xs -> since n0 m xs.
Proof.
  intros Hle [R Hn Hi]. constructor; [done|lia|]. intros v Hv. destruct (Hi v Hv) as (r & n & -> & Hr & Hk & Hc).
  exists r, n. split_and!; try done; lia.
Qed.

Lemma since_open contents cap :
  0 <= cap < 2 ^ 32 -> foreign contents (effective_capacity cap) ->
  since 0 (mkMapped (Open contents cap) [data (Open contents cap)]) [].
Proof.
  intros Hc Hf. pose proof (ring_fresh _ _ Hc Hf) as R. constructor; [done|done|].
  intros v ->%list_elem_of_singleton. by exists (Open contents cap), 0%nat.
Qed.

Lemma capacity_open contents cap : capacity (Open contents cap) = effective_capacity cap.
Proof. unfold Open. fold (effective_capacity cap). by destruct (prepareFile _ _ _). Qed.

Lemma ticks_since ticks x m n0 xs :
  since n0 m xs -> sampler_ok x -> Forall tick_ok ticks -> Z.of_nat (length xs + length ticks) < 2 ^ 64 ->
  let '(x', m') := fold_left on_tick_mapped ticks (x, m) in
  since n0 m' (xs ++ run_samples x ticks) /\ sampler_ok x' /\ capacity (rec m') = capacity (rec m) /\
  (length (run_samples x ticks) <= length ticks)%nat /\
  forall rest, run_samples x (ticks ++ rest) = run_samples x ticks ++ run_samples x' rest.
Proof.
  intros S Hx Ht. revert x m xs S Hx. induction Ht as [|[now w|err] ticks Hw Ht IH]; intros x m xs S Hx Hn; cbn [fold_left run_samples length] in *.
  - rewrite app_nil_r. by split_and!.
  - unfold on_tick_mapped at 2. pose proof (Sample_ok w x now Hw Hx) as Hs. destruct (Sample_ w x now) as [x' out] eqn:Es.
    destruct Hs as (Hx' & Ho & _ & _). specialize (IH x' (record out m) (xs ++ [out])). rewrite length_app in IH. cbn [length] in IH.
    specialize (IH (since_record _ _ _ _ S Ho ltac:(lia)) Hx' ltac:(lia)). destruct (fold_left _ _ _) as [x2 m2].
    destruct IH as (S2 & Hx2 & Hc2 & Hl2 & Hr2). rewrite <- app_assoc in S2. split_and!; [done|done|done|cbn [length]; lia|].
    intros rest. cbn [app run_samples]. rewrite Es, Hr2. done.
  - unfold on_tick_mapped at 2. specialize (IH x (Sync (bool_decide (err = None)) m).2 xs).
    destruct (fold_left on_tick_mapped ticks _) as [x2 m2]. destruct IH as (S2 & Hx2 & Hc2 & Hl2 & Hr2).
    { apply (since_weaken _ (if bool_decide (err = None) then length xs else n0)); [|by apply since_sync].
      pose proof (sc_synced _ _ _ S). by destruct (bool_decide _). }
    { done. }
    { lia. }
    split_and!; [done|done| |lia|done]. rewrite Hc2. unfold Sync. by destruct (bool_decide _).
Qed.

(** C15: Losing power costs the black box the samples since the last Sync and as many of the
    oldest, and nothing else. After any sample and sync ticks, whatever part of the writes
    since the last successful Sync had reached the disk, byte by byte: Dump reads the file
    without an error and gives as many samples as the ring held at some moment since that
    Sync; every sample recorded before the Sync that the ring had not reached again is
    there, whole, at its place in the order. *)
Theorem power_loss_bound contents cap before after disk :
  0 <= cap < 2 ^ 32 -> foreign contents (effective_capacity cap) ->
  Forall tick_ok (before ++ after) -> Z.of_nat (length (before ++ after)) < 2 ^ 64 ->
  survives (images (run_mapped contents cap (before ++ TickSync None :: after))) disk ->
  let capn := Z.to_nat (effective_capacity cap) in
  let synced := run_samples NewSampler before in
  let all := run_samples NewSampler (before ++ after) in
  exists out n, Dump disk = (out, None) /\ (length synced <= n <= length all)%nat /\ length out = (capn `min` n)%nat /\
    forall i x, synced !! i = Some x -> (length all <= i + capn)%nat -> out !! (i - (n - capn))%nat = Some x.
Proof.
  intros Hc Hf [Hb Ha]%Forall_app Hn Hd capn synced all. rewrite length_app in Hn. unfold run_mapped in Hd.
  rewrite fold_left_app in Hd. cbn [fold_left] in Hd.
  pose proof (ticks_since before NewSampler _ _ _ (since_open contents cap Hc Hf) NewSampler_ok Hb) as H.
  cbn [length Nat.add] in H. specialize (H ltac:(lia)). destruct (fold_left _ before _) as [x1 m1].
  destruct H as (S1 & Hx1 & Hc1 & Hl1 & Hr1). cbn [app on_tick_mapped] in Hd, S1. fold synced in S1, Hl1.
  pose proof (ticks_since after x1 _ _ _ (since_sync _ true _ _ S1) Hx1 Ha) as H. specialize (H ltac:(lia)).
  change (bool_decide (None = None)) with true in Hd. destruct (fold_left _ after _) as [x2 m2].
  destruct H as (S2 & _ & Hc2 & _ & _). cbn [Sync snd rec] in Hc2. cbn [snd] in Hd.
  unfold all in *. rewrite Hr1. fold synced. assert (capacity (rec m2) = effective_capacity cap) as Hcap.
  { rewrite Hc2, Hc1. apply capacity_open. }
  destruct (survives_dump _ _ _ _ S2 Hd) as (out & n & H1 & H2 & H3 & H4). rewrite Hcap in *. exists out, n. split_and!; try done; try lia.
  intros i x Hi Hw. pose proof (lookup_lt_Some _ _ _ Hi). apply H4; [by rewrite lookup_app_l by done|done|done].
Qed.

(** ** Examples: an old header over new slots, and a torn record *)

(** the disk when [k] bytes are still those of the Sync and the rest is up to date *)
Definition partly_written (k : nat) (vs : list (list Z)) : list Z :=
  take k (default [] (vs !! pred (length vs))) ++ drop k (default [] (vs !! 0%nat)).

Definition wide (k : nat) (vs : list (list Z)) : bool :=
  negb (bool_decide (vs = [])) && forallb (fun v => (k <=? length v)%nat) vs.

Lemma partly_written_survives k vs : (headerSize <= k)%nat -> wide k vs = true -> survives vs (partly_written k vs).
Proof.
  intros Hk [Hne Hw]%andb_true_iff. rewrite forallb_forall in Hw. unfold partly_written.
  destruct vs as [|v0 vs]; [done|]. destruct (lookup_lt_is_Some_2 (v0 :: vs) (pred (length (v0 :: vs)))) as [v1 El]; [cbn; lia|].
  rewrite El. cbn [lookup list_lookup default from_option id]. apply list_elem_of_lookup_2 in El as Hin.
  assert (k <= length v1)%nat as Hl by (apply Nat.leb_le, Hw, list_elem_of_In, Hin).
  assert (k <= length v0)%nat as Hl0 by (apply Nat.leb_le, Hw; by left).
  constructor.
  - exists v1. split; [done|]. unfold slice. rewrite !drop_0, take_app_le by (rewrite length_take; lia). by rewrite take_take, Nat.min_l.
  - intros i. destruct (decide (i < k)%nat).
    + exists v1. split; [done|]. rewrite lookup_app_l by (rewrite length_take; lia). by rewrite lookup_take_lt.
    + exists v0. split; [by left|]. rewrite lookup_app_r, length_take, lookup_drop by (rewrite length_take; lia). f_equal. lia.
Qed.

(** Two samples, a Sync and a third one, in a ring of two slots. *)
Definition third (ts : Z) : Mapped :=
  record (sample_at ts) (Sync true (record (sample_at 2) (record (sample_at 1) (mkMapped (Open [] 2) [])))).2.

(** The third sample has reached the disk and the header has not: Dump gives it as the
    oldest one, and the oldest sample of the Sync is gone. *)
Example new_sample_reads_as_oldest :
  survives (images (third 3)) (partly_written headerSize (images (third 3))) /\
  Dump (partly_written headerSize (images (third 3))) = ([sample_at 3; sample_at 2], None).
Proof. split; [apply partly_written_survives; [done|]; vm_compute; done|vm_compute; done]. Qed.

(** Only part of the third sample has reached the disk: Dump gives one that was never taken. *)
Example torn_sample_is_dumped :
  survives (images (third 256)) (partly_written (S headerSize) (images (third 256))) /\
  Dump (partly_written (S headerSize) (images (third 256))) = ([sample_at 257; sample_at 2], None).
Proof. split; [apply partly_written_survives; [unfold headerSize; lia|]; vm_compute; done|vm_compute; done]. Qed.

Definition demo_before : list tick := take 3 demo_ticks.
Definition demo_after : list tick := drop 3 demo_ticks.
Definition demo_disk : list Z := partly_written headerSize (images (run_mapped [] 2 (demo_before ++ TickSync None :: demo_after))).

Lemma power_loss_bound_witness :
  exists out n x, Dump demo_disk = (out, None) /\ (2 <= n <= 3)%nat /\
    run_samples NewSampler demo_before !! 1%nat = Some x /\ out !! (1 - (n - 2))%nat = Some x.
Proof.
  destruct (power_loss_bound [] 2 demo_before demo_after demo_disk) as (out & n & Hd & Hn & _ & Hx).
  - lia.
  - left. unfold headerSize. simpl. lia.
  - apply demo_ticks_ok.
  - simpl. lia.
  - apply partly_written_survives; [done|vm_compute; reflexivity].
  - assert (length (run_samples NewSampler demo_before) = 2%nat) as E2 by (vm_compute; reflexivity).
    assert (length (run_samples NewSampler (demo_before ++ demo_after)) = 3%nat) as E3 by (vm_compute; reflexivity).
    rewrite E2, E3 in *. destruct (lookup_lt_is_Some_2 (run_samples NewSampler demo_before) 1) as [x Hi]; [rewrite E2; lia|].
    exists out, n, x. split_and!; [done|lia|lia|done|]. apply Hx; [done|cbn; lia].
Defined.

End RingSync.
