(* ===== verification/AtomicFile.v ===== *)
(** * AtomicFile: replacing a file through a temporary one

    The idiom persistHostID (internal/schema/hostid.go), WriteAtomic
    (internal/spool/spool.go), persistCursor (internal/collector/journald) and writeAtomic
    (internal/logstore/logstore.go) share: create
    a temporary file in the directory, write, fsync, close, rename over the destination,
    removing the temporary file on an error (persistCursor leaves it when the rename fails).

    A file is its bytes and how many of them have reached the disk. Every system call asks
    the fault schedule for its outcome: success, an error (after [k] bytes, for a write), or
    a crash of the machine, with the call's effect done or not; a crash keeps of each file at
    least what was synced, and of the rest as much as it likes. Creation, removal and rename
    are durable when they return. That is an assumption on the file system: none of the
    callers syncs the directory, without which fsync(2) does not promise it. *)

From stdpp Require Import base gmap strings list.
From Stdlib Require Import ZArith Lia Ascii.
From S2P Require Import Prelude GoStd.
Import GoString.

Local Open Scope string_scope.

Module AtomicFile.

Record file := mkFile { bytes : string; synced : nat }.

Abbreviation Disk := (gmap string file) (only parsing).

Inductive fault : Type :=
| IoOk
| IoFail (k : nat)
| IoCrash (did : bool) (keep : string -> nat).

Inductive outcome (A : Type) : Type :=
| Ret (a : A)
| Fail (op : string)
| Crashed.
Arguments Ret {A} a.
Arguments Fail {A} op.
Arguments Crashed {A}.

Definition M (A : Type) : Type := Disk * list fault -> outcome A * (Disk * list fault).

Global Instance M_ret : MRet M := fun A a st => (Ret a, st).
Global Instance M_bind : MBind M := fun A B f m st =>
  match m st with
  | (Ret a, st') => f a st'
  | (Fail op, st') => (Fail op, st')
  | (Crashed, st') => (Crashed, st')
  end.

Definition fail {A} (op : string) : M A := fun st => (Fail op, st).

(** what a crash leaves of a file *)
Definition lose (n : nat) (f : file) : file :=
  let b := str_take (Nat.max (synced f) n) (bytes f) in mkFile b (String.length b).
Definition crash (keep : string -> nat) (d : Disk) : Disk := map_imap (fun name f => Some (lose (keep name) f)) d.

(** a system call: its effect, and its effect up to an error *)
Definition sys (op : string) (effect : Disk -> Disk) (partial : nat -> Disk -> Disk) : M unit := fun st =>
  let '(d, faults) := st in
  match faults with
  | [] | IoOk :: _ => (Ret tt, (effect d, tail faults))
  | IoFail k :: rest => (Fail op, (partial k d, rest))
  | IoCrash did keep :: rest => (Crashed, (crash keep (if did then effect d else d), rest))
  end.

Definition unchanged : nat -> Disk -> Disk := fun _ d => d.

Definition append_to (name contents : string) (d : Disk) : Disk :=
  alter (fun f => mkFile (bytes f ++ contents) (synced f)) name d.

Definition MkdirAll : M unit := sys "mkdir" id unchanged.
Definition CreateTemp (tmp : string) : M unit := sys "create" (insert tmp (mkFile "" 0)) unchanged.
Definition Write (tmp contents : string) : M unit :=
  sys "write" (append_to tmp contents) (fun k => append_to tmp (str_take k contents)).
Definition Sync (tmp : string) : M unit :=
  sys "fsync" (alter (fun f => mkFile (bytes f) (String.length (bytes f))) tmp) unchanged.
Definition CloseFile : M unit := sys "close" id unchanged.
Definition Remove (tmp : string) : M unit := sys "remove" (delete tmp) unchanged.
Definition Rename (tmp dest : string) : M unit :=
  sys "rename" (fun d => match d !! tmp with Some f => <[dest := f]> (delete tmp d) | None => d end) unchanged.

(** a call whose error is dropped, and a call that cleans up before returning its error *)
Definition ignore (m : M unit) : M unit := fun st =>
  match m st with
  | (Fail _, st') => (Ret tt, st')
  | r => r
  end.
Definition on_error (m cleanup : M unit) : M unit := fun st =>
  match m st with
  | (Fail op, st') => match cleanup st' with
                      | (Crashed, st'') => (Crashed, st'')
                      | (_, st'') => (Fail op, st'')
                      end
  | r => r
  end.

Definition write_temp (tmp contents : string) (last : M unit) : M unit :=
  _ ← CreateTemp tmp;
  _ ← on_error (Write tmp contents) (_ ← ignore CloseFile; ignore (Remove tmp));
  _ ← on_error (Sync tmp) (_ ← ignore CloseFile; ignore (Remove tmp));
  _ ← on_error CloseFile (ignore (Remove tmp));
  last.

Definition write_then (tmp contents : string) (last : M unit) : M unit :=
  _ ← MkdirAll; write_temp tmp contents last.

Definition write_atomic (tmp dest contents : string) : M unit :=
  write_then tmp contents (on_error (Rename tmp dest) (ignore (Remove tmp))).

(** ** What survives *)

Definition whole (contents : string) : file := mkFile contents (String.length contents).
Definition is_whole (f : file) : Prop := synced f = String.length (bytes f).

Lemma lose_whole n f : is_whole f -> lose n f = f.
Proof. destruct f as [b k]. unfold is_whole. cbn. intros ->. unfold lose. cbn. by rewrite str_take_all by lia. Qed.

Lemma crash_lookup keep d name : crash keep d !! name = lose (keep name) <$> d !! name.
Proof. unfold crash. rewrite map_lookup_imap. by destruct (d !! name). Qed.

(** Some files are watched: all but the temporary file, and all durable at the start. *)
Section atomic.
Context (watch : string -> Prop) (tmp dest contents : string) (d0 : gmap string file).
Hypothesis Htmp : ~ watch tmp.
Hypothesis Hdur : forall name f, watch name -> d0 !! name = Some f -> is_whole f.

Definition same (d : gmap string file) : Prop := forall name, watch name -> d !! name = d0 !! name.
Definition replaced (d : gmap string file) : Prop :=
  forall name, watch name -> d !! name = <[dest := whole contents]> d0 !! name.

Lemma watch_ne name : watch name -> tmp <> name.
Proof. by intros Hw ->. Qed.

Lemma same_insert f d : same d -> same (<[tmp := f]> d).
Proof. intros Hd name Hw. rewrite lookup_insert_ne by by apply watch_ne. by apply Hd. Qed.

Lemma same_alter g d : same d -> same (alter g tmp d).
Proof. intros Hd name Hw. rewrite lookup_alter_ne by by apply watch_ne. by apply Hd. Qed.

Lemma same_delete d : same d -> same (delete tmp d).
Proof. intros Hd name Hw. rewrite lookup_delete_ne by by apply watch_ne. by apply Hd. Qed.

Lemma same_crash keep d : same d -> same (crash keep d).
Proof.
  intros Hd name Hw. rewrite crash_lookup, Hd by done. destruct (d0 !! name) as [f|] eqn:E; [|done].
  cbn. f_equal. by apply lose_whole, (Hdur name).
Qed.

Lemma replaced_crash keep d : replaced d -> replaced (crash keep d).
Proof.
  intros Hd name Hw. rewrite crash_lookup, Hd by done. destruct (<[dest := whole contents]> d0 !! name) as [f|] eqn:E; [|done].
  cbn. f_equal. apply lose_whole. apply lookup_insert_Some in E as [[_ <-]|[_ E]]; [done|by apply (Hdur name)].
Qed.

(** a call that touches the temporary file only *)
Definition harmless (m : M unit) : Prop := forall d fl, same d -> same (m (d, fl)).2.1.

Lemma harmless_sys op effect partial :
  (forall d, same d -> same (effect d)) -> (forall k d, same d -> same (partial k d)) -> harmless (sys op effect partial).
Proof.
  intros He Hp d fl Hd. destruct fl as [|[|k|did keep] fl]; cbn; [by apply He|by apply He|by apply Hp|].
  apply same_crash. destruct did; [by apply He|done].
Qed.

Lemma harmless_bind m1 m2 : harmless m1 -> harmless m2 -> harmless (_ ← m1; m2).
Proof.
  intros H1 H2 d fl Hd. specialize (H1 d fl Hd). unfold mbind, M_bind. destruct (m1 (d, fl)) as [[a|op|] [d' fl']]; cbn in *; [by apply H2|done|done].
Qed.

Lemma harmless_ignore m : harmless m -> harmless (ignore m).
Proof. intros H d fl Hd. specialize (H d fl Hd). unfold ignore. by destruct (m (d, fl)) as [[a|op|] [d' fl']]. Qed.

Lemma harmless_cleanup : harmless (ignore (Remove tmp)) /\ harmless (_ ← ignore CloseFile; ignore (Remove tmp)).
Proof.
  assert (harmless (ignore (Remove tmp))) as H1.
  { apply harmless_ignore, harmless_sys; [apply same_delete|done]. }
  split; [done|]. apply harmless_bind; [|done]. by apply harmless_ignore, harmless_sys.
Qed.

(** a step on the temporary file, with its state when it succeeds *)
Definition step (P : gmap string file -> Prop) (m : M unit) (Q : gmap string file -> Prop) : Prop :=
  forall d fl, P d -> let '(o, (d', _)) := m (d, fl) in match o with Ret _ => Q d' | _ => same d' end.

Lemma step_bind P Q m1 (m2 : M unit) (R : outcome unit -> gmap string file -> Prop) :
  step P m1 Q ->
  (forall d fl, Q d -> let '(o, (d', _)) := m2 (d, fl) in R o d') ->
  (forall op d, same d -> R (Fail op) d) -> (forall d, same d -> R Crashed d) ->
  forall d fl, P d -> let '(o, (d', _)) := (_ ← m1; m2) (d, fl) in R o d'.
Proof.
  intros H1 H2 HF HC d fl Hd. specialize (H1 d fl Hd). unfold mbind, M_bind.
  destruct (m1 (d, fl)) as [[[]|op|] [d' fl']]; [by apply H2|by apply HF|by apply HC].
Qed.

Lemma step_sys P Q op effect partial :
  (forall d, P d -> same d) -> (forall d, P d -> Q (effect d)) -> (forall d, Q d -> same d) -> (forall k d, P d -> same (partial k d)) ->
  step P (sys op effect partial) Q.
Proof.
  intros HP He HQ Hp d fl Hd. destruct fl as [|[|k|did keep] fl]; cbn; [by apply He|by apply He|by apply Hp|].
  apply same_crash. destruct did; [by apply HQ, He|by apply HP].
Qed.

Lemma step_on_error P Q m cleanup : step P m Q -> harmless cleanup -> step P (on_error m cleanup) Q.
Proof.
  intros H Hc d fl Hd. specialize (H d fl Hd). unfold on_error. destruct (m (d, fl)) as [[[]|op|] [d' fl']]; [done| |done].
  specialize (Hc d' fl' H). by destruct (cleanup (d', fl')) as [[a|op'|] [d'' fl'']].
Qed.

Definition holds (f : file) (d : gmap string file) : Prop := d !! tmp = Some f /\ same d.

Lemma holds_same f d : holds f d -> same d.
Proof. by intros []. Qed.

Lemma holds_alter g f d : holds f d -> holds (g f) (alter g tmp d).
Proof. intros [Ht Hs]. split; [by rewrite lookup_alter_eq, Ht|by apply same_alter]. Qed.

(** the rename is the only step that changes anything under another name *)
Definition installs (m : M unit) : Prop := forall d fl,
  holds (whole contents) d ->
  let '(o, (d', _)) := m (d, fl) in
  match o with Ret _ => replaced d' | Fail _ => same d' | Crashed => same d' \/ replaced d' end.

Lemma rename_installs : installs (Rename tmp dest).
Proof.
  intros d fl [Ht Hs].
  assert (replaced (match d !! tmp with Some f => <[dest := f]> (delete tmp d) | None => d end)) as Hr.
  { rewrite Ht. intros name Hw. pose proof (same_delete d Hs name Hw) as Hn. rewrite !lookup_insert. by case_decide. }
  unfold Rename, sys. destruct fl as [|[|k|did keep] fl]; cbn -[insert delete lookup]; [done|done|done|].
  destruct did; [right; by apply replaced_crash|left; by apply same_crash].
Qed.

Lemma on_error_installs m cleanup : installs m -> harmless cleanup -> installs (on_error m cleanup).
Proof.
  intros H Hc d fl Hd. specialize (H d fl Hd). unfold on_error. destruct (m (d, fl)) as [[[]|op|] [d' fl']]; [done| |done].
  specialize (Hc d' fl' H). destruct (cleanup (d', fl')) as [[a|op'|] [d'' fl'']]; [done|done|by left].
Qed.

Definition all_or_nothing (o : outcome unit) (d : gmap string file) : Prop :=
  match o with Ret _ => replaced d | Fail _ => same d | Crashed => same d \/ replaced d end.

(** Whatever fails, and wherever the machine crashes, the destination is as it was or holds
    the whole new contents, durably; nothing else changes but the temporary file. *)
Lemma write_temp_spec last d fl :
  installs last -> same d -> let '(o, (d', _)) := write_temp tmp contents last (d, fl) in all_or_nothing o d'.
Proof.
  intros Hlast. pose proof harmless_cleanup as [Hc1 Hc2]. unfold write_temp.
  assert (forall op d, same d -> all_or_nothing (Fail op) d) as HF by done. assert (forall d, same d -> all_or_nothing Crashed d) as HC by by left.
  assert (forall (P : gmap string file -> Prop), (forall d, P d -> same d) -> forall k d, P d -> same (unchanged k d)) as Hu by (intros P HP k d'; apply HP).
  revert d fl. refine (step_bind same (holds (mkFile "" 0)) _ _ all_or_nothing _ _ HF HC).
  { apply step_sys; [done| |apply holds_same|done]. intros d Hd. split; [apply lookup_insert_eq|by apply same_insert]. }
  refine (step_bind _ (holds (mkFile contents 0)) _ _ all_or_nothing _ _ HF HC).
  { apply step_on_error; [|done]. apply step_sys; [apply holds_same| |apply holds_same|].
    - intros d Hd. apply (holds_alter (fun f => mkFile (bytes f ++ contents) (synced f)) _ _ Hd).
    - intros k d Hd. apply same_alter, (holds_same _ _ Hd). }
  refine (step_bind _ (holds (whole contents)) _ _ all_or_nothing _ _ HF HC).
  { apply step_on_error; [|done]. apply step_sys; [apply holds_same| |apply holds_same|apply Hu, holds_same].
    intros d Hd. apply (holds_alter (fun f => mkFile (bytes f) (String.length (bytes f))) _ _ Hd). }
  refine (step_bind _ (holds (whole contents)) _ _ all_or_nothing _ _ HF HC).
  { apply step_on_error; [|done]. apply step_sys; [apply holds_same|done|apply holds_same|apply Hu, holds_same]. }
  apply Hlast.
Qed.

Lemma write_then_spec last fl :
  installs last ->
  let '(o, (d, _)) := write_then tmp contents last (d0, fl) in
  match o with Ret _ => replaced d | Fail _ => same d | Crashed => same d \/ replaced d end.
Proof.
  intros Hlast. unfold write_then.
  refine (step_bind same same _ _ all_or_nothing _ _ _ _ d0 fl _); [by apply step_sys| |done|by left|by intros name].
  intros d fl'. by apply write_temp_spec.
Qed.

Lemma write_atomic_spec fl :
  let '(o, (d, _)) := write_atomic tmp dest contents (d0, fl) in
  match o with Ret _ => replaced d | Fail _ => same d | Crashed => same d \/ replaced d end.
Proof. apply write_then_spec, on_error_installs; [apply rename_installs|apply harmless_cleanup]. Qed.

End atomic.

End AtomicFile.
