(* ===== verification/Spool.v ===== *)
(** * Spool: helper results and the host identity on disk

    Models internal/spool (entries, atomic writing, reading a directory) and the host id file
    of internal/schema/hostid.go, over the disk of AtomicFile. encoding/json is a parameter,
    with its round trip on the values written as hypothesis where a property needs it. *)

From stdpp Require Import base gmap strings list.
From Stdlib Require Import ZArith Lia Ascii.
From S2P Require Import Prelude GoStd GoConv GoIO Schema AtomicFile.
Import GoString GoConv GoTime Schema AtomicFile.

Local Open Scope string_scope.
Local Open Scope Z_scope.

(** os.ReadFile: None when the file does not exist *)
Definition ReadFile (name : string) : M (option string) := fun st =>
  let '(d, faults) := st in
  match faults with
  | [] | IoOk :: _ => (Ret (bytes <$> d !! name), (d, tail faults))
  | IoFail _ :: rest => (Fail "read", (d, rest))
  | IoCrash _ keep :: rest => (Crashed, (crash keep d, rest))
  end.

(** ** internal/schema/hostid.go *)
Module HostId.

(** [id] is what newULID returned, [tmp] the name CreateTemp chose *)
Definition persistHostID (path tmp id : string) : M unit := write_atomic tmp path (id ++ String GoIO.newline "").

Definition DefaultHostIDPath : string := "/var/lib/bitacora/host_id".

Definition LoadOrCreateHostID (path tmp : string) (newULID : option string) : M string :=
  existing ← ReadFile path;
  match existing with
  | Some text =>
      let id := TrimSpace text in
      if bool_decide (id = "") then fail "empty" else mret id
  | None =>
      match newULID with
      | None => fail "ulid"
      | Some id => _ ← persistHostID path tmp id; mret id
      end
  end.

(** one start of a program that asks for the host id: the temporary name and the ULID it
    would draw, and what the system does to it *)
Record start := mkStart { s_tmp : string; s_ulid : option string; s_faults : list fault }.

Fixpoint run_starts (path : string) (d : gmap string file) (starts : list start) : list (outcome string) :=
  match starts with
  | [] => []
  | s :: rest =>
      let '(o, (d', _)) := LoadOrCreateHostID path (s_tmp s) (s_ulid s) (d, s_faults s) in
      o :: run_starts path d' rest
  end.

(** ulid.ULID.String: 26 characters of base 32 *)
Definition ulid_ok (id : string) : Prop := id <> "" /\ no_space id.

Definition start_ok (path : string) (s : start) : Prop :=
  s_tmp s <> path /\ forall id, s_ulid s = Some id -> ulid_ok id.

Lemma trim_right_app s c : is_space c = true -> trim_right (s ++ String c "") = trim_right s.
Proof.
  intros Hc. induction s as [|b s IH].
  { change ("" ++ String c "")%string with (String c ""). cbn [trim_right]. by rewrite Hc. }
  change (String b s ++ String c "")%string with (String b (s ++ String c ""))%string. cbn [trim_right]. by rewrite IH.
Qed.

Lemma TrimSpace_newline id : ulid_ok id -> TrimSpace (id ++ String GoIO.newline "") = id.
Proof.
  intros [Hne Hs]. pose proof (TrimSpace_id id Hs) as Ht. destruct id as [|c id]; [done|].
  assert (is_space c = false) as Hc by (apply Hs; by left).
  unfold TrimSpace in *. change ((String c id) ++ ?x)%string with (String c (id ++ x))%string.
  cbn [trim_left] in *. rewrite Hc in *. change (String c (id ++ ?x))%string with ((String c id) ++ x)%string.
  by rewrite trim_right_app.
Qed.

(** the file holds [id], whole and on disk *)
Definition stored (path id : string) (d : gmap string file) : Prop :=
  d !! path = Some (whole (id ++ String GoIO.newline "")).

Section one.
Context (path : string).

Lemma load_stored id d s :
  ulid_ok id -> stored path id d ->
  let '(o, (d', _)) := LoadOrCreateHostID path (s_tmp s) (s_ulid s) (d, s_faults s) in
  stored path id d' /\ forall id', o = Ret id' -> id' = id.
Proof.
  intros Hid Hd. unfold LoadOrCreateHostID, mbind, M_bind, ReadFile.
  assert (forall fl, let '(o, (d', _)) := (if bool_decide (TrimSpace (id ++ String GoIO.newline "") = "") then fail "empty"
    else mret (TrimSpace (id ++ String GoIO.newline "")) : M string) (d, fl) in stored path id d' /\ forall id', o = Ret id' -> id' = id) as Hread.
  { intros fl. rewrite TrimSpace_newline by done. destruct Hid as [Hne _]. rewrite bool_decide_false by done. cbn. split; [done|]. by intros id' [= <-]. }
  destruct (s_faults s) as [|[|k|did keep] fl]; rewrite ?Hd; cbn [fmap option_fmap option_map bytes whole]; try apply Hread; [by split|].
  split; [|done]. unfold stored. rewrite crash_lookup, Hd. cbn. f_equal. by apply lose_whole.
Qed.

Lemma load_absent d s :
  start_ok path s -> d !! path = None ->
  let '(o, (d', _)) := LoadOrCreateHostID path (s_tmp s) (s_ulid s) (d, s_faults s) in
  (d' !! path = None /\ forall id', o <> Ret id') \/
  exists id, s_ulid s = Some id /\ stored path id d' /\ forall id', o = Ret id' -> id' = id.
Proof.
  intros [Htmp Hul] Hd. unfold LoadOrCreateHostID, mbind, M_bind, ReadFile.
  assert (forall fl, let '(o, (d', _)) := (match s_ulid s with None => fail "ulid"
    | Some id => fun st => match persistHostID path (s_tmp s) id st with
                           | (Ret _, st') => (mret id : M string) st' | (Fail op, st') => (Fail op, st') | (Crashed, st') => (Crashed, st') end end : M string) (d, fl) in
    (d' !! path = None /\ forall id', o <> Ret id') \/
    exists id, s_ulid s = Some id /\ stored path id d' /\ forall id', o = Ret id' -> id' = id) as Hnew.
  { intros fl. destruct (s_ulid s) as [id|]; [|by left]. unfold persistHostID.
    pose proof (write_atomic_spec (eq path) (s_tmp s) path (id ++ String GoIO.newline "") d ltac:(by intros E) ltac:(intros name f <-; by rewrite Hd) fl) as H.
    destruct (write_atomic _ _ _ _) as [[[]|op|] [d' fl']]; cbn.
    - right. exists id. split_and!; [done| |by intros id' [= <-]]. unfold stored. rewrite (H path eq_refl). apply lookup_insert_eq.
    - left. split; [|done]. rewrite (H path eq_refl). done.
    - destruct H as [H|H]; [left; split; [by rewrite (H path eq_refl)|done]|].
      right. exists id. split_and!; [done| |done]. unfold stored. rewrite (H path eq_refl). apply lookup_insert_eq. }
  destruct (s_faults s) as [|[|k|did keep] fl]; rewrite ?Hd; cbn [fmap option_fmap option_map]; try apply Hnew; left; (split; [|done]); [done|].
  by rewrite crash_lookup, Hd.
Qed.

Lemma starts_stored id d starts :
  ulid_ok id -> stored path id d -> forall id', Ret id' ∈ run_starts path d starts -> id' = id.
Proof.
  intros Hid. revert d. induction starts as [|s starts IH]; intros d Hd id' Hin; cbn [run_starts] in Hin; [by apply elem_of_nil in Hin|].
  pose proof (load_stored id d s Hid Hd) as H. destruct (LoadOrCreateHostID _ _ _ _) as [o [d' fl']]. destruct H as [Hd' Ho].
  apply elem_of_cons in Hin as [E|Hin]; [by apply Ho|]. by apply (IH d').
Qed.

Lemma starts_agree d starts :
  Forall (start_ok path) starts -> d !! path = None ->
  forall id, Ret id ∈ run_starts path d starts ->
    (exists s, s ∈ starts /\ s_ulid s = Some id) /\ forall id', Ret id' ∈ run_starts path d starts -> id' = id.
Proof.
  intros Hok. revert d. induction Hok as [|s starts Hs Hok IH]; intros d Hd id Hin; cbn [run_starts] in *; [by apply elem_of_nil in Hin|].
  pose proof (load_absent d s Hs Hd) as H. destruct (LoadOrCreateHostID _ _ _ _) as [o [d' fl']].
  destruct H as [[Hd' Hno]|(id0 & Hul & Hst & Ho)].
  - apply elem_of_cons in Hin as [E|Hin]; [by destruct (Hno id)|]. destruct (IH d' Hd' id Hin) as [(s' & Hs' & Hul) Hall]. split.
    + exists s'. split; [by right|done].
    + intros id' [E|Hin']%elem_of_cons; [by destruct (Hno id')|by apply Hall].
  - destruct Hs as [_ Hul']. pose proof (starts_stored id0 d' starts (Hul' _ Hul) Hst) as Hlater.
    assert (forall x, Ret x ∈ o :: run_starts path d' starts -> x = id0) as Hall.
    { intros x [E|Hx]%elem_of_cons; [by apply Ho|by apply Hlater]. }
    rewrite (Hall id Hin) in *. split; [exists s; split; [by left|done]|done].
Qed.

End one.

(** C20: the host identity is assigned once: over any number of starts one after the
    other, each of which may fail or lose power in any system call, every start that
    obtains a host id obtains the same one, a whole id that one of them drew. Two
    processes that start at the same time are not covered: they can obtain different ids
    ([host_id_race]). A completed rename is taken to survive a loss of power: the code
    does not sync the directory. *)
Theorem host_id_stable (path : string) (d : gmap string file) (starts : list start) :
  Forall (start_ok path) starts -> d !! path = None ->
  forall id, Ret id ∈ run_starts path d starts ->
    (exists s, s ∈ starts /\ s_ulid s = Some id) /\ forall id', Ret id' ∈ run_starts path d starts -> id' = id.
Proof. apply starts_agree. Qed.

Definition demo_path : string := "host_id".
(** a crash in the rename after it was done, a start that finds the file, and one that cannot read it *)
Definition demo_starts : list start :=
  [mkStart ".host_id-1" (Some "01J8X0A") [IoOk; IoOk; IoOk; IoFail 0];
   mkStart ".host_id-2" (Some "01J8X0B") [IoOk; IoOk; IoOk; IoOk; IoOk; IoOk; IoCrash true (fun _ => O)];
   mkStart ".host_id-3" (Some "01J8X0C") [IoFail 0];
   mkStart ".host_id-4" (Some "01J8X0D") []].

Lemma demo_starts_ok : Forall (start_ok demo_path) demo_starts.
Proof.
  unfold demo_starts. rewrite !Forall_cons. assert (forall id, existsb is_space (String.list_ascii_of_string id) = false -> no_space id) as Hns.
  { intros id H c Hc. apply not_true_is_false. intros E.
    assert (existsb is_space (String.list_ascii_of_string id) = true); [|congruence].
    apply existsb_exists. exists c. by rewrite <- list_elem_of_In. }
  split_and!; try (split; [done|]; intros id [= <-]; split; [done|by apply Hns]). constructor.
Qed.

Lemma host_id_stable_witness :
  run_starts demo_path ∅ demo_starts = [Fail "write"; Crashed; Fail "read"; Ret "01J8X0B"] /\
  forall id', Ret id' ∈ run_starts demo_path ∅ demo_starts -> id' = "01J8X0B".
Proof.
  split; [vm_compute; reflexivity|].
  apply (host_id_stable demo_path ∅ demo_starts demo_starts_ok (lookup_empty _) "01J8X0B").
  replace (run_starts demo_path ∅ demo_starts) with [Fail "write"; Crashed; Fail "read"; Ret "01J8X0B" : outcome string]
    by (vm_compute; reflexivity). set_solver.
Defined.

(** Two programs starting at the same time may disagree: both find no file, and the one that
    renames first keeps an id that is no longer the one on disk. *)
Example host_id_race :
  let first_read := ReadFile demo_path (∅, []) in
  let '(o2, (d2, _)) := LoadOrCreateHostID demo_path ".host_id-2" (Some "01J8X0B") (∅, []) in
  let '(o1, (d1, _)) := persistHostID demo_path ".host_id-1" "01J8X0A" (d2, []) in
  first_read.1 = Ret None /\ o2 = Ret "01J8X0B" /\ o1 = Ret tt /\
  (LoadOrCreateHostID demo_path ".host_id-3" None (d1, [])).1 = Ret "01J8X0A".
Proof. vm_compute. done. Qed.

End HostId.

(** ** internal/spool *)
Module Spool.

Record Entry := mkEntry {
  Collector : string;
  TS : Time;
  Schema_ : Z;
  Data : string; (* json.RawMessage *)
  Errors : list string;
}.

Definition Age (e : Entry) (now : Time) : Duration := sub now (TS e).

Definition Stale (e : Entry) (now : Time) (interval : Duration) : bool :=
  if interval <=? 0 then false else int64 (3 * interval) <? Age e now.

(** json.Compact: the text without the white space between its tokens *)
Definition json_space (c : ascii) : bool := bool_decide (c ∈ [" "; "009"; "010"; "013"]%char).

Definition quote : ascii := "034".
Definition backslash : ascii := "092".

Fixpoint compact_from (in_string escaped : bool) (s : string) : string :=
  match s with
  | "" => ""
  | String c rest =>
      if in_string then
        String c (if escaped then compact_from true false rest
                  else compact_from (negb (bool_decide (c = quote))) (bool_decide (c = backslash)) rest)
      else if json_space c then compact_from false false rest
      else String c (compact_from (bool_decide (c = quote)) false rest)
  end.
Definition compact (s : string) : string := compact_from false false s.

(** two texts of one document, indented differently *)
Definition same_json (a b : string) : Prop := compact a = compact b.

(** encoding/json on entries: json.MarshalIndent, which indents Data along with the rest, and
    json.Unmarshal *)
Class Json := mkJson {
  marshalEntry : Entry -> option string;
  unmarshalEntry : string -> option Entry;
}.

Definition dest_name (collector : string) : string := collector ++ ".json".

Section spool.
Context `{Json}.

(** [payload] is json.Marshal(data), [tmp] the temporary name, [now] the current time *)
Definition WriteAtomic (tmp collector : string) (schema : Z) (payload : option string) (now : Time) (errs : list string) : M unit :=
  match payload with
  | None => fail "marshal data"
  | Some payload =>
      match marshalEntry (mkEntry collector now schema payload errs) with
      | None => fail "marshal entry"
      | Some encoded => write_atomic tmp (dest_name collector) encoded
      end
  end.

(** one file of the directory *)
Definition read_entry (d : gmap string file) (isDir : string -> bool) (entries : gmap string Entry) (name : string) : gmap string Entry :=
  if isDir name || negb (has_suffix ".json" name) then entries else
  match d !! name with
  | None => entries
  | Some f => match unmarshalEntry (bytes f) with
              | None => entries
              | Some e => <[Collector e := e]> entries
              end
  end.

(** over the names of the directory, in their order *)
Definition read_names (d : gmap string file) (isDir : string -> bool) (names : list string) : gmap string Entry :=
  fold_left (read_entry d isDir) names ∅.

(** what os.ReadDir answers *)
Inductive listing := DirMissing | DirError | DirNames (names : list string).

Definition ReadDir (d : gmap string file) (isDir : string -> bool) (l : listing) : option (gmap string Entry) :=
  match l with
  | DirMissing => Some ∅
  | DirError => None
  | DirNames names => Some (read_names d isDir names)
  end.

(** what reading back an entry gives: Data is the same document, with the indentation it has
    in the file; error texts that are not UTF-8 are not kept as they were *)
Definition reads_as (e e' : Entry) : Prop :=
  Collector e' = Collector e /\ TS e' = TS e /\ Schema_ e' = Schema_ e /\ same_json (Data e) (Data e').

(** every entry file is named after its collector *)
Definition named (d : gmap string file) : Prop :=
  forall name f e, has_suffix ".json" name = true -> d !! name = Some f -> unmarshalEntry (bytes f) = Some e ->
    name = dest_name (Collector e).

Lemma dest_name_inj a b : dest_name a = dest_name b -> a = b.
Proof.
  intros E. unfold dest_name in E. pose proof (strip_suffix_app ".json" a) as Ha. pose proof (strip_suffix_app ".json" b) as Hb.
  rewrite E, Hb in Ha. by injection Ha.
Qed.

Lemma read_entry_other d isDir c entries name :
  named d -> name <> dest_name c -> read_entry d isDir entries name !! c = entries !! c.
Proof.
  intros Hn Hne. unfold read_entry. destruct (isDir name); [done|]. cbn [orb].
  destruct (has_suffix ".json" name) eqn:Hs; [|done]. cbn [negb].
  destruct (d !! name) as [f|] eqn:Hf; [|done]. destruct (unmarshalEntry (bytes f)) as [e|] eqn:He; [|done].
  apply lookup_insert_ne. intros <-. by apply Hne, (Hn name f e).
Qed.

(** what a well-named directory answers for a collector *)
Lemma read_names_lookup d isDir names c :
  named d -> NoDup names -> (forall f, d !! dest_name c = Some f -> dest_name c ∈ names) -> isDir (dest_name c) = false ->
  read_names d isDir names !! c = f ← d !! dest_name c; unmarshalEntry (bytes f).
Proof.
  intros Hn Hnd Hin Hdir. unfold read_names.
  assert (forall ns (es : gmap string Entry), dest_name c ∉ ns -> fold_left (read_entry d isDir) ns es !! c = es !! c) as Hskip.
  { induction ns as [|n ns IH]; intros es Hns; cbn [fold_left]; [done|].
    apply not_elem_of_cons in Hns as [Hne Hns]. rewrite IH by done. by apply read_entry_other. }
  destruct (decide (dest_name c ∈ names)) as [Hc|Hc].
  - apply list_elem_of_split in Hc as (l1 & l2 & ->). apply NoDup_app in Hnd as (_ & Hdis & Hnd).
    apply NoDup_cons in Hnd as [Hl2 _]. rewrite fold_left_app. cbn [fold_left]. rewrite Hskip by done.
    assert (dest_name c ∉ l1) as Hl1 by (intros Hx; apply (Hdis _ Hx); by left).
    unfold read_entry at 1. rewrite Hdir. unfold dest_name at 1. rewrite has_suffix_app. cbn [orb negb].
    destruct (d !! dest_name c) as [f|] eqn:Hf; cbn [mbind option_bind]; [|by rewrite Hskip].
    destruct (unmarshalEntry (bytes f)) as [e|] eqn:He; [|by rewrite Hskip].
    assert (Collector e = c) as ->.
    { symmetry. apply dest_name_inj, (Hn (dest_name c) f e); [apply has_suffix_app|done|done]. }
    by rewrite lookup_insert_eq.
  - rewrite Hskip by done. destruct (d !! dest_name c) as [f|] eqn:Hf; [|done]. by destruct Hc; apply (Hin f).
Qed.

(** a listing of the files of the disk *)
Definition lists (d : gmap string file) (names : list string) : Prop :=
  NoDup names /\ forall name, name ∈ names <-> is_Some (d !! name).
Definition no_dirs (name : string) : bool := false.

Definition json_name (name : string) : Prop := has_suffix ".json" name = true.

(** what the collectors read depends on the entry files only *)
Lemma read_names_ext d d' names names' (f : gmap string Entry -> gmap string Entry) :
  named d -> named d' -> lists d names -> lists d' names' ->
  (forall c, (x ← d' !! dest_name c; unmarshalEntry (bytes x)) = f (read_names d no_dirs names) !! c) ->
  read_names d' no_dirs names' = f (read_names d no_dirs names).
Proof.
  intros Hn Hn' [Hd1 Hd2] [Hd1' Hd2'] Hf. apply map_eq. intros c. rewrite <- Hf.
  apply read_names_lookup; [done|done| |done]. intros g Hg. apply Hd2'. by eexists.
Qed.

Lemma named_same d d' : (forall name, json_name name -> d' !! name = d !! name) -> named d -> named d'.
Proof. intros Hs Hn name f e Hj. rewrite Hs by done. by apply Hn. Qed.

Lemma named_replaced d d' c encoded e :
  Collector e = c -> unmarshalEntry encoded = Some e ->
  (forall name, json_name name -> d' !! name = <[dest_name c := whole encoded]> d !! name) -> named d -> named d'.
Proof.
  intros Hc He Hs Hn name f e' Hj. rewrite Hs by done. rewrite lookup_insert. case_decide as E.
  - intros [= <-]. cbn. rewrite He. intros [= <-]. by rewrite Hc.
  - by apply Hn.
Qed.

(** a file that ends in .json is an entry *)
Lemma dest_json c : json_name (dest_name c).
Proof. apply has_suffix_app. Qed.

Lemma write_atomic_entries (d : gmap string file) fl tmp c schema payload now errs encoded e :
  marshalEntry (mkEntry c now schema payload errs) = Some encoded -> unmarshalEntry encoded = Some e -> Collector e = c ->
  ~ json_name tmp -> (forall name f, json_name name -> d !! name = Some f -> is_whole f) -> named d ->
  let '(o, (d', _)) := WriteAtomic tmp c schema (Some payload) now errs (d, fl) in
  named d' /\ forall names names', lists d names -> lists d' names' ->
    let before := read_names d no_dirs names in
    let after := read_names d' no_dirs names' in
    match o with
    | Ret _ => after = <[c := e]> before
    | Fail _ => after = before
    | Crashed => after = before \/ after = <[c := e]> before
    end.
Proof.
  intros Hm Hum Hc Htmp Hwhole Hn. unfold WriteAtomic. rewrite Hm.
  pose proof (write_atomic_spec json_name tmp (dest_name c) encoded d Htmp Hwhole fl) as Hw.
  destruct (write_atomic tmp (dest_name c) encoded (d, fl)) as [o [d' fl']].
  assert (same json_name d d' -> named d' /\ forall names names', lists d names -> lists d' names' ->
    read_names d' no_dirs names' = read_names d no_dirs names) as Hsame.
  { intros Hs. split; [by eapply named_same|]. intros names names' Hl Hl'.
    apply (read_names_ext d d' names names' id); [done|by eapply named_same|done|done|]. intros k. rewrite (Hs _ (dest_json k)).
    destruct Hl as [Hl1 Hl2]. symmetry. apply read_names_lookup; [done|done| |done]. intros g Hg. apply Hl2. by eexists. }
  assert (replaced json_name (dest_name c) encoded d d' -> named d' /\ forall names names', lists d names -> lists d' names' ->
    read_names d' no_dirs names' = <[c := e]> (read_names d no_dirs names)) as Hrep.
  { intros Hr. assert (named d') as Hn' by (by eapply named_replaced). split; [done|]. intros names names' Hl Hl'.
    apply (read_names_ext d d' names names' (insert c e)); [done|done|done|done|]. intros k. rewrite (Hr _ (dest_json k)).
    destruct (decide (k = c)) as [->|Hk].
    - by rewrite !lookup_insert_eq.
    - rewrite !lookup_insert_ne by (try done; intros E; by apply Hk, dest_name_inj).
      destruct Hl as [Hl1 Hl2]. symmetry. apply read_names_lookup; [done|done| |done]. intros g Hg. apply Hl2. by eexists. }
  destruct o as [[]|op|]; [by apply Hrep|by apply Hsame|]. destruct Hw as [Hw|Hw].
  - destruct (Hsame Hw) as [H1 H2]. split; [done|]. intros. left. by apply H2.
  - destruct (Hrep Hw) as [H1 H2]. split; [done|]. intros. right. by apply H2.
Qed.

(** *** Properties *)

(** C21: a helper's result replaces its previous one atomically. Whichever system call of
    WriteAtomic fails or is interrupted by a power loss, readers of the directory see for
    the helper either its previous entry or the whole new one, and the new one once
    WriteAtomic returned; for every other helper they see what they saw before. The new
    entry is what encoding/json makes of the bytes written: the collector, time and schema
    of the entry and the same data, indented as MarshalIndent left it. A completed rename is
    taken to survive a power loss: the code does not sync the directory. *)
Theorem spool_write_atomic (d : gmap string file) fl tmp c schema payload now errs encoded e :
  marshalEntry (mkEntry c now schema payload errs) = Some encoded -> unmarshalEntry encoded = Some e ->
  reads_as (mkEntry c now schema payload errs) e ->
  ~ json_name tmp -> (forall name f, json_name name -> d !! name = Some f -> is_whole f) -> named d ->
  let '(o, (d', _)) := WriteAtomic tmp c schema (Some payload) now errs (d, fl) in
  named d' /\ forall names names', lists d names -> lists d' names' ->
    let before := read_names d no_dirs names in
    let after := read_names d' no_dirs names' in
    match o with
    | Ret _ => after = <[c := e]> before
    | Fail _ => after = before
    | Crashed => after = before \/ after = <[c := e]> before
    end.
Proof. intros Hm Hu [Hc _]. by apply (write_atomic_entries d fl tmp c schema payload now errs encoded e). Qed.

(** a spool as a program finds it: entries whole, each under its own name *)
Definition sound (d : gmap string file) : Prop := (forall name f, json_name name -> d !! name = Some f -> is_whole f) /\ named d.

Definition ascii_only (s : string) : Prop := Forall (fun c => (nat_of_ascii c < 128)%nat) (String.list_ascii_of_string s).

Lemma ascii_only_check s : forallb (fun c => (nat_of_ascii c <? 128)%nat) (String.list_ascii_of_string s) = true -> ascii_only s.
Proof. rewrite forallb_forall. intros H0. apply Forall_forall. intros c Hc. by apply Nat.ltb_lt, H0, list_elem_of_In. Qed.

(** encoding/json reads back the entries it wrote, up to the indentation of their data *)
Definition entry_laws : Prop := forall e encoded, ascii_only (Collector e) -> marshalEntry e = Some encoded ->
  exists e', unmarshalEntry encoded = Some e' /\ reads_as e e'.

Lemma lists_disk (d : gmap string file) : lists d (map_to_list d).*1.
Proof.
  split; [apply NoDup_fst_map_to_list|]. intros name. rewrite list_elem_of_fmap. split.
  - intros ([n f] & -> & Hin%elem_of_map_to_list). by exists f.
  - intros [f Hf]. exists (name, f). by rewrite elem_of_map_to_list.
Qed.

(** once a helper's write returned, readers find its entry *)
Lemma written_entry (d : gmap string file) fl tmp c schema data now errs d' fl' names' :
  entry_laws -> ascii_only c -> sound d -> ~ json_name tmp ->
  WriteAtomic tmp c schema data now errs (d, fl) = (Ret tt, (d', fl')) -> lists d' names' ->
  exists payload entries e, data = Some payload /\ ReadDir d' no_dirs (DirNames names') = Some entries /\
    entries !! c = Some e /\ reads_as (mkEntry c now schema payload errs) e.
Proof.
  intros Hlaws Hasc [Hw Hn] Htmp Hm Hl. destruct data as [payload|]; [|done]. set (e := mkEntry c now schema payload errs).
  destruct (marshalEntry e) as [encoded|] eqn:Ee; [|unfold WriteAtomic in Hm; fold e in Hm; by rewrite Ee in Hm].
  destruct (Hlaws e encoded Hasc Ee) as (e' & Hu & Hr).
  pose proof (write_atomic_entries d fl tmp c schema payload now errs encoded e' Ee Hu (proj1 Hr) Htmp Hw Hn) as Hwa.
  rewrite Hm in Hwa. destruct Hwa as [_ Hwa]. eexists _, _, e'. split_and!; [done..| |done].
  rewrite (Hwa _ _ (lists_disk d) Hl). apply lookup_insert_eq.
Qed.

End spool.

(** a directory with one entry, and a helper whose rename is interrupted after it was done;
    the encoding puts the data on a line of its own *)
Definition demo_json : Json := mkJson (fun e => Some (Collector e ++ " " ++ String "010" (Data e)))
  (fun s => '(c, data) ← cut_byte " " s; Some (mkEntry c 7 1 data [])).
Definition demo_disk : gmap string file := {[ "smart.json" := whole "smart []" ]}.

Definition demo_faults : list fault := [IoOk; IoOk; IoOk; IoOk; IoOk; IoCrash true (fun _ => O)].

Lemma spool_write_atomic_witness :
  let '(o, (d', _)) := @WriteAtomic demo_json ".smart-1.tmp" "smart" 1 (Some "[1]") 7 [] (demo_disk, demo_faults) in
  @named demo_json d'.
Proof.
  pose proof (@spool_write_atomic demo_json demo_disk demo_faults ".smart-1.tmp" "smart" 1 "[1]" 7 []
    ("smart " ++ String "010" "[1]") (mkEntry "smart" 7 1 (String "010" "[1]") []) eq_refl eq_refl
    ltac:(split_and!; reflexivity) ltac:(vm_compute; discriminate)) as H.
  destruct (@WriteAtomic _ _ _ _ _ _ _ _) as [o [d' fl]]. unfold demo_disk in H. apply H; clear H.
  - intros name f _ Hl. by apply lookup_singleton_Some in Hl as [<- <-].
  - intros name f e _ Hl. apply lookup_singleton_Some in Hl as [<- <-]. intros He. assert (e = mkEntry "smart" 7 1 "[]" []) as -> by (injection He as <-; reflexivity). reflexivity.
Defined.

(** white space inside a string is kept, also after an escaped quote *)
Example compact_demo :
  let q s := String quote (s ++ String quote "") in
  compact ("{ " ++ q "a b" ++ String "010" " : [ 1, " ++ q ("x" ++ String backslash (String quote " y")) ++ " ] }") =
    "{" ++ q "a b" ++ ":[1," ++ q ("x" ++ String backslash (String quote " y")) ++ "]}".
Proof. vm_compute. reflexivity. Qed.

Example spool_demo :
  let '(o, (d', _)) := @WriteAtomic demo_json ".smart-1.tmp" "smart" 1 (Some "[1]") 7 [] (demo_disk, demo_faults) in
  (match o with Crashed => true | _ => false end, bytes <$> d' !! "smart.json") = (true, Some ("smart " ++ String "010" "[1]")).
Proof. vm_compute. reflexivity. Qed.

(** Stale is three intervals, exactly, as long as that product fits a duration and the times
    are within the range of one. *)
Lemma Stale_spec e now interval :
  0 < interval -> 3 * interval <= max_int64 -> min_int64 <= now - TS e <= max_int64 ->
  Stale e now interval = true <-> 3 * interval < now - TS e.
Proof.
  intros H1 H2 H3. unfold Stale, Age. destruct (Z.leb_spec interval 0); [lia|].
  rewrite sub_exact by done. unfold int64. rewrite wrap_s_small by (unfold min_int64, max_int64 in *; lia). apply Z.ltb_lt.
Qed.

(** the product overflows for an interval of a century: the entry is stale at once *)
Example stale_overflow : Stale (mkEntry "smart" 0 1 "" []) 1 (5 * 10 ^ 18) = true.
Proof. vm_compute. reflexivity. Qed.

End Spool.
