(* ===== verification/Inventories.v ===== *)
(** * Inventories: shares, users, disks and UPSs

    Models the collectors that emit an Inventory: internal/collector/shares, users,
    diskarray and ups. A file is its contents, None when it cannot be opened; a parser
    returns what it read and whether it ended in an error. What Collect hands to the sink
    is its result. *)

From stdpp Require Import base gmap strings list sorting.
From Stdlib Require Import ZArith Lia Ascii.
From S2P Require Import Prelude GoStd GoConv GoIO Schema AtomicFile Spool.
Import GoString GoConv GoIO Schema.

Local Open Scope string_scope.
Local Open Scope Z_scope.

(** configuredPath of every collector: a non-empty string of the configuration *)
Definition configuredPath (cfg : gmap string string) (key fallback : string) : string :=
  match cfg !! key with
  | Some v => if bool_decide (v = "") then fallback else v
  | None => fallback
  end.

(** a collector's snapshot; an expired context ends Collect before it reads anything *)
Definition snapshot (ctxErr : option string) (hostID kind : string) (now : Z) (items : list InventoryItem) :
  result string Inventory :=
  match ctxErr with
  | Some err => Err err
  | None => Ok (mkInventory hostID kind now CurrentSchemaVersion items)
  end.

(** filepath.Base *)
Definition slash : ascii := "/"%char.
Definition trim_slashes (s : string) : string :=
  foldr (fun c acc => if bool_decide (c = slash) && bool_decide (acc = "") then "" else String c acc) ""
    (String.list_ascii_of_string s).
Definition Base (path : string) : string :=
  if bool_decide (path = "") then "." else
  match trim_slashes path with
  | "" => String slash ""
  | p => match cut_last_byte slash p with Some (_, b) => b | None => p end
  end.

(** ** Lines of smb.conf, as both of its readers see them *)
Module SambaLine.

Inductive t : Type :=
| Skip
| Header (section : string)
| Setting (key value : string).

Definition equals : ascii := "="%char.

(** the same tests, in the order of the loops of parseSambaConf and parseSambaPermissions *)
Definition classify (text : string) : t :=
  let line := TrimSpace text in
  if bool_decide (line = "") || has_prefix "#" line || has_prefix ";" line then Skip
  else if has_prefix "[" line && has_suffix "]" line
  then Header (TrimSpace (trim_suffix (trim_prefix line "[") "]"))
  else match cut_byte equals line with
       | None => Skip
       | Some (key, value) => Setting (ToLower (TrimSpace key)) (TrimSpace value)
       end.

(** the settings before the first header, and each header with the settings below it *)
Fixpoint sections (lines : list t) : list (string * string) * list (string * list (string * string)) :=
  match lines with
  | [] => ([], [])
  | l :: rest =>
      let '(top, secs) := sections rest in
      match l with
      | Skip => (top, secs)
      | Header s => ([], (s, top) :: secs)
      | Setting k v => ((k, v) :: top, secs)
      end
  end.

(** How a line, without the space around it, is to be read: an empty line or a comment is
    nothing, [name] opens a section, and of the others the text before the first equals sign
    is the key of a setting. *)
Inductive plain : string -> Prop :=
| plain_line line :
    line <> "" -> (forall rest, line <> String "#" rest) -> (forall rest, line <> String ";" rest) ->
    (forall name, line <> String "[" (name ++ "]")) -> plain line.

Inductive reads : string -> t -> Prop :=
| reads_empty : reads "" Skip
| reads_comment c rest : c ∈ ["#"; ";"]%char -> reads (String c rest) Skip
| reads_header name : reads (String "[" (name ++ "]")) (Header (TrimSpace name))
| reads_setting key value :
    plain (key ++ String "=" value) -> lacks "=" key = true ->
    reads (key ++ String "=" value) (Setting (ToLower (TrimSpace key)) (TrimSpace value))
| reads_other line : plain line -> lacks "=" line = true -> reads line Skip.

Lemma has_prefix_byte c s : has_prefix (String c "") s = true <-> exists rest, s = String c rest.
Proof.
  split.
  - destruct s as [|d s]; simpl; [done|]. case_decide; [|done]. subst. by exists s.
  - intros [rest ->]. simpl. by rewrite decide_True.
Qed.

Lemma classify_reads text : reads (TrimSpace text) (classify text).
Proof.
  unfold classify. set (line := TrimSpace text). clearbody line.
  destruct (bool_decide_reflect (line = "")) as [->|H0]; [apply reads_empty|]. cbn [orb].
  destruct (has_prefix "#" line) eqn:H1; [apply has_prefix_byte in H1 as [rest ->]; apply reads_comment; set_solver|]. cbn [orb].
  destruct (has_prefix ";" line) eqn:H2; [apply has_prefix_byte in H2 as [rest ->]; apply reads_comment; set_solver|]. cbn [orb].
  destruct (has_prefix "[" line && has_suffix "]" line) eqn:H3.
  { apply andb_true_iff in H3 as [Hp Hs]. apply has_prefix_byte in Hp as [rest ->]. unfold has_suffix in Hs.
    destruct (strip_suffix "]" (String "[" rest)) as [b|] eqn:Eb; [|done]. apply strip_suffix_Some in Eb.
    destruct b as [|c name]; [done|]. rewrite str_app_cons in Eb. injection Eb as <- ->.
    change (trim_prefix (String "[" (name ++ "]")) "[") with (name ++ "]"). rewrite trim_suffix_app. apply reads_header. }
  assert (plain line) as Hplain.
  { constructor; [done|intros rest ->..|intros name ->].
    - by rewrite (proj2 (has_prefix_byte _ _)) in H1 by eauto.
    - by rewrite (proj2 (has_prefix_byte _ _)) in H2 by eauto.
    - rewrite (proj2 (has_prefix_byte _ _)) in H3 by eauto. rewrite <- str_app_cons, has_suffix_app in H3. done. }
  pose proof (cut_byte_spec equals line) as Hc. destruct (cut_byte equals line) as [[key value]|].
  - destruct Hc as [-> Hk]. by apply reads_setting.
  - by apply reads_other.
Qed.

End SambaLine.

(** ** internal/collector/shares *)
Module Shares.
Import SambaLine.

Definition sambaMetaSections : list string := ["global"; "homes"; "printers"; "print$"].

Definition isYes (value : string) : bool := bool_decide (ToLower (TrimSpace value) ∈ ["yes"; "true"; "1"]).
Definition visibilityMode (value : string) : string := if isYes value then "public" else "private".
Definition isWritable (key value : string) : bool :=
  if bool_decide (key = "read only") then negb (isYes value) else isYes value.

Record parser := mkParser { p_items : list InventoryItem; p_section : string; p_attrs : gmap string string }.

Definition is_share (section : string) : bool :=
  negb (bool_decide (section = "") || bool_decide (ToLower section ∈ sambaMetaSections)).

Definition flush (st : parser) : list InventoryItem :=
  if is_share (p_section st)
  then (p_items st ++ [mkInventoryItem (p_section st) (p_section st) (<["protocol" := "smb"]> (p_attrs st))])%list
  else p_items st.

(** the switch on the key *)
Definition set_attr (attrs : gmap string string) (key value : string) : gmap string string :=
  if bool_decide (key = "path") then <["path" := value]> attrs
  else if bool_decide (key ∈ ["public"; "guest ok"]) then <["mode" := visibilityMode value]> attrs
  else if bool_decide (key ∈ ["read only"; "writeable"; "writable"]) then
    match attrs !! "writable" with
    | Some _ => attrs
    | None => <["writable" := FormatBool (isWritable key value)]> attrs
    end
  else attrs.

Definition samba_line (st : parser) (text : string) : parser :=
  match classify text with
  | Skip => st
  | Header s => mkParser (flush st) s ∅
  | Setting k v => mkParser (p_items st) (p_section st) (set_attr (p_attrs st) k v)
  end.

Definition parseSambaConf (contents : option string) : list InventoryItem * bool :=
  match contents with
  | None => ([], true)
  | Some text => (flush (fold_left samba_line (scan_lines text) (mkParser [] "" ∅)), scan_failed text)
  end.

(** one line of /etc/exports *)
Fixpoint client_specs (specs : list string) (mode : string) (writable : bool) : string * bool :=
  match specs with
  | [] => (mode, writable)
  | spec :: rest =>
      let '(client, opts) := default (spec, "") (cut_byte "(" spec) in
      client_specs rest (if bool_decide (client = "*") then "public" else mode) (contains "rw" opts || writable)
  end.

Definition export_line (text : string) : option InventoryItem :=
  let line := TrimSpace text in
  if bool_decide (line = "") || has_prefix "#" line then None else
  match Fields line with
  | exportPath :: ((_ :: _) as specs) =>
      let '(mode, writable) := client_specs specs "private" false in
      Some (mkInventoryItem exportPath (Base exportPath)
        {[ "path" := exportPath; "protocol" := "nfs"; "mode" := mode; "writable" := FormatBool writable ]})
  | _ => None
  end.

Definition parseExports (contents : option string) : list InventoryItem * bool :=
  match contents with
  | None => ([], true)
  | Some text => (omap export_line (scan_lines text), scan_failed text)
  end.

(** what a reader that checks the error keeps *)
Definition unless_failed (r : list InventoryItem * bool) : list InventoryItem := if r.2 then [] else r.1.

Definition Collect (ctxErr : option string) (hostID : string) (now : Z) (sambaConf exportsFile : option string) :
  result string Inventory :=
  snapshot ctxErr hostID "share" now (unless_failed (parseSambaConf sambaConf) ++ unless_failed (parseExports exportsFile))%list.

Definition add_path (paths : gmap string string) (item : InventoryItem) : gmap string string :=
  match ii_Attrs item !! "path" with
  | Some p => <[ii_ID item := p]> paths
  | None => paths
  end.

Definition Paths (sambaConf exportsFile : option string) : gmap string string :=
  fold_left add_path (unless_failed (parseExports exportsFile))
    (fold_left add_path (unless_failed (parseSambaConf sambaConf)) ∅).

(** *** What a configuration declares *)

Definition setting_in (keys : list string) (kv : string * string) : bool := bool_decide (kv.1 ∈ keys).

(** the last, or the first, setting among some keys *)
Definition last_setting (keys : list string) (kvs : list (string * string)) : option (string * string) :=
  last (List.filter (setting_in keys) kvs).
Definition first_setting (keys : list string) (kvs : list (string * string)) : option (string * string) :=
  head (List.filter (setting_in keys) kvs).

Definition opt_attr (k : string) (v : option string) (m : gmap string string) : gmap string string :=
  match v with Some v => <[k := v]> m | None => m end.

(** Samba lets a later line override an earlier one; the writable flag takes the first *)
Definition declared (kvs : list (string * string)) : gmap string string :=
  opt_attr "path" (snd <$> last_setting ["path"] kvs)
  (opt_attr "mode" ((fun kv => visibilityMode kv.2) <$> last_setting ["public"; "guest ok"] kvs)
  (opt_attr "writable" ((fun kv => FormatBool (isWritable kv.1 kv.2)) <$>
                          first_setting ["read only"; "writeable"; "writable"] kvs) ∅)).

Definition share_item (sec : string * list (string * string)) : InventoryItem :=
  mkInventoryItem sec.1 sec.1 (<["protocol" := "smb"]> (declared sec.2)).

Lemma filter_snoc {A} (f : A -> bool) l x :
  List.filter f (l ++ [x])%list = (List.filter f l ++ (if f x then [x] else []))%list.
Proof. rewrite List.filter_app. simpl. by destruct (f x). Qed.

Lemma last_setting_snoc keys kvs kv :
  last_setting keys (kvs ++ [kv])%list = if setting_in keys kv then Some kv else last_setting keys kvs.
Proof.
  unfold last_setting. rewrite filter_snoc. destruct (setting_in keys kv); [by rewrite last_snoc|by rewrite app_nil_r].
Qed.

Lemma first_setting_snoc keys kvs kv :
  first_setting keys (kvs ++ [kv])%list =
    match first_setting keys kvs with Some x => Some x | None => if setting_in keys kv then Some kv else None end.
Proof.
  unfold first_setting. rewrite filter_snoc. destruct (List.filter _ kvs) as [|x l]; [|done].
  by destruct (setting_in keys kv).
Qed.

Lemma declared_writable kvs :
  declared kvs !! "writable" =
    (fun kv => FormatBool (isWritable kv.1 kv.2)) <$> first_setting ["read only"; "writeable"; "writable"] kvs.
Proof.
  unfold declared, opt_attr.
  destruct (last_setting ["path"] kvs), (last_setting ["public"; "guest ok"] kvs), (first_setting _ kvs);
    cbn [fmap option_fmap option_map]; by simplify_map_eq.
Qed.

Ltac opt_attrs :=
  unfold declared, opt_attr;
  repeat match goal with |- context [last_setting ?a ?b] => destruct (last_setting a b)
                    | |- context [first_setting ?a ?b] => destruct (first_setting a b) end;
  cbn [fmap option_fmap option_map];
  apply map_eq; intros ?; rewrite ?lookup_insert, ?lookup_empty; repeat case_decide; by subst.

Lemma set_attr_declared kvs : fold_left (fun m kv => set_attr m kv.1 kv.2) kvs ∅ = declared kvs.
Proof.
  induction kvs as [|[k v] kvs IH] using rev_ind; [done|]. rewrite fold_left_app, IH. cbn [fold_left fst snd].
  unfold set_attr. rewrite declared_writable.
  assert (declared (kvs ++ [(k, v)])%list =
    opt_attr "path" (snd <$> last_setting ["path"] (kvs ++ [(k, v)])%list)
    (opt_attr "mode" ((fun kv => visibilityMode kv.2) <$> last_setting ["public"; "guest ok"] (kvs ++ [(k, v)])%list)
    (opt_attr "writable" ((fun kv => FormatBool (isWritable kv.1 kv.2)) <$>
      first_setting ["read only"; "writeable"; "writable"] (kvs ++ [(k, v)])%list) ∅))) as -> by done.
  rewrite !last_setting_snoc, first_setting_snoc. unfold setting_in. cbn [fst].
  destruct (decide (k = "path")) as [->|H1].
  { rewrite !bool_decide_true by set_solver. rewrite !bool_decide_false by set_solver. opt_attrs. }
  rewrite (bool_decide_false (k = "path")), (bool_decide_false (k ∈ ["path"])) by set_solver.
  destruct (decide (k ∈ ["public"; "guest ok"])) as [H2|H2].
  { rewrite (bool_decide_true (k ∈ ["public"; "guest ok"])) by done.
    rewrite bool_decide_false by (apply elem_of_cons in H2 as [->|H2%list_elem_of_singleton]; [set_solver|subst; set_solver]). opt_attrs. }
  rewrite (bool_decide_false (k ∈ ["public"; "guest ok"])) by done.
  destruct (decide (k ∈ ["read only"; "writeable"; "writable"])) as [H3|H3].
  - rewrite bool_decide_true by done. opt_attrs.
  - rewrite bool_decide_false by done. opt_attrs.
Qed.

Lemma samba_lines items section kvs lines :
  flush (fold_left samba_line lines (mkParser items section (declared kvs))) =
    (let '(top, secs) := sections (classify <$> lines) in
     items ++ (share_item <$> List.filter (fun sec => is_share sec.1) ((section, kvs ++ top) :: secs)))%list.
Proof.
  revert items section kvs. induction lines as [|l lines IH]; intros items section kvs.
  - cbn. unfold flush. cbn [p_section p_items p_attrs]. rewrite app_nil_r. destruct (is_share section); [done|]. by rewrite app_nil_r.
  - cbn [fold_left]. rewrite fmap_cons. cbn [sections]. unfold samba_line at 2. destruct (classify l) as [|s|k v].
    + rewrite IH. by destruct (sections (classify <$> lines)).
    + cbn [p_section p_items p_attrs]. change ∅ with (declared []). rewrite IH.
      destruct (sections (classify <$> lines)) as [top secs]. rewrite app_nil_l, app_nil_r. unfold flush. cbn [p_section p_items p_attrs].
      cbn [List.filter fst]. destruct (is_share section); [|done]. rewrite fmap_cons, <- app_assoc. done.
    + cbn [p_section p_items p_attrs].
      assert (set_attr (declared kvs) k v = declared (kvs ++ [(k, v)])%list) as ->.
      { rewrite <- !set_attr_declared, fold_left_app. done. }
      rewrite IH. destruct (sections (classify <$> lines)) as [top secs]. by rewrite <- app_assoc.
Qed.

Lemma parseSambaConf_items text :
  parseSambaConf (Some text) =
    (share_item <$> List.filter (fun sec => is_share sec.1) (sections (classify <$> scan_lines text)).2, scan_failed text).
Proof.
  unfold parseSambaConf. change (mkParser [] "" ∅) with (mkParser [] "" (declared [])). rewrite samba_lines.
  by destruct (sections (classify <$> scan_lines text)) as [top secs].
Qed.

(** The same in the words of smb.conf: its own sections, the words for yes, and what a share
    is reported with. *)
Definition samba_own (section : string) : Prop := ToLower section ∈ ["global"; "homes"; "printers"; "print$"].
Definition affirmative (value : string) : Prop := ToLower (TrimSpace value) ∈ ["yes"; "true"; "1"].
Definition writable_by (kv : string * string) : Prop :=
  (kv.1 = "read only" /\ ~ affirmative kv.2) \/ (kv.1 <> "read only" /\ affirmative kv.2).

Global Instance samba_own_dec section : Decision (samba_own section).
Proof. unfold samba_own. apply _. Defined.
Global Instance affirmative_dec value : Decision (affirmative value).
Proof. unfold affirmative. apply _. Defined.
Global Instance writable_by_dec kv : Decision (writable_by kv).
Proof. unfold writable_by. apply _. Defined.

Definition reported (sec : string * list (string * string)) : InventoryItem :=
  mkInventoryItem sec.1 sec.1
    (<["protocol" := "smb"]>
     (opt_attr "path" (snd <$> last_setting ["path"] sec.2)
     (opt_attr "mode" ((fun kv => if decide (affirmative kv.2) then "public" else "private") <$>
                         last_setting ["public"; "guest ok"] sec.2)
     (opt_attr "writable" ((fun kv => if decide (writable_by kv) then "true" else "false") <$>
                             first_setting ["read only"; "writeable"; "writable"] sec.2) ∅)))).

Lemma isYes_affirmative v : isYes v = bool_decide (affirmative v).
Proof. done. Qed.

Lemma isWritable_by kv : isWritable kv.1 kv.2 = bool_decide (writable_by kv).
Proof.
  unfold isWritable. rewrite isYes_affirmative. symmetry. unfold writable_by.
  destruct (bool_decide_reflect (kv.1 = "read only")), (bool_decide_reflect (affirmative kv.2)); simpl;
    (apply bool_decide_eq_true_2 || apply bool_decide_eq_false_2); tauto.
Qed.

Lemma share_item_reported sec : share_item sec = reported sec.
Proof.
  unfold share_item, declared, reported. f_equal. f_equal. f_equal.
  destruct (last_setting ["public"; "guest ok"] sec.2) as [kv|], (first_setting _ sec.2) as [kv'|];
    cbn [fmap option_fmap option_map opt_attr]; unfold visibilityMode; rewrite ?isYes_affirmative, ?isWritable_by;
    unfold bool_decide, decide;
    repeat match goal with
           | |- context [affirmative_dec ?v] => destruct (affirmative_dec v)
           | |- context [writable_by_dec ?w] => destruct (writable_by_dec w)
           end; done.
Qed.

Lemma is_share_own section : is_share section = bool_decide (section <> "" /\ ~ samba_own section).
Proof.
  change (is_share section) with (negb (bool_decide (section = "") || bool_decide (samba_own section))). symmetry.
  destruct (bool_decide_reflect (section = "")), (bool_decide_reflect (samba_own section)); simpl;
    (apply bool_decide_eq_true_2 || apply bool_decide_eq_false_2); tauto.
Qed.

Lemma samba_ids contents : Forall (fun it => ii_ID it <> "") (parseSambaConf contents).1.
Proof.
  destruct contents as [text|]; [|constructor]. rewrite parseSambaConf_items. apply Forall_fmap, Forall_forall. intros [s kvs] Hs.
  apply list_elem_of_In, List.filter_In in Hs as [_ Hs]. unfold is_share in Hs. cbn in Hs |- *. intros ->. by vm_compute in Hs.
Qed.

Lemma export_line_id text it : export_line text = Some it -> ii_ID it <> "".
Proof.
  unfold export_line. destruct (_ || _); [done|]. pose proof (Fields_nonempty (TrimSpace text)) as Hf.
  destruct (Fields (TrimSpace text)) as [|p [|spec specs]]; try done. apply Forall_cons in Hf as [Hp _].
  destruct (client_specs _ _ _) as [mode writable]. by intros [= <-].
Qed.

Lemma exports_ids contents : Forall (fun it => ii_ID it <> "") (parseExports contents).1.
Proof.
  destruct contents as [text|]; [|constructor]. apply Forall_forall. intros it Hit.
  apply list_elem_of_omap in Hit as (l & _ & Hl). by apply export_line_id in Hl.
Qed.

(** client specs of an export: public when some client is the wildcard, writable when some
    client's options hold rw *)
Definition spec_parts (spec : string) : string * string := default (spec, "") (cut_byte "(" spec).

Lemma client_specs_spec specs mode writable :
  client_specs specs mode writable =
    (if existsb (fun spec => bool_decide ((spec_parts spec).1 = "*")) specs then "public" else mode,
     existsb (fun spec => contains "rw" (spec_parts spec).2) specs || writable).
Proof.
  revert mode writable. induction specs as [|spec specs IH]; intros mode writable; cbn [client_specs existsb]; [done|].
  fold (spec_parts spec). destruct (spec_parts spec) as [client opts] eqn:E. rewrite IH. cbn [fst snd]. f_equal.
  - case_bool_decide; simpl; [by destruct (existsb _ specs)|done].
  - rewrite orb_assoc. f_equal. apply orb_comm.
Qed.

(** *** Properties *)

(** C34: smb.conf is read section by section: with every line read as [reads] says, the SMB
    shares reported are exactly the sections with a name that is not one of Samba's own, in
    the order of the file and under their names, each with the path and the visibility of its
    last such line and the write access of its first, public or not, and nothing of another
    section; an error is reported exactly when the scan failed. (The comment in the code
    would have the write access only on shares that are not public:
    [public_share_has_writable].) *)
Theorem samba_conf_spec text :
  exists lines, Forall2 (fun line l => reads (TrimSpace line) l) (scan_lines text) lines /\
    parseSambaConf (Some text) =
      (reported <$> List.filter (fun sec => bool_decide (sec.1 <> "" /\ ~ samba_own sec.1)) (sections lines).2, scan_failed text).
Proof.
  exists (classify <$> scan_lines text). split.
  - apply Forall2_fmap_r, Forall_Forall2_diag, Forall_forall. intros line _. apply classify_reads.
  - rewrite parseSambaConf_items. f_equal.
    rewrite (List.filter_ext _ _ (fun sec => is_share_own sec.1)). apply list_fmap_ext. intros _ sec _. apply share_item_reported.
Qed.

(** /etc/exports is read line by line: a line yields one share named by its path, public
    exactly when some client is the wildcard, and writable exactly when the options of some
    client hold rw. *)
Theorem export_line_spec text exportPath spec specs :
  has_prefix "#" (TrimSpace text) = false -> Fields (TrimSpace text) = exportPath :: spec :: specs ->
  exists it, export_line text = Some it /\ ii_ID it = exportPath /\
    ii_Attrs it = {[ "path" := exportPath; "protocol" := "nfs";
      "mode" := if existsb (fun s => bool_decide ((spec_parts s).1 = "*")) (spec :: specs) then "public" else "private";
      "writable" := FormatBool (existsb (fun s => contains "rw" (spec_parts s).2) (spec :: specs)) ]}.
Proof.
  intros Hc Hf. unfold export_line. rewrite Hc, orb_false_r.
  destruct (bool_decide_reflect (TrimSpace text = "")) as [E|E]; [by rewrite E in Hf|].
  rewrite Hf, client_specs_spec, orb_false_r. by eexists.
Qed.

Lemma export_line_spec_witness :
  exists it, export_line "/srv/data 10.0.0.0/8(ro) *(rw,sync)" = Some it /\ ii_ID it = "/srv/data" /\
    ii_Attrs it = {[ "path" := "/srv/data"; "protocol" := "nfs"; "mode" := "public"; "writable" := "true" ]}.
Proof. apply (export_line_spec _ "/srv/data" "10.0.0.0/8(ro)" ["*(rw,sync)"]); vm_compute; reflexivity. Defined.

Definition smb_demo : string :=
  foldr (fun l acc => l ++ String newline acc) ""
    ["[global]"; "path = /nowhere"; "# a comment"; "[data]"; "  Path = /srv/old"; "path = /srv/data"; "guest ok = Yes";
     "read only = no"; "writable = no"; "[homes]"; "[backup]"; "path=/srv/backup"].

Example samba_demo :
  parseSambaConf (Some smb_demo) =
    ([mkInventoryItem "data" "data" {[ "path" := "/srv/data"; "mode" := "public"; "writable" := "true"; "protocol" := "smb" ]};
      mkInventoryItem "backup" "backup" {[ "path" := "/srv/backup"; "protocol" := "smb" ]}], false) /\
  Paths (Some smb_demo) (Some "/srv/nfs *(ro)") = {[ "data" := "/srv/data"; "backup" := "/srv/backup"; "/srv/nfs" := "/srv/nfs" ]} /\
  Base "/srv/nfs/" = "nfs" /\ Base "/" = "/".
Proof. split_and!; vm_compute; reflexivity. Qed.

(** The comment in parseSambaConf keeps the write access for shares whose visibility has not
    already made them public; the code asks only whether the attribute is set, so a public
    share has it too. *)
Example public_share_has_writable :
  parseSambaConf (Some (foldr (fun l acc => l ++ String newline acc) "" ["[data]"; "public = yes"; "writable = yes"])) =
    ([mkInventoryItem "data" "data" {[ "mode" := "public"; "writable" := "true"; "protocol" := "smb" ]}], false).
Proof. vm_compute. reflexivity. Qed.

End Shares.

(** ** internal/collector/users *)
Module Users.
Import SambaLine.

Definition defaultUIDMin : Z := 1000.

Record account := mkAccount { a_name : string; a_uid : Z }.

Definition colon : ascii := ":"%char.

(** one line of /etc/passwd *)
Definition passwd_line (minUID : Z) (line : string) : option account :=
  if bool_decide (line = "") || has_prefix "#" line then None else
  match split_byte colon line with
  | name :: _ :: uid :: _ =>
      match Atoi uid with
      | Some uid => if (uid <? minUID) || (uid =? 65534) then None else Some (mkAccount name uid)
      | None => None
      end
  | _ => None
  end.

(** sort.Slice by name *)
Definition account_le (a b : account) : Prop := String.le (a_name a) (a_name b).
Global Instance account_le_dec : RelDecision account_le.
Proof. intros a b. unfold account_le. apply _. Defined.

Definition parsePasswd (contents : option string) (minUID : Z) : list account * bool :=
  match contents with
  | None => ([], true)
  | Some text => (merge_sort account_le (omap (passwd_line minUID) (scan_lines text)), scan_failed text)
  end.

(** the first line of login.defs that sets UID_MIN to a number *)
Definition uid_min_line (text : string) : option Z :=
  let line := TrimSpace text in
  if negb (has_prefix "UID_MIN" line) then None else
  match Fields line with
  | [_; n] => Atoi n
  | _ => None
  end.

Definition uidMin (contents : option string) : Z :=
  match contents with
  | None => defaultUIDMin
  | Some text => default defaultUIDMin (head (omap uid_min_line (scan_lines text)))
  end.

Record sharePerms := mkPerms { sp_read : list string; sp_write : list string }.
Definition no_perms : sharePerms := mkPerms [] [].

Definition addRead (p : sharePerms) (share : string) : sharePerms := mkPerms (sp_read p ++ [share])%list (sp_write p).
Definition addWrite (p : sharePerms) (share : string) : sharePerms := mkPerms (sp_read p) (sp_write p ++ [share])%list.

Definition perms_of (perms : gmap string sharePerms) (user : string) : sharePerms := default no_perms (perms !! user).

Definition grant (add : sharePerms -> string -> sharePerms) (section : string) (perms : gmap string sharePerms) (user : string) :
  gmap string sharePerms := <[user := add (perms_of perms user) section]> perms.

Definition perms_line (st : string * gmap string sharePerms) (text : string) : string * gmap string sharePerms :=
  let '(section, perms) := st in
  match classify text with
  | Skip => st
  | Header s => (s, perms)
  | Setting k v =>
      if bool_decide (section = "") || bool_decide (section = "global") then st else
      let users := Fields v in
      if bool_decide (k = "valid users") then (section, fold_left (grant addRead section) users perms)
      else if bool_decide (k = "write list") then (section, fold_left (grant addWrite section) users perms)
      else st
  end.

Definition parseSambaPermissions (contents : option string) : gmap string sharePerms :=
  match contents with
  | None => ∅
  | Some text => (fold_left perms_line (scan_lines text) ("", ∅)).2
  end.

Definition join_comma (l : list string) : string :=
  match l with
  | [] => ""
  | x :: rest => x ++ foldr (fun s acc => "," ++ s ++ acc) "" rest
  end.

Definition user_item (perms : gmap string sharePerms) (a : account) : InventoryItem :=
  let attrs : gmap string string := {[ "uid" := Itoa (a_uid a) ]} in
  let attrs := match perms !! a_name a with
               | Some p =>
                   let attrs := match sp_write p with [] => attrs | w => <["shares_rw" := join_comma w]> attrs end in
                   match sp_read p with [] => attrs | r => <["shares_ro" := join_comma r]> attrs end
               | None => attrs
               end in
  mkInventoryItem (a_name a) (a_name a) attrs.

Definition Collect (ctxErr : option string) (hostID : string) (now : Z) (passwd loginDefs sambaConf : option string) :
  result string Inventory :=
  let '(accounts, failed) := parsePasswd passwd (uidMin loginDefs) in
  let accounts := if failed then [] else accounts in
  let perms := parseSambaPermissions sambaConf in
  snapshot ctxErr hostID "user" now (user_item perms <$> accounts).

(** *** What smb.conf grants *)

(** the shares some kind of line of smb.conf lists a user for, section by section and as
    often as the user is named *)
Definition listed (key user : string) (secs : list (string * list (string * string))) : list string :=
  concat ((fun sec => concat ((fun kv : string * string =>
    if bool_decide (kv.1 = key) then (fun _ => sec.1) <$> List.filter (fun w => bool_decide (w = user)) (Fields kv.2) else [])
    <$> sec.2)) <$> List.filter (fun sec => negb (bool_decide (sec.1 = "") || bool_decide (sec.1 = "global"))) secs).

Lemma grant_fold add section users perms user :
  perms_of (fold_left (grant add section) users perms) user =
    fold_left add ((fun _ => section) <$> List.filter (fun w => bool_decide (w = user)) users) (perms_of perms user).
Proof.
  revert perms. induction users as [|w users IH]; intros perms; cbn [fold_left List.filter]; [done|].
  rewrite IH. unfold grant, perms_of at 1. case_bool_decide as E.
  - subst w. rewrite lookup_insert_eq. done.
  - rewrite lookup_insert_ne by done. done.
Qed.

Lemma addRead_fold l p : fold_left addRead l p = mkPerms (sp_read p ++ l) (sp_write p).
Proof.
  revert p. induction l as [|x l IH]; intros p; cbn [fold_left]; [destruct p; by rewrite app_nil_r|].
  rewrite IH. cbn. by rewrite <- app_assoc.
Qed.

Lemma addWrite_fold l p : fold_left addWrite l p = mkPerms (sp_read p) (sp_write p ++ l).
Proof.
  revert p. induction l as [|x l IH]; intros p; cbn [fold_left]; [destruct p; by rewrite app_nil_r|].
  rewrite IH. cbn. by rewrite <- app_assoc.
Qed.

Lemma perms_lines section perms lines user :
  perms_of (fold_left perms_line lines (section, perms)).2 user =
    (let '(top, secs) := sections (classify <$> lines) in
     mkPerms (sp_read (perms_of perms user) ++ listed "valid users" user ((section, top) :: secs))
             (sp_write (perms_of perms user) ++ listed "write list" user ((section, top) :: secs)))%list.
Proof.
  revert section perms. induction lines as [|l lines IH]; intros section perms.
  - cbn [fold_left snd sections fmap list_fmap]. unfold listed. cbn [List.filter fst].
    destruct (negb _); cbn; rewrite !app_nil_r; by destruct (perms_of perms user).
  - cbn [fold_left]. rewrite fmap_cons. cbn [sections]. unfold perms_line at 2. destruct (classify l) as [|s|k v].
    + rewrite IH. by destruct (sections (classify <$> lines)).
    + rewrite IH. destruct (sections (classify <$> lines)) as [top secs]. unfold listed. cbn [List.filter fst].
      destruct (negb (bool_decide (section = "") || bool_decide (section = "global"))); [|done]. by rewrite !fmap_cons.
    + destruct (bool_decide (section = "") || bool_decide (section = "global")) eqn:Hs.
      { rewrite IH. destruct (sections (classify <$> lines)) as [top secs]. unfold listed. cbn [List.filter fst].
        by rewrite Hs. }
      assert (forall key top secs, listed key user ((section, (k, v) :: top) :: secs) =
        ((if bool_decide (k = key) then (fun _ => section) <$> List.filter (fun w => bool_decide (w = user)) (Fields v) else []) ++
         listed key user ((section, top) :: secs))%list) as Hcons.
      { intros key top secs. unfold listed. cbn [List.filter fst]. rewrite Hs. cbn [negb]. rewrite !fmap_cons. cbn [fst snd concat].
        rewrite fmap_cons. cbn [concat fst snd]. by rewrite <- app_assoc. }
      destruct (bool_decide_reflect (k = "valid users")) as [->|H1]; [|destruct (bool_decide_reflect (k = "write list")) as [->|H2]].
      * rewrite IH, grant_fold, addRead_fold. destruct (sections (classify <$> lines)) as [top secs]. cbn [sp_read sp_write].
        rewrite !Hcons. rewrite bool_decide_true, bool_decide_false by done. by rewrite <- app_assoc.
      * rewrite IH, grant_fold, addWrite_fold. destruct (sections (classify <$> lines)) as [top secs]. cbn [sp_read sp_write].
        rewrite !Hcons. rewrite bool_decide_false, bool_decide_true by done. by rewrite <- app_assoc.
      * rewrite IH. destruct (sections (classify <$> lines)) as [top secs]. rewrite !Hcons.
        by rewrite !bool_decide_false by done.
Qed.

(** *** Properties *)

(** The share permissions of a user are exactly what smb.conf states: the shares whose
    valid users (and those whose write list) name the user, in the order of the file,
    settings outside any section and of [global] apart. *)
Theorem samba_permissions_spec text user :
  let secs := (sections (classify <$> scan_lines text)).2 in
  perms_of (parseSambaPermissions (Some text)) user = mkPerms (listed "valid users" user secs) (listed "write list" user secs).
Proof.
  cbn zeta. unfold parseSambaPermissions. rewrite perms_lines.
  by destruct (sections (classify <$> scan_lines text)) as [top secs].
Qed.

(** The accounts reported are exactly those of /etc/passwd with a numeric UID of at least
    UID_MIN other than nobody's, once per line and sorted by name. *)
Theorem passwd_spec text minUID :
  let accounts := (parsePasswd (Some text) minUID).1 in
  StronglySorted account_le accounts /\ accounts ≡ₚ omap (passwd_line minUID) (scan_lines text) /\
  Forall (fun a => minUID <= a_uid a /\ a_uid a <> 65534) accounts.
Proof.
  cbn. assert (merge_sort account_le (omap (passwd_line minUID) (scan_lines text)) ≡ₚ omap (passwd_line minUID) (scan_lines text))
    as Hp by apply merge_sort_Permutation.
  split_and!; [|done|].
  - assert (Transitive account_le) by (intros a b c Hab Hbc; unfold account_le in *; by etrans).
    assert (Total account_le) by (intros a b; apply (total String.le)).
    apply (StronglySorted_merge_sort account_le).
  - rewrite Hp. apply Forall_forall. intros a Ha. apply list_elem_of_omap in Ha as (line & _ & Ha).
    unfold passwd_line in Ha. destruct (_ || has_prefix _ _); [done|].
    destruct (split_byte colon line) as [|name [|pw [|uid rest]]]; try done.
    destruct (Atoi uid) as [u|]; [|done]. destruct (Z.ltb_spec u minUID); [done|].
    destruct (Z.eqb_spec u 65534); [done|]. injection Ha as <-. simpl. lia.
Qed.

Definition text_of (ls : list string) : string := foldr (fun l acc => l ++ String newline acc) "" ls.

Example users_demo :
  Collect None "h1" 5 (Some (text_of ["root:x:0:0::/root:/bin/sh"; "zoe:x:1001:100::/home/zoe:/bin/sh"; "ana:x:1000:100:::"; "nobody:x:65534:1:::"]))
    None (Some (text_of ["[global]"; "valid users = zoe"; "[data]"; "valid users = ana zoe"; "write list = ana"])) =
  Ok (mkInventory "h1" "user" 5 1
    [mkInventoryItem "ana" "ana" {[ "uid" := "1000"; "shares_rw" := "data"; "shares_ro" := "data" ]};
     mkInventoryItem "zoe" "zoe" {[ "uid" := "1001"; "shares_ro" := "data" ]}]).
Proof. vm_compute. reflexivity. Qed.

(** an entry of /etc/passwd without a name makes the whole inventory invalid *)
Example passwd_nameless_entry_invalidates :
  match Collect None "h1" 5 (Some (text_of ["ana:x:1000:100:::"; ":x:1001:100:::"])) None None with
  | Ok inv => Inventory_Validate inv
  | Err _ => Ok tt
  end = Err (ErrItemIDRequired 0).
Proof. vm_compute. reflexivity. Qed.

(** the shares reader skips [Global] in any case, this one only in lower case *)
Example global_section_case :
  perms_of (parseSambaPermissions (Some (text_of ["[Global]"; "valid users = ana"]))) "ana" = mkPerms ["Global"] [] /\
  Shares.is_share "Global" = false.
Proof. vm_compute. done. Qed.

End Users.

(** ** internal/collector/diskarray *)
Module DiskArray.

Definition pseudoFSTypes : list string :=
  ["proc"; "sysfs"; "devtmpfs"; "tmpfs"; "cgroup"; "cgroup2"; "overlay"; "squashfs"; "devpts"; "mqueue"; "debugfs"; "tracefs";
   "securityfs"; "pstore"; "bpf"; "autofs"; "binfmt_misc"; "hugetlbfs"; "configfs"; "fusectl"; "nsfs"; "efivarfs"; "rpc_pipefs"].

Record mountEntry := mkMount { device : string; mountpoint : string; fsType : string }.

Definition backslash : ascii := "092"%char.
Definition tab : ascii := "009"%char.

(** strings.NewReplacer over the four escapes: left to right, without rescanning *)
Definition escapes : list (string * ascii) := [("040", " "%char); ("011", tab); ("012", newline); ("134", backslash)].

Definition unescape_at (rest : string) : option (ascii * string) :=
  match rest with
  | String a (String b (String c rest')) =>
      (fun e : string * ascii => (e.2, rest')) <$> head (List.filter (fun e => bool_decide (e.1 = String a (String b (String c "")))) escapes)
  | _ => None
  end.

Fixpoint unescape_go (fuel : nat) (s : string) : string :=
  match fuel, s with
  | _, "" => ""
  | O, _ => s
  | S fuel, String c rest =>
      if bool_decide (c = backslash) then
        match unescape_at rest with
        | Some (d, rest') => String d (unescape_go fuel rest')
        | None => String c (unescape_go fuel rest)
        end
      else String c (unescape_go fuel rest)
  end.
(** each step consumes a byte, so the length is enough fuel *)
Definition unescapeMountField (s : string) : string := unescape_go (String.length s) s.

Definition mount_line (text : string) : option mountEntry :=
  match Fields text with
  | device :: mountpoint :: fsType :: _ =>
      if bool_decide (fsType ∈ pseudoFSTypes) || negb (has_prefix "/dev/" device) then None
      else Some (mkMount device (unescapeMountField mountpoint) fsType)
  | _ => None
  end.

Definition readRealMounts (contents : option string) : list mountEntry * bool :=
  match contents with
  | None => ([], true)
  | Some text => (omap mount_line (scan_lines text), scan_failed text)
  end.

(** what statfs(2) reports *)
Record Statfs_t := mkStatfs { Bsize : Z; Blocks : Z; Bfree : Z; Bavail : Z }.
Record diskUsage := mkUsage { total : Z; used : Z; available : Z }.

Definition statfsUsage (st : option Statfs_t) : option diskUsage :=
  match st with
  | None => None
  | Some st =>
      let bsize := uint64 (Bsize st) in
      let total := uint64 (Blocks st * bsize) in
      let free := uint64 (Bfree st * bsize) in
      let avail := uint64 (Bavail st * bsize) in
      if total <? free then None else Some (mkUsage total (total - free) avail)
  end.

(** the loop that drops the trailing digits *)
Fixpoint trim_digits (s : string) : string :=
  match s with
  | "" => ""
  | String c rest => match trim_digits rest with
                     | "" => if is_digit c then "" else String c ""
                     | r => String c r
                     end
  end.

Definition baseDeviceName (devicePath : string) : string :=
  let name := trim_prefix devicePath "/dev/" in
  if has_prefix "nvme" name then
    match cut_last_byte "p" name with
    | Some (disk, part) => if negb (bool_decide (disk = "")) then match Atoi part with Some _ => disk | None => name end else name
    | None => name
    end
  else if has_prefix "sd" name then
    let disk := trim_digits name in
    if (2 <? String.length disk)%nat then disk else name
  else name.

Record smartIdentity := mkIdentity { model : string; serial : string }.

Definition disk_item (statfs : string -> option Statfs_t) (smart : gmap string smartIdentity) (m : mountEntry) : InventoryItem :=
  let attrs : gmap string string := {[ "device" := device m; "fstype" := fsType m ]} in
  let attrs := match statfsUsage (statfs (mountpoint m)) with
               | Some usage => <["available_bytes" := show (available usage)]> (<["used_bytes" := show (used usage)]>
                                 (<["capacity_bytes" := show (total usage)]> attrs))
               | None => attrs
               end in
  let attrs := match smart !! baseDeviceName (device m) with
               | Some id =>
                   let attrs := if bool_decide (model id = "") then attrs else <["model" := model id]> attrs in
                   if bool_decide (serial id = "") then attrs else <["serial" := serial id]> attrs
               | None => attrs
               end in
  mkInventoryItem (mountpoint m) (mountpoint m) attrs.

(** the smart entry of the spool; the two json.Unmarshal calls are parameters *)
Definition readSMARTIdentities (decodeDevices : string -> option (gmap string string)) (decodeDevice : string -> option smartIdentity)
    (entries : option (gmap string Spool.Entry)) : gmap string smartIdentity :=
  match entries with
  | None => ∅
  | Some entries =>
      match entries !! "smart" with
      | None => ∅
      | Some entry => match decodeDevices (Spool.Data entry) with
                      | None => ∅
                      | Some devices => omap decodeDevice devices
                      end
      end
  end.

(** Collect, given the identities read from the spool *)
Definition Collect (ctxErr : option string) (hostID : string) (now : Z) (mounts : option string)
    (statfs : string -> option Statfs_t) (smart : gmap string smartIdentity) : result string Inventory :=
  let '(mounts, failed) := readRealMounts mounts in
  let mounts := if failed then [] else mounts in
  snapshot ctxErr hostID "disk" now (disk_item statfs smart <$> mounts).

(** *** The kernel's side of /proc/mounts *)

Definition mangled (c : ascii) : option string :=
  fst <$> head (List.filter (fun e : string * ascii => bool_decide (e.2 = c)) escapes).

(** how the kernel writes a path *)
Fixpoint mangle (s : string) : string :=
  match s with
  | "" => ""
  | String c rest => match mangled c with
                     | Some e => String backslash (e ++ mangle rest)
                     | None => String c (mangle rest)
                     end
  end.

Lemma mangled_cases c :
  (exists e, mangled c = Some e /\ (forall rest, unescape_at (e ++ rest) = Some (c, rest))) \/
  (mangled c = None /\ c <> backslash).
Proof.
  unfold mangled, escapes. cbn [List.filter snd].
  repeat (case_bool_decide; [left; subst c; eexists; split; [vm_compute; reflexivity|intros rest; vm_compute; reflexivity]|]).
  right. split; [done|congruence].
Qed.

Lemma unescape_mangle_go fuel s : (String.length (mangle s) <= fuel)%nat -> unescape_go fuel (mangle s) = s.
Proof.
  revert fuel. induction s as [|c s IH]; intros fuel Hf; cbn [mangle] in *; [by destruct fuel|].
  destruct (mangled_cases c) as [(e & Hm & Hu)|[Hm Hne]]; rewrite Hm in *; cbn [String.length] in Hf;
    (destruct fuel as [|fuel]; [lia|]); cbn [unescape_go].
  - rewrite bool_decide_true by done. rewrite Hu, IH; [done|]. rewrite str_length_app in Hf. lia.
  - rewrite bool_decide_false by done. f_equal. apply IH. lia.
Qed.

Definition digits_only (s : string) : Prop := forall c, c ∈ String.list_ascii_of_string s -> is_digit c = true.

Lemma trim_digits_only s : digits_only s -> trim_digits s = "".
Proof.
  induction s as [|c s IH]; intros Hs; [done|]. cbn [trim_digits]. rewrite IH by (intros d Hd; apply Hs; by right).
  by rewrite (Hs c) by by left.
Qed.

(** a name that ends in something else than a digit, with a number after it *)
Lemma trim_digits_app a c n : is_digit c = false -> digits_only n -> trim_digits (a ++ String c n) = a ++ String c "".
Proof.
  intros Hc Hn. induction a as [|d a IH].
  - change ("" ++ String c n) with (String c n). cbn [trim_digits]. by rewrite trim_digits_only, Hc.
  - change (String d a ++ String c n) with (String d (a ++ String c n)). cbn [trim_digits]. rewrite IH. by destruct a.
Qed.

Lemma show_digits_only z : 0 <= z -> digits_only (show z).
Proof. intros Hz c. by apply show_digits. Qed.

(** *** Properties *)

(** Mount points survive /proc/mounts: what the kernel writes with its escapes for blanks,
    tabs, line feeds and backslashes is read back as the path it was. *)
Theorem mount_path_roundtrip s : unescapeMountField (mangle s) = s.
Proof. unfold unescapeMountField. by apply unescape_mangle_go. Qed.

(** A partition is attributed to its disk and a disk to itself, for both naming schemes:
    sd with letters, and nvme controllers and namespaces with a p before the partition. *)
Theorem base_device_spec (letters : string) (last : ascii) (ctrl ns part : Z) :
  is_digit last = false -> 0 <= ctrl -> 0 <= ns -> 0 <= part <= max_int64 ->
  let sd := "sd" ++ letters ++ String last "" in
  let nvme := "nvme" ++ show ctrl ++ "n" ++ show ns in
  baseDeviceName ("/dev/" ++ sd ++ show part) = sd /\ baseDeviceName ("/dev/" ++ sd) = sd /\
  baseDeviceName ("/dev/" ++ nvme ++ "p" ++ show part) = nvme /\ baseDeviceName ("/dev/" ++ nvme) = nvme.
Proof.
  intros Hl Hc Hn Hp sd nvme. unfold baseDeviceName. rewrite !trim_prefix_app.
  assert (forall n, digits_only n -> trim_digits (sd ++ n) = sd) as Hsd.
  { intros n Hd. assert (sd = ("sd" ++ letters) ++ String last "") as Es by (unfold sd; by rewrite str_app_assoc).
    assert (sd ++ n = ("sd" ++ letters) ++ String last n) as -> by (rewrite Es, <- str_app_assoc; done).
    by rewrite trim_digits_app, Es. }
  assert (2 <? String.length sd = true)%nat as Hlen.
  { apply Nat.ltb_lt. unfold sd. rewrite !str_length_app. cbn [String.length]. lia. }
  assert (forall n, has_prefix "nvme" (sd ++ n) = false /\ has_prefix "sd" (sd ++ n) = true) as Hpre.
  { intros n. split; [reflexivity|]. unfold sd. rewrite <- str_app_assoc. apply has_prefix_app. }
  assert (forall n, has_prefix "nvme" (nvme ++ n) = true) as Hnv.
  { intros n. unfold nvme. rewrite <- str_app_assoc. apply has_prefix_app. }
  assert (lacks "p" nvme = true) as Hlp.
  { unfold nvme. rewrite !lacks_app, !show_lacks by done. reflexivity. }
  pose proof (Hpre (show part)) as [-> ->]. pose proof (Hpre "") as [H1 H2]. rewrite str_app_nil_r in H1, H2. rewrite H1, H2.
  rewrite (Hsd (show part)) by by apply show_digits_only; lia.
  pose proof (Hsd "" ltac:(intros c Hin; by apply elem_of_nil in Hin)) as Hsd0. rewrite str_app_nil_r in Hsd0. rewrite Hsd0, Hlen.
  pose proof (Hnv "") as Hnv0. rewrite str_app_nil_r in Hnv0. rewrite Hnv, Hnv0.
  split_and!; [done|done| |].
  - change ("p" ++ show part) with (String "p" (show part)). rewrite cut_last_byte_app by (apply show_lacks; [lia|done]).
    rewrite bool_decide_false by done. cbn [negb]. by rewrite Atoi_show.
  - by rewrite cut_last_byte_lacks.
Qed.

Lemma base_device_spec_witness :
  baseDeviceName "/dev/sdab12" = "sdab" /\ baseDeviceName "/dev/nvme0n1p3" = "nvme0n1".
Proof.
  destruct (base_device_spec "a" "b" 0 1 12 eq_refl ltac:(lia) ltac:(lia) ltac:(unfold max_int64; lia)) as (H1 & _).
  destruct (base_device_spec "a" "b" 0 1 3 eq_refl ltac:(lia) ltac:(lia) ltac:(unfold max_int64; lia)) as (_ & _ & H3 & _).
  split; [exact H1|exact H3].
Defined.

(** the capacity figures, for a file system whose size fits 64 bits *)
Lemma statfs_usage_spec st :
  0 <= Bsize st < 2 ^ 63 -> 0 <= Bavail st <= Bfree st -> Bfree st <= Blocks st -> Blocks st * Bsize st < 2 ^ 64 ->
  exists usage, statfsUsage (Some st) = Some usage /\ total usage = Blocks st * Bsize st /\
    used usage = (Blocks st - Bfree st) * Bsize st /\ used usage + available usage <= total usage.
Proof.
  intros Hb Ha Hf Ht. unfold statfsUsage. unfold uint64. rewrite (wrap_u_small 64 (Bsize st)) by lia.
  rewrite !wrap_u_small by nia. destruct (Z.ltb_spec (Blocks st * Bsize st) (Bfree st * Bsize st)); [nia|].
  eexists. split; [done|]. cbn. split_and!; [done|lia|nia].
Qed.

(** other schemes with a partition number keep it: the disk's identity is not found *)
Example virtio_partition_kept : baseDeviceName "/dev/vda1" = "vda1" /\ baseDeviceName "/dev/mmcblk0p1" = "mmcblk0p1".
Proof. vm_compute. done. Qed.

(** the kernel also escapes the number sign, which is left as it is *)
Example number_sign_not_decoded : unescapeMountField (String backslash "043") = String backslash "043".
Proof. vm_compute. reflexivity. Qed.

End DiskArray.

(** ** internal/collector/ups: the NUT protocol *)
Module Ups.

Definition space : ascii := " "%char.
Definition quote : ascii := "034"%char.

(** strings.Trim(s, the double quote) *)
Definition trim_quotes (s : string) : string :=
  foldr (fun c acc => if bool_decide (c = quote) && bool_decide (acc = "") then "" else String c acc) ""
    (String.list_ascii_of_string (trim_left_byte quote s)).

(** The connection: the lines received and not read yet, what the server answers to a
    command, and whether the deadline of the connection has passed. A read with nothing to
    read waits until it has. *)
Record Conn := mkConn { pending : list string; expired : bool }.

Section nut.
Context (server : string -> list string).

Definition send (c : Conn) (cmd : string) : option Conn :=
  if expired c then None else Some (mkConn (pending c ++ server cmd)%list false).

(** the loop of listUPSNames over the lines to come: the names and the lines left *)
Fixpoint names_loop (lines : list string) (names : list string) : option (list string * list string) :=
  match lines with
  | [] => None
  | line :: rest =>
      let line := TrimSpace line in
      if has_prefix "END LIST UPS" line then Some (names, rest)
      else if negb (has_prefix "UPS " line) then names_loop rest names
      else match cut_byte space line with
           | Some (_, r) => let name := match cut_byte space r with Some (n, _) => n | None => r end in
                            names_loop rest (names ++ [name])%list
           | None => names_loop rest names
           end
  end.

Definition listUPSNames (c : Conn) : option (list string) * Conn :=
  match send c "LIST UPS" with
  | None => (None, c)
  | Some c => match names_loop (pending c) [] with
              | Some (names, rest) => (Some names, mkConn rest false)
              | None => (None, mkConn [] true)
              end
  end.

(** the loop of listUPSVars *)
Fixpoint vars_loop (lines : list string) (vars : gmap string string) : option (gmap string string * list string) :=
  match lines with
  | [] => None
  | line :: rest =>
      let line := TrimSpace line in
      if has_prefix "END LIST VAR" line then Some (vars, rest)
      else if negb (has_prefix "VAR " line) then vars_loop rest vars
      else match (a ← cut_byte space line; b ← cut_byte space a.2; cut_byte space b.2) with
           | Some (varName, value) => vars_loop rest (<[varName := trim_quotes value]> vars)
           | None => vars_loop rest vars
           end
  end.

Definition listUPSVars (c : Conn) (name : string) : option (gmap string string) * Conn :=
  match send c ("LIST VAR " ++ name) with
  | None => (None, c)
  | Some c => match vars_loop (pending c) ∅ with
              | Some (vars, rest) => (Some vars, mkConn rest false)
              | None => (None, mkConn [] true)
              end
  end.

Definition copy_attr (vars : gmap string string) (var attr : string) (attrs : gmap string string) : gmap string string :=
  match vars !! var with Some v => <[attr := v]> attrs | None => attrs end.

Definition buildItem (name : string) (vars : gmap string string) : InventoryItem :=
  let attrs := match vars !! "ups.status" with
               | Some status => {[ "status" := status; "on_battery" := FormatBool (contains "OB" status) ]}
               | None => ∅
               end in
  mkInventoryItem name name
    (copy_attr vars "ups.model" "model" (copy_attr vars "battery.runtime" "runtime_seconds"
      (copy_attr vars "battery.charge" "battery_charge_pct" attrs))).

(** one UPS failing to respond is skipped *)
Fixpoint ups_loop (c : Conn) (names : list string) : list InventoryItem :=
  match names with
  | [] => []
  | name :: rest =>
      let '(vars, c) := listUPSVars c name in
      match vars with
      | Some vars => buildItem name vars :: ups_loop c rest
      | None => ups_loop c rest
      end
  end.

(** [dialed]: whether the connection could be opened *)
Definition readNUT (dialed : bool) : option (list InventoryItem) :=
  if negb dialed then None else
  let '(names, c) := listUPSNames (mkConn [] false) in
  match names with
  | None => None
  | Some names => Some (ups_loop c names)
  end.

Definition Collect (ctxErr : option string) (hostID : string) (now : Z) (dialed : bool) : result string Inventory :=
  snapshot ctxErr hostID "ups" now (default [] (readNUT dialed)).

End nut.

(** *** A server that answers as the protocol says *)

Record ups := mkUps { u_name : string; u_desc : string; u_vars : list (string * string) }.

Definition quoted (v : string) : string := String quote (v ++ String quote "").
Definition ups_line (u : ups) : string := "UPS " ++ u_name u ++ " " ++ quoted (u_desc u).
Definition var_line (name : string) (kv : string * string) : string := "VAR " ++ name ++ " " ++ kv.1 ++ " " ++ quoted kv.2.
Definition names_reply (us : list ups) : list string := "BEGIN LIST UPS" :: (ups_line <$> us) ++ ["END LIST UPS"].
Definition vars_reply (u : ups) : list string :=
  ("BEGIN LIST VAR " ++ u_name u)%string :: (var_line (u_name u) <$> u_vars u) ++ [("END LIST VAR " ++ u_name u)%string].

Definition token (s : string) : Prop := s <> "" /\ no_space s.
Record ups_ok (u : ups) : Prop := mkUpsOk {
  uo_name : token (u_name u);
  uo_vars : Forall (fun kv => token kv.1 /\ lacks quote kv.2 = true) (u_vars u);
}.

Definition vars_of (kvs : list (string * string)) : gmap string string := fold_left (fun m kv => <[kv.1 := kv.2]> m) kvs ∅.

Lemma token_lacks s : token s -> lacks space s = true.
Proof. intros [_ Hs]. apply lacks_of_all. intros d Hd ->. by pose proof (Hs space Hd). Qed.

Lemma cut_token s rest : token s -> cut_byte space (s ++ " " ++ rest) = Some (s, rest).
Proof. intros Hs. change (" " ++ rest)%string with (String space rest). by apply cut_byte_lacks_app, token_lacks. Qed.

Lemma quote_no_space : no_space (String quote "").
Proof. intros c [->|Hc]%elem_of_cons; [done|by apply elem_of_nil in Hc]. Qed.

Lemma trim_quotes_quoted v : lacks quote v = true -> trim_quotes (quoted v) = v.
Proof.
  intros Hv. unfold trim_quotes, quoted. cbn [trim_left_byte]. rewrite decide_True by done.
  assert (forall w, lacks quote w = true -> trim_left_byte quote (w ++ String quote "") = if bool_decide (w = "") then "" else (w ++ String quote "")%string) as Htl.
  { intros [|c w] Hw; [done|]. rewrite str_app_cons. cbn [trim_left_byte lacks] in *. apply andb_true_iff in Hw as [Hc%bool_decide_eq_true _].
    by rewrite decide_False by congruence. }
  rewrite Htl by done. case_bool_decide; [by subst|]. clear Htl. revert H Hv. clear.
  set (f := fun c acc => _). assert (forall w, lacks quote w = true -> foldr f "" (String.list_ascii_of_string (w ++ String quote "")) = w) as Hw; [|by intros _; apply Hw].
  induction w as [|c w IH]; intros Hw; [done|]. rewrite str_app_cons. cbn [String.list_ascii_of_string foldr]. cbn [lacks] in Hw.
  apply andb_true_iff in Hw as [Hc%bool_decide_eq_true Hw]. rewrite IH by done. unfold f. by rewrite bool_decide_false by congruence.
Qed.

Lemma names_loop_ok us names :
  Forall ups_ok us -> names_loop ((ups_line <$> us) ++ ["END LIST UPS"]) names = Some ((names ++ (u_name <$> us))%list, []).
Proof.
  intros Hus. revert names. induction Hus as [|u us Hu Hus IH]; intros names; [by rewrite app_nil_r|].
  rewrite fmap_cons. cbn [app names_loop].
  assert (TrimSpace (ups_line u) = ups_line u) as ->.
  { unfold ups_line, quoted. pose proof (TrimSpace_ends "U" ("PS " ++ u_name u ++ " " ++ String quote (u_desc u)) (String quote "") eq_refl ltac:(done) quote_no_space) as H.
    by rewrite <- !str_app_assoc in H. }
  change (has_prefix "END LIST UPS" (ups_line u)) with false. change (has_prefix "UPS " (ups_line u)) with true. cbn [negb].
  change (ups_line u) with ("UPS" ++ String space (u_name u ++ " " ++ quoted (u_desc u)))%string.
  rewrite cut_byte_lacks_app by done. rewrite cut_token by apply (uo_name _ Hu).
  rewrite IH. by rewrite <- app_assoc.
Qed.

Lemma vars_loop_ok u vars :
  ups_ok u ->
  vars_loop ((var_line (u_name u) <$> u_vars u) ++ [("END LIST VAR " ++ u_name u)%string]) vars =
    Some (fold_left (fun m kv => <[kv.1 := kv.2]> m) (u_vars u) vars, []).
Proof.
  intros [Hn Hv]. revert vars. induction Hv as [|[k v] kvs [Hk Hq] Hv IH]; intros vars.
  - cbn [fmap list_fmap app vars_loop]. pose proof (TrimSpace_ends "E" "ND LIST VAR " (u_name u) eq_refl (proj1 Hn) (proj2 Hn)) as H.
    change (String "E" ("ND LIST VAR " ++ u_name u)) with ("END LIST VAR " ++ u_name u)%string in H. rewrite H.
    change ("END LIST VAR " ++ u_name u)%string with ("END LIST VAR" ++ (" " ++ u_name u))%string. by rewrite has_prefix_app.
  - rewrite fmap_cons. cbn [app vars_loop fst snd] in *.
    assert (TrimSpace (var_line (u_name u) (k, v)) = var_line (u_name u) (k, v)) as ->.
    { unfold var_line, quoted. cbn [fst snd].
      pose proof (TrimSpace_ends "V" ("AR " ++ u_name u ++ " " ++ k ++ " " ++ String quote v) (String quote "") eq_refl ltac:(done) quote_no_space) as H.
      by rewrite <- !str_app_assoc in H. }
    change (has_prefix "END LIST VAR" (var_line (u_name u) (k, v))) with false. change (has_prefix "VAR " (var_line (u_name u) (k, v))) with true.
    cbn [negb]. change (var_line (u_name u) (k, v)) with ("VAR" ++ String space (u_name u ++ " " ++ (k ++ " " ++ quoted v)))%string.
    rewrite cut_byte_lacks_app by done. cbn [mbind option_bind snd]. rewrite cut_token by done. cbn [mbind option_bind snd].
    rewrite cut_token by done. rewrite trim_quotes_quoted by done. by rewrite IH.
Qed.

(** *** Properties *)

(** Every UPS of a NUT server is reported, in the server's order, with the variables it has:
    the two LIST commands are sent and parsed back for whatever names, descriptions and
    values the server lists. *)
Theorem nut_roundtrip (server : string -> list string) (us : list ups) :
  Forall ups_ok us -> server "LIST UPS" = names_reply us ->
  (forall u, u ∈ us -> server ("LIST VAR " ++ u_name u)%string = vars_reply u) ->
  readNUT server true = Some ((fun u => buildItem (u_name u) (vars_of (u_vars u))) <$> us).
Proof.
  intros Hok Hnames Hvars. unfold readNUT. cbn [negb]. unfold listUPSNames, send. cbn [expired pending app].
  rewrite Hnames. unfold names_reply. cbn [names_loop]. change (TrimSpace "BEGIN LIST UPS") with "BEGIN LIST UPS".
  change (has_prefix "END LIST UPS" "BEGIN LIST UPS") with false. change (has_prefix "UPS " "BEGIN LIST UPS") with false. cbn [negb].
  rewrite names_loop_ok by done. f_equal. cbn [app]. clear Hnames.
  induction Hok as [|u us Hu Hok IH]; [done|]. rewrite !fmap_cons. cbn [ups_loop]. unfold listUPSVars, send. cbn [expired pending app].
  rewrite (Hvars u) by by left. unfold vars_reply. cbn [vars_loop].
  destruct (TrimSpace_head "B" ("EGIN LIST VAR " ++ u_name u) eq_refl) as [r Hr].
  change (String "B" ("EGIN LIST VAR " ++ u_name u)) with ("BEGIN LIST VAR " ++ u_name u)%string in Hr. rewrite Hr.
  change (has_prefix "END LIST VAR" (String "B" r)) with false. change (has_prefix "VAR " (String "B" r)) with false. cbn [negb].
  rewrite vars_loop_ok by done. f_equal. apply IH. intros u' Hu'. apply Hvars. by right.
Qed.

Definition demo_ups : list ups :=
  [mkUps "rack" "main" [("ups.status", "OB DISCHRG"); ("battery.charge", "87")]; mkUps "desk" "a desk" [("ups.model", "Back UPS")]].
Definition demo_server (cmd : string) : list string :=
  if decide (cmd = "LIST UPS") then names_reply demo_ups
  else default ["ERR UNKNOWN-UPS"] (vars_reply <$> head (List.filter (fun u => bool_decide (cmd = "LIST VAR " ++ u_name u)%string) demo_ups)).

Lemma no_space_check s : existsb is_space (String.list_ascii_of_string s) = false -> no_space s.
Proof.
  intros H c Hc. apply not_true_is_false. intros E.
  assert (existsb is_space (String.list_ascii_of_string s) = true); [|congruence].
  apply existsb_exists. exists c. by rewrite <- list_elem_of_In.
Qed.

Lemma nut_roundtrip_witness :
  readNUT demo_server true = Some ((fun u => buildItem (u_name u) (vars_of (u_vars u))) <$> demo_ups).
Proof.
  apply (nut_roundtrip demo_server demo_ups).
  - unfold demo_ups. repeat (apply Forall_cons; split); try apply Forall_nil; try done; (split; [split; [done|by apply no_space_check]|]);
      cbn [u_vars]; repeat (apply Forall_cons; split); try apply Forall_nil; try done; (split; [split; [done|by apply no_space_check]|done]).
  - reflexivity.
  - intros u Hu. unfold demo_ups in Hu. apply elem_of_cons in Hu as [->|Hu]; [reflexivity|].
    apply elem_of_cons in Hu as [->|Hu]; [reflexivity|by apply elem_of_nil in Hu].
Defined.

(** A UPS the server refuses to list is waited for until the deadline of the connection,
    and every UPS after it is lost with it. *)
Example stale_ups_hides_the_rest :
  let server cmd := if decide (cmd = "LIST VAR rack") then ["ERR DATA-STALE"] else demo_server cmd in
  List.map ii_ID (default [] (readNUT server true)) = [] /\ List.map ii_ID (default [] (readNUT demo_server true)) = ["rack"; "desk"].
Proof. vm_compute. done. Qed.

End Ups.

(** ** Every inventory is valid *)
Module Valid.

Lemma check_items_ok i items : Forall (fun it => ii_ID it <> "") items -> check_items i items = Ok tt.
Proof.
  intros H. revert i. induction H as [|it items Hit H IH]; intros i; cbn [check_items]; [done|].
  rewrite bool_decide_false by done. apply IH.
Qed.

Lemma snapshot_valid hostID kind now items inv :
  hostID <> "" -> kind <> "" -> GoTime.is_zero now = false -> Forall (fun it => ii_ID it <> "") items ->
  snapshot None hostID kind now items = Ok inv -> Inventory_Validate inv = Ok tt.
Proof.
  intros Hh Hk Hn Hi [= <-]. unfold Inventory_Validate. cbn [inv_HostID inv_Kind inv_ReportedAt inv_Schema inv_Items].
  rewrite !bool_decide_false by done. rewrite Hn. cbn. by apply check_items_ok.
Qed.

Lemma unless_failed_ids r : Forall (fun it => ii_ID it <> "") r.1 -> Forall (fun it => ii_ID it <> "") (Shares.unless_failed r).
Proof. unfold Shares.unless_failed. by destruct r.2. Qed.

Lemma unescape_nonempty fuel s : s <> "" -> DiskArray.unescape_go fuel s <> "".
Proof.
  destruct s as [|c s]; [done|]. intros _. destruct fuel as [|fuel]; [done|]. cbn [DiskArray.unescape_go].
  case_bool_decide; [|done]. by destruct (DiskArray.unescape_at s) as [[d r]|].
Qed.

Lemma mount_ids contents statfs smart :
  Forall (fun it => ii_ID it <> "") (DiskArray.disk_item statfs smart <$> (DiskArray.readRealMounts contents).1).
Proof.
  destruct contents as [text|]; [|constructor]. apply Forall_fmap, Forall_forall. intros m Hm.
  apply list_elem_of_omap in Hm as (line & _ & Hm). unfold DiskArray.mount_line in Hm.
  pose proof (Fields_nonempty line) as Hf. destruct (Fields line) as [|dev [|mp [|fs rest]]]; try done.
  apply Forall_cons in Hf as [_ Hf]. apply Forall_cons in Hf as [Hmp _]. destruct (_ || negb _); [done|]. injection Hm as <-.
  by apply unescape_nonempty.
Qed.

(** Whatever the configuration files, mount table and file systems hold, the share and disk
    inventories pass the schema's validation: no malformed line can cost the whole
    snapshot. *)
Theorem inventories_valid hostID now smb exports mounts statfs smart inv :
  hostID <> "" -> GoTime.is_zero now = false ->
  Shares.Collect None hostID now smb exports = Ok inv \/ DiskArray.Collect None hostID now mounts statfs smart = Ok inv ->
  Inventory_Validate inv = Ok tt.
Proof.
  intros Hh Hn [H|H].
  - unfold Shares.Collect in H. eapply snapshot_valid in H; try done. apply Forall_app. split; apply unless_failed_ids;
      [apply Shares.samba_ids|apply Shares.exports_ids].
  - unfold DiskArray.Collect in H. pose proof (mount_ids mounts statfs smart) as Hi. destruct (DiskArray.readRealMounts mounts) as [ms failed].
    eapply snapshot_valid in H; try done. by destruct failed.
Qed.

Lemma inventories_valid_witness :
  Inventory_Validate (mkInventory "h1" "share" 5 1 [mkInventoryItem "data" "data" {[ "protocol" := "smb" ]}]) = Ok tt.
Proof.
  apply (inventories_valid "h1" 5 (Some "[data]") None None (fun _ => None) ∅); [done|done|]. left. reflexivity.
Defined.

End Valid.
