(* ===== verification/Jobs.v ===== *)
(** * Jobs: the command wrapper and what it records

    Models internal/schema/job.go, internal/runstats (the extractors and their choice),
    internal/execwrap (running and ending the child), cmd/bitacora-run (job.go, main.go)
    and internal/jobwriter.

    Output is a byte string. The regular expressions of the extractors are written out as
    matchers. The child of execwrap is a [Child]: when it would end by itself, how it reacts
    to SIGTERM, and when the last holder of its output pipes lets go of them; time is a
    number of nanoseconds since the start. *)

From stdpp Require Import base gmap strings list.
From Stdlib Require Import ZArith Lia Ascii.
From S2P Require Import Prelude GoStd GoConv GoIO GoFlag Schema AtomicFile Spool Inventories.
Import GoString GoConv GoIO GoTime.

Local Open Scope string_scope.
Local Open Scope Z_scope.
Local Open Scope go_scope.

(** ** internal/schema/job.go *)
Module Job.

Definition JobRunning := "running".
Definition JobSuccess := "success".
Definition JobWarning := "warning".
Definition JobFailed := "failed".
Definition JobTimeout := "timeout".
Definition JobKilled := "killed".

Definition status_valid (s : string) : bool :=
  bool_decide (s ∈ [JobRunning; JobSuccess; JobWarning; JobFailed; JobTimeout; JobKilled]).

Abbreviation JobStats := (gmap string Z) (only parsing).

Definition StatFilesTransferred := "files_transferred".
Definition StatBytesTransferred := "bytes_transferred".
Definition StatFilesDeleted := "files_deleted".
Definition StatFilesChecked := "files_checked".
Definition StatErrors := "errors".

Record JobLogRef := mkJobLogRef { jl_BlockID : string; jl_From : Z; jl_To : Z }.

Record Job := mkJob {
  ID : string;
  JobName : string;
  HostID : string;
  StartedAt : Time;
  FinishedAt : Time;
  DurationSecond : GoFloat.float64;
  Status : string;
  ExitCode : Z;
  Signal : string;
  Stats : gmap string Z;
  PeerHostID : string;
  Trigger : string;
  NextExpected : Time;
  LogRefs : list JobLogRef;
  Schema_ : Z;
}.

Inductive JobError : Set :=
| ErrID | ErrJobName | ErrHostID | ErrStartedAt | ErrStatus | ErrSchema.

Definition Validate (j : Job) : result JobError unit :=
  fail_if bool_decide (ID j = "") with ErrID;
  fail_if bool_decide (JobName j = "") with ErrJobName;
  fail_if bool_decide (HostID j = "") with ErrHostID;
  fail_if is_zero (StartedAt j) with ErrStartedAt;
  fail_if negb (status_valid (Status j)) with ErrStatus;
  fail_if (Schema_ j <? 1) with ErrSchema;
  Ok tt.

End Job.

(** ** internal/runstats *)
Module RunStats.
Import Job.

Fixpoint all_chars (p : ascii -> bool) (s : string) : bool :=
  match s with "" => true | String c rest => p c && all_chars p rest end.

Definition remove_byte (c : ascii) (s : string) : string :=
  String.concat "" (split_byte c s).

(** *** generic *)

Fixpoint trim_right_byte (c : ascii) (s : string) : string :=
  match s with
  | "" => ""
  | String d rest => match trim_right_byte c rest with
                     | "" => if bool_decide (d = c) then "" else String d ""
                     | r => String d r
                     end
  end.

Definition countLines (b : string) : Z :=
  let b := trim_right_byte newline b in
  if bool_decide (b = "") then 0 else Z.of_nat (count_byte newline b) + 1.

Definition generic_Extract (stdout stderr : string) (exitCode : Z) : gmap string Z * list string :=
  let stats : gmap string Z := {[ "stdout_lines" := countLines stdout; "stderr_lines" := countLines stderr ]} in
  (if exitCode =? 0 then stats else <[StatErrors := 1]> stats, []).

(** *** rclone *)

Record rcloneStats := mkRclone { r_Bytes : Z; r_Checks : Z; r_Deletes : Z; r_Errors : Z; r_Transfers : Z }.

Definition truncate (s : string) (n : nat) : string :=
  if (String.length s <=? n)%nat then s else TrimSpace (str_take n s) ++ "…".

Section rclone.
(** json.Unmarshal of a log line: None if it is malformed, else its stats object if any *)
Context (decode : string -> option (option rcloneStats)).

Definition rclone_line (st : option rcloneStats * list string) (text : string) : option rcloneStats * list string :=
  let '(last, errs) := st in
  let line := TrimSpace text in
  if negb (has_prefix "{" line) then st else
  match decode line with
  | None => (last, (errs ++ [("rclone: malformed json-log line: " ++ truncate line 120)%string])%list)
  | Some (Some s) => (Some s, errs)
  | Some None => st
  end.

Definition rclone_Extract (stdout stderr : string) : gmap string Z * list string :=
  let '(last, errs) :=
    fold_left rclone_line (split_byte newline stderr) (fold_left rclone_line (split_byte newline stdout) (None, [])) in
  match last with
  | None => (∅, (errs ++ ["rclone: no stats found in output; was --use-json-log --stats <interval> passed?"])%list)
  | Some s => ({[ StatFilesTransferred := r_Transfers s; StatBytesTransferred := r_Bytes s; StatFilesDeleted := r_Deletes s;
                  StatFilesChecked := r_Checks s; StatErrors := r_Errors s ]}, errs)
  end.

End rclone.

(** *** rsync *)

Definition statLines : list (string * string) :=
  [("Number of regular files transferred:", StatFilesTransferred);
   ("Number of files transferred:", StatFilesTransferred);
   ("Total transferred file size:", StatBytesTransferred);
   ("Number of deleted files:", StatFilesDeleted);
   ("Number of files:", StatFilesChecked)].

Definition comma : ascii := ","%char.

(** the label at the start of the line, white space, and a run of digits and commas *)
Definition match_stat (label line : string) : option string :=
  rest ← trim_prefix_go label line;
  let '(digits, _) := span (fun c => is_digit c || bool_decide (c = comma)) (span re_space rest).2 in
  if bool_decide (digits = "") then None else Some digits.

Definition stat_value (label line : string) : option Z := m ← match_stat label line; ParseInt64 (remove_byte comma m).

Definition rsync_stat (line : string) (stats : gmap string Z) (sl : string * string) : gmap string Z :=
  match stats !! sl.2 with
  | Some _ => stats
  | None => match stat_value sl.1 line with
            | Some n => <[sl.2 := n]> stats
            | None => stats
            end
  end.

Definition rsync_line (stats : gmap string Z) (text : string) : gmap string Z :=
  fold_left (rsync_stat (TrimSpace text)) statLines stats.

(** rsyncErrorPrefix: rsync, a number in brackets or not, the word error or not, a colon and
    a blank *)
Definition rsync_error (line : string) : bool :=
  match trim_prefix_go "rsync" line with
  | None => false
  | Some rest =>
      let rest := match trim_prefix_go "[" rest with
                  | Some r => let '(d, r') := span is_digit r in
                              if bool_decide (d = "") then rest else default rest (trim_prefix_go "]" r')
                  | None => rest
                  end in
      let rest := default rest (trim_prefix_go " error" rest) in
      has_prefix ": " rest
  end.

Definition rsync_Extract (stdout stderr : string) : gmap string Z * list string :=
  let stats := fold_left rsync_line (scan_lines stdout) ∅ in
  let errCount := Z.of_nat (length (List.filter rsync_error (scan_lines stderr))) in
  (<[StatErrors := errCount]> stats,
   if bool_decide (stats = ∅) then ["rsync: no --stats summary found in output"] else []).

(** *** snapraid *)

Definition letter (c : ascii) : bool :=
  ((65 <=? byte_of c) && (byte_of c <=? 90)) || ((97 <=? byte_of c) && (byte_of c <=? 122)).
Definition label_char (c : ascii) : bool := letter c || is_digit c || bool_decide (c ∈ [" "; "_"; "/"; "-"]%char).

(** summaryLine: white space, a count, white space, and a label of letters, digits, blanks,
    underscores, slashes and dashes that starts with a letter, to the end of the line *)
Definition summary_line (line : string) : option (string * string) :=
  let '(digits, rest) := span is_digit (span re_space line).2 in
  let '(gap, label) := span re_space rest in
  if bool_decide (digits = "") || bool_decide (gap = "") then None else
  match label with
  | String c _ => if letter c && all_chars label_char label then Some (digits, label) else None
  | "" => None
  end.

Definition changed : list string := ["added"; "updated"; "copied"; "restored"].
Definition checked : list string := ["equal"; "added"; "removed"; "updated"; "moved"; "copied"; "restored"].

(** a row of the summary: its count and its label *)
Definition summary_row (line : string) : option (Z * string) :=
  '(digits, label) ← summary_line line;
  n ← ParseInt64 digits;
  Some (n, ToLower (TrimSpace label)).

Record tally := mkTally { transferred : Z; checkedCount : Z; deleted : Z; errCount : Z }.

Definition count_row (t : tally) (row : Z * string) : tally :=
  let '(n, label) := row in
  if bool_decide (label = "removed") then
    mkTally (transferred t) (int64 (checkedCount t + n)) (int64 (deleted t + n)) (errCount t)
  else if bool_decide (label ∈ checked) then
    mkTally (if bool_decide (label ∈ changed) then int64 (transferred t + n) else transferred t)
      (int64 (checkedCount t + n)) (deleted t) (errCount t)
  else if contains "error" label then mkTally (transferred t) (checkedCount t) (deleted t) (int64 (errCount t + n))
  else t.

Definition snapraid_rows (stdout stderr : string) : list (Z * string) :=
  omap summary_row (scan_lines stdout ++ scan_lines stderr)%list.

Definition snapraid_Extract (stdout stderr : string) : gmap string Z * list string :=
  let rows := snapraid_rows stdout stderr in
  let t := fold_left count_row rows (mkTally 0 0 0 0) in
  ({[ StatFilesTransferred := transferred t; StatFilesDeleted := deleted t; StatFilesChecked := checkedCount t; StatErrors := errCount t ]},
   match rows with [] => ["snapraid: no summary lines found in output"] | _ => [] end).

(** *** the choice *)

Inductive Extractor := Rclone | Rsync | Snapraid | Generic.

Definition Detect (e : Extractor) (argv : list string) : bool :=
  match argv with
  | [] => false
  | cmd :: _ => match e with
                | Rclone => bool_decide (Base cmd = "rclone")
                | Rsync => bool_decide (Base cmd = "rsync")
                | Snapraid => bool_decide (Base cmd = "snapraid")
                | Generic => false
                end
  end.

Definition builtin : list Extractor := [Rclone; Rsync; Snapraid].

Definition For (argv : list string) : Extractor := default Generic (head (List.filter (fun e => Detect e argv) builtin)).

Definition Extract decode (e : Extractor) (stdout stderr : string) (exitCode : Z) : gmap string Z * list string :=
  match e with
  | Rclone => rclone_Extract decode stdout stderr
  | Rsync => rsync_Extract stdout stderr
  | Snapraid => snapraid_Extract stdout stderr
  | Generic => generic_Extract stdout stderr exitCode
  end.

Definition figures (r : gmap string Z * list string) : list (option Z) * list string :=
  ((fun k => r.1 !! k) <$> [StatFilesTransferred; StatBytesTransferred; StatFilesDeleted; StatFilesChecked; StatErrors], r.2).

Example extractors_demo :
  For ["/usr/bin/rsync"; "-a"] = Rsync /\ For [] = Generic /\
  figures (rsync_Extract (String.concat (String newline "") ["Number of files: 1,234 (reg: 9)"; "Number of regular files transferred: 12"; "Total transferred file size: 5,000 bytes"])
    (String.concat (String newline "") ["rsync: send_files failed"; "rsync[12] error: io"; "rsyncd: x"])) =
    ([Some 12; Some 5000; None; Some 1234; Some 2], []) /\
  figures (snapraid_Extract (String.concat (String newline "") ["    219 equal"; "  12 added"; " 3 removed"; "  0 CRC errors"; "Everything OK"]) "  2 file errors") =
    ([Some 12; None; Some 3; Some 234; Some 2], []) /\
  countLines (String.concat (String newline "") ["a"; ""; "b"; ""; ""]) = 3.
Proof. split_and!; vm_compute; reflexivity. Qed.

(** with --human-readable the sizes have a decimal point and a unit: the pattern stops at
    the point and the rest is dropped without a word *)
Example rsync_human_readable :
  figures (rsync_Extract "Total transferred file size: 1.23G bytes" "") = ([None; Some 1; None; None; Some 0], []).
Proof. vm_compute. reflexivity. Qed.

(** *** What the extractors compute *)

(** the figure a line gives for a key: that of the first pattern of the key that matches *)
Definition line_value (key text : string) : option Z :=
  head (omap (fun sl : string * string => if bool_decide (sl.2 = key) then stat_value sl.1 (TrimSpace text) else None) statLines).

Lemma rsync_stat_lookup line stats sl key :
  rsync_stat line stats sl !! key =
    match stats !! key with Some v => Some v | None => if bool_decide (sl.2 = key) then stat_value sl.1 line else None end.
Proof.
  unfold rsync_stat. destruct (stats !! sl.2) as [v|] eqn:E.
  - destruct (stats !! key) as [w|] eqn:E'; [done|]. case_bool_decide as H; [by rewrite H in E; rewrite E in E'|done].
  - destruct (stat_value sl.1 line) as [n|].
    + rewrite lookup_insert. case_decide as H; [subst; rewrite E, bool_decide_true by done; done|].
      rewrite bool_decide_false by done. by destruct (stats !! key).
    + destruct (stats !! key); [done|]. by case_bool_decide.
Qed.

Lemma rsync_line_lookup stats text key :
  rsync_line stats text !! key = match stats !! key with Some v => Some v | None => line_value key text end.
Proof.
  unfold rsync_line, line_value. generalize statLines. intros sls. revert stats.
  induction sls as [|sl sls IH]; intros stats; cbn [fold_left omap list_omap]; [by destruct (stats !! key)|].
  rewrite IH, rsync_stat_lookup. destruct (stats !! key); [done|].
  destruct (bool_decide (sl.2 = key)); [|done]. by destruct (stat_value sl.1 (TrimSpace text)).
Qed.

Lemma rsync_lines_lookup lines stats key :
  fold_left rsync_line lines stats !! key =
    match stats !! key with Some v => Some v | None => head (omap (line_value key) lines) end.
Proof.
  revert stats. induction lines as [|l lines IH]; intros stats; cbn [fold_left omap list_omap]; [by destruct (stats !! key)|].
  rewrite IH, rsync_line_lookup. destruct (stats !! key); [done|]. by destruct (line_value key l).
Qed.

Lemma int64_add a b : int64 (int64 a + b) = int64 (a + b).
Proof.
  unfold int64, wrap_s. f_equal.
  replace ((a + 2 ^ (64 - 1)) mod 2 ^ 64 - 2 ^ (64 - 1) + b + 2 ^ (64 - 1)) with ((a + 2 ^ (64 - 1)) mod 2 ^ 64 + b) by lia.
  rewrite Zplus_mod_idemp_l. f_equal. lia.
Qed.

(** the counts of the rows some labels select *)
Definition total (sel : string -> bool) (rows : list (Z * string)) : Z :=
  foldr Z.add 0 ((fun row : Z * string => if sel row.2 then row.1 else 0) <$> rows).

Definition is_checked (l : string) : bool := bool_decide (l ∈ checked).
Definition is_changed (l : string) : bool := bool_decide (l ∈ changed).
Definition is_removed (l : string) : bool := bool_decide (l = "removed").
Definition is_error (l : string) : bool := negb (is_checked l) && contains "error" l.

(** a tally of exact counts *)
Definition tally_of (a b c e : Z) : tally := mkTally (int64 a) (int64 b) (int64 c) (int64 e).

Lemma count_row_exact a b c e n label :
  count_row (tally_of a b c e) (n, label) =
    tally_of (a + if is_changed label then n else 0) (b + if is_checked label then n else 0)
             (c + if is_removed label then n else 0) (e + if is_error label then n else 0).
Proof.
  unfold count_row, tally_of, is_error, is_changed, is_checked, is_removed. cbn [transferred checkedCount deleted errCount].
  rewrite !int64_add. destruct (bool_decide_reflect (label = "removed")) as [->|H1].
  { rewrite bool_decide_false by (unfold changed; set_solver). rewrite bool_decide_true by (unfold checked; set_solver). cbn [negb andb].
    by rewrite !Z.add_0_r. }
  destruct (bool_decide_reflect (label ∈ checked)) as [H2|H2]; cbn [negb andb].
  - rewrite !Z.add_0_r. by destruct (bool_decide_reflect (label ∈ changed)); rewrite ?Z.add_0_r.
  - assert (label ∉ changed) as H3 by (unfold checked, changed in *; set_solver).
    rewrite (bool_decide_false (label ∈ changed)) by done. rewrite !Z.add_0_r. destruct (contains "error" label); by rewrite ?Z.add_0_r.
Qed.

Lemma count_rows_exact rows a b c e :
  fold_left count_row rows (tally_of a b c e) =
    tally_of (a + total is_changed rows) (b + total is_checked rows) (c + total is_removed rows) (e + total is_error rows).
Proof.
  revert a b c e. induction rows as [|[n label] rows IH]; intros a b c e; cbn [fold_left].
  - unfold total. cbn. by rewrite !Z.add_0_r.
  - rewrite count_row_exact, IH. unfold total. rewrite !fmap_cons. cbn [foldr fst snd]. by rewrite !Z.add_assoc.
Qed.

Lemma Atoi_digit_nonneg c s z : is_digit c = true -> Atoi (String c s) = Some z -> 0 <= z.
Proof.
  intros Hc. unfold Atoi, unsigned. unfold is_digit in Hc. zbool.
  destruct (Z.eqb_spec (byte_of c) 45); [lia|]. destruct (Z.eqb_spec (byte_of c) 43); [lia|].
  rewrite bool_decide_false by done. destruct (digits_value (String c s) 0) as [v|] eqn:E; [|done].
  destruct (_ && _); [|done]. intros [= <-]. by eapply digits_value_nonneg; [|done].
Qed.

Lemma span_all p s : all_chars p (span p s).1 = true.
Proof. induction s as [|c s IH]; [done|]. cbn [span]. destruct (p c) eqn:E; [|done]. destruct (span p s). cbn in *. by rewrite E. Qed.

(** the count of a summary row is not negative *)
Lemma summary_count line digits label n : summary_line line = Some (digits, label) -> ParseInt64 digits = Some n -> 0 <= n.
Proof.
  unfold summary_line. pose proof (span_all is_digit (span re_space line).2) as Hd.
  destruct (span is_digit (span re_space line).2) as [ds rest]. destruct (span re_space rest) as [gap lab].
  case_bool_decide; [done|]. cbn [orb]. case_bool_decide; [done|]. destruct lab as [|c lab]; [done|].
  destruct (letter c && _); [|done]. intros [= <- <-]. destruct ds as [|d ds]; [done|].
  cbn in Hd. apply andb_true_iff in Hd as [Hd _]. by apply Atoi_digit_nonneg.
Qed.

(** *** Properties *)

(** rsync's figures are the first ones its summary gives: for every canonical key the value
    is that of the first line a pattern of the key matches with a number, the errors are
    the error lines of stderr, and an output without any figure is reported. *)
Theorem rsync_extract_spec stdout stderr :
  let '(stats, errs) := rsync_Extract stdout stderr in
  (forall key, key <> StatErrors -> stats !! key = head (omap (line_value key) (scan_lines stdout))) /\
  stats !! StatErrors = Some (Z.of_nat (length (List.filter rsync_error (scan_lines stderr)))) /\
  (errs = [] <-> exists key n, head (omap (line_value key) (scan_lines stdout)) = Some n).
Proof.
  unfold rsync_Extract. pose proof (fun key => rsync_lines_lookup (scan_lines stdout) ∅ key) as H.
  setoid_rewrite lookup_empty in H. split_and!.
  - intros key Hk. by rewrite lookup_insert_ne, H.
  - by rewrite lookup_insert_eq.
  - case_bool_decide as E; split; try done.
    + intros (key & n & Hn). by rewrite <- H, E, lookup_empty in Hn.
    + intros _. apply map_choose in E as (key & n & Hn). exists key, n. by rewrite <- H.
Qed.

(** SnapRAID's figures add up the summary rows of both outputs by label; without overflow
    the files transferred and deleted are among those checked. *)
Theorem snapraid_extract_spec stdout stderr :
  let rows := snapraid_rows stdout stderr in
  let stats := (snapraid_Extract stdout stderr).1 in
  stats !! StatFilesTransferred = Some (int64 (total is_changed rows)) /\
  stats !! StatFilesDeleted = Some (int64 (total is_removed rows)) /\
  stats !! StatFilesChecked = Some (int64 (total is_checked rows)) /\
  stats !! StatErrors = Some (int64 (total is_error rows)) /\
  total is_changed rows + total is_removed rows <= total is_checked rows.
Proof.
  cbn zeta. unfold snapraid_Extract. change (mkTally 0 0 0 0) with (tally_of 0 0 0 0). rewrite count_rows_exact.
  cbn [transferred checkedCount deleted errCount tally_of fst]. rewrite !Z.add_0_l.
  split_and!; [by simplify_map_eq..|].
  assert (Forall (fun r => 0 <= r.1) (snapraid_rows stdout stderr)) as Hnn.
  { apply Forall_forall. intros [n l] Hr. apply list_elem_of_omap in Hr as (line & _ & Hr). unfold summary_row in Hr.
    apply bind_Some in Hr as ([digits label] & Hs & Hr). apply bind_Some in Hr as (n' & Hn & Hr). injection Hr as -> <-. cbn.
    by apply (summary_count line digits label). }
  induction Hnn as [|[n l] rows Hn Hrows IH]; [unfold total; cbn; lia|].
  unfold total in *. rewrite !fmap_cons. cbn [foldr fst snd] in *.
  unfold is_changed, is_removed, is_checked in *. destruct (bool_decide_reflect (l ∈ changed)), (bool_decide_reflect (l = "removed")),
    (bool_decide_reflect (l ∈ checked)); try lia; unfold changed, checked in *; set_solver.
Qed.

End RunStats.

(** ** internal/execwrap *)
Module ExecWrap.

(** what Wait reports of a process: exit(n), a signal, or an error of its own, which is what a
    successful exit becomes when copying the output failed *)
Inductive ending := Exited (code : Z) | Signaled (num : Z) | WaitFailed.

Definition SIGTERM : Z := 15.
Definition SIGKILL : Z := 9.

Record Child := mkChild {
  c_start_error : bool; (* cmd.Start fails *)
  c_natural : option (Z * ending); (* when and how it ends by itself, if it ever does *)
  c_term : option (Z * ending); (* after how long and how it ends on SIGTERM, if it does *)
  c_pipes : Z -> option Z; (* given its end, when nobody holds its output pipes any more *)
  c_copy_error : bool; (* the passthrough writer failed *)
}.

Record Options := mkOptions { o_Timeout : Duration; o_GracePeriod : Duration }.

Record Result := mkResult {
  StartedAt : Time;
  FinishedAt : Time;
  ExitCode : Z;
  Signal : string;
  SignalNum : Z;
  TimedOut : bool;
  Stdout : string;
  Stderr : string;
}.

Definition defaultGracePeriod : Duration := 5 * second.

(** the earlier of two endings, the first when they coincide *)
Definition earlier (a b : option (Z * ending)) : option (Z * ending) :=
  match a, b with
  | Some (t, e), Some (t', e') => if t <=? t' then Some (t, e) else Some (t', e')
  | Some x, None | None, Some x => Some x
  | None, None => None
  end.

(** the error of the copying goroutines counts when the process itself succeeded *)
Definition reported (c : Child) (e : ending) : ending :=
  match e with
  | Exited 0 => if c_copy_error c then WaitFailed else e
  | _ => e
  end.

(** when cmd.Wait reports an ending: it also waits for the copying of the output *)
Definition wait_at (c : Child) (x : option (Z * ending)) : option (Z * ending) :=
  '(t, e) ← x; t' ← c_pipes c t; Some (Z.max t t', reported c e).

(** the end of the child when SIGTERM is sent at [s], and then SIGKILL at [k] *)
Definition after_term (c : Child) (s : Z) : option (Z * ending) :=
  earlier (c_natural c) ((fun x : Z * ending => (s + x.1, x.2)) <$> c_term c).
Definition after_kill (c : Child) (s k : Z) : option (Z * ending) := earlier (after_term c s) (Some (k, Signaled SIGKILL)).

(** terminateGracefully from time [s]: when Wait reports, and what; None if it never does *)
Definition terminateGracefully (c : Child) (s : Z) (grace : Duration) : option (Z * ending) :=
  let grace := if grace <=? 0 then defaultGracePeriod else grace in
  match wait_at c (after_term c s) with
  | Some (t, e) => if t <=? s + grace then Some (t, e) else wait_at c (after_kill c s (s + grace))
  | None => wait_at c (after_kill c s (s + grace))
  end.

(** WaitStatus.Signal().String() *)
Section run.
Context (signal_name : Z -> string).

Definition applyExitState (started finished : Time) (timedOut : bool) (stdout stderr : string) (e : ending) : Result :=
  match e with
  | Exited code => mkResult started finished code "" 0 timedOut stdout stderr
  | Signaled num => mkResult started finished (-1) (signal_name num) num timedOut stdout stderr
  | WaitFailed => mkResult started finished (-1) "" 0 timedOut stdout stderr
  end.

(** the select of Run: the event that comes first; [ctxDone] is when the context ends. When
    events coincide Go picks one of them at random: here Wait's report comes before the
    others and the timeout before the context. None: Run does not return. *)
Definition select (c : Child) (opts : Options) (ctxDone : option Z) : option (bool * (Z * ending)) :=
  let waited := wait_at c (c_natural c) in
  let timeout := if 0 <? o_Timeout opts then Some (o_Timeout opts) else None in
  let stop :=
    match timeout, ctxDone with
    | Some t, Some d => Some (if t <=? d then (t, true) else (d, false))
    | Some t, None => Some (t, true)
    | None, Some d => Some (d, false)
    | None, None => None
    end in
  match waited, stop with
  | Some (t, e), Some (s, timedOut) =>
      if t <=? s then Some (false, (t, e))
      else (fun x => (timedOut, x)) <$> terminateGracefully c s (o_GracePeriod opts)
  | Some (t, e), None => Some (false, (t, e))
  | None, Some (s, timedOut) => (fun x => (timedOut, x)) <$> terminateGracefully c s (o_GracePeriod opts)
  | None, None => None
  end.

(** Run, with the output the child produces; the outer option is an error of Start *)
Definition Run (argv : list string) (c : Child) (opts : Options) (ctxDone : option Z) (started : Time) (stdout stderr : string) :
  option (option Result) :=
  match argv with
  | [] => Some None
  | _ =>
      if c_start_error c then Some None else
      match select c opts ctxDone with
      | Some (timedOut, (t, e)) => Some (Some (applyExitState started (started + t) timedOut stdout stderr e))
      | None => None
      end
  end.

(** *** Termination *)

(** nobody but the child holds its output *)
Definition owns_pipes (c : Child) : Prop := forall t, c_pipes c t = Some t.

Definition grace_of (opts : Options) : Duration :=
  if o_GracePeriod opts <=? 0 then defaultGracePeriod else o_GracePeriod opts.

Lemma wait_at_owned c x : owns_pipes c -> wait_at c x = (fun te : Z * ending => (te.1, reported c te.2)) <$> x.
Proof. intros Hp. unfold wait_at. destruct x as [[t e]|]; [|done]. cbn -[reported]. rewrite Hp. cbn -[reported]. by rewrite Z.max_id. Qed.

Lemma earlier_left a b t e : earlier a b = Some (t, e) -> forall t' e', b = Some (t', e') -> t <= t'.
Proof.
  intros H t' e' ->. destruct a as [[u f]|]; cbn in H; [|injection H as -> ->; done].
  destruct (Z.leb_spec u t'); injection H as <- <-; lia.
Qed.

Lemma terminate_bound c s grace :
  owns_pipes c -> exists t e, terminateGracefully c s grace = Some (t, e) /\
    t <= s + (if grace <=? 0 then defaultGracePeriod else grace).
Proof.
  intros Hp. unfold terminateGracefully. rewrite !wait_at_owned by done.
  set (g := if grace <=? 0 then defaultGracePeriod else grace).
  assert (exists t e, after_kill c s (s + g) = Some (t, e) /\ t <= s + g) as Hkill.
  { unfold after_kill. destruct (earlier (after_term c s) (Some (s + g, Signaled SIGKILL))) as [[t e]|] eqn:E.
    - exists t, e. split; [done|]. by eapply earlier_left.
    - destruct (after_term c s) as [[u f]|]; cbn in E; [destruct (u <=? s + g); done|done]. }
  destruct Hkill as (tk & ek & -> & Hk). destruct (after_term c s) as [[t e]|]; cbn [fmap option_fmap option_map fst snd]; [|by eexists _, _].
  destruct (Z.leb_spec t (s + g)); by eexists _, _.
Qed.

(** C28: A wrapped command that keeps its output to itself cannot outlive its timeout: with a
    positive timeout Run returns at the latest one grace period after it, even if the
    command ignores SIGTERM and would never end by itself; it reports a timeout only if the
    command was still running then, and otherwise how the command ended by itself. *)
Theorem timeout_bounds_run (argv : list string) (c : Child) (opts : Options) (started : Time) (stdout stderr : string) :
  argv <> [] -> c_start_error c = false -> owns_pipes c -> 0 < o_Timeout opts ->
  exists r, Run argv c opts None started stdout stderr = Some (Some r) /\
    FinishedAt r <= started + o_Timeout opts + grace_of opts /\
    match c_natural c with
    | Some (t, e) => if t <=? o_Timeout opts then r = applyExitState started (started + t) false stdout stderr (reported c e) else TimedOut r = true
    | None => TimedOut r = true
    end.
Proof.
  intros Ha Hs Hp Ht. unfold Run. destruct argv; [done|]. rewrite Hs. unfold select. rewrite wait_at_owned by done.
  destruct (Z.ltb_spec 0 (o_Timeout opts)); [|lia].
  destruct (terminate_bound c (o_Timeout opts) (o_GracePeriod opts) Hp) as (t' & e' & -> & Hb). fold (grace_of opts) in Hb.
  assert (0 < grace_of opts) as Hg by (unfold grace_of, defaultGracePeriod, second; destruct (Z.leb_spec (o_GracePeriod opts) 0); lia).
  assert (forall e, FinishedAt (applyExitState started (started + t') true stdout stderr e) <= started + o_Timeout opts + grace_of opts /\
    TimedOut (applyExitState started (started + t') true stdout stderr e) = true) as Hto by (intros []; cbn; lia).
  destruct (c_natural c) as [[t e]|]; cbn [fmap option_fmap option_map fst snd].
  - destruct (Z.leb_spec t (o_Timeout opts)); (eexists; split; [done|]).
    + split; [|done]. destruct (reported c e); cbn; lia.
    + apply Hto.
  - eexists. split; [done|]. apply Hto.
Qed.

End run.

Definition demo_signal (n : Z) : string := match n with 9 => "killed" | 15 => "terminated" | _ => "signal" end.

Lemma timeout_bounds_run_witness :
  exists r, Run demo_signal ["sleep"; "infinity"] (mkChild false None None Some false) (mkOptions second 0) None 1000 "" "" = Some (Some r) /\
    FinishedAt r <= 1000 + second + grace_of (mkOptions second 0) /\ TimedOut r = true.
Proof.
  destruct (timeout_bounds_run demo_signal ["sleep"; "infinity"] (mkChild false None None Some false) (mkOptions second 0) 1000 "" ""
    ltac:(done) eq_refl ltac:(by intros t) eq_refl) as (r & H1 & H2 & H3). by exists r.
Defined.

(** A background process that inherited the output keeps cmd.Wait waiting: the command itself
    ends at once, and Run returns neither then nor on its timeout. *)
Example inherited_pipe_hangs :
  Run demo_signal ["sh"; "-c"; "daemon &"] (mkChild false (Some (1, Exited 0)) None (fun _ => None) false) (mkOptions second second) None 0 "" "" = None.
Proof. vm_compute. reflexivity. Qed.

(** A reader that closes the output of bitacora-run turns the success of the command into a
    failure with exit code -1. *)
Example broken_passthrough_fails_command :
  ExitCode <$> (Run demo_signal ["true"] (mkChild false (Some (1, Exited 0)) None Some true) (mkOptions 0 0) None 0 "" "" ≫= id) = Some (-1).
Proof. vm_compute. reflexivity. Qed.

End ExecWrap.

(** ** internal/jobwriter *)
Module JobWriter.
Import AtomicFile Spool.Spool Job.

Definition DefaultSocketPath : string := "/run/bitacora/agent.sock".
Definition DefaultSpoolDir : string := "/var/lib/bitacora/spool/jobs".
Definition dialTimeout : Duration := 500 * millisecond.

(** the socket as a writer meets it: whether it answers within [dialTimeout], whether the
    deadline can be set, and after how many bytes the reader stalls until the deadline *)
Record Conn := mkConn { dials : bool; sets_deadline : bool; stalls_after : option nat }.
Definition no_agent : Conn := mkConn false true None.

Section write.
Context `{Json} (marshalJob : Job -> option string).

(** whether the job was written, and what the other end of the socket has received *)
Definition writeSocket (c : Conn) (job : Job) : bool * string :=
  if negb (dials c) then (false, "")
  else match marshalJob job with
       | None => (false, "")
       | Some payload =>
           let line := payload ++ String newline "" in
           if negb (sets_deadline c) then (false, "")
           else match stalls_after c with
                | None => (true, line)
                | Some k => if (k <? String.length line)%nat then (false, str_take k line) else (true, line)
                end
       end.

Definition Write (c : Conn) (tmp : string) (now : Time) (job : Job) : M bool :=
  if (writeSocket c job).1 then mret true
  else _ ← WriteAtomic tmp (ID job) (Schema_ job) (marshalJob job) now []; mret false.

(** what the agent gets is the whole line when the socket is used, and otherwise never as
    far as the line feed that ends it *)
Lemma writeSocket_spec c job payload :
  marshalJob job = Some payload ->
  let '(ok, received) := writeSocket c job in
  if ok then received = payload ++ String newline "" else exists k, received = str_take k payload.
Proof.
  intros Hm. unfold writeSocket. rewrite Hm. destruct (dials c); cbn [negb]; [|by exists 0%nat].
  destruct (sets_deadline c); cbn [negb]; [|by exists 0%nat]. destruct (stalls_after c) as [k|]; [|done].
  destruct (Nat.ltb_spec k (String.length (payload ++ String newline ""))) as [Hk|]; [|done].
  rewrite str_length_app in Hk. cbn [String.length] in Hk. exists k. apply str_take_app. lia.
Qed.

(** A job is handed over exactly once: to the agent when its socket takes the whole of it,
    which leaves the spool alone, and otherwise into the spool, where once Write returned
    readers find under the job's id the whole job, its text indented; on an error the spool reads as before. *)
Theorem job_delivered (d : gmap string file) fl c tmp now job payload encoded e :
  let socket := (writeSocket c job).1 in
  marshalJob job = Some payload -> marshalEntry (mkEntry (ID job) now (Schema_ job) payload []) = Some encoded ->
  unmarshalEntry encoded = Some e -> reads_as (mkEntry (ID job) now (Schema_ job) payload []) e ->
  ~ json_name tmp -> (forall name f, json_name name -> d !! name = Some f -> is_whole f) -> named d ->
  let '(o, (d', _)) := Write c tmp now job (d, fl) in
  match o with
  | Ret used => used = socket
  | _ => socket = false
  end /\
  forall names names', lists d names -> lists d' names' ->
    let before := read_names d no_dirs names in
    let after := read_names d' no_dirs names' in
    match o with
    | Ret true | Fail _ => after = before
    | Ret false => after = <[ID job := e]> before
    | Crashed => after = before \/ after = <[ID job := e]> before
    end.
Proof.
  intros socket Hm He Hu [Hc _] Ht Hw Hn. unfold Write. fold socket. destruct socket.
  - split; [done|]. intros names names' Hl Hl'. cbn zeta.
    apply (read_names_ext d d names names' id); [done..|]. intros x. destruct Hl as [Hl1 Hl2]. symmetry.
    apply read_names_lookup; [done|done| |done]. intros g Hg. apply Hl2. by eexists.
  - pose proof (write_atomic_entries d fl tmp (ID job) (Schema_ job) payload now [] encoded e He Hu Hc Ht Hw Hn) as H1.
    rewrite Hm. unfold mbind, M_bind. destruct (WriteAtomic _ _ _ _ _ _ _) as [[[]|op|] [d' fl']]; (split; [done|]); apply H1.
Qed.

End write.

(** a job for a directory with another one in it *)
Definition demo_job : Job :=
  mkJob "01J8XR" "nightly" "01J8X0" 7 9 (GoFloat.f_of_Z 2) JobSuccess 0 "" ∅ "" "manual" zero [] 1.

Lemma job_delivered_witness :
  match @Write demo_json (fun j => Some (JobName j)) no_agent ".01J8XR-1.tmp" 7 demo_job (demo_disk, []) with
  | (Ret used, _) => used = false
  | _ => False
  end.
Proof.
  pose proof (@job_delivered demo_json (fun j => Some (JobName j)) demo_disk [] no_agent ".01J8XR-1.tmp" 7 demo_job "nightly"
    ("01J8XR " ++ String "010" "nightly") (mkEntry "01J8XR" 7 1 (String "010" "nightly") [])
    eq_refl eq_refl eq_refl ltac:(split_and!; reflexivity) ltac:(vm_compute; discriminate)) as H.
  assert (named_demo : @named demo_json demo_disk).
  { intros name f e _ Hl. unfold demo_disk in Hl. apply lookup_singleton_Some in Hl as [<- <-]. intros He.
    assert (e = mkEntry "smart" 7 1 "[]" []) as -> by (injection He as <-; reflexivity). reflexivity. }
  assert (forall name f, json_name name -> demo_disk !! name = Some f -> is_whole f) as Hw.
  { intros name f _ Hl. unfold demo_disk in Hl. by apply lookup_singleton_Some in Hl as [<- <-]. }
  specialize (H Hw named_demo). assert (exists b st, @Write demo_json (fun j => Some (JobName j)) no_agent ".01J8XR-1.tmp" 7 demo_job (demo_disk, []) = (Ret b, st)) as (b & [d' fl] & E).
  { eexists _, _. reflexivity. }
  rewrite E in *. by destruct H.
Defined.

End JobWriter.

(** ** cmd/bitacora-run *)
Module BitacoraRun.
Import AtomicFile Spool.Spool Spool.HostId RunStats ExecWrap Job.

Definition statErrCount (stats : gmap string Z) : Z := default 0 (stats !! StatErrors).

Definition statusFor (r : Result) (stats : gmap string Z) : string :=
  if TimedOut r then JobTimeout
  else if negb (bool_decide (ExecWrap.Signal r = "")) then JobKilled
  else if negb (ExecWrap.ExitCode r =? 0) then JobFailed
  else if 0 <? statErrCount stats then JobWarning
  else JobSuccess.

Definition exitCodeFor (r : Result) : Z := if 0 <? SignalNum r then 128 + SignalNum r else ExecWrap.ExitCode r.

(** what detectTrigger reads: two environment variables and the parent's command name *)
Definition isCronParent (comm : option string) : bool :=
  match comm with Some c => contains "cron" (ToLower (TrimSpace c)) | None => false end.
Definition detectTrigger (invocationID journalStream : string) (comm : option string) : string :=
  if negb (bool_decide (invocationID = "")) || negb (bool_decide (journalStream = "")) then "systemd"
  else if isCronParent comm then "cron" else "manual".

Section run.
Context `{Json} (marshalJob : Job -> option string) (decode : string -> option (option rcloneStats)) (signal_name : Z -> string).

(** [id] is newULID's *)
Definition buildJob (id jobName hostID : string) (argv : list string) (trigger : string) (r : Result) : Job * list string :=
  let '(stats, extractErrs) := Extract decode (For argv) (Stdout r) (Stderr r) (ExecWrap.ExitCode r) in
  (mkJob id jobName hostID (ExecWrap.StartedAt r) (ExecWrap.FinishedAt r) (Seconds (sub (ExecWrap.FinishedAt r) (ExecWrap.StartedAt r)))
     (statusFor r stats) (ExecWrap.ExitCode r) (ExecWrap.Signal r) stats "" trigger zero [] Schema.Schema.CurrentSchemaVersion,
   extractErrs).

(** an error that is printed, with the value the caller goes on with *)
Definition or_default {A} (m : M A) (a : A) : M A := fun st =>
  match m st with
  | (Fail _, st') => (Ret a, st')
  | r => r
  end.

Definition with_peer (j : Job) (peer : string) : Job :=
  mkJob (ID j) (JobName j) (HostID j) (StartedAt j) (FinishedAt j) (DurationSecond j) (Status j) (ExitCode j) (Signal j) (Stats j)
    peer (Trigger j) (NextExpected j) (LogRefs j) (Schema_ j).

(** the flags *)
Record Flags := mkFlags {
  f_job : string; f_timeout : Duration; f_grace : Duration; f_socket : string; f_spool : string; f_hostid : string; f_peer : string }.

Definition defaults : Flags :=
  mkFlags "" 0 (5 * second) JobWriter.DefaultSocketPath JobWriter.DefaultSpoolDir DefaultHostIDPath "".

Definition set_flag (name value : string) (f : Flags) : option Flags :=
  if bool_decide (name = "job") then Some (mkFlags value (f_timeout f) (f_grace f) (f_socket f) (f_spool f) (f_hostid f) (f_peer f))
  else if bool_decide (name = "timeout") then
    d ← GoFlag.ParseDuration value; Some (mkFlags (f_job f) d (f_grace f) (f_socket f) (f_spool f) (f_hostid f) (f_peer f))
  else if bool_decide (name = "grace") then
    d ← GoFlag.ParseDuration value; Some (mkFlags (f_job f) (f_timeout f) d (f_socket f) (f_spool f) (f_hostid f) (f_peer f))
  else if bool_decide (name = "socket") then Some (mkFlags (f_job f) (f_timeout f) (f_grace f) value (f_spool f) (f_hostid f) (f_peer f))
  else if bool_decide (name = "spool-dir") then Some (mkFlags (f_job f) (f_timeout f) (f_grace f) (f_socket f) value (f_hostid f) (f_peer f))
  else if bool_decide (name = "host-id-file") then Some (mkFlags (f_job f) (f_timeout f) (f_grace f) (f_socket f) (f_spool f) value (f_peer f))
  else Some (mkFlags (f_job f) (f_timeout f) (f_grace f) (f_socket f) (f_spool f) (f_hostid f) value).

Definition flag_names : list string := ["job"; "timeout"; "grace"; "socket"; "spool-dir"; "host-id-file"; "peer-host-id"].

Definition flag_set : GoFlag.FlagSet Flags := GoFlag.mkFlagSet (fun name => bool_decide (name ∈ flag_names)) set_flag.

(** what the run draws and finds; the files of the host id and of the jobs are on one disk,
    by their names *)
Record Env := mkEnv {
  hostTmp : string; hostULID : option string; jobULID : string; jobTmp : string;
  agent : string -> JobWriter.Conn; now : Time; trigger : string;
  child : list string -> Child * string * string; interrupted : option Z; startedAt : Time }.

Definition instrument (e : Env) (f : Flags) (argv : list string) (r : Result) : M unit :=
  hostID ← or_default (LoadOrCreateHostID (f_hostid f) (hostTmp e) (hostULID e)) "";
  let '(job, extractErrs) := buildJob (jobULID e) (f_job f) hostID argv (trigger e) r in
  let job := with_peer job (f_peer f) in
  _ ← or_default (JobWriter.Write marshalJob (agent e (f_socket f)) (jobTmp e) (now e) job) false;
  mret tt.

(** run; None when the command never ends *)
Definition run (e : Env) (args : list string) : option (M Z) :=
  match GoFlag.Parse flag_set args defaults with
  | Err _ => Some (mret 2)
  | Ok (f, argv) =>
      if bool_decide (f_job f = "") || bool_decide (argv = []) then Some (mret 2) else
      let '(c, stdout, stderr) := child e argv in
      match Run signal_name argv c (mkOptions (f_timeout f) (f_grace f)) (interrupted e) (startedAt e) stdout stderr with
      | None => None
      | Some None => Some (mret 1)
      | Some (Some r) => Some (_ ← instrument e f argv r; mret (exitCodeFor r))
      end
  end.

(** *** Properties *)

Lemma or_default_ret {A} (m : M A) a st : (exists b, (or_default m a st).1 = Ret b) \/ (or_default m a st).1 = Crashed.
Proof. unfold or_default. destruct (m st) as [[b|op|] st']; [left; by eexists|left; by eexists|by right]. Qed.

Lemma instrument_total e f argv r st :
  (instrument e f argv r st).1 = Ret tt \/ (instrument e f argv r st).1 = Crashed.
Proof.
  unfold instrument, mbind, M_bind.
  destruct (or_default_ret (LoadOrCreateHostID (f_hostid f) (hostTmp e) (hostULID e)) "" st) as [[hostID E]|E];
    destruct (or_default _ "" st) as [o st1]; cbn in E; subst o; [|by right].
  destruct (buildJob _ _ _ _ _ _) as [job errs].
  match goal with |- context [or_default ?m false st1] => destruct (or_default_ret m false st1) as [[b E]|E];
    destruct (or_default m false st1) as [o st2] end; cbn in E; subst o; [by left|by right].
Qed.

Lemma flag_names_writable name : name ∈ flag_names -> GoFlag.writable name.
Proof.
  unfold flag_names. rewrite !elem_of_cons, elem_of_nil. intros Hn.
  repeat destruct Hn as [->|Hn]; try done; eexists _, _; (split; [reflexivity|done]).
Qed.

(** *** How a wrapped command ends

    [ends c grace stop code]: started with its output passed through, and told to stop at
    [stop] if it still runs then, the command [c] ends with the shell's exit status
    [code]. The instants are strict: at an exact tie Go's select picks either branch. *)

(** the status a shell gives: the exit code, or 128 plus the signal. A success whose
    output could not be passed on is Wait's error, and -1. *)
Definition shell_status (c : Child) (e : ending) : Z :=
  match e with
  | Exited 0 => if c_copy_error c then -1 else 0
  | Exited code => code
  | Signaled num => 128 + num
  | WaitFailed => -1
  end.

Definition proper (e : ending) : Prop := match e with Exited _ => True | Signaled num => 0 < num | WaitFailed => False end.

(** it would not end by itself before [t], and SIGTERM at [s] would not end it before [t] *)
Definition runs_until (c : Child) (t : Z) : Prop := forall t' e, c_natural c = Some (t', e) -> t < t'.
Definition resists_until (c : Child) (s t : Z) : Prop := forall d e, c_term c = Some (d, e) -> t < s + d.

Inductive ends (c : Child) (grace : Duration) : option Z -> Z -> Prop :=
| ends_itself stop t t' e :
    c_natural c = Some (t, e) -> c_pipes c t = Some t' -> proper e ->
    (forall s, stop = Some s -> Z.max t t' < s) -> ends c grace stop (shell_status c e)
| ends_in_grace s t e :
    owns_pipes c -> s < t < s + grace -> c_natural c = Some (t, e) -> proper e -> resists_until c s t ->
    ends c grace (Some s) (shell_status c e)
| ends_on_term s d e :
    owns_pipes c -> runs_until c s -> 0 <= d < grace -> c_term c = Some (d, e) -> proper e -> runs_until c (s + d) ->
    ends c grace (Some s) (shell_status c e)
| ends_killed s :
    owns_pipes c -> 0 < grace -> runs_until c (s + grace) -> resists_until c s (s + grace) ->
    ends c grace (Some s) 137.

(** when it is told to stop: at its timeout, if it has one, or when bitacora-run is
    interrupted, whichever comes first *)
Definition stop_at (timeout : Duration) (interrupt : option Z) : option Z :=
  match interrupt with
  | Some d => Some (if 0 <? timeout then Z.min timeout d else d)
  | None => if 0 <? timeout then Some timeout else None
  end.

Lemma shell_status_exit started finished timedOut stdout stderr c e :
  proper e -> exitCodeFor (applyExitState signal_name started finished timedOut stdout stderr (reported c e)) = shell_status c e.
Proof.
  destruct e as [code|num|]; cbn [proper]; intros Hp; [|by unfold exitCodeFor; cbn; rewrite (proj2 (Z.ltb_lt _ _) Hp)|done].
  unfold exitCodeFor. destruct code; cbn; [by destruct (c_copy_error c)|done..].
Qed.

Lemma select_unstopped c timeout grace interrupt t t' e :
  c_natural c = Some (t, e) -> c_pipes c t = Some t' ->
  (forall s, stop_at timeout interrupt = Some s -> Z.max t t' < s) ->
  select c (mkOptions timeout grace) interrupt = Some (false, (Z.max t t', reported c e)).
Proof.
  intros Hn Hp Hs. unfold select, wait_at, stop_at in *. cbn [o_Timeout]. rewrite Hn. cbn -[reported]. rewrite Hp. cbn -[reported].
  destruct (0 <? timeout), interrupt as [d|]; try specialize (Hs _ eq_refl); [destruct (Z.leb_spec timeout d)|..];
    rewrite ?(proj2 (Z.leb_le _ _)) by lia; done.
Qed.

Lemma select_stopped c timeout grace interrupt s :
  stop_at timeout interrupt = Some s -> owns_pipes c -> runs_until c s ->
  exists timedOut, select c (mkOptions timeout grace) interrupt = (fun x => (timedOut, x)) <$> terminateGracefully c s grace.
Proof.
  intros Hs Hp Hr. unfold select, stop_at in *. cbn [o_Timeout o_GracePeriod]. rewrite wait_at_owned by done.
  assert (exists timedOut, (match (if 0 <? timeout then Some timeout else None), interrupt with
    | Some t, Some d => Some (if t <=? d then (t, true) else (d, false))
    | Some t, None => Some (t, true)
    | None, Some d => Some (d, false)
    | None, None => None
    end) = Some (s, timedOut)) as [timedOut ->].
  { destruct (0 <? timeout), interrupt as [d|]; try discriminate Hs; injection Hs as <-; try by eexists.
    destruct (Z.leb_spec timeout d); [rewrite Z.min_l by lia|rewrite Z.min_r by lia]; by eexists. }
  exists timedOut. destruct (c_natural c) as [[t e]|] eqn:Hn; cbn -[reported terminateGracefully]; [|done].
  by rewrite (proj2 (Z.leb_gt _ _) (Hr t e Hn)).
Qed.

Lemma terminate_ends c s grace :
  owns_pipes c -> 0 < grace -> terminateGracefully c s grace =
    match after_term c s with
    | Some (t, e) => if t <=? s + grace then Some (t, reported c e)
                     else (fun te : Z * ending => (te.1, reported c te.2)) <$> after_kill c s (s + grace)
    | None => (fun te : Z * ending => (te.1, reported c te.2)) <$> after_kill c s (s + grace)
    end.
Proof.
  intros Hp Hg. unfold terminateGracefully. rewrite (proj2 (Z.leb_gt _ _) Hg), !wait_at_owned by done.
  by destruct (after_term c s) as [[t e]|].
Qed.

(** Run reports the status the command ends with. *)
Lemma Run_ends argv c timeout grace interrupt started stdout stderr code :
  argv <> [] -> c_start_error c = false -> ends c (if grace <=? 0 then 5 * second else grace) (stop_at timeout interrupt) code ->
  exists r, Run signal_name argv c (mkOptions timeout grace) interrupt started stdout stderr = Some (Some r) /\ exitCodeFor r = code.
Proof.
  intros Ha Hst He. unfold Run. destruct argv as [|a0 argv]; [done|]. rewrite Hst. clear Ha Hst.
  set (g := if grace <=? 0 then 5 * second else grace) in *.
  assert (forall s, terminateGracefully c s grace = terminateGracefully c s g) as Hgrace.
  { intros u. unfold terminateGracefully. subst g. change defaultGracePeriod with (5 * second).
    destruct (Z.leb_spec grace 0) as [|Hlt]; [done|]. by rewrite (proj2 (Z.leb_gt _ _) Hlt). }
  remember (stop_at timeout interrupt) as stop eqn:Estop. symmetry in Estop.
  destruct He as [stop t t' e Hn Hp He Hs|s t e Hp Ht Hn He Hr|s d e Hp Hr Hd Ht He Hr'|s Hp Hg Hr Hr'].
  - subst stop. rewrite (select_unstopped c timeout grace interrupt t t' e) by done.
    eexists. split; [done|by apply shell_status_exit].
  - destruct (select_stopped c timeout grace interrupt s Estop Hp) as [timedOut ->]; [intros t1 e1; rewrite Hn; intros [= <- _]; lia|].
    rewrite Hgrace, terminate_ends by (done || lia). unfold after_term. rewrite Hn.
    assert (earlier (Some (t, e)) ((fun x : Z * ending => (s + x.1, x.2)) <$> c_term c) = Some (t, e)) as ->.
    { destruct (c_term c) as [[d e1]|] eqn:Hc; [|done]. cbn. specialize (Hr d e1 Hc). by rewrite (proj2 (Z.leb_le _ _)) by lia. }
    rewrite (proj2 (Z.leb_le _ _)) by lia. eexists. split; [done|by apply shell_status_exit].
  - destruct (select_stopped c timeout grace interrupt s Estop Hp Hr) as [timedOut ->].
    rewrite Hgrace, terminate_ends by (done || lia). unfold after_term. rewrite Ht.
    assert (earlier (c_natural c) ((fun x : Z * ending => (s + x.1, x.2)) <$> Some (d, e)) = Some (s + d, e)) as ->.
    { destruct (c_natural c) as [[t1 e1]|] eqn:Hc; [|done]. cbn. specialize (Hr' t1 e1 Hc). by rewrite (proj2 (Z.leb_gt _ _)) by lia. }
    rewrite (proj2 (Z.leb_le _ _)) by lia. eexists. split; [done|by apply shell_status_exit].
  - destruct (select_stopped c timeout grace interrupt s Estop Hp) as [timedOut ->]; [intros t1 e1 Hc; specialize (Hr t1 e1 Hc); lia|].
    rewrite Hgrace, terminate_ends by (done || lia). unfold after_kill.
    assert (forall t e, after_term c s = Some (t, e) -> s + g < t) as Hlate.
    { intros t e. unfold after_term. destruct (c_natural c) as [[t1 e1]|] eqn:Hc1, (c_term c) as [[d e2]|] eqn:Hc2; cbn;
        try specialize (Hr _ _ Hc1); try specialize (Hr' _ _ Hc2);
        try destruct (t1 <=? s + d); (intros [= <- _] || intros [=]); lia. }
    destruct (after_term c s) as [[t e]|]; [specialize (Hlate t e eq_refl)|];
      rewrite ?(proj2 (Z.leb_gt t (s + g)) ltac:(lia)); cbn;
      rewrite ?(proj2 (Z.leb_gt t (s + g)) ltac:(lia)); (eexists; split; [done|reflexivity]).
Qed.

(** C29: wrapping a command changes neither the command nor its outcome. Whichever way the
    flags are written, the command after the terminator runs with exactly its arguments,
    also those that look like flags; and whatever happens to the host id file, the
    extractor, the socket and the spool short of the machine going down, run returns the
    command's own status: its exit code if it exits, 128 plus the signal if one ends it,
    by itself before the stop, or within the grace period after SIGTERM, and 137 when it
    had to be killed at the end of the grace period. It is stopped at the first of the
    timeout, if there is one, and the interruption. The one exception is a successful
    command whose output could not be passed on: -1. *)
Theorem run_propagates_exit (e : Env) fl f argv code st :
  Forall (fun '(_, name, _) => name ∈ flag_names) fl -> GoFlag.set_all flag_set fl defaults = Some f -> f_job f <> "" -> argv <> [] ->
  let '(c, _, _) := child e argv in
  c_start_error c = false ->
  ends c (if f_grace f <=? 0 then 5 * second else f_grace f) (stop_at (f_timeout f) (interrupted e)) code ->
  exists m, run e (GoFlag.written fl ++ "--" :: argv)%list = Some m /\ ((m st).1 = Ret code \/ (m st).1 = Crashed).
Proof.
  intros Hfl Hs Hj Ha. destruct (child e argv) as [[c stdout] stderr] eqn:Hc. intros Hst He. unfold run.
  rewrite (GoFlag.parse_after_terminator flag_set fl argv defaults f); [|eapply Forall_impl; [exact Hfl|]|done].
  2: { intros [[sp name] value] Hn. split; [by apply flag_names_writable|by apply bool_decide_eq_true_2]. }
  rewrite !bool_decide_false by done. cbn [orb]. rewrite Hc.
  destruct (Run_ends argv c (f_timeout f) (f_grace f) (interrupted e) (startedAt e) stdout stderr code Ha Hst He) as (r & -> & Hr).
  eexists. split; [done|]. unfold mbind, M_bind. rewrite Hr.
  destruct (instrument_total e f argv r st) as [E|E]; destruct (instrument e f argv r st) as [o st']; cbn in E; subst o; [by left|by right].
Qed.

(** Every recorded job is valid and says how the command ended: a timeout before a signal
    before an exit status, and success or a warning only for a clean exit. *)
Theorem job_status_spec id jobName hostID argv trigger r :
  id <> "" -> jobName <> "" -> hostID <> "" -> is_zero (ExecWrap.StartedAt r) = false ->
  let job := (buildJob id jobName hostID argv trigger r).1 in
  Validate job = Ok tt /\
  (Status job ∈ [JobSuccess; JobWarning] <-> TimedOut r = false /\ ExecWrap.Signal r = "" /\ ExecWrap.ExitCode r = 0) /\
  (Status job = JobTimeout <-> TimedOut r = true) /\
  (Status job = JobKilled <-> TimedOut r = false /\ ExecWrap.Signal r <> "") /\
  (Status job = JobWarning -> 0 < statErrCount (Stats job)).
Proof.
  intros H1 H2 H3 H4. unfold buildJob. destruct (Extract _ _ _ _ _) as [stats errs]. cbn [fst].
  unfold Validate. cbn [ID JobName HostID StartedAt Status Schema_ Stats]. rewrite !bool_decide_false by done. rewrite H4.
  assert (forall s, s ∈ [JobSuccess; JobWarning] <-> s = JobSuccess \/ s = JobWarning) as Hok by set_solver. rewrite Hok. clear Hok.
  unfold statusFor. destruct (TimedOut r); [split_and!; try reflexivity; unfold JobTimeout, JobSuccess, JobWarning, JobKilled; naive_solver|].
  destruct (bool_decide_reflect (ExecWrap.Signal r = "")) as [E|E]; cbn [negb];
    [|split_and!; try reflexivity; unfold JobTimeout, JobSuccess, JobWarning, JobKilled; naive_solver].
  destruct (Z.eqb_spec (ExecWrap.ExitCode r) 0) as [E0|E0]; cbn [negb]; [destruct (Z.ltb_spec 0 (statErrCount stats))|];
    (split_and!; try reflexivity; unfold JobTimeout, JobSuccess, JobWarning, JobKilled, JobFailed; naive_solver).
Qed.

End run.

Definition demo_result : Result := mkResult 7 9 (-1) "killed" 9 false "out" "".

(** a command killed after two seconds, on a host without an agent whose disk fails at once *)
Definition demo_env : Env :=
  mkEnv ".host_id-1" None "01J" ".01J-1.tmp" (fun _ => JobWriter.no_agent) 9 "cron"
    (fun _ => (mkChild false (Some (2 * second, Signaled 9)) None Some false, "out", "")) None 7.

Lemma run_propagates_exit_witness :
  exists m, run (H := demo_json) (fun _ => None) (fun _ => None) (fun _ => "killed") demo_env ["--job"; "nightly"; "-timeout=1h"; "--"; "rsync"; "-job"; "x"] = Some m /\
    (m (∅, [IoFail 0])).1 = Ret 137.
Proof.
  destruct (run_propagates_exit (H := demo_json) (fun _ => None) (fun _ => None) (fun _ => "killed") demo_env
    [(GoFlag.DashDash, "job", "nightly"); (GoFlag.Equals, "timeout", "1h")]
    (mkFlags "nightly" hour (5 * second) JobWriter.DefaultSocketPath JobWriter.DefaultSpoolDir DefaultHostIDPath "")
    ["rsync"; "-job"; "x"] 137 (∅, [IoFail 0])) as (m & Hm & [E|E]).
  - repeat (apply Forall_cons; split; [apply (bool_decide_eq_true_1 _); vm_compute; reflexivity|]). by apply Forall_nil.
  - vm_compute. reflexivity.
  - done.
  - done.
  - reflexivity.
  - apply (ends_itself (mkChild false (Some (2 * second, Signaled 9)) None Some false) _ _ (2 * second) (2 * second) (Signaled 9)); [reflexivity..|].
    intros s Hs. vm_compute in Hs. injection Hs as <-. reflexivity.
  - exists m. split; [exact Hm|exact E].
  - exfalso. apply (f_equal (fun o => match o with Some m => (m (∅, [IoFail 0])).1 | None => Crashed end)) in Hm. rewrite E in Hm.
    vm_compute in Hm. discriminate.
Defined.

Lemma job_status_spec_witness :
  Status (buildJob (fun _ => None) "01J" "nightly" "h" ["backup"] "cron" demo_result).1 = JobKilled.
Proof.
  destruct (job_status_spec (fun _ => None) "01J" "nightly" "h" ["backup"] "cron" demo_result) as (_ & _ & _ & Hk & _); [done..|].
  apply Hk. done.
Defined.

End BitacoraRun.
