(* ===== verification/Packages.v ===== *)
(** * Packages: available updates

    Models internal/collector/pkgupdates (apt.go, dnf.go, docker.go, registry.go, unraid.go,
    pkgupdates.go), the image list of internal/collector/docker/metadata.go and
    internal/dnfhelper. Files are their contents, with None for one that cannot be read; the
    HTTP client is a parameter that answers a request from those sent before, encoding/json
    and net/url are parameters. A Go map is ranged over in the order of the map's
    enumeration here, in no order there. *)

From stdpp Require Import base gmap strings list.
From Stdlib Require Import ZArith Lia Ascii.
From S2P Require Import Prelude GoStd GoConv GoIO Schema DebVersion Spool Inventories.
Import GoString GoConv GoIO GoTime Schema.

Local Open Scope string_scope.
Local Open Scope Z_scope.

Abbreviation Compare := DebVersion.DebVersion.Compare.

(** ** apt.go *)
Module Apt.

(** the larger buffer apt.go gives its scanners *)
Definition bufferSize : Z := 10 * 1024 * 1024.

Definition tab : ascii := "009"%char.
Definition colon : ascii := ":"%char.

(** the fields of the stanza being read *)
Record stanza := mkStanza { s_name : string; s_version : string; s_status : string }.
Definition no_stanza : stanza := mkStanza "" "" "".

Definition set_field (st : stanza) (line : string) : stanza :=
  if has_prefix " " line || has_prefix (String tab "") line then st else
  match cut_byte colon line with
  | None => st
  | Some (key, value) =>
      let key := TrimSpace key in
      let value := TrimSpace value in
      if bool_decide (key = "Package") then mkStanza value (s_version st) (s_status st) else
      if bool_decide (key = "Version") then mkStanza (s_name st) value (s_status st) else
      if bool_decide (key = "Status") then mkStanza (s_name st) (s_version st) value else st
  end.

(** the package a stanza adds: parseDpkgStatus asks its status, parsePackagesFile does not *)
Definition stanza_package (keep : string -> bool) (st : stanza) : option (string * string) :=
  if negb (bool_decide (s_name st = "")) && negb (bool_decide (s_version st = "")) && keep (s_status st)
  then Some (s_name st, s_version st) else None.

Definition flush (keep : string -> bool) (pkgs : gmap string string) (st : stanza) : gmap string string :=
  match stanza_package keep st with
  | Some (name, version) => <[name := version]> pkgs
  | None => pkgs
  end.

Definition deb_line (keep : string -> bool) (acc : gmap string string * stanza) (line : string) : gmap string string * stanza :=
  let '(pkgs, st) := acc in
  if bool_decide (line = "") then (flush keep pkgs st, no_stanza) else (pkgs, set_field st line).

Definition parse_stanzas (keep : string -> bool) (lines : list string) : gmap string string :=
  let '(pkgs, st) := fold_left (deb_line keep) lines (∅, no_stanza) in flush keep pkgs st.

(** None for an error of Open or of the scanner *)
Definition parse_file (keep : string -> bool) (contents : option string) : option (gmap string string) :=
  match contents with
  | None => None
  | Some text => if scan_failed_max bufferSize text then None else Some (parse_stanzas keep (scan_lines_max bufferSize text))
  end.

Definition is_installed (status : string) : bool := contains "installed" status.
Definition parseDpkgStatus (contents : option string) : option (gmap string string) := parse_file is_installed contents.
Definition parsePackagesFile (contents : option string) : option (gmap string string) := parse_file (fun _ => true) contents.

(** an entry of the lists directory; [le_info] is its modification time *)
Record listEntry := mkListEntry { le_name : string; le_isDir : bool; le_info : option Time; le_contents : option string }.

Definition better (candidates : gmap string string) (name version : string) : gmap string string :=
  match candidates !! name with
  | Some current => if 0 <? Compare version current then <[name := version]> candidates else candidates
  | None => <[name := version]> candidates
  end.

Definition add_file (candidates pkgs : gmap string string) : gmap string string :=
  fold_left (fun acc '(name, version) => better acc name version) (map_to_list pkgs) candidates.

Record scan := mkScan { candidates : gmap string string; oldest : Time; any : bool }.

Definition list_entry (st : scan) (e : listEntry) : scan :=
  if le_isDir e || negb (has_suffix "_Packages" (le_name e)) then st else
  match le_info e with
  | None => st
  | Some modTime =>
      let old := if negb (any st) || before modTime (oldest st) then modTime else oldest st in
      match parsePackagesFile (le_contents e) with
      | None => mkScan (candidates st) old true
      | Some pkgs => mkScan (add_file (candidates st) pkgs) old true
      end
  end.

Definition candidateVersions (entries : option (list listEntry)) : option (gmap string string * Time) :=
  match entries with
  | None => None
  | Some es =>
      let st := fold_left list_entry es (mkScan ∅ zero false) in
      Some (candidates st, if any st then oldest st else zero)
  end.

Definition apt_item (cands : gmap string string) (cacheAge now : Time) (name installedVersion : string) : option InventoryItem :=
  match cands !! name with
  | None => None
  | Some candidate =>
      if Compare candidate installedVersion <=? 0 then None else
      let attrs := {[ "source" := "apt"; "installed_version" := installedVersion; "candidate_version" := candidate ]} : gmap string string in
      let attrs := if is_zero cacheAge then attrs else <["cache_age_seconds" := FormatFloat0 (Seconds (sub now cacheAge))]> attrs in
      Some (mkInventoryItem ("apt:" ++ name) name attrs)
  end.

Definition aptItems (dpkgStatus : option string) (lists : option (list listEntry)) (now : Time) : list InventoryItem :=
  match parseDpkgStatus dpkgStatus with
  | None => []
  | Some installed =>
      match candidateVersions lists with
      | None => []
      | Some (cands, cacheAge) =>
          if bool_decide (cands = ∅) then [] else
          omap (fun '(name, version) => apt_item cands cacheAge now name version) (map_to_list installed)
      end
  end.

(** *** What the files declare *)

(** the lines between blank ones *)
Fixpoint split_stanzas (lines : list string) : list (list string) :=
  match lines with
  | [] => [[]]
  | l :: rest =>
      let ss := split_stanzas rest in
      if bool_decide (l = "") then [] :: ss else
      match ss with
      | s :: ss => (l :: s) :: ss
      | [] => [[l]]
      end
  end.

Definition read_stanza (lines : list string) : stanza := fold_left set_field lines no_stanza.

(** the packages of a file, in its order *)
Definition packages (keep : string -> bool) (lines : list string) : list (string * string) :=
  omap (fun ls => stanza_package keep (read_stanza ls)) (split_stanzas lines).

(** the version the last of several declarations gives *)
Definition last_version (pkgs : list (string * string)) (name : string) : option string :=
  snd <$> last (List.filter (fun p => bool_decide (p.1 = name)) pkgs).

Definition insert_all (pkgs : list (string * string)) (m : gmap string string) : gmap string string :=
  fold_left (fun m p => <[p.1 := p.2]> m) pkgs m.

Lemma insert_all_lookup pkgs m name :
  insert_all pkgs m !! name = match last_version pkgs name with Some v => Some v | None => m !! name end.
Proof.
  revert m. induction pkgs as [|[n v] pkgs IH]; intros m; [done|]. unfold insert_all in *. cbn [fold_left]. rewrite IH.
  unfold last_version. cbn [List.filter fst]. case_bool_decide as Hn; cbn [fst snd].
  - subst n. rewrite last_cons. destruct (last _) as [p|]; cbn; [done|]. apply lookup_insert_eq.
  - destruct (last _); [done|]. by apply lookup_insert_ne.
Qed.

Lemma split_stanzas_ne lines : split_stanzas lines <> [].
Proof. destruct lines as [|l lines]; cbn; [done|]. case_bool_decide; [done|]. by destruct (split_stanzas lines). Qed.

Lemma deb_lines_spec keep lines pkgs st :
  (let '(p, s) := fold_left (deb_line keep) lines (pkgs, st) in flush keep p s) =
  match split_stanzas lines with
  | first :: rest =>
      insert_all (omap (fun ls => stanza_package keep (read_stanza ls)) rest) (flush keep pkgs (fold_left set_field first st))
  | [] => pkgs
  end.
Proof.
  revert pkgs st. induction lines as [|l lines IH]; intros pkgs st; [done|].
  cbn [fold_left deb_line split_stanzas]. case_bool_decide as Hl.
  - rewrite IH. destruct (split_stanzas lines) as [|first rest] eqn:E.
    { by apply split_stanzas_ne in E. }
    cbn [fold_left omap list_omap]. fold (read_stanza first). unfold flush at 1.
    by destruct (stanza_package keep (read_stanza first)) as [[n v]|].
  - rewrite IH. destruct (split_stanzas lines) as [|first rest] eqn:E; [by apply split_stanzas_ne in E|done].
Qed.

Lemma parse_stanzas_spec keep lines name : parse_stanzas keep lines !! name = last_version (packages keep lines) name.
Proof.
  unfold parse_stanzas. pose proof (deb_lines_spec keep lines ∅ no_stanza) as H.
  destruct (fold_left (deb_line keep) lines (∅, no_stanza)) as [p s]. rewrite H. unfold packages.
  destruct (split_stanzas lines) as [|first rest]; [done|]. cbn [omap list_omap]. fold (read_stanza first). unfold flush.
  destruct (stanza_package keep (read_stanza first)) as [[n v]|].
  - change (insert_all ?l (<[n := v]> ∅)) with (insert_all ((n, v) :: l) ∅). rewrite insert_all_lookup. by destruct (last_version _ _).
  - rewrite insert_all_lookup. by destruct (last_version _ _).
Qed.

(** *** The highest candidate *)

(** [c] is one of the versions [vs], and none of them is newer *)
Definition highest (vs : list string) (c : string) : Prop := c ∈ vs /\ forall v, v ∈ vs -> Compare v c <= 0.

Definition best_of (vs : list string) (c : option string) : Prop :=
  match c with Some c => highest vs c | None => vs = [] end.

Lemma Compare_refl v : Compare v v = 0.
Proof. pose proof (DebVersion.DebVersion.Compare_opp v v) as [_ H]. lia. Qed.

Lemma best_of_add vs c v :
  best_of vs c ->
  best_of (vs ++ [v])%list (Some (match c with Some c => if 0 <? Compare v c then v else c | None => v end)).
Proof.
  destruct c as [c|]; cbn; [|intros ->; split; [by left|]; intros w [->|Hw]%elem_of_cons; [by rewrite Compare_refl|by apply elem_of_nil in Hw]].
  intros [Hc Hall]. pose proof (DebVersion.DebVersion.Compare_opp v c) as [Hvc Hcv]. destruct (Z.ltb_spec 0 (Compare v c)) as [Hlt|Hle].
  - split; [apply elem_of_app; right; by left|]. intros w [Hw|Hw]%elem_of_app.
    + destruct (DebVersion.DebVersion.Compare_tri w c v (Hall w Hw)) as [H _]; [lia|done].
    + apply list_elem_of_singleton in Hw as ->. by rewrite Compare_refl.
  - split; [apply elem_of_app; by left|]. intros w [Hw|Hw]%elem_of_app; [by apply Hall|]. by apply list_elem_of_singleton in Hw as ->.
Qed.

Lemma better_lookup cands name version n :
  better cands name version !! n =
    if bool_decide (n = name)
    then Some (match cands !! name with Some c => if 0 <? Compare version c then version else c | None => version end)
    else cands !! n.
Proof.
  unfold better. case_bool_decide as Hn; [subst n|].
  - destruct (cands !! name) as [c|] eqn:E; [destruct (0 <? _)|]; rewrite ?lookup_insert_eq; done.
  - destruct (cands !! name) as [c|]; [destruct (0 <? _)|]; rewrite ?lookup_insert_ne by done; done.
Qed.

(** after a file, the candidate of each name is the best of what it was and the file's *)
Lemma add_file_best cands pkgs n vs :
  best_of vs (cands !! n) ->
  best_of (vs ++ match pkgs !! n with Some v => [v] | None => [] end)%list (add_file cands pkgs !! n).
Proof.
  intros Hb. unfold add_file.
  assert (forall l (acc : gmap string string), NoDup l.*1 ->
    fold_left (fun acc '(name, version) => better acc name version) l acc !! n =
      match (list_to_map l : gmap string string) !! n with Some v => Some (match acc !! n with Some c => if 0 <? Compare v c then v else c | None => v end) | None => acc !! n end) as Hfold.
  { induction l as [|[name v] l IH]; intros acc Hnd; [done|]. rewrite fmap_cons in Hnd. apply NoDup_cons in Hnd as [Hx Hnd].
    cbn [fold_left list_to_map fst snd]. rewrite IH by done. cbn. rewrite better_lookup. case_bool_decide as Hn.
    - subst n. rewrite (not_elem_of_list_to_map_1 l name) by done. by rewrite lookup_insert_eq.
    - rewrite lookup_insert_ne by done. done. }
  rewrite Hfold by apply NoDup_fst_map_to_list. rewrite list_to_map_to_list.
  destruct (pkgs !! n) as [v|]; [by apply best_of_add|]. by rewrite app_nil_r.
Qed.

(** the files the cache consists of *)
Definition list_file (e : listEntry) : option (gmap string string) :=
  if le_isDir e || negb (has_suffix "_Packages" (le_name e)) then None else
  match le_info e with Some _ => parsePackagesFile (le_contents e) | None => None end.

Definition offered (es : list listEntry) (name : string) : list string := omap (fun f : gmap string string => f !! name) (omap list_file es).

Lemma candidates_best es cands age name :
  candidateVersions (Some es) = Some (cands, age) -> best_of (offered es name) (cands !! name).
Proof.
  cbn [candidateVersions]. intros [= <- _].
  assert (forall st vs, best_of vs (candidates st !! name) ->
    best_of (vs ++ offered es name)%list (candidates (fold_left list_entry es st) !! name)) as H.
  { induction es as [|e es IH]; intros st vs Hb; [by rewrite app_nil_r|]. unfold offered in *. cbn [fold_left].
    assert (best_of (vs ++ match list_file e with Some f => match f !! name with Some v => [v] | None => [] end | None => [] end)%list
      (candidates (list_entry st e) !! name)) as He.
    { unfold list_entry, list_file. destruct (le_isDir e || _); [by rewrite app_nil_r|].
      destruct (le_info e); [|by rewrite app_nil_r]. destruct (parsePackagesFile _) as [f|]; [|by rewrite app_nil_r]. by apply add_file_best. }
    specialize (IH _ _ He). rewrite <- app_assoc in IH. cbn [omap list_omap].
    destruct (list_file e) as [f|]; cbn [omap list_omap]; [destruct (f !! name)|]; done. }
  by specialize (H (mkScan ∅ zero false) [] (eq_refl)).
Qed.

Lemma best_of_None vs : best_of vs None -> vs = [].
Proof. done. Qed.

(** the item of a package: what it says and when there is one *)
Lemma apt_item_spec es cands age now name v :
  candidateVersions (Some es) = Some (cands, age) ->
  match apt_item cands age now name v with
  | Some item => ii_ID item = ("apt:" ++ name)%string /\ ii_Name item = name /\ ii_Attrs item !! "installed_version" = Some v /\
      exists c, ii_Attrs item !! "candidate_version" = Some c /\ highest (offered es name) c /\ 0 < Compare c v
  | None => forall w, w ∈ offered es name -> Compare w v <= 0
  end.
Proof.
  intros Hc. pose proof (candidates_best es cands age name Hc) as Hb. unfold apt_item. destruct (cands !! name) as [c|]; cbn in Hb.
  2: { rewrite Hb. intros w Hw. by apply elem_of_nil in Hw. }
  destruct (Z.leb_spec (Compare c v) 0) as [Hle|Hlt].
  { intros w Hw. destruct Hb as [_ Hb]. by destruct (DebVersion.DebVersion.Compare_tri w c v (Hb w Hw) Hle) as [H _]. }
  cbn [ii_ID ii_Name ii_Attrs]. split_and!; [done|done|by destruct (is_zero age)|]. exists c. split; [by destruct (is_zero age)|done].
Qed.

(** *** What a file declares, without the parser *)

(** the value a line gives to the field [key]: a line that does not start with white space,
    up to its first colon the name and after it the value, both trimmed *)
Definition value_of (key line : string) : option string :=
  if has_prefix " " line || has_prefix (String tab "") line then None else
  match cut_byte colon line with
  | Some (k, v) => if bool_decide (TrimSpace k = key) then Some (TrimSpace v) else None
  | None => None
  end.

(** a field of a stanza, the last one if it is repeated, and empty if there is none *)
Definition field_of (key : string) (ls : list string) : string := default "" (last (omap (value_of key) ls)).

(** the packages the stanzas of a file declare, those with a name and a version whose status
    [keep] accepts *)
Definition declared (keep : string -> bool) (lines : list string) : list (string * string) :=
  omap (fun ls => if bool_decide (field_of "Package" ls <> "") && bool_decide (field_of "Version" ls <> "") && keep (field_of "Status" ls)
                  then Some (field_of "Package" ls, field_of "Version" ls) else None) (split_stanzas lines).

(** what the list [e] offers: nothing unless it is a file named ..._Packages that can be read *)
Definition offers (e : listEntry) (name : string) : option string :=
  if le_isDir e || negb (has_suffix "_Packages" (le_name e)) then None else
  match le_info e, le_contents e with
  | Some _, Some text => if scan_failed_max bufferSize text then None
                         else last_version (declared (fun _ => true) (scan_lines_max bufferSize text)) name
  | _, _ => None
  end.

Lemma field_snoc key ls line : field_of key (ls ++ [line]) = default (field_of key ls) (value_of key line).
Proof.
  unfold field_of. rewrite omap_app. cbn [omap list_omap]. destruct (value_of key line) as [v|].
  - by rewrite last_snoc.
  - by rewrite app_nil_r.
Qed.

Lemma read_stanza_fields ls : read_stanza ls = mkStanza (field_of "Package" ls) (field_of "Version" ls) (field_of "Status" ls).
Proof.
  unfold read_stanza. induction ls as [|line ls IH] using rev_ind; [done|].
  rewrite fold_left_app. cbn [fold_left]. rewrite IH, !field_snoc. unfold set_field, value_of.
  destruct (has_prefix " " line || _); [done|]. destruct (cut_byte colon line) as [[k v]|]; [|done].
  cbn [s_name s_version s_status].
  repeat case_bool_decide; try congruence; done.
Qed.

Lemma packages_declared keep lines : packages keep lines = declared keep lines.
Proof.
  unfold packages, declared. apply list_omap_ext. induction (split_stanzas lines) as [|ls ss IH]; constructor; [|done].
  rewrite read_stanza_fields. unfold stanza_package. cbn [s_name s_version s_status]. by rewrite !bool_decide_not.
Qed.

Lemma offered_offers es name : offered es name = omap (fun e => offers e name) es.
Proof.
  unfold offered. induction es as [|e es IH]; [done|]. cbn [omap list_omap]. unfold list_file at 1, offers at 1.
  destruct (le_isDir e || _); [done|]. destruct (le_info e); [|done]. unfold parsePackagesFile, parse_file.
  destruct (le_contents e) as [text|]; [|done]. destruct (scan_failed_max _ _); [done|]. cbn [omap list_omap].
  rewrite parse_stanzas_spec, packages_declared. destruct (last_version _ _); by rewrite IH.
Qed.

(** C27: the updates of apt, for a status file that can be read. A package counts as installed
    in the version of its last stanza whose Status holds the text "installed"; a list of the
    cache offers a package in the version of its last stanza there. The items name exactly
    the installed packages for which some list offers a version newer than the installed one,
    by the order of [Compare], and each is listed with its installed version and the newest
    of what the lists offer. (The comments of apt.go mean the highest version of a list, and
    the status "install ok installed" only; see [last_listed_version_taken] and
    [not_installed_counts].) *)
Theorem apt_updates_spec text es now :
  scan_failed_max bufferSize text = false ->
  let installed := last_version (declared (contains "installed") (scan_lines_max bufferSize text)) in
  (forall name, name ∈ ii_Name <$> aptItems (Some text) (Some es) now <->
     exists v w, installed name = Some v /\ w ∈ omap (fun e => offers e name) es /\ 0 < Compare w v) /\
  (forall item, item ∈ aptItems (Some text) (Some es) now ->
     ii_ID item = ("apt:" ++ ii_Name item)%string /\
     exists v c, installed (ii_Name item) = Some v /\ ii_Attrs item !! "installed_version" = Some v /\
       ii_Attrs item !! "candidate_version" = Some c /\ highest (omap (fun e => offers e (ii_Name item)) es) c /\ 0 < Compare c v).
Proof.
  intros Hscan inst. unfold aptItems, parseDpkgStatus, parse_file. rewrite Hscan.
  set (installed := parse_stanzas _ _).
  assert (forall name, installed !! name = inst name) as Hinst.
  { intros name. unfold installed, inst. by rewrite parse_stanzas_spec, packages_declared. }
  setoid_rewrite <- Hinst. setoid_rewrite <- offered_offers. clear Hinst inst.
  destruct (candidateVersions (Some es)) as [[cands age]|] eqn:Ec; [|done].
  pose proof (fun name v => apt_item_spec es cands age now name v Ec) as Hitem.
  assert (forall item, item ∈ (if bool_decide (cands = ∅) then [] else
      omap (fun '(name, version) => apt_item cands age now name version) (map_to_list installed)) <->
      exists name v, installed !! name = Some v /\ apt_item cands age now name v = Some item) as Hin.
  { intros item. case_bool_decide as He.
    - split; [by intros ?%elem_of_nil|]. intros (name & v & _ & Hi). unfold apt_item in Hi. by rewrite He, lookup_empty in Hi.
    - rewrite list_elem_of_omap. split.
      + intros ([name v] & Hin & Hi). exists name, v. by rewrite <- elem_of_map_to_list.
      + intros (name & v & Hv & Hi). exists (name, v). by rewrite elem_of_map_to_list. }
  split.
  - intros name. rewrite list_elem_of_fmap. split.
    + intros (item & -> & (n & v & Hv & Hi)%Hin). specialize (Hitem n v). rewrite Hi in Hitem.
      destruct Hitem as (_ & -> & _ & c & _ & [Hc _] & Hlt). by exists v, c.
    + intros (v & w & Hv & Hw & Hlt). specialize (Hitem name v). destruct (apt_item cands age now name v) as [item|] eqn:Hi.
      * exists item. split; [symmetry; apply Hitem|]. apply Hin. by exists name, v.
      * specialize (Hitem w Hw). lia.
  - intros item (n & v & Hv & Hi)%Hin. specialize (Hitem n v). rewrite Hi in Hitem. destruct Hitem as (HID & Hn & Hv' & c & Hc & Hh & Hlt).
    rewrite Hn. split; [done|]. by exists v, c.
Qed.

Definition text_of (ls : list string) : string := foldr (fun l acc => l ++ String newline acc) "" ls.

Definition demo_status : string := text_of
  ["Package: curl"; "Status: install ok installed"; "Version: 8.5.0-2"; "Description: client"; " Version: 0"; "";
   "Package: nano"; "Status: install ok installed"; "Version: 7.2-1"].
Definition packages_file (name : string) (mtime : Time) (ls : list string) : listEntry := mkListEntry name false (Some mtime) (Some (text_of ls)).
Definition demo_lists : list listEntry :=
  [packages_file "main_Packages" second ["Package: curl"; "Version: 8.5.0-1"; ""; "Package: nano"; "Version: 7.2-1"];
   packages_file "security_Packages" (2 * second) ["Package: curl"; "Version: 8.5.0-2+deb12u1"];
   packages_file "Release" second ["Package: nano"; "Version: 9"]].

Lemma apt_updates_spec_witness : "curl" ∈ ii_Name <$> aptItems (Some demo_status) (Some demo_lists) (10 * second).
Proof.
  apply (proj1 (apt_updates_spec demo_status demo_lists (10 * second) eq_refl)). exists "8.5.0-2", "8.5.0-2+deb12u1".
  split_and!; [vm_compute; reflexivity|apply list_elem_of_In; vm_compute; tauto|vm_compute; done].
Defined.

(** Within one list the last version of a package wins, not the highest: of a repository
    that keeps its old versions, listed newest first, the oldest is taken. *)
Example last_listed_version_taken :
  aptItems (Some demo_status) (Some [packages_file "repo_Packages" second
    ["Package: curl"; "Version: 9.0-1"; ""; "Package: curl"; "Version: 8.0-1"]]) second = [].
Proof. vm_compute. done. Qed.

(** A package that is not installed, or only half, passes for installed. *)
Example not_installed_counts :
  is_installed "deinstall ok not-installed" = true /\ is_installed "install ok half-installed" = true /\
  is_installed "deinstall ok config-files" = false.
Proof. vm_compute. done. Qed.

End Apt.

(** ** internal/dnfhelper and dnf.go *)
Module Dnf.

Record Update := mkUpdate { Name : string; Arch : string; Version : string; Repo : string }.

Definition dot : ascii := "."%char.

Definition splitNameArch (nameArch : string) : option (string * string) :=
  match cut_last_byte dot nameArch with
  | Some (name, arch) => if bool_decide (name = "") || bool_decide (arch = "") then None else Some (name, arch)
  | None => None
  end.

Fixpoint check_lines (lines : list string) : list Update :=
  match lines with
  | [] => []
  | text :: rest =>
      let line := TrimSpace text in
      if has_prefix "Obsoleting Packages" line then [] else
      if bool_decide (line = "") || has_prefix "Last metadata" line then check_lines rest else
      match Fields line with
      | [nameArch; version; repo] =>
          match splitNameArch nameArch with
          | Some (name, arch) => mkUpdate name arch version repo :: check_lines rest
          | None => check_lines rest
          end
      | _ => check_lines rest
      end
  end.

Definition parseCheckUpdate (out : string) : list Update := check_lines (scan_lines out).

(** Run, given what the command returned: its output, whether it says that there are
    updates, and its error *)
Definition Run (out : string) (updatesAvailable : bool) (err : option string) : list Update * list string :=
  match err, updatesAvailable with
  | Some e, false => ([], [("dnf check-update: " ++ e)%string])
  | _, _ => (parseCheckUpdate out, [])
  end.

(** cmd/bitacora-dnf runCheckUpdate: how the process ended *)
Inductive exec := ExecOk | ExecExit (code : Z) (err : string) | ExecFailed (err : string).
Definition runCheckUpdate (e : exec) : bool * option string :=
  match e with
  | ExecOk => (false, None)
  | ExecExit code err => if code =? 100 then (true, None) else (false, Some err)
  | ExecFailed err => (false, Some err)
  end.

Definition dnf_item (u : Update) : option InventoryItem :=
  if bool_decide (Name u = "") then None else
  Some (mkInventoryItem ("dnf:" ++ Name u ++ "." ++ Arch u) (Name u)
    {[ "source" := "dnf"; "candidate_version" := Version u; "arch" := Arch u; "repo" := Repo u ]}).

(** [decode] is json.Unmarshal into the list of updates *)
Definition dnfItems (decode : string -> option (list Update)) (entries : option (gmap string Spool.Entry)) : list InventoryItem :=
  match entries with
  | None => []
  | Some entries =>
      match entries !! "dnfupdates" with
      | None => []
      | Some entry => match decode (Spool.Data entry) with
                      | None => []
                      | Some updates => omap dnf_item updates
                      end
      end
  end.

(** *** The table dnf prints *)

Definition word (s : string) : Prop := s <> "" /\ no_space s.
Record update_ok (u : Update) : Prop := mkUpdateOk {
  uo_name : word (Name u); uo_arch : word (Arch u) /\ lacks dot (Arch u) = true; uo_version : word (Version u); uo_repo : word (Repo u);
}.

Definition spaces : string := "    ".
Definition row (u : Update) : string := Name u ++ "." ++ Arch u ++ spaces ++ Version u ++ spaces ++ Repo u.

Lemma no_space_cons c s : no_space (String c s) -> is_space c = false /\ no_space s.
Proof. intros H. split; [apply H; by left|]. intros d Hd. apply H. by right. Qed.

Lemma no_space_app a b : no_space a -> no_space b -> no_space (a ++ b).
Proof.
  intros Ha Hb c Hc. induction a as [|d a IH]; [by apply Hb|]. rewrite str_app_cons in Hc. cbn in Hc.
  apply elem_of_cons in Hc as [->|Hc]; [apply Ha; by left|]. apply IH; [|done]. by apply no_space_cons in Ha as [_ ?].
Qed.

Lemma fields_go_word w s field : no_space w -> fields_go (w ++ s) field = fields_go s (field ++ w).
Proof.
  revert field. induction w as [|c w IH]; intros field Hw; [by rewrite str_app_nil_r|].
  apply no_space_cons in Hw as [Hc Hw]. rewrite str_app_cons. cbn [fields_go]. rewrite Hc, IH by done.
  by rewrite <- str_app_assoc.
Qed.

Lemma Fields_word w s : word w -> Fields (w ++ spaces ++ s) = w :: Fields s.
Proof.
  intros [Hne Hw]. unfold Fields. rewrite fields_go_word by done. rewrite str_app_nil_l.
  change (spaces ++ s)%string with (String " " (String " " (String " " (String " " s)))). cbn. by rewrite bool_decide_false.
Qed.

Lemma Fields_last w : word w -> Fields w = [w].
Proof.
  intros [Hne Hw]. unfold Fields. rewrite <- (str_app_nil_r w) at 1. rewrite fields_go_word by done. cbn. by rewrite bool_decide_false.
Qed.

(** no header line starts with a word that has a dot in it *)
Lemma prefix_of_word p rest w s :
  lacks dot p = true -> no_space w -> lacks dot w = false -> has_prefix (p ++ String " " rest) (w ++ s) = false.
Proof.
  revert w. induction p as [|c p IH]; intros w Hp Hw Hd; destruct w as [|d w]; try done.
  - apply no_space_cons in Hw as [Hw _]. rewrite str_app_nil_l, str_app_cons. cbn [has_prefix]. rewrite decide_False; [done|]. by intros <-.
  - rewrite !str_app_cons. cbn [has_prefix]. cbn [lacks] in Hp, Hd. apply andb_true_iff in Hp as [Hc Hp]. apply no_space_cons in Hw as [_ Hw].
    destruct (decide (c = d)) as [->|]; [|done]. rewrite Hc in Hd. by apply IH.
Qed.

Lemma row_words u : update_ok u -> word (Name u ++ "." ++ Arch u) /\ lacks dot (Name u ++ "." ++ Arch u) = false.
Proof.
  intros [[Hn Hns] [[Ha Has] _] _ _]. split; [split|].
  - by destruct (Name u).
  - apply no_space_app; [done|]. change ("." ++ Arch u)%string with (String "." (Arch u)). intros c [->|Hc]%elem_of_cons; [done|by apply Has].
  - rewrite lacks_app. rewrite andb_comm. done.
Qed.

Lemma row_parts u : row u = ((Name u ++ "." ++ Arch u) ++ spaces ++ Version u ++ spaces ++ Repo u)%string.
Proof. unfold row. by rewrite <- !str_app_assoc. Qed.

Lemma row_trimmed u : update_ok u -> TrimSpace (row u) = row u.
Proof.
  intros Hu. pose proof (row_words u Hu) as [[Hne Hns] _]. destruct Hu as [_ _ _ [Hr Hrs]]. rewrite row_parts.
  destruct (Name u ++ "." ++ Arch u)%string as [|c w]; [done|]. apply no_space_cons in Hns as [Hc _].
  rewrite !str_app_assoc, !str_app_cons. by apply TrimSpace_ends.
Qed.

Lemma check_row u lines : update_ok u -> check_lines (row u :: lines) = u :: check_lines lines.
Proof.
  intros Hu. pose proof (row_words u Hu) as [Hw Hd]. pose proof (row_trimmed u Hu) as Ht. cbn [check_lines]. rewrite Ht. rewrite row_parts.
  rewrite (prefix_of_word "Obsoleting" "Packages") by (done || apply Hw). rewrite (prefix_of_word "Last" "metadata") by (done || apply Hw).
  rewrite bool_decide_false by (by destruct (Name u)). cbn [orb].
  destruct Hu as [[Hn _] [[Ha _] Hdot] Hv Hr]. rewrite Fields_word by done. rewrite Fields_word by done. rewrite Fields_last by done.
  unfold splitNameArch. change (Name u ++ "." ++ Arch u)%string with (Name u ++ String dot (Arch u))%string. rewrite cut_last_byte_app by done.
  rewrite !bool_decide_false by done. by destruct u.
Qed.

(** a line before the table: blank, or the banner *)
Definition noise (text : string) : Prop := TrimSpace text = "" \/ has_prefix "Last metadata" (TrimSpace text) = true.

Lemma check_noise text lines : noise text -> check_lines (text :: lines) = check_lines lines.
Proof.
  intros Hn. cbn [check_lines]. assert (has_prefix "Obsoleting Packages" (TrimSpace text) = false) as ->.
  { destruct Hn as [->|Hn]; [done|]. destruct (TrimSpace text) as [|c r]; [done|]. cbn [has_prefix] in Hn |- *.
    destruct (decide ("L"%char = c)) as [<-|]; [done|done]. }
  destruct Hn as [->|Hn]; [done|]. by rewrite Hn, orb_true_r.
Qed.

(** Reading dnf's table gives the updates it was printed from, whatever banner and blank
    lines precede it, and leaves out the section of obsoleted packages. *)
Theorem dnf_table_roundtrip out banner us obsoleting :
  scan_lines out = (banner ++ (row <$> us) ++ obsoleting)%list ->
  Forall noise banner -> Forall update_ok us ->
  match obsoleting with [] => True | header :: _ => has_prefix "Obsoleting Packages" (TrimSpace header) = true end ->
  Run out true None = (us, []).
Proof.
  intros Hout Hb Hu Ho. unfold Run, parseCheckUpdate. f_equal. rewrite Hout. clear Hout.
  induction Hb as [|text banner Ht Hb IH]; [|change ((text :: ?l) ++ ?r)%list with (text :: (l ++ r))%list; by rewrite check_noise].
  rewrite app_nil_l. induction Hu as [|u us Hu Hus IH].
  - destruct obsoleting as [|header rest]; [done|]. cbn [fmap list_fmap app check_lines]. by rewrite Ho.
  - rewrite fmap_cons. change ((row u :: ?l) ++ ?r)%list with (row u :: (l ++ r))%list. by rewrite check_row, IH.
Qed.

Definition demo_updates : list Update := [mkUpdate "kernel-core" "x86_64" "6.8.5-301.fc40" "updates"; mkUpdate "python3.12" "noarch" "3.12.3-2.fc40" "updates"].
Definition demo_out : string :=
  foldr (fun l acc => l ++ String newline acc) ""
    (["Last metadata expiration check: 0:12:09 ago."; ""] ++ (row <$> demo_updates) ++ ["Obsoleting Packages"; row (mkUpdate "old" "noarch" "1" "updates")])%list.

Lemma dnf_table_roundtrip_witness : Run demo_out true None = (demo_updates, []).
Proof.
  assert (forall s, existsb is_space (String.list_ascii_of_string s) = false -> s <> "" -> word s) as Hw.
  { intros s H Hs. split; [done|]. intros c Hc. apply not_true_is_false. intros E.
    assert (existsb is_space (String.list_ascii_of_string s) = true); [|congruence]. apply existsb_exists. exists c. by rewrite <- list_elem_of_In. }
  apply (dnf_table_roundtrip demo_out ["Last metadata expiration check: 0:12:09 ago."; ""] demo_updates
    ["Obsoleting Packages"; row (mkUpdate "old" "noarch" "1" "updates")]).
  - vm_compute. reflexivity.
  - constructor; [by right|constructor; [by left|constructor]].
  - repeat constructor; try done; apply Hw; done.
  - done.
Defined.

End Dnf.

(** ** HTTP *)
Record request := mkRequest { rq_Method : string; rq_URL : string; rq_Header : gmap string string }.
(** the body is None when reading it fails *)
Record response := mkResponse { rs_StatusCode : Z; rs_Header : gmap string string; rs_Body : option string }.

(** An HTTP client: the requests handed to it so far, and what its Do returns for the next
    one; None for an error. The clients of the sources set no CheckRedirect, so that one Do
    may follow up to ten redirects, each a request on the wire of its own, and net/http then
    repeats the headers, Authorization too where the redirect stays within the domain: what
    is stated here is about the requests handed to Do and what Do returned in the end.
    [parses] is whether net/url parses the URL of a request. *)
Class Http := mkHttp { Do : list request -> request -> option response; parses : string -> bool }.

Definition Web (A : Type) : Type := list request -> A * list request.
Global Instance Web_ret : MRet Web := fun A a sent => (a, sent).
Global Instance Web_bind : MBind Web := fun A B f m sent => let '(a, sent') := m sent in f a sent'.

(** one call of Do *)
Definition send `{!Http} (rq : request) : Web (option response) := fun sent =>
  if parses (rq_URL rq) then (Do sent rq, (sent ++ [rq])%list) else (None, sent).

Definition header (h : gmap string string) (k : string) : string := default "" (h !! k).

(** ** internal/collector/docker/metadata.go *)
Module Metadata.

Record containerListEntry := mkContainer { c_ID : string; c_Names : list string }.
Record imageListEntry := mkImageEntry { RepoTags : list string; RepoDigests : list string }.
Record Image := mkImage { RepoTag : string; RepoDigest : string }.

Definition firstRealTag (tags : list string) : string :=
  default "" (List.find (fun t => negb (bool_decide (t = "")) && negb (bool_decide (t = "<none>:<none>"))) tags).

Definition digest_of (d : string) : option string :=
  match cut_byte "@" d with
  | Some (_, digest) => if bool_decide (digest = "") then None else Some digest
  | None => None
  end.
Definition firstDigest (digests : list string) : string := default "" (head (omap digest_of digests)).

Definition image_of (e : imageListEntry) : option Image :=
  let tag := firstRealTag (RepoTags e) in
  let digest := firstDigest (RepoDigests e) in
  if bool_decide (tag = "") || bool_decide (digest = "") then None else Some (mkImage tag digest).

Section client.
Context `{!Http} (BaseURL : string).
Context (decodeContainers : string -> option (list containerListEntry)) (decodeImages : string -> option (list imageListEntry)).

(** the GET both calls make: the body of a 200 *)
Definition get (path : string) : Web (option string) :=
  resp ← send (mkRequest "GET" (BaseURL ++ path) ∅);
  mret (match resp with
        | Some r => if rs_StatusCode r =? 200 then rs_Body r else None
        | None => None
        end).

Definition add_name (names : gmap string string) (e : containerListEntry) : gmap string string :=
  match c_Names e with
  | [] => names
  | n :: _ => <[c_ID e := trim_prefix n "/"]> names
  end.

Definition ContainerNames : Web (option (gmap string string)) :=
  body ← get "/containers/json";
  mret (match body with
        | Some b => match decodeContainers b with Some entries => Some (fold_left add_name entries ∅) | None => None end
        | None => None
        end).

Definition Images : Web (option (list Image)) :=
  body ← get "/images/json";
  mret (match body with
        | Some b => match decodeImages b with Some entries => Some (omap image_of entries) | None => None end
        | None => None
        end).
End client.

End Metadata.

(** ** registry.go *)
Module Registry.

Record registryRef := mkRef { Host : string; Repository : string; Reference : string }.

Definition slash : ascii := "/"%char.
Definition colon : ascii := ":"%char.
Definition dockerHub : string := "registry-1.docker.io".

Definition looksLikeHost (s : string) : bool := bool_decide (s = "localhost") || contains "." s || contains ":" s.

Definition parseImageReference (ref : string) : option registryRef :=
  if bool_decide (ref = "") then None else
  let '(before, tail) := match cut_last_byte slash ref with Some (a, b) => ((a ++ "/")%string, b) | None => ("", ref) end in
  let '(name, tag) := match cut_byte colon tail with Some (h, t) => ((before ++ h)%string, t) | None => (ref, "latest") end in
  let hub := Some (mkRef dockerHub (if contains "/" name then name else "library/" ++ name) tag) in
  match cut_byte slash name with
  | Some (host, repo) => if looksLikeHost host then Some (mkRef host repo tag) else hub
  | None => hub
  end.

Definition acceptManifests : string :=
  "application/vnd.docker.distribution.manifest.v2+json," ++ "application/vnd.docker.distribution.manifest.list.v2+json," ++
  "application/vnd.oci.image.manifest.v1+json," ++ "application/vnd.oci.image.index.v1+json".

(** bearerParamRe: a word, an equals sign and a quoted value *)
Definition quote : ascii := "034"%char.
Definition bearerParam (s : string) : option ((string * string) * string) :=
  match span re_word s with
  | ("", _) => None
  | (key, s) =>
      match trim_prefix_go (String "=" (String quote "")) s with
      | None => None
      | Some s =>
          let '(value, s) := span (fun c => negb (bool_decide (c = quote))) s in
          match s with "" => None | String _ s => Some ((key, value), s) end
      end
  end.

Record tokenBody := mkTokenBody { Token : string; AccessToken : string }.

Section registry.
Context `{!Http} (Scheme : string).
(** the URL of the realm with service and scope set in its query (net/url), and the decoding
    of the token response *)
Context (tokenURL : string -> option string -> option string -> option string) (decodeToken : string -> option tokenBody).

(** the digest, or the status and the challenge *)
Definition headManifest (manifestURL token : string) : Web (result (Z * string) string) :=
  let hdr := {[ "Accept" := acceptManifests ]} : gmap string string in
  let hdr := if bool_decide (token = "") then hdr else <["Authorization" := ("Bearer " ++ token)%string]> hdr in
  resp ← send (mkRequest "HEAD" manifestURL hdr);
  mret (match resp with
        | None => Err (0, "")
        | Some r =>
            if rs_StatusCode r =? 200 then
              let d := header (rs_Header r) "Docker-Content-Digest" in
              if bool_decide (d = "") then Err (200, "") else Ok d
            else Err (rs_StatusCode r, header (rs_Header r) "Www-Authenticate")
        end).

Definition challenge (wwwAuthenticate : string) : gmap string string :=
  fold_left (fun m kv => <[kv.1 := kv.2]> m) (FindAll bearerParam wwwAuthenticate) ∅.

Definition fetchToken (wwwAuthenticate : string) : Web (option string) :=
  if negb (has_prefix "Bearer " wwwAuthenticate) then mret None else
  let params := challenge wwwAuthenticate in
  match params !! "realm" with
  | None => mret None
  | Some realm =>
      match tokenURL realm (params !! "service") (params !! "scope") with
      | None => mret None
      | Some u =>
          resp ← send (mkRequest "GET" u ∅);
          mret (match resp with
                | None => None
                | Some r =>
                    if negb (rs_StatusCode r =? 200) then None else
                    match rs_Body r ≫= decodeToken with
                    | None => None
                    | Some body =>
                        if negb (bool_decide (Token body = "")) then Some (Token body) else
                        if negb (bool_decide (AccessToken body = "")) then Some (AccessToken body) else None
                    end
                end)
      end
  end.

Definition manifestURL (ref : registryRef) : string :=
  (if bool_decide (Scheme = "") then "https" else Scheme) ++ "://" ++ Host ref ++ "/v2/" ++ Repository ref ++ "/manifests/" ++ Reference ref.

Definition Digest (ref : registryRef) : Web (option string) :=
  first ← headManifest (manifestURL ref) "";
  match first with
  | Ok digest => mret (Some digest)
  | Err (status, wwwAuth) =>
      if negb (status =? 401) || bool_decide (wwwAuth = "") then mret None else
      token ← fetchToken wwwAuth;
      match token with
      | None => mret None
      | Some token =>
          second ← headManifest (manifestURL ref) token;
          mret (match second with Ok digest => Some digest | Err _ => None end)
      end
  end.

(** docker.go *)
Definition image_item (img : Metadata.Image) : Web (option InventoryItem) :=
  match parseImageReference (Metadata.RepoTag img) with
  | None => mret None
  | Some ref =>
      remote ← Digest ref;
      mret (match remote with
            | None => None
            | Some d =>
                if bool_decide (d = Metadata.RepoDigest img) then None else
                Some (mkInventoryItem ("docker_image:" ++ Metadata.RepoTag img) (Metadata.RepoTag img)
                  {[ "source" := "docker_image"; "current_digest" := Metadata.RepoDigest img; "registry_digest" := d ]})
            end)
  end.

Fixpoint image_items (images : list Metadata.Image) : Web (list InventoryItem) :=
  match images with
  | [] => mret []
  | img :: rest =>
      item ← image_item img;
      items ← image_items rest;
      mret (match item with Some it => it :: items | None => items end)
  end.

Definition dockerItems (metadataURL : string) (decodeImages : string -> option (list Metadata.imageListEntry)) : Web (list InventoryItem) :=
  if bool_decide (metadataURL = "") then mret [] else
  images ← Metadata.Images metadataURL decodeImages;
  match images with
  | None => mret []
  | Some images => image_items images
  end.

End registry.

(** *** Image references *)

Definition print_ref (ref : registryRef) : string := Host ref ++ "/" ++ Repository ref ++ ":" ++ Reference ref.

Record ref_ok (ref : registryRef) : Prop := mkRefOk {
  ro_host : looksLikeHost (Host ref) = true /\ lacks slash (Host ref) = true;
  ro_repo : lacks colon (Repository ref) = true;
  ro_tag : lacks slash (Reference ref) = true;
}.

Lemma cut_last_split c s a b : cut_last_byte c s = Some (a, b) -> s = (a ++ String c b)%string /\ lacks c b = true.
Proof.
  revert a. induction s as [|d s IH]; intros a; cbn [cut_last_byte]; [done|].
  destruct (cut_last_byte c s) as [[x y]|] eqn:E.
  - intros [= <- <-]. destruct (IH x eq_refl) as [-> Hb]. by rewrite str_app_cons.
  - case_decide as Hc; [|done]. subst d. intros [= <- <-]. split; [done|]. clear IH.
    induction s as [|d s IH]; [done|]. cbn [cut_last_byte] in E. destruct (cut_last_byte c s) as [[x y]|]; [done|].
    case_decide; [done|]. cbn [lacks]. by rewrite bool_decide_true, IH.
Qed.

Lemma cut_last_None c s : cut_last_byte c s = None -> lacks c s = true.
Proof.
  induction s as [|d s IH]; [done|]. cbn [cut_last_byte]. destruct (cut_last_byte c s) as [[x y]|]; [done|].
  case_decide; [done|]. intros _. cbn [lacks]. by rewrite bool_decide_true, IH.
Qed.

(** after any prefix that ends in a slash, the tag of "prefix/repo:tag" is found *)
Lemma tag_split prefix repo tag :
  lacks colon repo = true -> lacks slash tag = true ->
  exists before last, cut_last_byte slash (prefix ++ "/" ++ repo ++ ":" ++ tag) = Some (before, (last ++ ":" ++ tag)%string) /\
    lacks colon last = true /\ ((before ++ "/") ++ last)%string = (prefix ++ "/" ++ repo)%string.
Proof.
  intros Hr Ht. change (":" ++ tag)%string with (String colon tag). change (prefix ++ "/" ++ ?x)%string with (prefix ++ String slash x)%string.
  destruct (cut_last_byte slash repo) as [[a b]|] eqn:E.
  - apply cut_last_split in E as [-> Hb]. exists (prefix ++ String slash a)%string, b. rewrite lacks_app in Hr. apply andb_true_iff in Hr as [_ Hr].
    cbn [lacks] in Hr. apply andb_true_iff in Hr as [_ Hr]. split_and!; [|done|].
    + replace (prefix ++ String slash ((a ++ String slash b) ++ String colon tag))%string
        with ((prefix ++ String slash a) ++ String slash (b ++ String colon tag))%string
        by (by rewrite <- str_app_assoc, str_app_cons, <- (str_app_assoc a), str_app_cons).
      apply cut_last_byte_app. rewrite lacks_app. by rewrite Hb.
    + change "/" with (String slash ""). rewrite <- str_app_assoc. by rewrite <- !str_app_assoc.
  - apply cut_last_None in E. exists prefix, repo. split_and!; [|done|].
    + apply cut_last_byte_app. rewrite lacks_app. by rewrite E.
    + by rewrite <- str_app_assoc.
Qed.

(** A full image reference is read back as its registry host (with its port), its
    repository, of any number of segments, and its tag. *)
Theorem image_reference_roundtrip ref : ref_ok ref -> parseImageReference (print_ref ref) = Some ref.
Proof.
  intros [[Hh Hs] Hr Ht]. unfold parseImageReference, print_ref. destruct ref as [host repo tag]. cbn [Host Repository Reference] in *.
  rewrite bool_decide_false; [|by destruct host].
  destruct (tag_split host repo tag Hr Ht) as (before & last & -> & Hl & Hb).
  change (":" ++ tag)%string with (String colon tag). rewrite cut_byte_lacks_app by done. rewrite Hb.
  change (host ++ "/" ++ repo)%string with (host ++ String slash repo)%string. rewrite cut_byte_lacks_app by done. by rewrite Hh.
Qed.

Lemma image_reference_roundtrip_witness :
  parseImageReference "localhost:5000/team/app:1.2" = Some (mkRef "localhost:5000" "team/app" "1.2").
Proof. apply (image_reference_roundtrip (mkRef "localhost:5000" "team/app" "1.2")). constructor; done. Defined.

Example docker_hub_references :
  parseImageReference "nginx" = Some (mkRef dockerHub "library/nginx" "latest") /\
  parseImageReference "grafana/loki:3.0" = Some (mkRef dockerHub "grafana/loki" "3.0").
Proof. vm_compute. done. Qed.

(** *** The requests of a digest check *)

Section protocol.
Context `{!Http} (Scheme : string).
Context (tokenURL : string -> option string -> option string -> option string) (decodeToken : string -> option tokenBody).

(** the last request handed to the client asks for the manifest, and Do returned the digest [d] *)
Definition answered (sent : list request) (url d : string) : Prop :=
  exists pre rq r, sent = (pre ++ [rq])%list /\ rq_Method rq = "HEAD" /\ rq_URL rq = url /\ Do pre rq = Some r /\
    rs_StatusCode r = 200 /\ rs_Header r !! "Docker-Content-Digest" = Some d /\ d <> "".

(** the authorization [h] is the token that the last request handed to the client returned *)
Definition issued (sent : list request) (h : string) : Prop :=
  exists pre q r body, sent = (pre ++ [q])%list /\ Do pre q = Some r /\ rs_StatusCode r = 200 /\
    rs_Body r ≫= decodeToken = Some body /\ (h = "Bearer " ++ Token body \/ h = "Bearer " ++ AccessToken body).

(** of the requests [new] after [sent], those with an authorization are for [url] and carry
    the token just issued *)
Fixpoint tokens_ok (url : string) (sent new : list request) : Prop :=
  match new with
  | [] => True
  | rq :: rest =>
      (forall h, rq_Header rq !! "Authorization" = Some h -> rq_URL rq = url /\ issued sent h) /\
      tokens_ok url (sent ++ [rq])%list rest
  end.

Lemma tokens_ok_app url sent new1 new2 :
  tokens_ok url sent new1 -> tokens_ok url (sent ++ new1)%list new2 -> tokens_ok url sent (new1 ++ new2)%list.
Proof.
  revert sent. induction new1 as [|rq new1 IH]; intros sent; cbn [tokens_ok app].
  - by rewrite app_nil_r.
  - intros [H1 H2] H3. split; [done|]. apply IH; [done|]. by rewrite <- app_assoc.
Qed.

Lemma headManifest_spec url token sent :
  (token = "" \/ issued sent ("Bearer " ++ token)) ->
  let '(r, sent') := headManifest url token sent in
  exists new, sent' = (sent ++ new)%list /\ (length new <= 1)%nat /\ tokens_ok url sent new /\
    match r with Ok d => answered sent' url d | Err _ => True end.
Proof.
  intros Htok. unfold headManifest, mbind, Web_bind, mret, Web_ret, send. cbn [rq_URL].
  destruct (parses url); [|exists []; rewrite app_nil_r; split_and!; try done; cbn; lia].
  match goal with |- context [Do sent ?x] => set (rq := x) end.
  exists [rq]. split_and!; [done|done| |].
  - split; [|done]. intros h. unfold rq. cbn [rq_Header rq_URL]. case_bool_decide as Et.
    + by rewrite lookup_singleton_ne.
    + rewrite lookup_insert_eq. intros [= <-]. split; [done|]. by destruct Htok.
  - destruct (Do sent rq) as [r|] eqn:E; [|done].
    destruct (Z.eqb_spec (rs_StatusCode r) 200); [|done]. unfold header. destruct (rs_Header r !! "Docker-Content-Digest") as [d|] eqn:Ed; [|done].
    cbn [default from_option id]. case_bool_decide; [done|]. by exists sent, rq, r.
Qed.

Lemma fetchToken_spec www sent :
  let '(token, sent') := fetchToken tokenURL decodeToken www sent in
  exists new, sent' = (sent ++ new)%list /\ (length new <= 1)%nat /\ (forall url, tokens_ok url sent new) /\
    forall t, token = Some t -> issued sent' ("Bearer " ++ t).
Proof.
  unfold fetchToken, mret, Web_ret.
  assert (exists new, sent = (sent ++ new)%list /\ (length new <= 1)%nat /\ (forall url, tokens_ok url sent new) /\
    forall t, None = Some t -> issued sent ("Bearer " ++ t)) as Hnone.
  { exists []. rewrite app_nil_r. split_and!; [done|cbn; lia|done|done]. }
  destruct (negb _); [done|]. destruct (challenge www !! "realm") as [realm|]; [|done].
  destruct (tokenURL _ _ _) as [u|]; [|done]. unfold mbind at 1, Web_bind at 1, send. cbn [rq_URL]. destruct (parses u); [|done].
  set (rq := mkRequest "GET" u ∅). exists [rq]. split_and!; [done|done| |].
  { intros url. split; [|done]. intros h. cbn. by rewrite lookup_empty. }
  intros t. destruct (Do sent rq) as [r|] eqn:E; [|done]. destruct (Z.eqb_spec (rs_StatusCode r) 200) as [Hs|]; cbn [negb]; [|done].
  destruct (rs_Body r ≫= decodeToken) as [body|] eqn:Eb; [|done]. intros Ht. exists sent, rq, r, body.
  split; [done|]. split; [done|]. split; [done|]. split; [done|].
  destruct (bool_decide (Token body = "")), (bool_decide (AccessToken body = "")); cbn [negb] in Ht; try done; injection Ht as <-; auto.
Qed.

(** C31: checking an image hands at most three requests to the HTTP client. Only a request
    for the manifest carries an authorization, and it is the bearer token that the request
    just before it returned with a 200; and a digest is reported only when the last request
    asked for that manifest and the client returned a 200 with it. What the client sends on
    the wire when it is redirected is its own affair. *)
Theorem digest_protocol ref sent :
  let '(digest, sent') := Digest Scheme tokenURL decodeToken ref sent in
  exists new, sent' = (sent ++ new)%list /\ (length new <= 3)%nat /\ tokens_ok (manifestURL Scheme ref) sent new /\
    match digest with Some d => answered sent' (manifestURL Scheme ref) d | None => True end.
Proof.
  unfold Digest, mbind at 1, Web_bind at 1. pose proof (headManifest_spec (manifestURL Scheme ref) "" sent ltac:(by left)) as H1.
  destruct (headManifest (manifestURL Scheme ref) "" sent) as [[d|[status www]] sent1]; destruct H1 as (new1 & -> & Hl1 & Ht1 & Ha).
  { exists new1. split_and!; [done|lia|done|done]. }
  destruct (negb _ || _); [exists new1; split_and!; [done|lia|done|done]|].
  unfold mbind at 1, Web_bind at 1. pose proof (fetchToken_spec www (sent ++ new1)%list) as H2.
  destruct (fetchToken _ _ www (sent ++ new1)%list) as [[token|] sent2]; destruct H2 as (new2 & -> & Hl2 & Ht2 & Hi2).
  2: { exists (new1 ++ new2)%list. rewrite app_assoc, length_app. split_and!; [done|lia|by apply tokens_ok_app|done]. }
  unfold mbind, Web_bind.
  pose proof (headManifest_spec (manifestURL Scheme ref) token ((sent ++ new1) ++ new2)%list ltac:(right; by apply Hi2)) as H3.
  destruct (headManifest (manifestURL Scheme ref) token ((sent ++ new1) ++ new2)%list) as [r sent3]. destruct H3 as (new3 & -> & Hl3 & Ht3 & Ha3).
  exists (new1 ++ new2 ++ new3)%list. rewrite !app_assoc, !length_app. split_and!; [done|lia| |by destruct r].
  rewrite <- app_assoc. apply tokens_ok_app; [done|]. by apply tokens_ok_app.
Qed.

End protocol.

(** the exchange with a registry that asks for a token *)
Definition demo_http : Http := mkHttp
  (fun _ rq =>
    if bool_decide (rq_Method rq = "GET") then Some (mkResponse 200 ∅ (Some "tok")) else
    match rq_Header rq !! "Authorization" with
    | Some _ => Some (mkResponse 200 {[ "Docker-Content-Digest" := "sha256:new" ]} None)
    | None => Some (mkResponse 401 {[ "Www-Authenticate" :=
        "Bearer realm=" ++ String quote ("https://auth.docker.io/token" ++ String quote (",service=" ++ String quote ("registry" ++ String quote ""))) ]} None)
    end) (fun _ => true).

Example digest_exchange :
  let '(d, sent) := @Digest demo_http "" (fun realm _ _ => Some realm) (fun b => Some (mkTokenBody b "")) (mkRef dockerHub "library/nginx" "latest") [] in
  d = Some "sha256:new" /\ rq_URL <$> sent =
    ["https://registry-1.docker.io/v2/library/nginx/manifests/latest"; "https://auth.docker.io/token";
     "https://registry-1.docker.io/v2/library/nginx/manifests/latest"].
Proof. vm_compute. done. Qed.

(** An image known under two repositories is compared with the tag of one and the digest of
    the other. *)
Example tag_and_digest_of_two_repositories :
  Metadata.image_of (Metadata.mkImageEntry ["registry.local/app:1"; "app:1"] ["app@sha256:hub"; "registry.local/app@sha256:local"]) =
    Some (Metadata.mkImage "registry.local/app:1" "sha256:hub").
Proof. vm_compute. done. Qed.

End Registry.

(** ** unraid.go *)
Module Unraid.

Definition is_quote (c : ascii) : bool := bool_decide (byte_of c ∈ [34; 39]).

Definition some (p : ascii -> bool) (s : string) : option (string * string) :=
  match span p s with ("", _) => None | r => Some r end.
Definition one (p : ascii -> bool) (s : string) : option string :=
  match s with String c s => if p c then Some s else None | "" => None end.
Definition quoted (s : string) : option (string * string) :=
  s ← one is_quote s;
  let '(v, s) := span (fun c => negb (is_quote c)) s in
  s ← one is_quote s; Some (v, s).

(** entityDeclRe *)
Definition entityDecl (s : string) : option ((string * string) * string) :=
  s ← trim_prefix_go "<!ENTITY" s;
  r ← some re_space s;
  r ← some re_word r.2; let name := r.1 in
  r ← some re_space r.2;
  r ← quoted r.2; let value := r.1 in
  s ← trim_prefix_go ">" (span re_space r.2).2;
  Some ((name, value), s).

(** pluginTagRe *)
Definition pluginTag (s : string) : option (string * string) :=
  s ← trim_prefix_go "<PLUGIN" s;
  if match s with String c _ => re_word c | "" => false end then None else
  let '(attrs, s) := span (fun c => negb (bool_decide (c = ">"%char))) s in
  s ← trim_prefix_go ">" s; Some (attrs, s).

(** attrRe *)
Definition attr (s : string) : option ((string * string) * string) :=
  r ← some re_word s; let key := r.1 in
  s ← trim_prefix_go "=" (span re_space r.2).2;
  r ← quoted (span re_space s).2;
  Some ((key, r.1), r.2).

Record plgInfo := mkPlg { plg_Name : string; plg_Version : string; plg_PluginURL : string }.

Definition resolveEntity (value : string) (entities : gmap string string) : string :=
  match value with
  | String "&" rest =>
      match strip_suffix ";" rest with
      | Some name => if (2 <? Z.of_nat (String.length value)) then default value (entities !! name) else value
      | None => value
      end
  | _ => value
  end.

Definition pairs_map (f : string -> string) (l : list (string * string)) : gmap string string :=
  fold_left (fun m kv => <[kv.1 := f kv.2]> m) l ∅.

Definition parsePLG (data : string) : option plgInfo :=
  let entities := pairs_map id (FindAll entityDecl data) in
  match head (FindAll pluginTag data) with
  | None => None
  | Some tag =>
      let attrs := pairs_map (fun v => resolveEntity v entities) (FindAll attr tag) in
      let info := mkPlg (header attrs "name") (header attrs "version") (header attrs "pluginURL") in
      if bool_decide (plg_Name info = "") || bool_decide (plg_Version info = "") then None else Some info
  end.

Definition limit : Z := 2 ^ 20.

Definition fetchRemoteVersion `{!Http} (url : string) : Web (option string) :=
  resp ← send (mkRequest "GET" url ∅);
  mret (match resp with
        | None => None
        | Some r =>
            if negb (rs_StatusCode r =? 200) then None else
            match rs_Body r with
            | Some body => match parsePLG (str_take (Z.to_nat limit) body) with Some info => Some (plg_Version info) | None => None end
            | None => None
            end
        end).

(** an entry of the plugins directory *)
Record plugin := mkPlugin { p_name : string; p_isDir : bool; p_contents : option string }.

Definition plugin_item `{!Http} (e : plugin) : Web (option InventoryItem) :=
  if p_isDir e || negb (has_suffix ".plg" (p_name e)) then mret None else
  match p_contents e ≫= parsePLG with
  | None => mret None
  | Some info =>
      if bool_decide (plg_PluginURL info = "") then mret None else
      remote ← fetchRemoteVersion (plg_PluginURL info);
      mret (match remote with
            | None => None
            | Some v =>
                if bool_decide (v = plg_Version info) then None else
                Some (mkInventoryItem ("unraid_plugin:" ++ plg_Name info) (plg_Name info)
                  {[ "source" := "unraid_plugin"; "installed_version" := plg_Version info; "candidate_version" := v ]})
            end)
  end.

Fixpoint plugin_items `{!Http} (entries : list plugin) : Web (list InventoryItem) :=
  match entries with
  | [] => mret []
  | e :: rest =>
      item ← plugin_item e;
      items ← plugin_items rest;
      mret (match item with Some it => it :: items | None => items end)
  end.

Definition unraidItems `{!Http} (entries : option (list plugin)) : Web (list InventoryItem) :=
  match entries with None => mret [] | Some es => plugin_items es end.

End Unraid.

(** ** pkgupdates.go *)
Module PkgUpdates.
Import Metadata Registry.

Section collect.
Context `{!Http} (Scheme : string).
Context (tokenURL : string -> option string -> option string -> option string) (decodeToken : string -> option tokenBody).
Context (decodeImages : string -> option (list imageListEntry)) (decodeUpdates : string -> option (list Dnf.Update)).

Definition Collect (ctxErr : option string) (hostID : string) (now : Time) (dpkgStatus : option string) (lists : option (list Apt.listEntry))
    (spool : option (gmap string Spool.Entry)) (plugins : option (list Unraid.plugin)) (metadataURL : string) : Web (result string Inventory) :=
  match ctxErr with
  | Some err => mret (Err err)
  | None =>
      let apt := Apt.aptItems dpkgStatus lists now in
      let dnf := Dnf.dnfItems decodeUpdates spool in
      unraid ← Unraid.unraidItems plugins;
      docker ← dockerItems Scheme tokenURL decodeToken metadataURL decodeImages;
      mret (snapshot None hostID "package_update" now (apt ++ dnf ++ unraid ++ docker)%list)
  end.

(** *** Every inventory of updates is valid *)

Definition named (items : list InventoryItem) : Prop := Forall (fun it => ii_ID it <> "") items.

Lemma apt_named dpkg lists now : named (Apt.aptItems dpkg lists now).
Proof.
  unfold Apt.aptItems, named. destruct (Apt.parseDpkgStatus dpkg); [|constructor]. destruct (Apt.candidateVersions lists) as [[cands age]|]; [|constructor].
  case_bool_decide; [constructor|]. apply Forall_forall. intros it Hit. apply list_elem_of_omap in Hit as ([n v] & _ & Hi).
  unfold Apt.apt_item in Hi. destruct (cands !! n); [|done]. destruct (_ <=? _); [done|]. by injection Hi as <-.
Qed.

Lemma dnf_named spool : named (Dnf.dnfItems decodeUpdates spool).
Proof.
  unfold Dnf.dnfItems, named. destruct spool as [entries|]; [|constructor]. destruct (entries !! "dnfupdates") as [e|]; [|constructor].
  destruct (decodeUpdates _) as [us|]; [|constructor]. apply Forall_forall. intros it Hit. apply list_elem_of_omap in Hit as (u & _ & Hi).
  unfold Dnf.dnf_item in Hi. case_bool_decide; [done|]. by injection Hi as <-.
Qed.

Lemma plugin_named es sent : named (Unraid.plugin_items es sent).1.
Proof.
  revert sent. induction es as [|e es IH]; intros sent; [constructor|]. cbn [Unraid.plugin_items]. unfold mbind, Web_bind.
  assert (match (Unraid.plugin_item e sent).1 with Some it => ii_ID it <> "" | None => True end) as He.
  { unfold Unraid.plugin_item. destruct (_ || _); [done|]. destruct (_ ≫= _) as [info|]; [|done]. case_bool_decide; [done|].
    unfold mbind, Web_bind. destruct (Unraid.fetchRemoteVersion _ _) as [[v|] s]; cbn; [|done]. by case_bool_decide. }
  destruct (Unraid.plugin_item e sent) as [item sent1]. specialize (IH sent1). destruct (Unraid.plugin_items es sent1) as [items sent2].
  cbn in *. destruct item; [by constructor|done].
Qed.

Lemma image_named imgs sent : named (image_items Scheme tokenURL decodeToken imgs sent).1.
Proof.
  revert sent. induction imgs as [|img imgs IH]; intros sent; [constructor|]. cbn [image_items]. unfold mbind, Web_bind.
  assert (match (image_item Scheme tokenURL decodeToken img sent).1 with Some it => ii_ID it <> "" | None => True end) as He.
  { unfold image_item. destruct (parseImageReference _) as [ref|]; [|done].
    unfold mbind, Web_bind. destruct (Digest _ _ _ _ _) as [[d|] s]; cbn; [|done]. by case_bool_decide. }
  destruct (image_item _ _ _ img sent) as [item sent1]. specialize (IH sent1). destruct (image_items _ _ _ imgs sent1) as [items sent2].
  cbn in *. destruct item; [by constructor|done].
Qed.

(** Whatever the package databases, the spool and the servers answer, the inventory of
    updates passes the schema's validation. *)
Theorem updates_valid hostID now dpkg lists spool plugins url sent inv :
  hostID <> "" -> GoTime.is_zero now = false ->
  (Collect None hostID now dpkg lists spool plugins url sent).1 = Ok inv -> Inventory_Validate inv = Ok tt.
Proof.
  intros Hh Hn. unfold Collect, mbind, Web_bind, mret, Web_ret.
  assert (named (Unraid.unraidItems plugins sent).1) as Hu by (destruct plugins; [apply plugin_named|constructor]).
  destruct (Unraid.unraidItems plugins sent) as [unraid sent1].
  assert (named (dockerItems Scheme tokenURL decodeToken url decodeImages sent1).1) as Hd.
  { unfold dockerItems. case_bool_decide; [constructor|]. unfold mbind, Web_bind. destruct (Images _ _ _) as [[imgs|] s]; [apply image_named|constructor]. }
  destruct (dockerItems _ _ _ url decodeImages sent1) as [docker sent2]. cbn [fst].
  apply Inventories.Valid.snapshot_valid; try done. apply Forall_app; split; [apply apt_named|].
  apply Forall_app; split; [apply dnf_named|]. by apply Forall_app.
Qed.

End collect.

Lemma updates_valid_witness :
  exists inv, (@Collect demo_http "" (fun realm _ _ => Some realm) (fun b => Some (mkTokenBody b "")) (fun _ => None) (fun _ => None)
    None "h1" second (Some Apt.demo_status) (Some Apt.demo_lists) None None "" []).1 = Ok inv /\ Inventory_Validate inv = Ok tt.
Proof.
  eexists. split; [reflexivity|].
  apply (@updates_valid demo_http "" (fun realm _ _ => Some realm) (fun b => Some (mkTokenBody b "")) (fun _ => None) (fun _ => None)
    "h1" second (Some Apt.demo_status) (Some Apt.demo_lists) None None "" []); [done|done|reflexivity].
Defined.

(** *** Plugin files *)

Definition q (s : string) : string := String Registry.quote (s ++ String Registry.quote "").

Example plg_entities :
  Unraid.parsePLG ("<!DOCTYPE PLUGIN [ <!ENTITY name " ++ q "unassigned" ++ "> <!ENTITY version " ++ q "2024.03.01" ++
    "> ]> <PLUGIN name=" ++ q "&name;" ++ " version=" ++ q "&version;" ++ " pluginURL=" ++ q "https://example.org/u.plg" ++ " >") =
  Some (Unraid.mkPlg "unassigned" "2024.03.01" "https://example.org/u.plg").
Proof. vm_compute. done. Qed.

(** A macro within a macro stays as it is: the URL of the plugin is not one. *)
Example nested_entity_unresolved :
  Unraid.parsePLG ("<!ENTITY gitURL " ++ q "https://example.org" ++ "> <!ENTITY pluginURL " ++ q "&gitURL;/u.plg" ++
    "> <PLUGIN name=" ++ q "u" ++ " version=" ++ q "1" ++ " pluginURL=" ++ q "&pluginURL;" ++ ">") =
  Some (Unraid.mkPlg "u" "1" "&gitURL;/u.plg").
Proof. vm_compute. done. Qed.

End PkgUpdates.
