(* ===== verification/Wire.v ===== *)
(** * Wire: from collector to hub

    - [Pb]: the messages of proto/ingest.proto as the generated Go structs hold them;
    - [Sender]: internal/agentbuffer/transportsender.go, records to batches;
    - [Receiver]: internal/ingestreceiver (convert.go, receiver.go), batches to the
      storage backends, which are interfaces;
    - [Sink]: internal/agentbuffer/sink.go, what collectors report to buffered records,
      and the retry policy of the delivery loop.

    Timestamps travel as Unix milliseconds and small integers as int32. *)

From stdpp Require Import base gmap strings list.
From Stdlib Require Import ZArith Lia Ascii.
From S2P Require Import Prelude GoStd Schema AgentBuffer.
Import GoString GoTime GoFloat Schema AgentBuffer.

Local Open Scope string_scope.
Local Open Scope Z_scope.

Module Pb.

Record Metric := mkMetric {
  pm_Name : string; pm_HostId : string; pm_Labels : gmap string string;
  pm_Value : float64; pm_TimestampMs : Z }.

Record EventSubject := mkSubject { ps_Kind : string; ps_Name : string; ps_Pid : Z }.

Record LogRef := mkLogRef { pr_BlockId : string; pr_Line : Z }.

Record Event := mkEvent {
  pe_Id : string; pe_TsMs : Z; pe_TsReceivedMs : Z; pe_HostId : string; pe_Source : string;
  pe_Type : string; pe_Severity : string; pe_Title : string; pe_Subject : option EventSubject;
  pe_Attrs : gmap string string; pe_Fingerprint : string; pe_LogRefs : list LogRef; pe_Schema : Z }.

Record LogLine := mkLogLine {
  pl_TsMs : Z; pl_HostId : string; pl_Source : string; pl_Stream : string;
  pl_UnitOrContainer : string; pl_Level : string; pl_Pid : Z; pl_Message : string }.

Record InventoryItem := mkInventoryItem {
  pii_Id : string; pii_Name : string; pii_Attrs : gmap string string }.

Record Inventory := mkInventory {
  pi_HostId : string; pi_Kind : string; pi_ReportedAtMs : Z; pi_Schema : Z;
  pi_Items : list InventoryItem }.

Record Batch := mkBatch {
  BatchId : string; HostId : string; Metrics : list Metric; Events : list Event;
  LogLines : list LogLine; Inventories : list Inventory }.

Record IngestResponse := mkResponse { LastOffset : string; Duplicate : bool }.

Global Instance Metric_eq_dec : EqDecision Metric.
Proof. solve_decision. Defined.
Global Instance EventSubject_eq_dec : EqDecision EventSubject.
Proof. solve_decision. Defined.
Global Instance LogRef_eq_dec : EqDecision LogRef.
Proof. solve_decision. Defined.
Global Instance Event_eq_dec : EqDecision Event.
Proof. solve_decision. Defined.
Global Instance LogLine_eq_dec : EqDecision LogLine.
Proof. solve_decision. Defined.
Global Instance InventoryItem_eq_dec : EqDecision InventoryItem.
Proof. solve_decision. Defined.
Global Instance Inventory_eq_dec : EqDecision Inventory.
Proof. solve_decision. Defined.
Global Instance Batch_eq_dec : EqDecision Batch.
Proof. solve_decision. Defined.

End Pb.

(** ** The sender's conversions *)
Module Sender.

Definition metricToProto (m : Metric) : Pb.Metric :=
  Pb.mkMetric (m_Name m) (m_HostID m) (m_Labels m) (m_Value m) (unix_milli (m_Timestamp m)).

Definition eventToProto (e : Event) : Pb.Event :=
  Pb.mkEvent (e_ID e) (unix_milli (e_TS e))
    (if is_zero (e_TSReceived e) then 0 else unix_milli (e_TSReceived e))
    (e_HostID e) (e_Source e) (e_Type e) (e_Severity e) (e_Title e)
    (Some (Pb.mkSubject (sub_Kind (e_Subject e)) (sub_Name (e_Subject e)) (int32 (sub_PID (e_Subject e)))))
    (e_Attrs e) (e_Fingerprint e)
    ((fun r => Pb.mkLogRef (lr_BlockID r) (int32 (lr_Line r))) <$> e_LogRefs e)
    (int32 (e_Schema e)).

Definition logLineToProto (l : LogLine) : Pb.LogLine :=
  Pb.mkLogLine (unix_milli (l_TS l)) (l_HostID l) (l_Source l) (l_Stream l) (l_UnitOrContainer l)
    (l_Level l) (int32 (l_PID l)) (l_Message l).

Definition inventoryToProto (inv : Inventory) : Pb.Inventory :=
  Pb.mkInventory (inv_HostID inv) (inv_Kind inv) (unix_milli (inv_ReportedAt inv)) (int32 (inv_Schema inv))
    ((fun it => Pb.mkInventoryItem (ii_ID it) (ii_Name it) (ii_Attrs it)) <$> inv_Items inv).

(** one turn of the loop of ItemsToBatch *)
Definition add_item (b : Pb.Batch) (it : Item) : Pb.Batch :=
  match it_Metric it, it_Event it, it_LogLine it, it_Inventory it with
  | Some m, _, _, _ =>
      Pb.mkBatch (Pb.BatchId b) (Pb.HostId b) (Pb.Metrics b ++ [metricToProto m])%list (Pb.Events b)
        (Pb.LogLines b) (Pb.Inventories b)
  | None, Some e, _, _ =>
      Pb.mkBatch (Pb.BatchId b) (Pb.HostId b) (Pb.Metrics b) (Pb.Events b ++ [eventToProto e])%list
        (Pb.LogLines b) (Pb.Inventories b)
  | None, None, Some l, _ =>
      Pb.mkBatch (Pb.BatchId b) (Pb.HostId b) (Pb.Metrics b) (Pb.Events b)
        (Pb.LogLines b ++ [logLineToProto l])%list (Pb.Inventories b)
  | None, None, None, Some inv =>
      Pb.mkBatch (Pb.BatchId b) (Pb.HostId b) (Pb.Metrics b) (Pb.Events b) (Pb.LogLines b)
        (Pb.Inventories b ++ [inventoryToProto inv])%list
  | None, None, None, None => b
  end.

(** [ulid]: the batch id, drawn anew for every call *)
Definition ItemsToBatch (ulid hostID : string) (items : list Item) : Pb.Batch :=
  fold_left add_item items (Pb.mkBatch ulid hostID [] [] [] []).

End Sender.

(** ** The hub's side *)
Module Receiver.

Definition protoToMetric (m : Pb.Metric) : Metric :=
  mkMetric (Pb.pm_Name m) (Pb.pm_HostId m) (Pb.pm_Labels m) (Pb.pm_Value m)
    (of_unix_milli (Pb.pm_TimestampMs m)).

Definition protoToEvent (e : Pb.Event) : Event :=
  mkEvent (Pb.pe_Id e) (of_unix_milli (Pb.pe_TsMs e))
    (if Pb.pe_TsReceivedMs e =? 0 then zero else of_unix_milli (Pb.pe_TsReceivedMs e))
    (Pb.pe_HostId e) (Pb.pe_Source e) (Pb.pe_Type e) (Pb.pe_Severity e) (Pb.pe_Title e)
    (match Pb.pe_Subject e with
     | Some sub => mkSubject (Pb.ps_Kind sub) (Pb.ps_Name sub) (Pb.ps_Pid sub)
     | None => no_subject
     end)
    (Pb.pe_Attrs e) (Pb.pe_Fingerprint e)
    ((fun r => mkLogRef (Pb.pr_BlockId r) (Pb.pr_Line r)) <$> Pb.pe_LogRefs e) (Pb.pe_Schema e).

Definition protoToLogLine (l : Pb.LogLine) : LogLine :=
  mkLogLine (of_unix_milli (Pb.pl_TsMs l)) (Pb.pl_HostId l) (Pb.pl_Source l) (Pb.pl_Stream l)
    (Pb.pl_UnitOrContainer l) (Pb.pl_Level l) (Pb.pl_Pid l) (Pb.pl_Message l).

(** The three storage interfaces Receiver writes to: an operation on the backend's state
    and whether it returned an error. *)
Class MetricAppender (M : Type) := append_metric : M -> Metric -> bool * M.
Class EventInserter (E : Type) := insert_event : E -> Event -> bool * E.
Class LogAppender (L : Type) := append_line : L -> LogLine -> bool * L.

Section receiver.
Context {M E L : Type} `{MetricAppender M, EventInserter E, LogAppender L}.

Record Backends := mkBackends { bk_metrics : M; bk_events : E; bk_logs : L }.

(** What ReceiveBatch logs when it drops an item. *)
Inductive Dropped : Type := DropMetric (name : string) | DropEvent (id : string) | DropLine (source : string).

Definition write_metrics (ms : list Pb.Metric) (s : M) : list Dropped * M :=
  fold_left (fun acc m =>
    let '(ok, s) := append_metric acc.2 (protoToMetric m) in
    ((if ok : bool then acc.1 else acc.1 ++ [DropMetric (Pb.pm_Name m)])%list, s)) ms ([], s).

Definition write_events (es : list Pb.Event) (s : E) : list Dropped * E :=
  fold_left (fun acc e =>
    let '(ok, s) := insert_event acc.2 (protoToEvent e) in
    ((if ok : bool then acc.1 else acc.1 ++ [DropEvent (Pb.pe_Id e)])%list, s)) es ([], s).

Definition write_lines (ls : list Pb.LogLine) (s : L) : list Dropped * L :=
  fold_left (fun acc l =>
    let '(ok, s) := append_line acc.2 (protoToLogLine l) in
    ((if ok : bool then acc.1 else acc.1 ++ [DropLine (Pb.pl_Source l)])%list, s)) ls ([], s).

(** [ctx_done]: ctx.Err() on entry. The result is the error (context done) or the log of
    dropped items. *)
Definition ReceiveBatch (ctx_done : bool) (batch : Pb.Batch) (s : Backends) :
    option (list Dropped) * Backends :=
  if ctx_done then (None, s)
  else
    let '(d1, ms) := write_metrics (Pb.Metrics batch) (bk_metrics s) in
    let '(d2, es) := write_events (Pb.Events batch) (bk_events s) in
    let '(d3, ls) := write_lines (Pb.LogLines batch) (bk_logs s) in
    (Some (d1 ++ d2 ++ d3)%list, mkBackends ms es ls).

End receiver.
Arguments Backends M E L : clear implicits.

End Receiver.

(** ** The agent's sink *)
Module Sink.

Section sink.
Variables (HostID : string) (now : Time).

Definition Gauge (name : string) (value : float64) (labels : gmap string string) : Item :=
  mkItem 0 PriorityMetric now (Some (mkMetric name HostID labels value now)) None None None.

Definition Counter (name : string) (value : float64) (labels : gmap string string) : Item :=
  Gauge name value labels.

Definition or_host (h : string) : string := if decide (h = "") then HostID else h.
Definition or_now (t : Time) : Time := if is_zero t then now else t.
Definition or_schema (v : Z) : Z := if v =? 0 then CurrentSchemaVersion else v.

Definition fill_event (e : Event) : Event :=
  mkEvent (e_ID e) (or_now (e_TS e)) (e_TSReceived e) (or_host (e_HostID e)) (e_Source e) (e_Type e)
    (e_Severity e) (e_Title e) (e_Subject e) (e_Attrs e) (e_Fingerprint e) (e_LogRefs e)
    (or_schema (e_Schema e)).

Definition Event_ (e : Event) : Item :=
  let e := fill_event e in mkItem 0 PriorityEvent (e_TS e) None (Some e) None None.

Definition fill_line (source : string) (l : LogLine) : LogLine :=
  mkLogLine (or_now (l_TS l)) (or_host (l_HostID l))
    (if decide (l_Source l = "") then source else l_Source l) (l_Stream l) (l_UnitOrContainer l)
    (l_Level l) (l_PID l) (l_Message l).

Definition LogLines (source : string) (lines : list LogLine) : list Item :=
  (fun l => let l := fill_line source l in mkItem 0 PriorityLogLine (l_TS l) None None (Some l) None) <$> lines.

Definition Inventory_ (inv : Inventory) : Item :=
  let inv := mkInventory (or_host (inv_HostID inv)) (inv_Kind inv) (or_now (inv_ReportedAt inv))
               (or_schema (inv_Schema inv)) (inv_Items inv) in
  mkItem 0 PriorityEvent (inv_ReportedAt inv) None None None (Some inv).

End sink.

(** *** The retry policy of Run *)

Definition DefaultFlushBackoff : Duration := second.
Definition MaxFlushBackoff : Duration := minute.

(** the backoff after a failed flush *)
Definition next_backoff (maxBackoff backoff : Duration) : Duration :=
  let doubled := int64 (backoff * 2) in
  if maxBackoff <? doubled then maxBackoff else doubled.

(** [r]: the draw of rand.Int63n(int64(spread)+1) *)
Definition jitter (d r : Duration) : Duration :=
  if d <=? 0 then 0 else d ÷ 2 + r.

(** The wait before each of the retries that follow each other: the flush outcomes are
    all failures, [rs] the random draws. *)
Fixpoint waits (maxBackoff backoff : Duration) (rs : list Duration) : list Duration :=
  match rs with
  | [] => []
  | r :: rs => jitter backoff r :: waits maxBackoff (next_backoff maxBackoff backoff) rs
  end.

(** *** Properties *)

Definition payloads (it : Item) : nat :=
  (length (option_list (it_Metric it)) + length (option_list (it_Event it)) +
   length (option_list (it_LogLine it)) + length (option_list (it_Inventory it)))%nat.

Definition item_host (it : Item) : string :=
  match it_Metric it, it_Event it, it_LogLine it, it_Inventory it with
  | Some m, _, _, _ => m_HostID m
  | None, Some e, _, _ => e_HostID e
  | None, None, Some l, _ => l_HostID l
  | None, None, None, Some inv => inv_HostID inv
  | None, None, None, None => ""
  end.

(** a report of a collector, and the items the sink makes of it *)
Inductive report : Type :=
| RGauge (name : string) (value : float64) (labels : gmap string string)
| RCounter (name : string) (value : float64) (labels : gmap string string)
| REvent (e : Event)
| RLines (source : string) (lines : list LogLine)
| RInventory (inv : Inventory).

Definition sink_items (host : string) (now : Time) (r : report) : list Item :=
  match r with
  | RGauge n v l => [Gauge host now n v l]
  | RCounter n v l => [Counter host now n v l]
  | REvent e => [Event_ host now e]
  | RLines src ls => LogLines host now src ls
  | RInventory inv => [Inventory_ host now inv]
  end.

(** Every record a collector reports reaches the buffer as an item with exactly one
    payload, a host and a timestamp, whatever the collector left unset; log lines have
    the priority that is discarded first, metrics the next one, and events and
    inventories the one that never is. *)
Theorem sink_items_wellformed host now r it :
  host <> "" -> is_zero now = false -> it ∈ sink_items host now r ->
  payloads it = 1%nat /\ item_host it <> "" /\ is_zero (it_TS it) = false /\
  it_Priority it = (if it_LogLine it is Some _ then PriorityLogLine
                    else if it_Metric it is Some _ then PriorityMetric else PriorityEvent).
Proof.
  intros Hh Hn Hit.
  assert (forall h, or_host host h <> "") as Hor by (intros h; unfold or_host; by case_decide).
  assert (forall t, is_zero (or_now now t) = false) as Hnow.
  { intros t. unfold or_now. by destruct (is_zero t) eqn:E. }
  destruct r as [n v l|n v l|e|src ls|inv]; simpl in Hit.
  1,2,3,5: apply list_elem_of_singleton in Hit as ->; simpl; split_and!; auto; apply Hor.
  apply list_elem_of_fmap in Hit as (l & -> & _). simpl. split_and!; auto; apply Hor.
Qed.

Lemma sink_items_wellformed_witness :
  payloads (Event_ "h1" 5 (mkEvent "id" 0 0 "" "src" "t" "info" "title" no_subject ∅ "" [] 0)) = 1%nat.
Proof.
  eapply (sink_items_wellformed "h1" 5 (REvent (mkEvent "id" 0 0 "" "src" "t" "info" "title" no_subject ∅ "" [] 0)));
    [done|done|by apply list_elem_of_singleton].
Defined.

Lemma next_backoff_spec maxB b :
  0 < b -> maxB < 2 ^ 62 -> b <= maxB -> next_backoff maxB b = Z.min maxB (2 * b).
Proof.
  intros Hb Hm Hle. unfold next_backoff.
  assert (int64 (b * 2) = b * 2) as -> by (apply wrap_s_small; simpl; lia).
  destruct (Z.ltb_spec maxB (b * 2)); lia.
Qed.

(** Consecutive failed flushes back off exponentially: before retry number k the loop
    waits between half of b and b, where b = min(max, min * 2^k), so never longer than the
    maximum, and without overflow. *)
Theorem backoff_bounds minB maxB rs k w :
  0 < minB -> minB <= maxB -> maxB < 2 ^ 62 ->
  waits maxB minB rs !! k = Some w ->
  (forall i r, rs !! i = Some r -> 0 <= r <= Z.min maxB (minB * 2 ^ Z.of_nat i) ÷ 2) ->
  let b := Z.min maxB (minB * 2 ^ Z.of_nat k) in b ÷ 2 <= w <= b.
Proof.
  intros Hmin Hle Hmax Hk Hr. revert minB k Hmin Hle Hk Hr.
  induction rs as [|r rs IH]; intros minB k Hmin Hle Hk Hr; [done|].
  destruct k as [|k]; simpl in Hk.
  - injection Hk as <-. specialize (Hr 0%nat r eq_refl). simpl in *.
    unfold jitter. destruct (Z.leb_spec minB 0); [lia|].
    rewrite Z.mul_1_r in *. rewrite Z.min_r in * by lia.
    rewrite Z.quot_div_nonneg in * by lia. pose proof (Z.div_mod minB 2). pose proof (Z.mod_pos_bound minB 2). lia.
  - rewrite next_backoff_spec in Hk by lia.
    assert (forall i, Z.min maxB (Z.min maxB (2 * minB) * 2 ^ Z.of_nat i) = Z.min maxB (minB * 2 ^ Z.of_nat (S i))) as E.
    { intros i. rewrite Nat2Z.inj_succ, Z.pow_succ_r by lia.
      assert (0 < 2 ^ Z.of_nat i) by (apply Z.pow_pos_nonneg; lia). nia. }
    cbv zeta. rewrite <- E. apply (IH (Z.min maxB (2 * minB)) k); [lia|lia|done|].
    intros i x Hx. rewrite E. by apply (Hr (S i) x).
Qed.

Lemma backoff_bounds_witness :
  let b := Z.min MaxFlushBackoff (DefaultFlushBackoff * 2 ^ 1) in b ÷ 2 <= second + 7 <= b.
Proof.
  apply (backoff_bounds DefaultFlushBackoff MaxFlushBackoff [3; 7] 1 (second + 7)).
  1,2,3,4: vm_compute; congruence.
  intros [|[|i]] r Hr; simpl in Hr; [injection Hr as <-|injection Hr as <-|done]; vm_compute; split; congruence.
Defined.

End Sink.

(** ** End to end *)
Module EndToEnd.
Import Sender Receiver.

(** what the wire keeps of a record: milliseconds and 32-bit integers *)
Definition at_ms (t : Time) : Time := of_unix_milli (unix_milli t).

Definition metric_wire (m : Metric) : Metric :=
  mkMetric (m_Name m) (m_HostID m) (m_Labels m) (m_Value m) (at_ms (m_Timestamp m)).

Definition received_wire (t : Time) : Time :=
  if is_zero t || (unix_milli t =? 0) then zero else at_ms t.

Definition event_wire (e : Event) : Event :=
  mkEvent (e_ID e) (at_ms (e_TS e)) (received_wire (e_TSReceived e)) (e_HostID e) (e_Source e) (e_Type e)
    (e_Severity e) (e_Title e)
    (mkSubject (sub_Kind (e_Subject e)) (sub_Name (e_Subject e)) (int32 (sub_PID (e_Subject e))))
    (e_Attrs e) (e_Fingerprint e) ((fun r => mkLogRef (lr_BlockID r) (int32 (lr_Line r))) <$> e_LogRefs e)
    (int32 (e_Schema e)).

Definition line_wire (l : LogLine) : LogLine :=
  mkLogLine (at_ms (l_TS l)) (l_HostID l) (l_Source l) (l_Stream l) (l_UnitOrContainer l) (l_Level l)
    (int32 (l_PID l)) (l_Message l).

Lemma metric_wire_spec m : protoToMetric (metricToProto m) = metric_wire m.
Proof. done. Qed.

Lemma event_wire_spec e : protoToEvent (eventToProto e) = event_wire e.
Proof.
  unfold protoToEvent, eventToProto, event_wire, received_wire. simpl. f_equal.
  - destruct (is_zero (e_TSReceived e)); simpl; [done|]. by destruct (_ =? 0).
  - rewrite <- list_fmap_compose. done.
Qed.

Lemma line_wire_spec l : protoToLogLine (logLineToProto l) = line_wire l.
Proof. done. Qed.

Definition ms_precise (t : Time) : Prop := (millisecond | t - unix_epoch).
Definition is_int32 (z : Z) : Prop := - 2 ^ 31 <= z < 2 ^ 31.

Lemma at_ms_precise t : ms_precise t -> at_ms t = t.
Proof.
  intros [q Hq]. unfold at_ms, of_unix_milli, unix_milli. rewrite Hq.
  rewrite Z.div_mul by done. lia.
Qed.

(** C26: The hub reconstructs what the agent sent: a metric, event or log line whose times
    are whole milliseconds and whose integers fit 32 bits comes out of the protobuf
    conversions as it went in (an event's receive time at the Unix epoch apart). *)
Theorem wire_roundtrip m e l :
  ms_precise (m_Timestamp m) -> ms_precise (e_TS e) -> ms_precise (l_TS l) ->
  (is_zero (e_TSReceived e) = true \/ ms_precise (e_TSReceived e) /\ e_TSReceived e <> unix_epoch) ->
  is_int32 (sub_PID (e_Subject e)) -> is_int32 (e_Schema e) -> is_int32 (l_PID l) ->
  Forall (fun r => is_int32 (lr_Line r)) (e_LogRefs e) ->
  protoToMetric (metricToProto m) = m /\ protoToEvent (eventToProto e) = e /\
  protoToLogLine (logLineToProto l) = l.
Proof.
  intros Hm He Hl Hr Hp Hs Hlp Hrefs.
  assert (forall z, is_int32 z -> int32 z = z) as Hi by (intros z Hz; apply wrap_s_small; unfold is_int32 in *; simpl; lia).
  rewrite metric_wire_spec, event_wire_spec, line_wire_spec.
  split; [|split].
  - unfold metric_wire. rewrite at_ms_precise by done. by destruct m.
  - unfold event_wire, received_wire. rewrite at_ms_precise, !Hi by done.
    assert ((if is_zero (e_TSReceived e) || (unix_milli (e_TSReceived e) =? 0) then zero else at_ms (e_TSReceived e))
      = e_TSReceived e) as ->.
    { destruct Hr as [Hz|[Hp' Hne]]; [rewrite Hz; apply Z.eqb_eq in Hz; by rewrite Hz|].
      rewrite at_ms_precise by done. destruct (is_zero _) eqn:Ez; simpl; [by apply Z.eqb_eq in Ez|].
      destruct (Z.eqb_spec (unix_milli (e_TSReceived e)) 0) as [E0|]; [|done].
      pose proof (at_ms_precise _ Hp') as E. unfold at_ms in E. rewrite E0 in E. unfold of_unix_milli in E. lia. }
    assert ((fun r => mkLogRef (lr_BlockID r) (int32 (lr_Line r))) <$> e_LogRefs e = e_LogRefs e) as ->.
    { rewrite <- (list_fmap_id (e_LogRefs e)) at 2. apply list_fmap_ext. intros i r Hir.
      rewrite Forall_lookup in Hrefs. rewrite Hi by (by eapply Hrefs). by destruct r. }
    destruct e as [? ? ? ? ? ? ? ? [? ? ?] ? ? ? ?]. done.
  - unfold line_wire. rewrite at_ms_precise, Hi by done. by destruct l.
Qed.

Lemma wire_roundtrip_witness :
  let ts := unix_epoch + 1700000000123 * millisecond in
  let e := mkEvent "01H" ts 0 "h1" "journald" "oom.kill" "error" "killed" (mkSubject "process" "java" 4242) ∅ "fp"
             [mkLogRef "blk" 7] 1 in
  protoToEvent (eventToProto e) = e.
Proof.
  intros ts e.
  assert (ms_precise ts) as Hts by (exists 1700000000123; unfold ts; lia).
  apply (wire_roundtrip (mkMetric "bitacora_cpu_ratio" "h1" ∅ f_zero ts) e (mkLogLine ts "h1" "journald" "" "" "" 1 "m"));
    try done; try (unfold is_int32; simpl; lia).
  apply Forall_singleton. unfold is_int32. simpl. lia.
Defined.

(** the payload ItemsToBatch takes of each item *)
Definition metrics_of (items : list Item) : list Metric := omap it_Metric items.
Definition events_of (items : list Item) : list Event :=
  omap (fun it => if it_Metric it is Some _ then None else it_Event it) items.
Definition lines_of (items : list Item) : list LogLine :=
  omap (fun it => if it_Metric it is Some _ then None else if it_Event it is Some _ then None else it_LogLine it) items.

Lemma batch_fields items b :
  let b' := fold_left add_item items b in
  Pb.BatchId b' = Pb.BatchId b /\ Pb.HostId b' = Pb.HostId b /\
  Pb.Metrics b' = (Pb.Metrics b ++ (metricToProto <$> metrics_of items))%list /\
  Pb.Events b' = (Pb.Events b ++ (eventToProto <$> events_of items))%list /\
  Pb.LogLines b' = (Pb.LogLines b ++ (logLineToProto <$> lines_of items))%list.
Proof.
  revert b. induction items as [|it items IH]; intros b; simpl; [by rewrite !app_nil_r|].
  destruct (IH (add_item b it)) as (-> & -> & -> & -> & ->).
  unfold add_item, metrics_of, events_of, lines_of. simpl.
  destruct (it_Metric it), (it_Event it), (it_LogLine it), (it_Inventory it); simpl;
    rewrite <- ?app_assoc; done.
Qed.

Section end_to_end.
Context {M E L : Type} `{MetricAppender M, EventInserter E, LogAppender L}.

Definition store_all {S X} (f : S -> X -> bool * S) (xs : list X) (s : S) : S :=
  fold_left (fun s x => (f s x).2) xs s.

Lemma fold_store {S X Y} (f : S -> X -> bool * S) (g : Y -> X) (drop : Y -> Dropped) ys acc :
  (fold_left (fun acc y => let '(ok, s) := f acc.2 (g y) in
     ((if ok : bool then acc.1 else acc.1 ++ [drop y])%list, s)) ys acc).2 = store_all f (g <$> ys) acc.2.
Proof.
  revert acc. induction ys as [|y ys IH]; intros acc; simpl; [done|]. rewrite IH. unfold store_all. simpl.
  by destruct (f acc.2 (g y)) as [ok s].
Qed.

Lemma fold_no_drop {S X Y} (f : S -> X -> bool * S) (g : Y -> X) (drop : Y -> Dropped) ys acc :
  (forall s x, (f s x).1 = true) ->
  (fold_left (fun acc y => let '(ok, s) := f acc.2 (g y) in
     ((if ok : bool then acc.1 else acc.1 ++ [drop y])%list, s)) ys acc).1 = acc.1.
Proof.
  intros Hok. revert acc. induction ys as [|y ys IH]; intros acc; simpl; [done|]. rewrite IH.
  pose proof (Hok acc.2 (g y)) as Hy. by destruct (f acc.2 (g y)) as [[] s].
Qed.

Lemma write_metrics_spec l (s : M) :
  (write_metrics (metricToProto <$> l) s).2 = store_all append_metric (metric_wire <$> l) s /\
  ((forall s m, (append_metric s m).1 = true) -> (write_metrics (metricToProto <$> l) s).1 = []).
Proof.
  split; [|intros Hok; by apply (fold_no_drop append_metric protoToMetric)].
  etransitivity; [apply (fold_store append_metric protoToMetric)|]. by rewrite <- list_fmap_compose.
Qed.

Lemma write_events_spec l (s : E) :
  (write_events (eventToProto <$> l) s).2 = store_all insert_event (event_wire <$> l) s /\
  ((forall s e, (insert_event s e).1 = true) -> (write_events (eventToProto <$> l) s).1 = []).
Proof.
  split; [|intros Hok; by apply (fold_no_drop insert_event protoToEvent)].
  etransitivity; [apply (fold_store insert_event protoToEvent)|]. rewrite <- list_fmap_compose. simpl.
  f_equal. apply list_fmap_ext. intros i e _. apply event_wire_spec.
Qed.

Lemma write_lines_spec l (s : L) :
  (write_lines (logLineToProto <$> l) s).2 = store_all append_line (line_wire <$> l) s /\
  ((forall s l, (append_line s l).1 = true) -> (write_lines (logLineToProto <$> l) s).1 = []).
Proof.
  split; [|intros Hok; by apply (fold_no_drop append_line protoToLogLine)].
  etransitivity; [apply (fold_store append_line protoToLogLine)|]. by rewrite <- list_fmap_compose.
Qed.

(** Every metric, event and log line of a batch reaches its storage backend, in the
    order it was buffered and as the wire keeps it, whatever the backends accept or
    refuse; nothing is reported dropped when they accept everything, and the batch is
    never failed because of one item. *)
Theorem receive_delivers id host items (s : Backends M E L) :
  exists dropped, ReceiveBatch false (ItemsToBatch id host items) s =
    (Some dropped, mkBackends (store_all append_metric (metric_wire <$> metrics_of items) (bk_metrics s))
                      (store_all insert_event (event_wire <$> events_of items) (bk_events s))
                      (store_all append_line (line_wire <$> lines_of items) (bk_logs s))) /\
    ((forall s m, (append_metric s m).1 = true) -> (forall s e, (insert_event s e).1 = true) ->
     (forall s l, (append_line s l).1 = true) -> dropped = []).
Proof.
  destruct (batch_fields items (Pb.mkBatch id host [] [] [] [])) as (_ & _ & Em & Ee & El).
  unfold ReceiveBatch, ItemsToBatch. rewrite Em, Ee, El. simpl.
  destruct (write_metrics_spec (metrics_of items) (bk_metrics s)) as [Fm Nm].
  destruct (write_events_spec (events_of items) (bk_events s)) as [Fe Ne].
  destruct (write_lines_spec (lines_of items) (bk_logs s)) as [Fl Nl].
  destruct (write_metrics _ _) as [d1 s1], (write_events _ _) as [d2 s2], (write_lines _ _) as [d3 s3].
  simpl in *. subst. eexists. split; [reflexivity|].
  intros H1' H2' H3'. by rewrite (Nm H1'), (Ne H2'), (Nl H3').
Qed.

End end_to_end.

(** Inventories are acknowledged and never stored: two buffers that differ only in an
    inventory leave the same data at the hub. *)
Example inventory_not_stored :
  let inv := mkItem 2 PriorityEvent 0 None None None (Some (mkInventory "h1" "shares" 0 1 [])) in
  let app (s : list Metric) m := (true, (s ++ [m])%list) in
  let ins (s : list Event) e := (true, (s ++ [e])%list) in
  let log (s : list LogLine) l := (true, (s ++ [l])%list) in
  let rcv := @ReceiveBatch _ _ _ (app : MetricAppender _) (ins : EventInserter _) (log : LogAppender _) false in
  Pb.Inventories (ItemsToBatch "b" "h1" [inv]) <> [] /\
  (rcv (ItemsToBatch "b" "h1" [inv]) (mkBackends [] [] [])).2 = mkBackends [] [] [].
Proof. vm_compute. done. Qed.

End EndToEnd.
