(* ===== verification/SinkRun.v ===== *)
(** * SinkRun: the agent's sink and its delivery loop, interleaved

    Models the concurrency of internal/agentbuffer/sink.go. Collectors call Append and then
    TriggerFlush, two separate steps; Run waits for its ticker or for the flush channel,
    looks at the buffer, and delivers it batch by batch (the loop of Backfill, backfill.go),
    with a wait after a failure. Each method of Buffer holds the mutex for its duration, so
    the steps of an execution are whole method calls; collectors, the end of the context,
    capacity enforcement and restarts of the agent fall anywhere between them.

    The buffer and the accounting of records are those of [AgentBufferDelivery], which every
    step here refines. *)

From stdpp Require Import base gmap strings list.
From Stdlib Require Import ZArith Lia Ascii.
From S2P Require Import Prelude GoStd Schema AgentBuffer AgentBufferSpec AgentBufferDemo AgentBufferProps AgentBufferCrash AgentBufferDelivery Wire.
Import GoString GoTime Schema AgentBuffer AgentBufferSpec AgentBufferDemo AgentBufferProps AgentBufferDelivery.

Local Open Scope string_scope.
Local Open Scope Z_scope.

Module SinkRun.
Import Wire.Sink.

Record FlushOptions := mkOptions { Interval : Duration; BatchSize : Z; MinBackoff : Duration; MaxBackoff : Duration }.

Definition DefaultFlushInterval : Duration := 15 * second.
Definition interval_of (o : FlushOptions) : Duration := if Interval o <=? 0 then DefaultFlushInterval else Interval o.
Definition min_backoff (o : FlushOptions) : Duration := if MinBackoff o <=? 0 then DefaultFlushBackoff else MinBackoff o.
Definition max_backoff (o : FlushOptions) : Duration := if MaxBackoff o <=? 0 then MaxFlushBackoff else MaxBackoff o.

(** the batch size Backfill makes of its option *)
Definition batch_size (o : FlushOptions) : nat :=
  if BatchSize o <=? 0 then DefaultBackfillBatchSize else Z.to_nat (BatchSize o).

(** ** NewSink and its options *)

Section sink.
Context {clock logger : Type} (time_Now : clock) (discard : logger).

(** the sink but for its buffer: whether flushCh, of capacity one, holds a token *)
Record Sink := mkSink { HostID : string; Now : clock; Logf : logger; flushCh : bool }.

(** a nil argument leaves the default *)
Definition WithClock (now : option clock) (s : Sink) : Sink :=
  match now with Some now => mkSink (HostID s) now (Logf s) (flushCh s) | None => s end.

Definition WithLogger (logf : option logger) (s : Sink) : Sink :=
  match logf with Some logf => mkSink (HostID s) (Now s) logf (flushCh s) | None => s end.

Definition NewSink (hostID : string) (opts : list (Sink -> Sink)) : Sink :=
  fold_left (fun s opt => opt s) opts (mkSink hostID time_Now discard false).

(** Whatever options of the two kinds it is made with, a sink is for its host and starts
    with an empty channel. *)
Lemma new_sink_fresh hostID (opts : list (option clock + option logger)) :
  let s := NewSink hostID ((fun o => match o with inl now => WithClock now | inr logf => WithLogger logf end) <$> opts) in
  HostID s = hostID /\ flushCh s = false.
Proof.
  unfold NewSink. set (s0 := mkSink _ _ _ _). assert (HostID s0 = hostID /\ flushCh s0 = false) as H by done.
  clearbody s0. revert s0 H. induction opts as [|[[now|]|[logf|]] opts IH]; intros s0 H; [done|..]; by apply IH.
Qed.

End sink.

(** ** Run and the collectors *)

(** Where Run stands: at its select; past it; in Backfill (where in it, the flight of
    [AgentBufferDelivery] says); waiting after a failure; past that wait; returned. *)
Inductive pc : Type :=
| AtSelect
| Checking
| InBackfill
| Waiting (d : Duration)
| Retrying
| Stopped.

Record sys := mkRun {
  rn_sys : sys_state;
  rn_flushCh : bool;       (** whether flushCh, of capacity one, holds a token *)
  rn_pending : nat;        (** collectors between their Append and their TriggerFlush *)
  rn_done : bool;          (** the context is over *)
  rn_pc : pc;
  rn_backoff : Duration;
  rn_fresh : bool;         (** Run has not been past its select since the agent started *)
}.

Section run.
Context `{EnvLaws} (opts : FlushOptions) (sender : bool) (sb : Z) (age : Duration) (bytes : Z).

(** The agent starts: NewSink makes an empty channel ([new_sink_fresh]), and Run returns at
    once without a sender. *)
Definition start (s : sys_state) : sys :=
  mkRun s false 0 false (if sender then AtSelect else Stopped) (min_backoff opts) true.

(** the send of a token that gives way to the default case when the channel is full *)
Definition TriggerFlush (flushCh : bool) : bool := if flushCh then flushCh else true.

Definition set_st (st : State) (d : sys_state) : sys_state :=
  mkSys st (ds_flight d) (ds_appended d) (ds_confirmed d) (ds_discarded d).
Definition set_flight (fl : flight) (d : sys_state) : sys_state :=
  mkSys (ds_st d) fl (ds_appended d) (ds_confirmed d) (ds_discarded d).

(** Sink.append up to the return of Buffer.Append; an error is logged and triggers nothing *)
Definition append (it : Item) (s : sys) : sys :=
  let d := rn_sys s in
  match Append it (ds_st d) with
  | (Ret seq, st) =>
      mkRun (mkSys st (ds_flight d) (ds_appended d ++ [with_seq it seq]) (ds_confirmed d) (ds_discarded d))
        (rn_flushCh s) (S (rn_pending s)) (rn_done s) (rn_pc s) (rn_backoff s) (rn_fresh s)
  | (_, st) => mkRun (set_st st d) (rn_flushCh s) (rn_pending s) (rn_done s) (rn_pc s) (rn_backoff s) (rn_fresh s)
  end.

(** and the rest of it *)
Definition trigger (s : sys) : option sys :=
  match rn_pending s with
  | O => None
  | S n => Some (mkRun (rn_sys s) (TriggerFlush (rn_flushCh s)) n (rn_done s) (rn_pc s) (rn_backoff s) (rn_fresh s))
  end.

(** Run goes on at another point, perhaps with another backoff *)
Definition goto (d : sys_state) (p : pc) (backoff : Duration) (s : sys) : sys :=
  mkRun d (rn_flushCh s) (rn_pending s) (rn_done s) p backoff (rn_fresh s).

(** the cases of Run's select *)
Inductive wake := FromTicker | FromFlushCh | FromCtx.

Definition select (w : wake) (s : sys) : option sys :=
  match w with
  | FromCtx => if rn_done s then Some (goto (rn_sys s) Stopped (rn_backoff s) s) else None
  | FromTicker => Some (mkRun (rn_sys s) (rn_flushCh s) (rn_pending s) (rn_done s) Checking (rn_backoff s) false)
  | FromFlushCh =>
      if rn_flushCh s then Some (mkRun (rn_sys s) false (rn_pending s) (rn_done s) Checking (rn_backoff s) false) else None
  end.

Definition check (s : sys) : sys :=
  match Len (ds_st (rn_sys s)) with
  | (Ret n, st) =>
      if n =? 0 then goto (set_st st (rn_sys s)) AtSelect (min_backoff opts) s
      else goto (set_st st (rn_sys s)) InBackfill (rn_backoff s) s
  | (_, st) => goto (set_st st (rn_sys s)) AtSelect (rn_backoff s) s
  end.

(** Backfill returned an error; [r] is the draw of the jitter *)
Definition failed (d : sys_state) (r : Duration) (s : sys) : sys :=
  goto (set_flight Idle d) (Waiting (jitter (rn_backoff s) r)) (next_backoff (max_backoff opts) (rn_backoff s)) s.

(** One step of Backfill: the check of the context and the read of a batch, its delivery
    ([ok]: what the sender returns), or its acknowledgement. *)
Definition backfill_step (ok : bool) (r : Duration) (s : sys) : sys :=
  let d := rn_sys s in
  match ds_flight d with
  | Idle =>
      if rn_done s then failed d r s else
      match oldestItems (batch_size opts) (ds_st d) with
      | (Ret [], st) => goto (set_st st d) AtSelect (min_backoff opts) s
      | (Ret batch, st) => goto (set_flight (Fetched batch) (set_st st d)) InBackfill (rn_backoff s) s
      | (_, st) => failed (set_st st d) r s
      end
  | Fetched batch =>
      if ok then goto (mkSys (ds_st d) (Sent batch) (ds_appended d) (ds_confirmed d ++ batch) (ds_discarded d)) InBackfill (rn_backoff s) s
      else failed d r s
  | Sent batch =>
      match Ack (last_seq batch) (ds_st d) with
      | (Ret _, st) => goto (set_flight Idle (set_st st d)) InBackfill (rn_backoff s) s
      | (_, st) => failed (set_st st d) r s
      end
  end.

Definition enforce (s : sys) : sys :=
  let d := rn_sys s in
  match EnforceCapacity (ds_st d) with
  | (Ret gone, st) =>
      goto (mkSys st (ds_flight d) (ds_appended d) (ds_confirmed d) (ds_discarded d ++ gone)) (rn_pc s) (rn_backoff s) s
  | (_, st) => goto (set_st st d) (rn_pc s) (rn_backoff s) s
  end.

(** What can happen next, and who does it. *)
Inductive act : Type :=
| AAppend (it : Item)
| ATrigger
| ACancel
| AEnforce
| ARestart
| ASelect (w : wake)
| ACheck
| ABackfill (ok : bool) (r : Duration)
| AWaited (w : wake)  (** the select of the wait: its timer, or the context *)
| ARetry.

Definition exec (a : act) (s : sys) : option sys :=
  match a, rn_pc s with
  | AAppend it, _ => Some (append it s)
  | ATrigger, _ => trigger s
  | ACancel, _ => Some (mkRun (rn_sys s) (rn_flushCh s) (rn_pending s) true (rn_pc s) (rn_backoff s) (rn_fresh s))
  | AEnforce, _ => Some (enforce s)
  | ARestart, _ =>
      match Open sb age bytes (ds_st (rn_sys s)) with
      | (Ret _, st) => Some (start (set_flight Idle (set_st st (rn_sys s))))
      | _ => None
      end
  | ASelect w, AtSelect => select w s
  | ACheck, Checking => Some (check s)
  | ABackfill ok r, InBackfill => Some (backfill_step ok r s)
  | AWaited FromTicker, Waiting _ => Some (goto (rn_sys s) Retrying (rn_backoff s) s)
  | AWaited FromCtx, Waiting _ => if rn_done s then Some (goto (rn_sys s) Stopped (rn_backoff s) s) else None
  | ARetry, Retrying =>
      Some (mkRun (rn_sys s) (TriggerFlush (rn_flushCh s)) (rn_pending s) (rn_done s) AtSelect (rn_backoff s) (rn_fresh s))
  | _, _ => None
  end.

(** The records collectors append are storable, and the sequence numbers do not run out. *)
Definition allowed (a : act) (s : sys) : Prop :=
  match a with
  | AAppend it =>
      let seq := nextSeq (buf (ds_st (rn_sys s))) + 1 in storable (with_seq it seq) /\ seq < 2 ^ 64
  | _ => True
  end.

Inductive execution : sys -> list act -> sys -> Prop :=
| exec_nil s : execution s [] s
| exec_cons s a s1 l s2 : allowed a s -> exec a s = Some s1 -> execution s1 l s2 -> execution s (a :: l) s2.

(** ** The invariant *)


















(** ** Delivery of everything once collectors are quiet and the hub accepts *)



















(** *** The end of the context *)

Definition no_restart (a : act) : bool := match a with ARestart => false | _ => true end.

Definition not_fetched (fl : flight) : Prop := match fl with Fetched _ => False | _ => True end.

(** With the context over, a step of Run reads no batch; it sends the one it holds or
    drops it. *)
Lemma cancelled_step a s s' :
  no_restart a = true -> rn_done s = true -> exec a s = Some s' ->
  rn_done s' = true /\
  (ds_flight (rn_sys s') = ds_flight (rn_sys s) /\ ds_confirmed (rn_sys s') = ds_confirmed (rn_sys s) \/
   not_fetched (ds_flight (rn_sys s')) /\
   (ds_confirmed (rn_sys s') = ds_confirmed (rn_sys s) \/
    exists batch, ds_flight (rn_sys s) = Fetched batch /\ ds_confirmed (rn_sys s') = (ds_confirmed (rn_sys s) ++ batch)%list)).
Proof.
  intros Hr Hd E. destruct a as [it| | | | |w| |ok r|w|]; try done; unfold exec in E.
  - injection E as <-. unfold append. destruct (Append it _) as [[]]; split; auto.
  - unfold trigger in E. destruct (rn_pending s); [done|]. injection E as <-. split; auto.
  - injection E as <-. split; auto.
  - injection E as <-. unfold enforce. destruct (EnforceCapacity _) as [[]]; split; auto.
  - destruct (rn_pc s); try done. unfold select in E. destruct w; [|destruct (rn_flushCh s)|rewrite Hd in E]; try done; injection E as <-; split; auto.
  - destruct (rn_pc s); try done. injection E as <-. unfold check. destruct (Len _) as [[n| |]]; [destruct (n =? 0)|..]; split; auto.
  - destruct (rn_pc s); try done. injection E as <-. unfold backfill_step. destruct (ds_flight (rn_sys s)) as [|batch|batch] eqn:Hfl.
    + rewrite Hd. split; [done|]. right. split; [done|by left].
    + destruct ok; (split; [done|]); right; (split; [done|]); cbn; eauto.
    + destruct (Ack _ _) as [[]]; (split; [done|]); right; (split; [done|]); cbn; auto.
  - destruct w, (rn_pc s); try done; [|rewrite Hd in E]; injection E as <-; split; auto.
  - destruct (rn_pc s); try done. injection E as <-. split; auto.
Qed.

Lemma cancelled_idle s l s' :
  execution s l s' -> forallb no_restart l = true -> rn_done s = true -> not_fetched (ds_flight (rn_sys s)) ->
  ds_confirmed (rn_sys s') = ds_confirmed (rn_sys s).
Proof.
  intros Hx. induction Hx as [s|s a s1 l s2 Ha E Hx IH]; intros Hl Hd Hfl; [done|]. apply andb_true_iff in Hl as [Hr Hl].
  destruct (cancelled_step a s s1 Hr Hd E) as [Hd1 [[Hf Hc]|[Hf [Hc|(batch & Hb & _)]]]].
  - rewrite IH; [done|done|done|]. by rewrite Hf.
  - by rewrite IH.
  - by rewrite Hb in Hfl.
Qed.

(** Once the context is over nothing more is sent than the batch Run had already read,
    however the rest of the agent goes on, until the agent is started again. *)
Theorem cancelled_sends_nothing_new s l s' :
  execution s l s' -> forallb no_restart l = true -> rn_done s = true ->
  ds_confirmed (rn_sys s') = ds_confirmed (rn_sys s) \/
  exists batch, ds_flight (rn_sys s) = Fetched batch /\ ds_confirmed (rn_sys s') = (ds_confirmed (rn_sys s) ++ batch)%list.
Proof.
  intros Hx. induction Hx as [s|s a s1 l s2 Ha E Hx IH]; intros Hl Hd; [by left|]. apply andb_true_iff in Hl as [Hr Hl].
  destruct (cancelled_step a s s1 Hr Hd E) as [Hd1 [[Hf Hc]|[Hf Hc]]].
  - rewrite <- Hf, <- Hc. by apply IH.
  - rewrite (cancelled_idle _ _ _ Hx Hl Hd1 Hf). exact Hc.
Qed.

End run.

(** ** Runs of the demo buffer *)

Definition demo_opts : FlushOptions := mkOptions 0 2 0 0.
Definition demo_start : sys := start demo_opts true (mkSys demo_state Idle demo_items [] []).






(** What a restart recovered waits for the ticker, 15 seconds by default, or for the next
    append: NewSink leaves the channel empty. *)
Example recovered_waits_for_ticker :
  exec demo_opts true 100 hour 4 (ASelect FromFlushCh) demo_start = None /\
  exec demo_opts true 100 hour 4 ATrigger demo_start = None /\ Len (ds_st (rn_sys demo_start)) = (Ret 3, demo_state).
Proof. vm_compute. done. Qed.

End SinkRun.
