(* ===== verification/HostMetrics.v ===== *)
(** * HostMetrics: CPU, memory, network and container metrics

    Models internal/collector/cpu, memory, network and docker (docker.go). A collector hands
    metrics to its sink; here they are the list of its gauges and counters, in order, except
    for the network rates, which the code emits in the order of a map and which are the map
    itself. What the procfs package answers is an argument, as in Samplers. *)

From stdpp Require Import base gmap strings list sorting.
From Stdlib Require Import ZArith Lia Ascii SpecFloat.
From S2P Require Import Prelude GoStd GoConv GoIO GoNet Schema AtomicFile Spool Samplers Inventories Wire.
Import GoString GoConv GoIO GoFloat GoTime Schema Samplers.

Local Open Scope string_scope.
Local Open Scope Z_scope.

(** one call of sink.Gauge or sink.Counter *)
Record emission := mkEmission { e_name : string; e_value : float64; e_labels : gmap string string }.

(** the metric the agent's sink makes of it *)
Definition metric_of (hostID : string) (now : Z) (e : emission) : Metric :=
  mkMetric (e_name e) hostID (e_labels e) (e_value e) now.

(** a value limited to 0 and 1 *)
Lemma clamped r : let x := if flt r f_zero then f_zero else if fgt r (f_of_Z 1) then f_of_Z 1 else r in flt x f_zero = false /\ fgt x (f_of_Z 1) = false.
Proof. cbv zeta. destruct (flt r f_zero) eqn:E1; [by vm_compute|]. destruct (fgt r (f_of_Z 1)) eqn:E2; [by vm_compute|]. done. Qed.

(** ** internal/collector/cpu *)
Module Cpu.

Record Collector := mkCollector { prevAt : Z; prevTotal : CPUStat; prevPerCPU : gmap Z CPUStat }.

(** procfs.Stat, as far as it is read *)
Record Stat := mkStat { CPUTotal : CPUStat; CPU : gmap Z CPUStat }.

Definition cpuStatTotal (s : CPUStat) : float64 :=
  fadd (fadd (fadd (fadd (fadd (fadd (fadd (User s) (Nice s)) (System s)) (Idle s)) (Iowait s)) (IRQ s)) (SoftIRQ s)) (Steal s).

Definition f_one : float64 := f_of_Z 1.

Definition cpuUsageRatio (prev cur : CPUStat) : option float64 :=
  let totalDelta := fsub (cpuStatTotal cur) (cpuStatTotal prev) in
  if fle totalDelta f_zero then None else
  let idleDelta := fsub (fadd (Idle cur) (Iowait cur)) (fadd (Idle prev) (Iowait prev)) in
  let busyDelta := fsub totalDelta idleDelta in
  let r := fdiv busyDelta totalDelta in
  Some (if flt r f_zero then f_zero else if fgt r f_one then f_one else r).

Definition usage (cpu : string) (ratio : float64) : emission := mkEmission "bitacora_cpu_usage_ratio" ratio {[ "cpu" := cpu ]}.

Definition cpu_gauge (prev cur : gmap Z CPUStat) (id : Z) : option emission :=
  p ← prev !! id; c ← cur !! id; usage (Itoa id) <$> cpuUsageRatio p c.

Definition Collect (ctxErr : option string) (c : Collector) (stat : option Stat) (now : Z) : result string (list emission) * Collector :=
  match ctxErr, stat with
  | Some err, _ => (Err err, c)
  | None, None => (Err "reading /proc/stat", c)
  | None, Some stat =>
      let gauges :=
        if is_zero (prevAt c) then []
        else (option_list (usage "total" <$> cpuUsageRatio (prevTotal c) (CPUTotal stat)) ++
              omap (cpu_gauge (prevPerCPU c) (CPU stat)) (merge_sort Z.le (map_to_list (CPU stat)).*1))%list in
      (Ok gauges, mkCollector now (CPUTotal stat) (CPU stat))
  end.

Lemma ratio_clamped prev cur r : cpuUsageRatio prev cur = Some r -> flt r f_zero = false /\ fgt r f_one = false.
Proof.
  unfold cpuUsageRatio. destruct (fle _ f_zero); [done|]. intros [= <-]. apply clamped.
Qed.

Lemma no_address s : lacks "." s = true -> lacks ":" s = true -> lacks "%" s = true -> GoNet.ParseIP s = None.
Proof.
  intros H1 H2 H3. unfold GoNet.ParseIP. assert (GoNet.first_of_dot_colon_percent s = None) as ->; [|done].
  induction s as [|c s IH]; [done|]. cbn [lacks] in *. apply andb_true_iff in H1 as [N1%bool_decide_eq_true H1].
  apply andb_true_iff in H2 as [N2%bool_decide_eq_true H2]. apply andb_true_iff in H3 as [N3%bool_decide_eq_true H3].
  cbn [GoNet.first_of_dot_colon_percent]. rewrite IH by done. by rewrite !bool_decide_false by congruence.
Qed.

Lemma no_slash s : lacks "/" s = true -> count_byte "/" s = 0%nat.
Proof.
  induction s as [|c s IH]; [done|]. cbn [lacks count_byte]. intros [N%bool_decide_eq_true H]%andb_true_iff.
  rewrite IH by done. by rewrite decide_False by congruence.
Qed.

(** a label value that is a word or a number *)
Definition plain_value (v : string) : Prop := forall c, c ∈ [ "."; ":"; "%"; "/" ]%char -> lacks c v = true.

Lemma cpu_label_valid v : plain_value v -> validateLabels {[ "cpu" := v ]} = Ok tt.
Proof.
  intros Hv. unfold validateLabels. rewrite map_to_list_singleton. cbn [check_labels]. unfold check_label.
  rewrite (bool_decide_false ("cpu" ∈ forbiddenLabelKeys)) by (unfold forbiddenLabelKeys; set_solver).
  rewrite no_address by (apply Hv; set_solver). rewrite no_slash by (apply Hv; set_solver). rewrite lookup_singleton_ne by done. done.
Qed.

Lemma Itoa_plain z : plain_value (Itoa z).
Proof.
  intros c Hc. unfold Itoa. assert (forall n, 0 <= n -> lacks c (show n) = true) as Hs.
  { intros n Hn. apply show_lacks; [done|]. repeat (apply elem_of_cons in Hc as [->|Hc]; [done|]). by apply elem_of_nil in Hc. }
  destruct (Z.ltb_spec z 0); [|by apply Hs]. cbn [lacks]. rewrite Hs by lia. rewrite andb_true_r. apply bool_decide_eq_true.
  repeat (apply elem_of_cons in Hc as [->|Hc]; [done|]). by apply elem_of_nil in Hc.
Qed.

(** Every CPU usage the collector reports, for whatever two readings of the kernel counters
    (going backwards included), is a metric the store accepts: within 0 and 1, well named and
    well labelled. *)
Theorem cpu_gauges_valid c stat now hostID ts gauges c' e :
  hostID <> "" -> is_zero ts = false -> Collect None c (Some stat) now = (Ok gauges, c') -> e ∈ gauges ->
  Metric_Validate (metric_of hostID ts e) = Ok tt.
Proof.
  intros Hh Ht Hc He. assert (exists v r prev cur, e = usage v r /\ plain_value v /\ cpuUsageRatio prev cur = Some r) as (v & r & prev & cur & -> & Hv & Hr).
  { injection Hc as <- _. destruct (is_zero (prevAt c)); [by apply elem_of_nil in He|].
    apply elem_of_app in He as [He|He].
    - destruct (cpuUsageRatio (prevTotal c) (CPUTotal stat)) as [r|] eqn:E; cbn in He; [|by apply elem_of_nil in He].
      apply list_elem_of_singleton in He as ->. exists "total", r. eexists _, _. split_and!; [done| |done].
      intros ch Hch. repeat (apply elem_of_cons in Hch as [->|Hch]; [done|]). by apply elem_of_nil in Hch.
    - apply list_elem_of_omap in He as (id & _ & He). unfold cpu_gauge in He.
      apply bind_Some in He as (p & _ & He). apply bind_Some in He as (q & _ & He).
      destruct (cpuUsageRatio p q) as [r|] eqn:E; [|done]. injection He as <-. exists (Itoa id), r, p, q. split_and!; [done|apply Itoa_plain|done]. }
  destruct (ratio_clamped _ _ _ Hr) as [H0 H1]. unfold Metric_Validate, metric_of, usage. cbn [m_HostID m_Name m_Value m_Timestamp m_Labels e_name e_value e_labels].
  rewrite bool_decide_false by done. change (metric_suffix "bitacora_cpu_usage_ratio") with "_ratio".
  change (has_prefix requiredPrefix "bitacora_cpu_usage_ratio") with true. cbn [negb]. change (f_of_Z 1) with f_one.
  rewrite H0, H1, Ht. change (bool_decide ("_ratio" = "")) with false. rewrite andb_false_r. by apply cpu_label_valid.
Qed.

Definition demo_prev : Collector := mkCollector 1 (cpu_at 100 100 0) {[ 0 := cpu_at 50 50 20; 1 := cpu_at 50 50 0 ]}.
Definition demo_stat : Stat := mkStat (cpu_at 150 150 0) {[ 0 := cpu_at 100 60 0; 2 := cpu_at 1 1 0 ]}.

Lemma cpu_gauges_valid_witness :
  Metric_Validate (metric_of "h1" 5 (usage "total" (fdiv (f_of_Z 1) (f_of_Z 2)))) = Ok tt.
Proof.
  apply (cpu_gauges_valid demo_prev demo_stat 2 "h1" 5 (default [] (match (Collect None demo_prev (Some demo_stat) 2).1 with Ok g => Some g | Err _ => None end))
    (Collect None demo_prev (Some demo_stat) 2).2); [done|reflexivity|reflexivity|].
  apply (list_elem_of_lookup_2 _ 0%nat). vm_compute. reflexivity.
Defined.

End Cpu.

(** ** internal/collector/memory *)
Module Memory.

Definition kbToBytes (kb : Z) : float64 := fmul (f_of_Z kb) (f_of_Z 1024).

Definition gauge (name : string) (v : option Z) : list emission :=
  match v with Some kb => [mkEmission name (kbToBytes kb) ∅] | None => [] end.

Definition used_ratio (total available : Z) : float64 := fdiv (f_of_Z (uint64 (total - available))) (f_of_Z total).

Definition Collect (ctxErr : option string) (mi : option Meminfo) : result string (list emission) :=
  match ctxErr, mi with
  | Some err, _ => Err err
  | None, None => Err "reading /proc/meminfo"
  | None, Some mi =>
      Ok (gauge "bitacora_memory_total_bytes" (MemTotal mi) ++
          gauge "bitacora_memory_available_bytes" (MemAvailable mi) ++
          match MemTotal mi, MemAvailable mi with
          | Some total, Some available =>
              if 0 <? total then [mkEmission "bitacora_memory_used_ratio" (used_ratio total available) ∅] else []
          | _, _ => []
          end ++
          gauge "bitacora_memory_swap_total_bytes" (SwapTotal mi) ++
          gauge "bitacora_memory_swap_free_bytes" (SwapFree mi))%list
  end.

(** more available than total makes the unsigned difference wrap: a ratio the store refuses *)
Example available_above_total :
  Metric_Validate (metric_of "h1" 5 (mkEmission "bitacora_memory_used_ratio" (used_ratio 1000 1001) ∅)) = Err ErrRatioOutOfRange /\
  Metric_Validate (metric_of "h1" 5 (mkEmission "bitacora_memory_used_ratio" (used_ratio 1000 250) ∅)) = Ok tt.
Proof. vm_compute. done. Qed.

End Memory.

(** ** internal/collector/network *)
Module Network.

Record ifaceCounters := mkCounters { rxBytes : Z; txBytes : Z }.
Record Collector := mkCollector { prevAt : Z; prevInts : gmap string ifaceCounters }.

Definition staleAfter : Duration := 30 * minute.

Definition colon : ascii := ":"%char.

(** one line of /proc/net/dev *)
Definition dev_line (line : string) : option (string * ifaceCounters) :=
  '(iface, rest) ← cut_byte colon line;
  let iface := TrimSpace iface in
  if bool_decide (iface = "lo") || bool_decide (iface = "") then None else
  let fields := Fields rest in
  if (length fields <? 9)%nat then None else
  rx ← (fields !! 0%nat ≫= fun f => ParseUint f 64);
  tx ← (fields !! 8%nat ≫= fun f => ParseUint f 64);
  Some (iface, mkCounters rx tx).

Definition add_dev (counters : gmap string ifaceCounters) (line : string) : gmap string ifaceCounters :=
  match dev_line line with Some (iface, c) => <[iface := c]> counters | None => counters end.

(** the two header lines are skipped *)
Definition readProcNetDev (contents : option string) : gmap string ifaceCounters * bool :=
  match contents with
  | None => (∅, true)
  | Some text => (fold_left add_dev (drop 2 (scan_lines text)) ∅, scan_failed text)
  end.

(** the receive and transmit rates of one interface *)
Definition iface_rate (elapsed : float64) (prev : gmap string ifaceCounters) (iface : string) (cur : ifaceCounters) : option (float64 * float64) :=
  p ← prev !! iface;
  if (rxBytes cur <? rxBytes p) || (txBytes cur <? txBytes p) then None
  else Some (fdiv (f_of_Z (rxBytes cur - rxBytes p)) elapsed, fdiv (f_of_Z (txBytes cur - txBytes p)) elapsed).

Definition collectTraffic (c : Collector) (contents : option string) (now : Z) : gmap string (float64 * float64) * Collector :=
  let '(counters, failed) := readProcNetDev contents in
  if failed : bool then (∅, c) else
  let rates :=
    if is_zero (prevAt c) then ∅ else
    let elapsed := Seconds (sub now (prevAt c)) in
    if fgt elapsed f_zero then map_imap (iface_rate elapsed (prevInts c)) counters else ∅ in
  (rates, mkCollector now counters).

(** the gauges of one interface *)
Definition rate_gauges (iface : string) (rates : float64 * float64) : list emission :=
  [mkEmission "bitacora_net_rx_bytes_per_second" rates.1 {[ "interface" := iface ]};
   mkEmission "bitacora_net_tx_bytes_per_second" rates.2 {[ "interface" := iface ]}].

(** *** VPN tunnels *)

Definition tab : ascii := "009"%char.

Definition shortKey (key : string) : string := if (String.length key <=? 12)%nat then key else str_take 12 key ++ "…".

Section vpn.
Context (rfc3339 : Z -> string). (* t.Format(time.RFC3339) *)

Definition peer_item (now : Z) (line : string) : option InventoryItem :=
  match split_byte tab line with
  | [iface; peerPubKey; _; endpoint; _; handshake; _; _; _] =>
      let handshakeUnix := default 0 (ParseInt64 handshake) in
      let t := unix_epoch + handshakeUnix * second in
      let '(active, lastSeen) :=
        if 0 <? handshakeUnix then (FormatBool (sub now t <? 3 * minute), rfc3339 t) else ("false", "") in
      Some (mkInventoryItem (iface ++ "/" ++ shortKey peerPubKey) iface
        {[ "protocol" := "wireguard"; "peer" := shortKey peerPubKey; "endpoint" := endpoint; "active" := active; "last_handshake" := lastSeen ]})
  | _ => None
  end.

Definition item_le (a b : InventoryItem) : Prop := String.le (ii_ID a) (ii_ID b).
Global Instance item_le_dec : RelDecision item_le.
Proof. intros a b. unfold item_le. apply _. Defined.

Definition parseWireguardDump (now : Z) (dump : string) : list InventoryItem :=
  if bool_decide (dump = "") then [] else merge_sort item_le (omap (peer_item now) (scan_lines dump)).

(** the fields of tailscale status --json that are read; json.Unmarshal is a parameter *)
Record tailscaleStatus := mkTailscale { BackendState : string; Online : bool }.
Context (decodeStatus : string -> option tailscaleStatus).

Definition parseTailscaleStatus (raw : string) : option InventoryItem :=
  if bool_decide (raw = "") then None else
  status ← decodeStatus raw;
  Some (mkInventoryItem "tailscale" "tailscale"
    {[ "protocol" := "tailscale"; "active" := FormatBool (Online status); "state" := BackendState status ]}).

(** vpnhelper.Result *)
Record vpnResult := mkVpnResult { WireguardDump : string; TailscaleStatusJSON : string }.
Context (decodeResult : string -> option vpnResult).

Definition readVPNTunnels (entries : option (gmap string Spool.Entry)) (now : Z) : list InventoryItem :=
  match entries ≫= fun es => es !! "vpn" with
  | None => []
  | Some entry =>
      if staleAfter <? Spool.Age entry now then [] else
      match decodeResult (Spool.Data entry) with
      | None => []
      | Some result => (parseWireguardDump now (WireguardDump result) ++ option_list (parseTailscaleStatus (TailscaleStatusJSON result)))%list
      end
  end.

Definition Collect (ctxErr : option string) (hostID : string) (c : Collector) (dev : option string)
    (entries : option (gmap string Spool.Entry)) (now : Z) : result string (gmap string (float64 * float64) * Inventory) * Collector :=
  match ctxErr with
  | Some err => (Err err, c)
  | None =>
      let '(rates, c') := collectTraffic c dev now in
      (Ok (rates, mkInventory hostID "vpn_tunnel" now CurrentSchemaVersion (readVPNTunnels entries now)), c')
  end.

End vpn.

(** *** Properties *)

Lemma f_of_Z_nonneg z : 0 <= z -> flt (f_of_Z z) f_zero = false.
Proof.
  intros Hz. unfold f_of_Z, binary_normalize. destruct z as [|p|p]; [done| |lia].
  apply not_true_is_false. intros E. unfold binary_round in E. destruct (shl_align _ _ _) as [m e]. by apply round_sign in E.
Qed.

Lemma add_dev_lines lines counters :
  (forall iface c, counters !! iface = Some c -> 0 <= rxBytes c < 2 ^ 64 /\ 0 <= txBytes c < 2 ^ 64 /\ iface <> "lo" /\ iface <> "") ->
  forall iface c, fold_left add_dev lines counters !! iface = Some c -> 0 <= rxBytes c < 2 ^ 64 /\ 0 <= txBytes c < 2 ^ 64 /\ iface <> "lo" /\ iface <> "".
Proof.
  revert counters. induction lines as [|l lines IH]; intros counters Hc; cbn [fold_left]; [done|]. apply IH.
  unfold add_dev. destruct (dev_line l) as [[iface c]|] eqn:E; [|done]. intros iface' c' Hl. apply lookup_insert_Some in Hl as [[<- <-]|[_ Hl]]; [|by apply (Hc iface')].
  unfold dev_line in E. apply bind_Some in E as ([i rest] & _ & E). destruct (bool_decide_reflect (TrimSpace i = "lo")); [done|].
  destruct (bool_decide_reflect (TrimSpace i = "")); [done|]. cbn [orb] in E. destruct (_ <? 9)%nat; [done|].
  apply bind_Some in E as (rx & Hrx & E). apply bind_Some in E as (tx & Htx & E). injection E as <- <-. cbn.
  apply bind_Some in Hrx as (f & _ & Hrx%ParseUint_range). apply bind_Some in Htx as (g & _ & Htx%ParseUint_range). done.
Qed.

Lemma readProcNetDev_ok contents iface c :
  (readProcNetDev contents).1 !! iface = Some c -> 0 <= rxBytes c < 2 ^ 64 /\ 0 <= txBytes c < 2 ^ 64 /\ iface <> "lo" /\ iface <> "".
Proof.
  destruct contents as [text|]; [|cbn [readProcNetDev fst]; by rewrite lookup_empty]. apply add_dev_lines. intros i x. by rewrite lookup_empty.
Qed.

(** Network rates: an interface has rates exactly when it was there at both readings, time
    has passed and neither counter went back; the rates are the growth of the counters over
    the elapsed time, never negative, and the loopback interface has none. The new reading
    is what the next one is compared with. *)
Theorem traffic_rates_spec c text now :
  scan_failed text = false -> is_zero (prevAt c) = false -> fgt (Seconds (sub now (prevAt c))) f_zero = true ->
  let counters := (readProcNetDev (Some text)).1 in
  let '(rates, c') := collectTraffic c (Some text) now in
  c' = mkCollector now counters /\
  forall iface, rates !! iface =
      (cur ← counters !! iface; prev ← prevInts c !! iface;
       if (rxBytes prev <=? rxBytes cur) && (txBytes prev <=? txBytes cur)
       then Some (fdiv (f_of_Z (rxBytes cur - rxBytes prev)) (Seconds (sub now (prevAt c))),
                  fdiv (f_of_Z (txBytes cur - txBytes prev)) (Seconds (sub now (prevAt c))))
       else None) /\
    forall rx tx, rates !! iface = Some (rx, tx) -> flt rx f_zero = false /\ flt tx f_zero = false /\ iface <> "lo".
Proof.
  intros Hf Hz He. unfold collectTraffic. cbn [readProcNetDev fst]. rewrite Hf, Hz, He. split; [done|]. intros iface.
  set (counters := fold_left add_dev _ _).
  assert (map_imap (iface_rate (Seconds (sub now (prevAt c))) (prevInts c)) counters !! iface =
    (cur ← counters !! iface; prev ← prevInts c !! iface;
       if (rxBytes prev <=? rxBytes cur) && (txBytes prev <=? txBytes cur)
       then Some (fdiv (f_of_Z (rxBytes cur - rxBytes prev)) (Seconds (sub now (prevAt c))),
                  fdiv (f_of_Z (txBytes cur - txBytes prev)) (Seconds (sub now (prevAt c))))
       else None)) as Hr.
  { rewrite map_lookup_imap. destruct (counters !! iface) as [cur|]; [|done]. cbn [mbind option_bind]. unfold iface_rate.
    destruct (prevInts c !! iface) as [prev|]; [|done]. cbn [mbind option_bind]. rewrite !Z.ltb_antisym.
    by destruct (rxBytes prev <=? rxBytes cur), (txBytes prev <=? txBytes cur). }
  split; [done|]. rewrite Hr. intros rx tx Hrt. apply bind_Some in Hrt as (cur & Hcur & Hrt). apply bind_Some in Hrt as (prev & Hp & Hrt).
  destruct (Z.leb_spec (rxBytes prev) (rxBytes cur)); [|done]. destruct (Z.leb_spec (txBytes prev) (txBytes cur)); [|done].
  injection Hrt as <- <-. assert (fle (Seconds (sub now (prevAt c))) f_zero = false) as Hle.
  { unfold fgt in He. unfold fle, SFleb. unfold SFltb in He. destruct (Seconds _) as [[]|[]| |[] m e]; done. }
  split_and!; [apply fdiv_nonneg; [apply f_of_Z_nonneg; lia|done]..|].
  by apply (readProcNetDev_ok (Some text) iface cur).
Qed.

Definition dev_text : string :=
  lines_of ["Inter-|   Receive"; " face |bytes"; "    lo: 9 0 0 0 0 0 0 0 9 0"; "  eth0: 3000 1 0 0 0 0 0 0 500 2 0"; " wlan0: 10 0 0 0 0 0 0 0 10 0"].
Definition demo_collector : Collector := mkCollector second {[ "eth0" := mkCounters 1000 100; "wlan0" := mkCounters 50 5 ]}.

Lemma traffic_rates_spec_witness :
  (collectTraffic demo_collector (Some dev_text) (3 * second)).1 !! "eth0" = Some (f_of_Z 1000, f_of_Z 200) /\
  (collectTraffic demo_collector (Some dev_text) (3 * second)).1 !! "wlan0" = None.
Proof.
  pose proof (traffic_rates_spec demo_collector dev_text (3 * second) ltac:(vm_compute; reflexivity) eq_refl ltac:(vm_compute; reflexivity)) as H.
  cbn zeta in H. destruct (collectTraffic demo_collector (Some dev_text) (3 * second)) as [rates c']. destruct H as [_ H].
  split; cbn [fst]; [rewrite (proj1 (H "eth0"))|rewrite (proj1 (H "wlan0"))]; vm_compute; reflexivity.
Defined.

(** The names of the rates end in no unit the schema allows: every one of them is refused. *)
Example net_rates_refused iface rates hostID ts e :
  hostID <> "" -> e ∈ rate_gauges iface rates -> Metric_Validate (metric_of hostID ts e) = Err ErrMetricSuffix.
Proof.
  intros Hh He. unfold rate_gauges in He. unfold Metric_Validate.
  repeat (apply elem_of_cons in He as [->|He]; [cbn [metric_of m_HostID m_Name e_name]; rewrite bool_decide_false by done; reflexivity|]).
  by apply elem_of_nil in He.
Qed.

End Network.

(** ** internal/collector/docker *)
Module Docker.

Definition labelsFor (fullID : string) (names : gmap string string) : gmap string string :=
  let short := if (12 <? String.length fullID)%nat then str_take 12 fullID else fullID in
  let name := default "" (names !! fullID) in
  let name := if bool_decide (name = "") then short else name in
  {[ "container_id" := short; "container_name" := name ]}.

(** the container IDs of the docker-<id>.scope directories; an entry is its name and whether it is a directory *)
Definition scope_id (entry : string * bool) : option string :=
  let '(name, isDir) := entry in
  if negb isDir then None
  else if has_prefix "docker-" name && has_suffix ".scope" name
  then Some (trim_suffix (trim_prefix name "docker-") ".scope") else None.

Definition listContainerScopes (l : Spool.listing) (isDir : string -> bool) : option (list string) :=
  match l with
  | Spool.DirMissing => Some []
  | Spool.DirError => None
  | Spool.DirNames names => Some (omap (fun name => scope_id (name, isDir name)) names)
  end.

Fixpoint usage_lines (lines : list string) : option float64 :=
  match lines with
  | [] => None
  | line :: rest =>
      match Fields line with
      | [key; value] => if bool_decide (key = "usage_usec") then (fun usec => fdiv usec (f_of_Z 1000000)) <$> ParseFloat prec emax value
                        else usage_lines rest
      | _ => usage_lines rest
      end
  end.

Definition readCPUUsageSeconds (contents : option string) : option float64 := raw ← contents; usage_lines (split_byte newline raw).
Definition readMemoryCurrent (contents : option string) : option Z := raw ← contents; ParseInt64 (TrimSpace raw).

(** Collect, with the two files of each container and the names the metadata client returned *)
Definition Collect (ctxErr : option string) (l : Spool.listing) (isDir : string -> bool) (cpuStat memoryCurrent : string -> option string)
    (names : gmap string string) : result string (list emission) :=
  match ctxErr with
  | Some err => Err err
  | None =>
      match listContainerScopes l isDir with
      | None => Err "listing container cgroup scopes"
      | Some ids =>
          Ok (concat ((fun id =>
            let labels := labelsFor id names in
            (option_list ((fun v => mkEmission "bitacora_container_cpu_seconds_total" v labels) <$> readCPUUsageSeconds (cpuStat id)) ++
             option_list ((fun v => mkEmission "bitacora_container_memory_bytes" (f_of_Z v) labels) <$> readMemoryCurrent (memoryCurrent id)))%list) <$> ids))
      end
  end.

(** a container's directory gives back its ID *)
Lemma scope_roundtrip id : scope_id ("docker-" ++ id ++ ".scope", true) = Some id.
Proof.
  unfold scope_id. cbn [negb]. rewrite has_prefix_app, trim_prefix_app, trim_suffix_app.
  by rewrite str_app_assoc, has_suffix_app.
Qed.

(** container labels carry at most 12 characters of the ID and always a name with it *)
Lemma labelsFor_ok id names :
  exists short name, labelsFor id names = {[ "container_id" := short; "container_name" := name ]} /\
    (String.length short <= 12)%nat /\ (id <> "" -> name <> "").
Proof.
  unfold labelsFor. eexists _, _. split; [done|]. destruct (Nat.ltb_spec 12 (String.length id)) as [Hl|Hl].
  - split; [apply str_take_length|]. intros _. case_bool_decide; [|done]. destruct id; [simpl in Hl; lia|done].
  - split; [done|]. intros Hid. by case_bool_decide.
Qed.

End Docker.
