(* ===== verification/Token.v ===== *)
(** * Token: Argon2id token hashes

    Models internal/transport/token.go: the encoded form of a token hash, written by
    HashToken and read back by VerifyToken, with the parts of the standard library it is
    made of: base64.RawStdEncoding, strings.Split and fmt.Sscanf of decimal fields (of the
    white space Sscanf skips, the ASCII characters).

    argon2.IDKey is a parameter: a function of the password, the salt and the cost
    parameters that gives a key of the length asked for. Strings are byte strings. *)

From stdpp Require Import base strings list.
From Stdlib Require Import ZArith Lia Ascii.
From S2P Require Import Prelude GoStd.
Import GoString.

Local Open Scope string_scope.
Local Open Scope Z_scope.

(** ** base64.RawStdEncoding *)
Module Base64.

Definition of_byte (z : Z) : ascii := ascii_of_nat (Z.to_nat z).

(** the character of a six-bit value *)
Definition enc_char (i : Z) : ascii :=
  if i <? 26 then of_byte (65 + i)
  else if i <? 52 then of_byte (97 + (i - 26))
  else if i <? 62 then of_byte (48 + (i - 52))
  else if i =? 62 then "+"%char else "/"%char.

Definition dec_char (c : ascii) : option Z :=
  let z := byte_of c in
  if (65 <=? z) && (z <=? 90) then Some (z - 65)
  else if (97 <=? z) && (z <=? 122) then Some (z - 97 + 26)
  else if (48 <=? z) && (z <=? 57) then Some (z - 48 + 52)
  else if z =? 43 then Some 62
  else if z =? 47 then Some 63
  else None.

Fixpoint EncodeToString (s : string) : string :=
  match s with
  | "" => ""
  | String a "" =>
      let v := byte_of a * 65536 in
      String (enc_char (v / 262144)) (String (enc_char (v / 4096 mod 64)) "")
  | String a (String b "") =>
      let v := byte_of a * 65536 + byte_of b * 256 in
      String (enc_char (v / 262144)) (String (enc_char (v / 4096 mod 64))
        (String (enc_char (v / 64 mod 64)) ""))
  | String a (String b (String c rest)) =>
      let v := byte_of a * 65536 + byte_of b * 256 + byte_of c in
      String (enc_char (v / 262144)) (String (enc_char (v / 4096 mod 64))
        (String (enc_char (v / 64 mod 64)) (String (enc_char (v mod 64)) (EncodeToString rest))))
  end.

(** DecodeString skips carriage returns and newlines anywhere *)
Fixpoint strip_newlines (s : string) : string :=
  match s with
  | "" => ""
  | String c rest =>
      if (byte_of c =? 13) || (byte_of c =? 10) then strip_newlines rest else String c (strip_newlines rest)
  end.

(** groups of four characters; a last group of two or three gives one or two bytes, and
    its spare bits are not checked *)
Fixpoint decode_groups (s : string) : option string :=
  match s with
  | "" => Some ""
  | String _ "" => None
  | String c1 (String c2 "") =>
      match dec_char c1, dec_char c2 with
      | Some i1, Some i2 => let v := i1 * 262144 + i2 * 4096 in Some (String (of_byte (v / 65536)) "")
      | _, _ => None
      end
  | String c1 (String c2 (String c3 "")) =>
      match dec_char c1, dec_char c2, dec_char c3 with
      | Some i1, Some i2, Some i3 =>
          let v := i1 * 262144 + i2 * 4096 + i3 * 64 in
          Some (String (of_byte (v / 65536)) (String (of_byte (v / 256 mod 256)) ""))
      | _, _, _ => None
      end
  | String c1 (String c2 (String c3 (String c4 rest))) =>
      match dec_char c1, dec_char c2, dec_char c3, dec_char c4, decode_groups rest with
      | Some i1, Some i2, Some i3, Some i4, Some out =>
          let v := i1 * 262144 + i2 * 4096 + i3 * 64 + i4 in
          Some (String (of_byte (v / 65536)) (String (of_byte (v / 256 mod 256)) (String (of_byte (v mod 256)) out)))
      | _, _, _, _, _ => None
      end
  end.

Definition DecodeString (s : string) : option string := decode_groups (strip_newlines s).

(** every six-bit value is a character of the alphabet, which is no separator *)
Lemma enc_char_check i :
  0 <= i < 64 ->
  dec_char (enc_char i) = Some i /\ byte_of (enc_char i) <> 13 /\ byte_of (enc_char i) <> 10 /\
  enc_char i <> "$"%char.
Proof.
  intros Hi.
  assert (forallb (fun n => let i := Z.of_nat n in
            bool_decide (dec_char (enc_char i) = Some i) && negb (byte_of (enc_char i) =? 13) &&
            negb (byte_of (enc_char i) =? 10) && negb (bool_decide (enc_char i = "$"%char))) (seq 0 64) = true)
    as Hall by (vm_compute; reflexivity).
  rewrite forallb_forall in Hall. specialize (Hall (Z.to_nat i)).
  rewrite Z2Nat.id in Hall by lia. cbv zeta in Hall.
  rewrite !andb_true_iff, !negb_true_iff in Hall. destruct Hall as [[[H1 H2] H3] H4]; [apply in_seq; lia|].
  apply bool_decide_eq_true in H1. apply bool_decide_eq_false in H4. zbool. done.
Qed.

Lemma dec_enc i : 0 <= i < 64 -> dec_char (enc_char i) = Some i.
Proof. intros Hi. by apply enc_char_check. Qed.

Lemma byte_range c : 0 <= byte_of c < 256.
Proof. unfold byte_of. pose proof (nat_ascii_bounded c). lia. Qed.

Lemma of_byte_byte_of c : of_byte (byte_of c) = c.
Proof. unfold of_byte, byte_of. by rewrite Nat2Z.id, ascii_nat_embedding. Qed.

(** strings by groups of three bytes *)
Lemma string_ind3 (P : string -> Prop) :
  P "" -> (forall a, P (String a "")) -> (forall a b, P (String a (String b ""))) ->
  (forall a b c s, P s -> P (String a (String b (String c s)))) -> forall s, P s.
Proof.
  intros P0 P1 P2 P3.
  assert (forall n s, (String.length s <= n)%nat -> P s) as Hn.
  { induction n as [|n IH]; intros s Hs; [destruct s; [done|simpl in Hs; lia]|].
    destruct s as [|a [|b [|c s]]]; [done|done|done|]. apply P3, IH. simpl in Hs. lia. }
  intros s. by apply (Hn (String.length s)).
Qed.

(** the six-bit values of a group of bytes, and the group they give back *)
Lemma group_arith a b c :
  0 <= a < 256 -> 0 <= b < 256 -> 0 <= c < 256 ->
  let v := a * 65536 + b * 256 + c in
  0 <= v / 262144 < 64 /\ 0 <= v / 4096 mod 64 < 64 /\ 0 <= v / 64 mod 64 < 64 /\ 0 <= v mod 64 < 64 /\
  v / 262144 * 262144 + v / 4096 mod 64 * 4096 + v / 64 mod 64 * 64 + v mod 64 = v /\
  v / 65536 = a /\ v / 256 mod 256 = b /\ v mod 256 = c.
Proof. intros Ha Hb Hc v. subst v. split_and!; Z.div_mod_to_equations; lia. Qed.

Lemma EncodeToString_lacks s :
  lacks "$"%char (EncodeToString s) = true /\ strip_newlines (EncodeToString s) = EncodeToString s.
Proof.
  assert (forall i rest, 0 <= i < 64 ->
    lacks "$"%char rest = true /\ strip_newlines rest = rest ->
    lacks "$"%char (String (enc_char i) rest) = true /\
    strip_newlines (String (enc_char i) rest) = String (enc_char i) rest) as Hc.
  { intros i rest Hi [Hl Hs]. destruct (enc_char_check i Hi) as (_ & H13 & H10 & Hd). cbn [lacks strip_newlines].
    rewrite (proj2 (Z.eqb_neq _ _) H13), (proj2 (Z.eqb_neq _ _) H10). cbn [orb]. rewrite Hs. split; [|done].
    by rewrite Hl, bool_decide_eq_true_2 by congruence. }
  induction s as [|a|a b|a b c s IH] using string_ind3; [done|..];
    pose proof (byte_range a); try pose proof (byte_range b); try pose proof (byte_range c);
    cbn [EncodeToString]; cbv zeta; repeat (apply Hc; [Z.div_mod_to_equations; lia|]); done.
Qed.

(** decoding gives back every byte string that was encoded *)
Lemma base64_roundtrip s : DecodeString (EncodeToString s) = Some s.
Proof.
  unfold DecodeString. rewrite (proj2 (EncodeToString_lacks s)).
  induction s as [|a|a b|a b c s IH] using string_ind3; [done|..]; cbn [EncodeToString decode_groups]; cbv zeta.
  - pose proof (byte_range a) as Ha.
    destruct (group_arith (byte_of a) 0 0) as (R1 & R2 & R3 & R4 & Hv & H1 & _); [lia..|].
    rewrite !Z.mul_0_l, !Z.add_0_r in *. rewrite !dec_enc by done.
    do 2 f_equal. transitivity (of_byte (byte_of a)); [f_equal|apply of_byte_byte_of].
    rewrite <- H1 at 2. clear -Ha. Z.div_mod_to_equations; lia.
  - pose proof (byte_range a) as Ha. pose proof (byte_range b) as Hb.
    destruct (group_arith (byte_of a) (byte_of b) 0) as (R1 & R2 & R3 & R4 & Hv & H1 & H2 & _); [lia..|].
    rewrite !Z.add_0_r in *. rewrite !dec_enc by done.
    assert ((byte_of a * 65536 + byte_of b * 256) mod 64 = 0) as E by (clear; Z.div_mod_to_equations; lia).
    rewrite E, Z.add_0_r in Hv. rewrite Hv, H1, H2. by rewrite !of_byte_byte_of.
  - pose proof (byte_range a) as Ha. pose proof (byte_range b) as Hb. pose proof (byte_range c) as Hc.
    destruct (group_arith (byte_of a) (byte_of b) (byte_of c)) as (R1 & R2 & R3 & R4 & Hv & H1 & H2 & H3); [lia..|].
    rewrite !dec_enc by done. rewrite IH, Hv, H1, H2, H3. by rewrite !of_byte_byte_of.
Qed.

End Base64.

(** ** Hashing and verifying *)
Module Token.
Import Base64.

Definition argon2Time : Z := 2.
Definition argon2Memory : Z := 19 * 1024.
Definition argon2Threads : Z := 1.
Definition argon2KeyLen : Z := 32.
Definition saltLen : Z := 16.
(** argon2.Version *)
Definition argon2Version : Z := 19.

(** *** fmt.Sscanf of decimal fields *)

Definition is_digit (c : ascii) : bool := (48 <=? byte_of c) && (byte_of c <=? 57).
Definition is_blank (c : ascii) : bool :=
  (byte_of c =? 32) || (byte_of c =? 9) || (byte_of c =? 11) || (byte_of c =? 12) || (byte_of c =? 13).

Fixpoint skip_blank (s : string) : string :=
  match s with
  | "" => ""
  | String c rest => if is_blank c then skip_blank rest else s
  end.

(** the leading digits of [s] after [acc] *)
Fixpoint digits (s : string) (acc : Z) : Z * string :=
  match s with
  | "" => (acc, "")
  | String c rest => if is_digit c then digits rest (10 * acc + (byte_of c - 48)) else (acc, s)
  end.

Definition starts_with_digit (s : string) : bool :=
  match s with "" => false | String c _ => is_digit c end.

(** %d into an unsigned variable of [bits] bits: its value and the rest of the input *)
Definition scan_uint (bits : Z) (s : string) : option (Z * string) :=
  let s := skip_blank s in
  if negb (starts_with_digit s) then None
  else let '(n, rest) := digits s 0 in if n <? 2 ^ bits then Some (n, rest) else None.

(** %d into an int *)
Definition scan_int (s : string) : option (Z * string) :=
  let s := skip_blank s in
  let '(sign, s) :=
    match s with
    | "" => (1, s)
    | String c rest => if byte_of c =? 43 then (1, rest) else if byte_of c =? 45 then (-1, rest) else (1, s)
    end in
  if negb (starts_with_digit s) then None
  else let '(n, rest) := digits s 0 in
       let n := sign * n in
       if (min_int64 <=? n) && (n <=? max_int64) then Some (n, rest) else None.

(** literal text of the format *)
Definition scan_text (text s : string) : option string := trim_prefix_go text s.

Record argon2Params := mkParams { memory : Z; time : Z; threads : Z }.

Inductive HashError : Set :=
| ErrFormat | ErrVersion | ErrVersionUnsupported | ErrParams | ErrSalt | ErrHash | ErrRand.

Definition decodeVersion (part : string) : option Z :=
  s ← scan_text "v=" part; '(version, _) ← scan_int s; Some version.

Definition decodeParams (part : string) : option argon2Params :=
  s ← scan_text "m=" part; '(m, s) ← scan_uint 32 s;
  s ← scan_text ",t=" s; '(t, s) ← scan_uint 32 s;
  s ← scan_text ",p=" s; '(p, _) ← scan_uint 8 s;
  Some (mkParams m t p).

Definition decodeHash (encoded : string) : result HashError (argon2Params * string * string) :=
  match split_byte "$"%char encoded with
  | [_; alg; version; params; salt; hash] =>
      if negb (bool_decide (alg = "argon2id")) then Err ErrFormat
      else match decodeVersion version with
      | None => Err ErrVersion
      | Some v =>
      if negb (v =? argon2Version) then Err ErrVersionUnsupported
      else match decodeParams params with
      | None => Err ErrParams
      | Some p =>
      match DecodeString salt with
      | None => Err ErrSalt
      | Some salt =>
      match DecodeString hash with
      | None => Err ErrHash
      | Some hash => Ok (p, salt, hash)
      end end end end
  | _ => Err ErrFormat
  end.

Section token.
(** argon2.IDKey(password, salt, time, memory, threads, keyLen) *)
Variable IDKey : string -> string -> Z -> Z -> Z -> Z -> string.

(** HashToken with the salt it draws, or [None] when the random source fails. The numbers
    of the format are constants of the program. *)
Definition HashToken (salt : option string) (token : string) : result HashError string :=
  match salt with
  | None => Err ErrRand
  | Some salt =>
      let hash := IDKey token salt argon2Time argon2Memory argon2Threads argon2KeyLen in
      Ok ("$argon2id$v=19$m=19456,t=2,p=1$" ++ EncodeToString salt ++ "$" ++ EncodeToString hash)
  end.

Definition VerifyToken (token encodedHash : string) : result HashError bool :=
  match decodeHash encodedHash with
  | Err err => Err err
  | Ok (params, salt, wantHash) =>
      let gotHash := IDKey token salt (time params) (memory params) (threads params)
                       (wrap_u 32 (Z.of_nat (String.length wantHash))) in
      Ok (bool_decide (gotHash = wantHash))
  end.

Lemma decodeHash_encoded salt hash :
  decodeHash ("$argon2id$v=19$m=19456,t=2,p=1$" ++ EncodeToString salt ++ "$" ++ EncodeToString hash) =
  Ok (mkParams argon2Memory argon2Time argon2Threads, salt, hash).
Proof.
  unfold decodeHash.
  assert (split_byte "$"%char ("$argon2id$v=19$m=19456,t=2,p=1$" ++ EncodeToString salt ++ "$" ++ EncodeToString hash) =
          [""; "argon2id"; "v=19"; "m=19456,t=2,p=1"; EncodeToString salt; EncodeToString hash]) as ->.
  { change ("$argon2id$v=19$m=19456,t=2,p=1$" ++ EncodeToString salt ++ "$" ++ EncodeToString hash)
      with ("" ++ String "$"%char ("argon2id" ++ String "$"%char ("v=19" ++ String "$"%char
             ("m=19456,t=2,p=1" ++ String "$"%char (EncodeToString salt ++ String "$"%char (EncodeToString hash)))))).
    rewrite !split_byte_lacks_app by (first [done|apply EncodeToString_lacks]).
    by rewrite split_byte_lacks by apply EncodeToString_lacks. }
  change (decodeVersion "v=19") with (Some 19). change (decodeParams "m=19456,t=2,p=1") with (Some (mkParams 19456 2 1)).
  cbn [negb]. rewrite bool_decide_eq_true_2 by done. cbn [negb]. rewrite !base64_roundtrip. done.
Qed.

(** keys have the length asked for *)
Definition key_length_law : Prop :=
  forall p s t m th n, 0 <= n -> Z.of_nat (String.length (IDKey p s t m th n)) = n.

(** the key HashToken derives *)
Definition token_key (token salt : string) : string :=
  IDKey token salt argon2Time argon2Memory argon2Threads argon2KeyLen.

Lemma verify_hashed token salt encoded other :
  key_length_law -> HashToken (Some salt) token = Ok encoded ->
  VerifyToken other encoded = Ok (bool_decide (token_key other salt = token_key token salt)).
Proof.
  intros Hlen [= <-]. unfold VerifyToken. rewrite decodeHash_encoded. cbn [time memory threads].
  rewrite Hlen by done. done.
Qed.

(** A stored hash is readable by VerifyToken, and a token verifies against the hash of
    another exactly when their Argon2id keys under the stored salt are the same: the token
    that was hashed always verifies, another one only on a collision of Argon2id. *)
Theorem token_roundtrip token salt encoded other :
  key_length_law -> HashToken (Some salt) token = Ok encoded ->
  VerifyToken token encoded = Ok true /\
  VerifyToken other encoded = Ok (bool_decide (token_key other salt = token_key token salt)).
Proof.
  intros Hlen He. split; [|by apply verify_hashed].
  rewrite (verify_hashed _ _ _ _ Hlen He). by rewrite bool_decide_eq_true_2.
Qed.

End token.

(** a stand-in for argon2.IDKey: [n] bytes, each the length of the password *)
Fixpoint fill (n : nat) (c : ascii) : string := match n with O => "" | S n => String c (fill n c) end.
Definition demo_key (p s : string) (t m th n : Z) : string :=
  fill (Z.to_nat n) (of_byte (Z.of_nat (String.length p) mod 256)).

Lemma fill_length n c : String.length (fill n c) = n.
Proof. induction n as [|n IH]; cbn; by rewrite ?IH. Qed.

Lemma demo_key_length : key_length_law demo_key.
Proof. intros p s t m th n Hn. unfold demo_key. rewrite fill_length. lia. Qed.

Lemma token_roundtrip_witness :
  exists encoded, HashToken demo_key (Some "salt") "abc" = Ok encoded /\
    VerifyToken demo_key "abc" encoded = Ok true /\ VerifyToken demo_key "ab" encoded = Ok false.
Proof.
  eexists. split; [reflexivity|].
  apply (token_roundtrip demo_key "abc" "salt" _ "ab"); [|reflexivity].
  apply demo_key_length.
Defined.

(** white space and signs Sscanf accepts; what follows the last field is ignored *)
Example decode_lenient :
  decodeVersion "v= +19x" = Some 19 /\ decodeParams "m=19456,t=2,p=256" = None /\
  decodeParams "m=1,t=2,p=3,q=4" = Some (mkParams 1 2 3).
Proof. vm_compute. done. Qed.

End Token.
