(* ===== verification/Transport.v ===== *)
(** * Transport: the hub's ingest endpoint and the network rules

    Models internal/transport: server.go (POST /v1/ingest), authstore.go and
    sqlitetokenstore/store.go (token stores), idempotency.go, ratelimit.go, network.go
    (which addresses may be used in cleartext, which are bound).

    Argon2id verification, zstd, protobuf decoding, golang.org/x/time/rate and url.Parse
    are parameters. What the server needs of its stores are type classes: its theorems
    hold for every implementation, and the memory stores are instances. *)

From stdpp Require Import base gmap strings list sorting.
From Stdlib Require Import ZArith Lia Ascii.
From S2P Require Import Prelude GoStd Token GoNet Schema AgentBuffer Wire.
Import GoString GoNet.

Local Open Scope string_scope.
Local Open Scope Z_scope.

(** ** Interfaces *)

(** TokenStore: the host a token is bound to, or an error *)
Class TokenStore (T : Type) := Lookup : T -> string -> result unit (option string).

(** IdempotencyStore: whether the pair was already recorded, which it is afterwards; an
    error leaves the store as it was *)
Class IdempotencyStore (I : Type) := MarkSeen : I -> string -> string -> result unit bool * I.

(** the laws an IdempotencyStore is used for: a host that is asked twice about one batch
    id gets the answer "seen" the second time, and other pairs are not affected *)
Class IdempotencyLaws (I : Type) `{IdempotencyStore I} := mkIdemp {
  seen : I -> string -> string -> bool;
  mark_answer : forall i h b r i', MarkSeen i h b = (Ok r, i') -> r = seen i h b;
  mark_seen : forall i h b r i', MarkSeen i h b = (Ok r, i') -> seen i' h b = true;
  mark_other : forall i h b e i' h' b', MarkSeen i h b = (e, i') ->
    seen i h' b' = true -> seen i' h' b' = true;
}.

(** ** The stores *)
Module Stores.

Section tokens.
(** argon2.IDKey, the parameter of token.go *)
Variable IDKey : string -> string -> Z -> Z -> Z -> Z -> string.

Record tokenRecord := mkToken { tr_hostID : string; tr_hash : string }.

(** The loop of MemoryTokenStore.Lookup (and of the SQLite store, which reads the same
    records in insertion order); [ctx_done] is ctx.Err(), checked before each record. *)
Fixpoint Lookup_loop (ctx_done : bool) (token : string) (records : list tokenRecord) :
    result unit (option string) :=
  match records with
  | [] => Ok None
  | r :: rest =>
      if ctx_done then Err tt
      else match Token.VerifyToken IDKey token (tr_hash r) with
           | Err _ => Lookup_loop ctx_done token rest
           | Ok true => Ok (Some (tr_hostID r))
           | Ok false => Lookup_loop ctx_done token rest
           end
  end.

(** [salt]: the salt HashToken draws, or [None] if that fails *)
Definition AddToken (salt : option string) (hostID plaintextToken : string) (s : list tokenRecord) :
    result Token.HashError (list tokenRecord) :=
  match Token.HashToken IDKey salt plaintextToken with
  | Err err => Err err
  | Ok hash => Ok (s ++ [mkToken hostID hash])%list
  end.

Global Instance MemoryTokenStore : TokenStore (list tokenRecord) := fun s token => Lookup_loop false token s.

Definition verifies (token : string) (r : tokenRecord) : bool :=
  match Token.VerifyToken IDKey token (tr_hash r) with Ok b => b | Err _ => false end.

Lemma Lookup_find token records :
  Lookup_loop false token records = Ok (tr_hostID <$> List.find (verifies token) records).
Proof.
  induction records as [|r records IH]; [done|]. simpl. unfold verifies at 1.
  destruct (Token.VerifyToken IDKey token (tr_hash r)) as [[]|]; done.
Qed.

(** the store after a list of registrations: host, token and the salt drawn *)
Definition register (s : result Token.HashError (list tokenRecord)) (a : string * string * string) :
    result Token.HashError (list tokenRecord) :=
  match s with Err err => Err err | Ok s => let '(host, token, salt) := a in AddToken (Some salt) host token s end.

Definition opens (token : string) (a : string * string * string) : bool :=
  let '(_, registered, salt) := a in
  bool_decide (Token.token_key IDKey token salt = Token.token_key IDKey registered salt).

Lemma find_ext {A} (p q : A -> bool) (l : list A) : (forall x, p x = q x) -> List.find p l = List.find q l.
Proof. intros Hpq. induction l as [|x l IH]; [done|]. cbn [List.find]. rewrite Hpq. by destruct (q x). Qed.

Lemma find_fmap {A B} (f : A -> B) (p : B -> bool) (l : list A) :
  List.find p (f <$> l) = f <$> List.find (fun x => p (f x)) l.
Proof. induction l as [|x l IH]; [done|]. rewrite fmap_cons. cbn [List.find]. by destruct (p (f x)). Qed.

Definition record_of (a : string * string * string) : tokenRecord :=
  let '(host, token, salt) := a in
  mkToken host (match Token.HashToken IDKey (Some salt) token with Ok h => h | Err _ => "" end).

Lemma register_all adds s : fold_left register adds (Ok s) = Ok (s ++ (record_of <$> adds))%list.
Proof.
  revert s. induction adds as [|[[host token] salt] adds IH]; intros s; cbn [fold_left].
  { by rewrite app_nil_r. }
  cbn [register]. unfold AddToken. cbn [Token.HashToken]. rewrite IH, fmap_cons, <- app_assoc. done.
Qed.

(** After any sequence of registrations, Lookup binds a token to the host of the first
    registration whose token has the same Argon2id key under its salt, and to no host when
    there is none; it never fails. So a registered token is always accepted, and an
    unknown one only on a collision of Argon2id. *)
Theorem Lookup_registered adds token :
  Token.key_length_law IDKey ->
  exists s, fold_left register adds (Ok []) = Ok s /\
    Lookup_loop false token s = Ok ((fun a => a.1.1) <$> List.find (opens token) adds).
Proof.
  intros Hlen. exists (record_of <$> adds). split; [apply register_all|].
  rewrite Lookup_find, find_fmap, <- option_fmap_compose.
  assert (forall a, verifies token (record_of a) = opens token a) as Hv.
  { intros [[host tok] salt]. unfold verifies, record_of, opens. cbn [tr_hash Token.HashToken].
    by rewrite (Token.verify_hashed IDKey tok salt _ token Hlen eq_refl). }
  rewrite (find_ext _ _ _ Hv). f_equal. by destruct (List.find _ adds) as [[[??]?]|].
Qed.

End tokens.

(** MemoryIdempotencyStore *)
Definition seen_key (hostID batchID : string) : string := (hostID ++ String Schema.byte_1f batchID)%string.

Definition memory_MarkSeen (s : gset string) (hostID batchID : string) : result unit bool * gset string :=
  let key := seen_key hostID batchID in
  if decide (key ∈ s) then (Ok true, s) else (Ok false, {[key]} ∪ s).

Global Instance MemoryIdempotencyStore : IdempotencyStore (gset string) := memory_MarkSeen.

Global Instance MemoryIdempotencyLaws : IdempotencyLaws (gset string).
Proof.
  refine (mkIdemp _ _ (fun s h b => bool_decide (seen_key h b ∈ s)) _ _ _);
    unfold MarkSeen, MemoryIdempotencyStore, memory_MarkSeen; simpl.
  - intros i h b r i'. case_decide as Hin; intros [= <- <-]; symmetry;
    [by apply bool_decide_true|by apply bool_decide_false].
  - intros i h b r i'. case_decide as Hin; intros [= <- <-]; apply bool_decide_eq_true; set_solver.
  - intros i h b e i' h' b'. case_decide as Hin; intros [= <- <-];
      rewrite !bool_decide_eq_true; set_solver.
Defined.

(** two hosts never share a key *)
Lemma seen_key_inj h b h' b' :
  lacks Schema.byte_1f h = true -> lacks Schema.byte_1f h' = true ->
  seen_key h b = seen_key h' b' -> h = h' /\ b = b'.
Proof.
  unfold seen_key. intros Hh Hh' E.
  apply (f_equal (cut_byte Schema.byte_1f)) in E. rewrite !cut_byte_lacks_app in E by done. by simplify_eq.
Qed.

Lemma seen_key_suffix h b b' : seen_key h b = seen_key h b' -> b = b'.
Proof. unfold seen_key. induction h as [|c h IH]; cbn; intros [= E]; [done|by apply IH]. Qed.

(** PerTokenLimiter, for a limiter type [L] with its constructor and Allow *)
Section limiter.
Context {L : Type} (new_limiter : L) (limiter_allow : L -> bool * L).

Definition Allow (ls : gmap string L) (hostID : string) : bool * gmap string L :=
  let lim := default new_limiter (ls !! hostID) in
  let '(ok, lim) := limiter_allow lim in
  (ok, <[hostID := lim]> ls).

(** the limiters after a sequence of requests of all hosts *)
Definition limiters_after (hosts : list string) : gmap string L :=
  fold_left (fun ls h => (Allow ls h).2) hosts ∅.

(** The rate limit is per host: how a host's limiter stands depends only on how often
    that host asked, never on the others. *)
Theorem limiter_per_host hosts h :
  limiters_after hosts !! h =
    if decide (h ∈ hosts)
    then Some (Nat.iter (length (List.filter (fun x => bool_decide (x = h)) hosts))
                 (fun l => (limiter_allow l).2) new_limiter)
    else None.
Proof.
  unfold limiters_after. induction hosts as [|x hosts IH] using rev_ind; [done|].
  rewrite fold_left_app, List.filter_app, length_app. simpl. unfold Allow at 1.
  set (ls := fold_left _ hosts ∅) in *.
  destruct (limiter_allow (default new_limiter (ls !! x))) as [ok lim] eqn:E. simpl.
  destruct (decide (x = h)) as [->|Hne].
  - rewrite lookup_insert_eq, bool_decide_true, decide_True by (done || (apply elem_of_app; right; by left)).
    simpl. rewrite Nat.add_1_r. simpl. f_equal. rewrite IH in E.
    destruct (decide (h ∈ hosts)) as [Hin|Hout]; simpl in E; [by rewrite E|].
    assert (List.filter (fun x => bool_decide (x = h)) hosts = []) as ->.
    { clear -Hout. induction hosts as [|y hosts IH]; [done|]. simpl.
      apply not_elem_of_cons in Hout as [Hy Hout]. rewrite bool_decide_false by done. auto. }
    simpl. by rewrite E.
  - rewrite lookup_insert_ne, bool_decide_false by done. simpl. rewrite Nat.add_0_r, IH.
    destruct (decide (h ∈ hosts)) as [Hin|Hout], (decide (h ∈ (hosts ++ [x])%list)) as [Hin'|Hout']; try done.
    + destruct Hout'. apply elem_of_app. by left.
    + apply elem_of_app in Hin' as [?|Hx%list_elem_of_singleton]; done.
Qed.

End limiter.
End Stores.

(** ** internal/transport/sqlitetokenstore *)
Module SqliteTokens.
Import Stores.

(** a row of ingest_tokens, and the database: the rows and the last id given *)
Record row := mkRow { r_id : Z; r_host : string; r_hash : string; r_created : Z }.
Record Store := mkStore { rows : list row; last_id : Z }.

(** CREATE TABLE IF NOT EXISTS: an existing table is left as it is *)
Definition migrate (existing : option Store) : Store := default (mkStore [] 0) existing.

(** New, by which of its steps succeed: the directory, the open, the pragmas, the migration *)
Definition New (mkdir_ok open_ok pragmas_ok migrate_ok : bool) (existing : option Store) : option Store :=
  if mkdir_ok && open_ok && pragmas_ok && migrate_ok then Some (migrate existing) else None.

Section store.
Context (IDKey : string -> string -> Z -> Z -> Z -> Z -> string).

Inductive AddError := Hashing | Storing.

(** [exec_ok]: whether the INSERT succeeds *)
Definition AddToken (salt : option string) (exec_ok : bool) (now : Z) (hostID plaintextToken : string) (s : Store) : result AddError unit * Store :=
  match Token.HashToken IDKey salt plaintextToken with
  | Err _ => (Err Hashing, s)
  | Ok hash =>
      if exec_ok then (Ok tt, mkStore (rows s ++ [mkRow (last_id s + 1) hostID hash (GoTime.unix_milli now)])%list (last_id s + 1))
      else (Err Storing, s)
  end.

(** the rows of the query that are read before rows.Next stops, early when it fails *)
Definition row_le (a b : row) : Prop := r_id a <= r_id b.
Global Instance row_le_dec : RelDecision row_le.
Proof. intros a b. unfold row_le. apply _. Defined.
Definition selected (s : Store) : list tokenRecord := (fun r => mkToken (r_host r) (r_hash r)) <$> merge_sort row_le (rows s).

(** [query_ok]: the query succeeds; [fails_after]: rows.Err after so many rows *)
Definition Lookup (ctx_done query_ok : bool) (fails_after : option nat) (token : string) (s : Store) : result unit (option string) :=
  if negb query_ok then Err tt else
  match fails_after with
  | None => Lookup_loop IDKey ctx_done token (selected s)
  | Some n => match Lookup_loop IDKey ctx_done token (take n (selected s)) with Ok None => Err tt | r => r end
  end.

(** *** The same answers as the store in memory *)

Definition ordered (s : Store) : Prop := StronglySorted (fun a b => r_id a < r_id b) (rows s) /\ Forall (fun r => r_id r <= last_id s) (rows s).

Lemma ordered_add salt exec_ok now host token s : ordered s -> ordered (AddToken salt exec_ok now host token s).2.
Proof.
  intros [Hs Hl]. unfold AddToken. destruct (Token.HashToken _ _ _) as [hash|]; [|done]. destruct exec_ok; [|done]. cbn. split.
  - apply sorted_snoc; [done|]. eapply Forall_impl; [exact Hl|]. cbn. lia.
  - apply Forall_app. split; [|repeat constructor; cbn; lia]. eapply Forall_impl; [exact Hl|]. cbn. lia.
Qed.

Lemma same_id l a b : StronglySorted (fun a b => r_id a < r_id b) l -> a ∈ l -> b ∈ l -> r_id a = r_id b -> a = b.
Proof.
  induction 1 as [|x l Hs IH Hx]; intros Ha Hb E; [by apply elem_of_nil in Ha|]. rewrite Forall_forall in Hx.
  apply elem_of_cons in Ha as [->|Ha], Hb as [->|Hb]; [done| | |by apply IH].
  - specialize (Hx _ Hb). lia.
  - specialize (Hx _ Ha). lia.
Qed.

Lemma selected_ordered s : ordered s -> selected s = (fun r => mkToken (r_host r) (r_hash r)) <$> rows s.
Proof.
  intros [Hs _]. unfold selected. f_equal. apply (StronglySorted_unique_strong row_le).
  - intros a b Ha Hb H1 H2. rewrite merge_sort_Permutation in Ha. unfold row_le in *. apply (same_id (rows s)); [done..|lia].
  - apply StronglySorted_merge_sort; [intros a b c; unfold row_le; lia|intros a b; unfold row_le; lia].
  - eapply sorted_impl; [|exact Hs]. unfold row_le. cbn. intros; lia.
  - apply merge_sort_Permutation.
Qed.

(** a token that was registered opens its host, unless an older record did already; other
    tokens open what they opened *)
Lemma lookup_after_add salt now host token s s' :
  Token.key_length_law IDKey -> ordered s -> AddToken salt true now host token s = (Ok tt, s') ->
  ordered s' /\
  Lookup false true None token s' = Ok (Some (default host (tr_hostID <$> List.find (verifies IDKey token) (selected s)))) /\
  forall other h, Lookup false true None other s = Ok (Some h) -> Lookup false true None other s' = Ok (Some h).
Proof.
  intros Hlen Ho Hadd. pose proof (ordered_add salt true now host token s Ho) as Ho'. rewrite Hadd in Ho'. cbn [snd] in Ho'.
  split; [done|]. unfold Lookup. cbn [negb].
  assert (exists hash, selected s' = (selected s ++ [mkToken host hash])%list /\ verifies IDKey token (mkToken host hash) = true) as (hash & -> & Hv).
  { unfold AddToken in Hadd. destruct (Token.HashToken IDKey salt token) as [hash|] eqn:Hh; [|done]. injection Hadd as <-.
    exists hash. split; [rewrite !selected_ordered by done; cbn [rows]; by rewrite fmap_app|].
    unfold verifies. cbn [tr_hash]. destruct salt as [salt|]; [|done].
    rewrite (Token.verify_hashed IDKey token salt hash token Hlen Hh). by apply bool_decide_eq_true_2. }
  assert (forall p, List.find p (selected s ++ [mkToken host hash])%list =
    match List.find p (selected s) with Some x => Some x | None => List.find p [mkToken host hash] end) as Hfind.
  { intros p. generalize (selected s). induction l as [|x l IH]; [done|]. cbn [app List.find]. by destruct (p x). }
  rewrite Lookup_find, Hfind. split.
  - destruct (List.find _ (selected s)); [done|]. cbn [List.find]. by rewrite Hv.
  - intros other h. rewrite !Lookup_find, Hfind. intros [= Hl]. by destruct (List.find _ (selected s)); [rewrite Hl|].
Qed.

(** registrations since the file was created *)
Record registration := mkReg { g_salt : option string; g_exec : bool; g_now : Z; g_host : string; g_token : string }.
Definition sqlite_run (regs : list registration) (s : Store) : Store :=
  fold_left (fun s g => (AddToken (g_salt g) (g_exec g) (g_now g) (g_host g) (g_token g) s).2) regs s.
(** the store in memory, without those that failed *)
Definition memory_run (regs : list registration) (s : list tokenRecord) : list tokenRecord :=
  fold_left (fun s g => if g_exec g then match Stores.AddToken IDKey (g_salt g) (g_host g) (g_token g) s with Ok s' => s' | Err _ => s end else s) regs s.

(** C25: The database is a token store that survives: after any registrations, failed ones
    included, and any number of reopenings, it answers a lookup like the store in memory that
    saw the registrations that succeeded; a query or row error is never taken for an unknown
    token. *)
Theorem sqlite_tokens_refine regs regs' token ctx_done fails_after :
  let s := sqlite_run regs' (migrate (Some (sqlite_run regs (migrate None)))) in
  let mem := memory_run (regs ++ regs') [] in
  Lookup ctx_done true None token s = Lookup_loop IDKey ctx_done token mem /\
  Lookup ctx_done false fails_after token s = Err tt /\
  forall n, Lookup ctx_done true (Some n) token s <> Ok None.
Proof.
  intros s mem. assert (forall gs s0, ordered s0 -> ordered (sqlite_run gs s0) /\
    (fun r => mkToken (r_host r) (r_hash r)) <$> rows (sqlite_run gs s0) = memory_run gs ((fun r => mkToken (r_host r) (r_hash r)) <$> rows s0)) as Hrun.
  { induction gs as [|g gs IH]; intros s0 Ho; [done|].
    change (sqlite_run (g :: gs) s0) with (sqlite_run gs (AddToken (g_salt g) (g_exec g) (g_now g) (g_host g) (g_token g) s0).2).
    destruct (IH _ (ordered_add (g_salt g) (g_exec g) (g_now g) (g_host g) (g_token g) s0 Ho)) as [H1 H2]. split; [done|]. rewrite H2. unfold memory_run. cbn [fold_left]. f_equal.
    unfold AddToken, Stores.AddToken. destruct (Token.HashToken _ _ _) as [hash|]; [|by destruct (g_exec g)]. destruct (g_exec g); [|done]. cbn. by rewrite fmap_app. }
  assert (sqlite_run (regs ++ regs') (migrate None) = s) as Es by (unfold s, sqlite_run; by rewrite fold_left_app).
  destruct (Hrun (regs ++ regs')%list (migrate None)) as [Ho Hm]; [repeat constructor|]. rewrite Es in *.
  split_and!; [|done|].
  - unfold Lookup. cbn [negb]. by rewrite selected_ordered, Hm.
  - intros n. unfold Lookup. cbn [negb]. by destruct (Lookup_loop _ _ _ _) as [[h|]|].
Qed.

End store.
End SqliteTokens.

(** ** The server *)
Module Server.

Definition DefaultMaxBodyBytes : Z := Z.shiftl 4 20.

(** An HTTP request as the handler sees it: [rq_body] is what reading the body gives, or
    [None] when it fails; [rq_ctx_done] is the state of the request's context when the
    receiver looks at it. *)
Record Request := mkRequest {
  rq_Method : string;
  rq_Authorization : string;
  rq_body : option string;
  rq_ctx_done : bool;
}.

Inductive Response : Type :=
| HttpError (status : Z)
| HttpOK (r : Pb.IngestResponse).

Definition status (r : Response) : Z :=
  match r with HttpError s => s | HttpOK _ => 200 end.

Definition bearerToken (r : Request) : option string :=
  if has_prefix "Bearer " (rq_Authorization r)
  then Some (trim_prefix (rq_Authorization r) "Bearer ") else None.

Section server.
Context {T I R L : Type} `{TokenStore T, IdempotencyStore I}.
Context (allow : L -> string -> bool * L).             (** the limiter, per host *)
Context (ReceiveBatch : bool -> string -> Pb.Batch -> R -> bool * R). (** BatchReceiver: success *)
Context (zstd_dec : string -> option string) (proto_Unmarshal : string -> option Pb.Batch).

Record Server := mkServer {
  Tokens : T;
  Idempotency : I;
  Receiver : R;
  Limiter : option L;        (** nil disables rate limiting *)
  MaxBodyBytes : Z;
}.

(** io.ReadAll(io.LimitReader(body, n)) *)
Definition limited (n : Z) (body : string) : string := str_take (Z.to_nat n) body.

Definition handleIngest (s : Server) (r : Request) : Response * Server :=
  if negb (bool_decide (rq_Method r = "POST")) then (HttpError 405, s)
  else match bearerToken r with
  | None => (HttpError 401, s)
  | Some token =>
  match Lookup (Tokens s) token with
  | Err _ => (HttpError 500, s)
  | Ok None => (HttpError 401, s)
  | Ok (Some hostID) =>
  let '(allowed, lim) :=
    match Limiter s with
    | None => (true, None)
    | Some l => let '(ok, l) := allow l hostID in (ok, Some l)
    end in
  let s := mkServer (Tokens s) (Idempotency s) (Receiver s) lim (MaxBodyBytes s) in
  if negb allowed then (HttpError 429, s)
  else
  let maxBytes := if MaxBodyBytes s =? 0 then DefaultMaxBodyBytes else MaxBodyBytes s in
  match rq_body r with
  | None => (HttpError 400, s)
  | Some full =>
  let body := limited (maxBytes + 1) full in
  if maxBytes <? Z.of_nat (String.length body) then (HttpError 413, s)
  else match zstd_dec body with
  | None => (HttpError 400, s)
  | Some raw =>
  match proto_Unmarshal raw with
  | None => (HttpError 400, s)
  | Some batch =>
  if negb (bool_decide (Pb.HostId batch = hostID)) then (HttpError 403, s)
  else if bool_decide (Pb.BatchId batch = "") then (HttpError 400, s)
  else
  let '(marked, idem) := MarkSeen (Idempotency s) hostID (Pb.BatchId batch) in
  let s := mkServer (Tokens s) idem (Receiver s) (Limiter s) (MaxBodyBytes s) in
  match marked with
  | Err _ => (HttpError 500, s)
  | Ok duplicate =>
  let '(stored, rcv) :=
    if duplicate then (true, Receiver s)
    else ReceiveBatch (rq_ctx_done r) hostID batch (Receiver s) in
  let s := mkServer (Tokens s) (Idempotency s) rcv (Limiter s) (MaxBodyBytes s) in
  if negb stored then (HttpError 500, s)
  else (HttpOK (Pb.mkResponse (Pb.BatchId batch) duplicate), s)
  end end end end end end.

(** The request carries a batch of [host] that passed every check. *)
Record admitted (s : Server) (r : Request) (host : string) (batch : Pb.Batch) : Prop := mkAdmitted {
  ad_post : rq_Method r = "POST";
  ad_token : exists token, bearerToken r = Some token /\ Lookup (Tokens s) token = Ok (Some host);
  ad_body : exists body, rq_body r = Some body /\
    Z.of_nat (String.length body) <= (if MaxBodyBytes s =? 0 then DefaultMaxBodyBytes else MaxBodyBytes s) /\
    (raw ← zstd_dec body; proto_Unmarshal raw) = Some batch;
  ad_host : Pb.HostId batch = host;
  ad_id : Pb.BatchId batch <> "";
}.

(** what the rest of the server state looks like after an admitted request *)
Definition ingested (s s' : Server) (r : Request) (resp : Response) (host : string) (batch : Pb.Batch) : Prop :=
  let '(marked, idem) := MarkSeen (Idempotency s) host (Pb.BatchId batch) in
  Idempotency s' = idem /\
  match marked with
  | Err _ => resp = HttpError 500 /\ Receiver s' = Receiver s
  | Ok true => resp = HttpOK (Pb.mkResponse (Pb.BatchId batch) true) /\ Receiver s' = Receiver s
  | Ok false =>
      let '(stored, rcv) := ReceiveBatch (rq_ctx_done r) host batch (Receiver s) in
      Receiver s' = rcv /\
      resp = if stored : bool then HttpOK (Pb.mkResponse (Pb.BatchId batch) false) else HttpError 500
  end.

Lemma limited_length n body :
  0 <= n -> Z.of_nat (String.length (limited (n + 1) body)) <= n ->
  limited (n + 1) body = body /\ Z.of_nat (String.length body) <= n.
Proof.
  intros Hn Hl. unfold limited in *.
  assert (forall k t, (String.length (str_take k t) < k)%nat -> str_take k t = t) as Htake.
  { intros k t. revert k. induction t as [|c t IH]; intros [|k]; simpl; try lia; [done|].
    intros Hk. f_equal. apply IH. lia. }
  assert (str_take (Z.to_nat (n + 1)) body = body) as E by (apply Htake; lia).
  rewrite E in *. done.
Qed.

Ltac refused :=
  split; [done|]; split; [done|]; left; eexists; split; [reflexivity|]; split; [set_solver|done].

Lemma handle_cases s r :
  0 <= MaxBodyBytes s ->
  let '(resp, s') := handleIngest s r in
  Tokens s' = Tokens s /\ MaxBodyBytes s' = MaxBodyBytes s /\
  ((exists code, resp = HttpError code /\ code ∈ [400; 401; 403; 405; 413; 429; 500] /\
      Idempotency s' = Idempotency s /\ Receiver s' = Receiver s) \/
   (exists host batch, admitted s r host batch /\ ingested s s' r resp host batch)).
Proof.
  intros Hmax. unfold handleIngest.
  case_bool_decide as Hpost; simpl; [|refused].
  destruct (bearerToken r) as [token|] eqn:Etok; [|refused].
  destruct (Lookup (Tokens s) token) as [[host|]|] eqn:Elook;
    try (refused).
  set (lim := match Limiter s with None => (true, None) | Some l => let '(ok, l) := allow l host in (ok, Some l) end).
  destruct lim as [allowed lim']. destruct allowed; simpl; [|refused].
  set (maxBytes := if MaxBodyBytes s =? 0 then DefaultMaxBodyBytes else MaxBodyBytes s).
  assert (0 <= maxBytes) as Hmb.
  { unfold maxBytes. destruct (Z.eqb_spec (MaxBodyBytes s) 0); [vm_compute; congruence|done]. }
  destruct (rq_body r) as [full|] eqn:Ebody; [|refused].
  destruct (Z.ltb_spec maxBytes (Z.of_nat (String.length (limited (maxBytes + 1) full)))) as [Hbig|Hsmall];
    [refused|].
  destruct (limited_length maxBytes full Hmb Hsmall) as [-> Hlen].
  destruct (zstd_dec full) as [raw|] eqn:Ezstd; [|refused].
  destruct (proto_Unmarshal raw) as [batch|] eqn:Eproto; [|refused].
  case_bool_decide as Hhost; simpl; [|refused].
  case_bool_decide as Hid; simpl; [refused|].
  assert (admitted s r host batch) as Hadm.
  { constructor; try done; [by exists token|]. exists full. split; [done|]. split; [done|].
    simpl. by rewrite Ezstd. }
  destruct (MarkSeen (Idempotency s) host (Pb.BatchId batch)) as [marked idem] eqn:Emark.
  destruct marked as [dup|]; [destruct dup|]; simpl.
  - split; [done|]; split; [done|]. right. exists host, batch. split; [done|]. unfold ingested. rewrite Emark. done.
  - destruct (ReceiveBatch (rq_ctx_done r) host batch (Receiver s)) as [stored rcv] eqn:Ercv.
    destruct stored; simpl; (split; [done|]); (split; [done|]); right; exists host, batch; (split; [done|]);
      unfold ingested; rewrite Emark, Ercv; done.
  - split; [done|]; split; [done|]. right. exists host, batch. split; [done|]. unfold ingested. rewrite Emark. done.
Qed.

(** C5: The endpoint admits a batch only when it is POSTed with a bearer token the token
    store binds to the host the batch names, within the size limit, decodable and with a
    batch id; then it is recorded in the idempotency store, handed to the receiver unless
    it was recorded before, and acknowledged only if the receiver took it. Every other
    request is refused with an error status and changes neither store. *)
Theorem ingest_admission s r :
  0 <= MaxBodyBytes s ->
  let '(resp, s') := handleIngest s r in
  Tokens s' = Tokens s /\
  ((exists code, resp = HttpError code /\ code ∈ [400; 401; 403; 405; 413; 429; 500] /\
      Idempotency s' = Idempotency s /\ Receiver s' = Receiver s) \/
   (exists host batch, admitted s r host batch /\ ingested s s' r resp host batch)).
Proof.
  intros Hmax. pose proof (handle_cases s r Hmax) as Hc. destruct (handleIngest s r) as [resp s'].
  destruct Hc as (Ht & _ & Hc). by split.
Qed.

End server.

(** *** At most once

    The receiver is seen through the log of the batches handed to it; whether it takes
    them is arbitrary. *)
Section once.
Context {T I L : Type} `{TokenStore T, IdempotencyLaws I}.
Context (allow : L -> string -> bool * L) (takes : bool -> string -> Pb.Batch -> bool).
Context (zstd_dec : string -> option string) (proto_Unmarshal : string -> option Pb.Batch).

Definition logging (ctx_done : bool) (host : string) (batch : Pb.Batch) (log : list (string * Pb.Batch)) :
    bool * list (string * Pb.Batch) :=
  (takes ctx_done host batch, (log ++ [(host, batch)])%list).

Abbreviation handle := (handleIngest allow logging zstd_dec proto_Unmarshal).

Definition serve (s : Server) (rs : list Request) : Server :=
  fold_left (fun s r => (handle s r).2) rs s.

Definition batch_key (hb : string * Pb.Batch) : string * string := (hb.1, Pb.BatchId hb.2).

Definition log_ok (s : Server (T := T) (L := L)) : Prop :=
  NoDup (batch_key <$> Receiver s) /\
  Forall (fun hb => seen (Idempotency s) hb.1 (Pb.BatchId hb.2) = true /\ Pb.HostId hb.2 = hb.1) (Receiver s).

Lemma handle_log_ok s r : 0 <= MaxBodyBytes s -> log_ok s -> log_ok (handle s r).2 /\ MaxBodyBytes (handle s r).2 = MaxBodyBytes s.
Proof.
  intros Hmax [Hnd Hall]. pose proof (handle_cases allow logging zstd_dec proto_Unmarshal s r Hmax) as Hc.
  destruct (handle s r) as [resp s']. simpl. destruct Hc as (_ & Em & Hc). split; [|done].
  destruct Hc as [(code & _ & _ & Ei & Er)|(host & batch & Hadm & Hing)].
  { unfold log_ok. by rewrite Ei, Er. }
  unfold ingested in Hing. destruct (MarkSeen (Idempotency s) host (Pb.BatchId batch)) as [marked idem] eqn:Emark.
  destruct Hing as [Ei Hing].
  assert (Forall (fun hb => seen idem hb.1 (Pb.BatchId hb.2) = true /\ Pb.HostId hb.2 = hb.1) (Receiver s)) as Hall'.
  { eapply Forall_impl; [exact Hall|]. intros hb [Hs Hh]. split; [|done]. by eapply mark_other. }
  unfold log_ok. rewrite Ei. destruct marked as [[]|e].
  - destruct Hing as [_ ->]. done.
  - unfold logging in Hing. destruct Hing as [-> _].
    pose proof (mark_answer _ _ _ _ _ Emark) as Hns. pose proof (mark_seen _ _ _ _ _ Emark) as Hseen. split.
    + rewrite fmap_app. apply NoDup_app. split; [done|]. split; [|by repeat constructor; apply not_elem_of_nil].
      intros k Hk ->%list_elem_of_singleton. apply list_elem_of_fmap in Hk as (hb & E & Hin).
      unfold batch_key in E. simpl in E. injection E as E1 E2.
      rewrite Forall_forall in Hall. destruct (Hall _ Hin) as [Hs _]. rewrite <- E1, <- E2 in Hs. congruence.
    + apply Forall_app. split; [done|]. apply Forall_singleton. simpl. split; [done|]. apply (ad_host _ _ _ _ _ _ Hadm).
  - destruct Hing as [_ ->]. done.
Qed.

(** Whatever requests arrive, in whatever order, a batch of one host with one batch id
    is handed to the receiver at most once, and only batches that name the host they were
    authenticated as: retries of a batch are safe for any idempotency store that keeps its
    contract. *)
Theorem ingest_at_most_once s rs :
  0 <= MaxBodyBytes s -> Receiver s = [] ->
  NoDup (batch_key <$> Receiver (serve s rs)) /\
  Forall (fun hb => Pb.HostId hb.2 = hb.1) (Receiver (serve s rs)).
Proof.
  intros Hmax Hempty.
  assert (log_ok (serve s rs)) as [Hnd Hall].
  { unfold serve. assert (log_ok s) as Hok by (unfold log_ok; rewrite Hempty; split; constructor).
    clear Hempty. revert s Hmax Hok. induction rs as [|r rs IH]; intros s Hmax Hok; simpl; [done|].
    destruct (handle_log_ok s r Hmax Hok) as [Hok' Em]. apply IH; [by rewrite Em|done]. }
  split; [done|]. eapply Forall_impl; [exact Hall|]. by intros hb [_ ?].
Qed.

End once.
(** *** A concrete hub *)

Definition add_demo (host token : string) (s : list Stores.tokenRecord) : list Stores.tokenRecord :=
  match Stores.AddToken Token.demo_key (Some "salt") host token s with Ok s => s | Err _ => s end.
Definition demo_tokens : list Stores.tokenRecord := add_demo "h2" "othersecret" (add_demo "h1" "secret1" []).
Lemma Lookup_registered_witness :
  exists s, fold_left (Stores.register Token.demo_key) [("h1", "secret1", "salt"); ("h2", "othersecret", "salt")] (Ok []) = Ok s /\
    Stores.Lookup_loop Token.demo_key false "othersecret" s = Ok (Some "h2").
Proof.
  apply (Stores.Lookup_registered Token.demo_key [("h1", "secret1", "salt"); ("h2", "othersecret", "salt")] "othersecret").
  apply Token.demo_key_length.
Defined.

Global Instance demo_token_store : TokenStore (list Stores.tokenRecord) := Stores.MemoryTokenStore Token.demo_key.

(** a batch of host h1 with one metric that claims to be of host h2 *)
Definition forged : Pb.Batch :=
  Pb.mkBatch "01B" "h1" [Pb.mkMetric "bitacora_cpu_ratio" "h2" ∅ GoFloat.f_zero 1000] [] [] [].
Definition demo_unmarshal (raw : string) : option Pb.Batch := if decide (raw = "forged") then Some forged else None.

Definition demo_server {R} (r : R) : Server (L := unit) := mkServer demo_tokens (∅ : gset string) r None 0.
Definition demo_request (token : string) (ctx_done : bool) : Request :=
  mkRequest "POST" ("Bearer " ++ token)%string (Some "forged") ctx_done.
Definition no_limit (l : unit) (h : string) : bool * unit := (true, l).

Lemma ingest_admission_witness :
  let '(resp, s') := handleIngest no_limit (logging (fun _ _ _ => true)) Some demo_unmarshal
    (demo_server []) (demo_request "secret1" false) in
  Tokens s' = demo_tokens.
Proof.
  pose proof (ingest_admission no_limit (logging (fun _ _ _ => true)) Some demo_unmarshal
    (demo_server []) (demo_request "secret1" false) ltac:(simpl; lia)) as Hi.
  destruct (handleIngest _ _ _ _ _ _) as [resp s']. exact (proj1 Hi).
Defined.

Lemma ingest_at_most_once_witness :
  NoDup (batch_key <$> Receiver (serve no_limit (fun _ _ _ => true) Some demo_unmarshal (demo_server [])
    [demo_request "secret1" false; demo_request "secret1" false; demo_request "othersecret" false])).
Proof.
  apply (ingest_at_most_once no_limit (fun _ _ _ => true) Some demo_unmarshal (demo_server [])
    [demo_request "secret1" false; demo_request "secret1" false; demo_request "othersecret" false]);
    [simpl; lia|done].
Defined.

(** The three requests of the witness: stored, then acknowledged as a duplicate, then
    refused because the token belongs to another host. *)
Example demo_statuses :
  let handle := handleIngest no_limit (logging (fun _ _ _ => true)) Some demo_unmarshal in
  let '(r1, s1) := handle (demo_server []) (demo_request "secret1" false) in
  let '(r2, s2) := handle s1 (demo_request "secret1" false) in
  let '(r3, s3) := handle s2 (demo_request "othersecret" false) in
  r1 = HttpOK (Pb.mkResponse "01B" false) /\ r2 = HttpOK (Pb.mkResponse "01B" true) /\
  r3 = HttpError 403 /\ length (Receiver s3) = 1%nat.
Proof. vm_compute. done. Qed.

(** Only the batch's host is checked against the token: the metric of the batch above is
    stored under host h2 although its sender authenticated as h1. *)
Example item_host_not_checked :
  let app (s : list Schema.Metric) m := (true, (s ++ [m])%list) in
  let ins (s : unit) (e : Schema.Event) := (true, s) in
  let log (s : unit) (l : Schema.LogLine) := (true, s) in
  let receive ctx (host : string) batch s :=
    let '(res, s') := @Receiver.ReceiveBatch _ _ _ (app : Receiver.MetricAppender _) (ins : Receiver.EventInserter _)
                        (log : Receiver.LogAppender _) ctx batch s in
    (bool_decide (is_Some res), s') in
  let '(resp, s') := handleIngest no_limit receive Some demo_unmarshal
    (demo_server (Receiver.mkBackends [] tt tt)) (demo_request "secret1" false) in
  status resp = 200 /\ Schema.m_HostID <$> Receiver.bk_metrics (Receiver s') = ["h2"].
Proof. vm_compute. done. Qed.

(** A batch is recorded as seen before it is stored: if the receiver fails, the retry with
    the same batch id is acknowledged as a duplicate and nothing is stored. *)
Example failed_batch_becomes_duplicate :
  let receive (ctx : bool) (h : string) (b : Pb.Batch) (s : list Pb.Batch) :=
    if ctx then (false, s) else (true, (s ++ [b])%list) in
  let handle := handleIngest no_limit receive Some demo_unmarshal in
  let '(r1, s1) := handle (demo_server []) (demo_request "secret1" true) in
  let '(r2, s2) := handle s1 (demo_request "secret1" false) in
  status r1 = 500 /\ r2 = HttpOK (Pb.mkResponse "01B" true) /\ Receiver s2 = [].
Proof. vm_compute. done. Qed.

End Server.

(** ** Network rules *)
Module Network.

(** tailscaleCIDR.Contains(ip): 100.64.0.0/10 *)
Definition in_tailscale (ip : list Z) : bool :=
  match To4 ip with
  | Some (a :: b :: _) => (Z.land a 255 =? 100) && (Z.land b 192 =? 64)
  | _ => false
  end.

(** nil is [None] *)
Definition IsTrustedNetwork (ip : option (list Z)) : bool :=
  match ip with
  | None => false
  | Some ip => IsLoopback ip || in_tailscale ip
  end.

Inductive SecurityError : Set := ErrURL | ErrScheme | ErrHostname | ErrUntrusted.

(** [u]: what url.Parse makes of the address, its scheme and Hostname() *)
Definition ValidateTransportSecurity (u : option (string * string)) : result SecurityError unit :=
  match u with
  | None => Err ErrURL
  | Some (scheme, host) =>
      if decide (scheme = "https") then Ok tt
      else if decide (scheme <> "http") then Err ErrScheme
      else match ParseIP host with
           | None => Err ErrHostname
           | Some ip => if negb (IsTrustedNetwork (Some ip)) then Err ErrUntrusted else Ok tt
           end
  end.

(** [addrs]: the interface addresses, with their textual form; [None] when listing them
    fails *)
Definition findTailscaleIP (addrs : option (list (list Z * string))) : string :=
  match addrs with
  | None => ""
  | Some l => match List.find (fun a => in_tailscale a.1) l with Some a => a.2 | None => "" end
  end.

Definition ResolveBindAddr (explicit : string) (allowPublic : bool) (addrs : option (list (list Z * string))) :
    option string :=
  if decide (explicit <> "") then
    if negb allowPublic &&
       match ParseIP explicit with Some ip => IsUnspecified ip | None => false end
    then None else Some explicit
  else
    let ip := findTailscaleIP addrs in
    if decide (ip <> "") then Some ip else Some "127.0.0.1".

(** the IPv4 address a.b.c.d *)
Definition v4 (a b c d : Z) : list Z := (replicate 10 0 ++ [255; 255; a; b; c; d])%list.

Lemma land_192 b : 0 <= b < 256 -> (Z.land b 192 =? 64) = (64 <=? b) && (b <? 128).
Proof.
  intros Hb. assert (forallb (fun n => Bool.eqb (Z.land (Z.of_nat n) 192 =? 64)
    ((64 <=? Z.of_nat n) && (Z.of_nat n <? 128))) (seq 0 256) = true) as Hall by (vm_compute; done).
  rewrite forallb_forall in Hall. specialize (Hall (Z.to_nat b)). rewrite Z2Nat.id in Hall by lia.
  apply Bool.eqb_prop, Hall, in_seq. lia.
Qed.

(** Cleartext is allowed to an IPv4 address exactly when it is in 127.0.0.0/8 or in
    100.64.0.0 - 100.127.255.255. *)
Theorem trusted_ipv4 a b c d :
  0 <= a < 256 -> 0 <= b < 256 ->
  IsTrustedNetwork (Some (v4 a b c d)) = true <-> a = 127 \/ (a = 100 /\ 64 <= b < 128).
Proof.
  intros Ha Hb. unfold IsTrustedNetwork, IsLoopback, in_tailscale, v4. cbn [To4].
  assert (To4 (replicate 10 0 ++ [255; 255; a; b; c; d])%list = Some [a; b; c; d]) as -> by reflexivity.
  rewrite land_192 by done. change 255 with (Z.ones 8) at 1. rewrite Z.land_ones by lia.
  rewrite Z.mod_small by (simpl; lia).
  destruct (Z.eqb_spec a 127), (Z.eqb_spec a 100), (Z.leb_spec 64 b), (Z.ltb_spec b 128); simpl; split; intros Hx; try done; try lia.
Qed.

Lemma trusted_ipv4_witness : IsTrustedNetwork (Some (v4 100 101 1 2)) = true.
Proof. apply (trusted_ipv4 100 101 1 2); lia. Defined.

(** The agent never sends over cleartext outside loopback and the tailnet: a URL is
    accepted exactly when its scheme is https, or http with an IP literal that is trusted;
    a host name, any other scheme and an unparsable URL are refused. *)
Theorem transport_security_spec u :
  ValidateTransportSecurity u = Ok tt <->
  exists scheme host, u = Some (scheme, host) /\
    (scheme = "https" \/ scheme = "http" /\ IsTrustedNetwork (ParseIP host) = true).
Proof.
  unfold ValidateTransportSecurity. destruct u as [[scheme host]|]; [|split; [done|by intros (? & ? & ? & _)]].
  case_decide as Hs; [split; [by eauto|done]|]. case_decide as Hh.
  { split; [done|]. intros (x & y & [= -> ->] & [?|[? _]]); done. }
  assert (scheme = "http") as -> by (by destruct (decide (scheme = "http"))).
  destruct (ParseIP host) as [ip|] eqn:E.
  - destruct (IsTrustedNetwork (Some ip)) eqn:Et; simpl.
    + split; [|done]. intros _. exists "http", host. rewrite E. auto.
    + split; [done|]. intros (x & y & [= <- <-] & [?|[_ Ht]]); [done|]. rewrite E in Ht. congruence.
  - split; [done|]. intros (x & y & [= <- <-] & [?|[_ Ht]]); [done|]. by rewrite E in Ht.
Qed.

(** Without the operator's explicit permission the hub never binds the unspecified
    address, in any of its spellings the parser accepts: the address it binds is the
    given one, a tailnet address of an interface, or loopback. *)
Theorem bind_addr_spec explicit addrs addr :
  ResolveBindAddr explicit false addrs = Some addr ->
  (explicit <> "" /\ addr = explicit /\ (forall ip, ParseIP addr = Some ip -> IsUnspecified ip = false)) \/
  (explicit = "" /\ (addr = "127.0.0.1" \/ exists l ip, addrs = Some l /\ (ip, addr) ∈ l /\ in_tailscale ip = true)).
Proof.
  unfold ResolveBindAddr. case_decide as He; simpl.
  - destruct (ParseIP explicit) as [ip|] eqn:E.
    + destruct (IsUnspecified ip) eqn:Eu; [done|]. intros [= <-]. left. split_and!; try done.
      intros ip' E'. congruence.
    + intros [= <-]. left. split_and!; try done. intros ip' E'. congruence.
  - assert (explicit = "") as -> by (by destruct (decide (explicit = ""))). intros Hr. right. split; [done|].
    case_decide as Hf; injection Hr as <-; [|by left]. right. unfold findTailscaleIP in *.
    destruct addrs as [l|]; [|done]. destruct (List.find _ l) as [[ip txt]|] eqn:El; [|done].
    apply find_some in El as [Hin Ht]. exists l, ip. split; [done|]. split; [by apply list_elem_of_In|done].
Qed.

Lemma bind_addr_spec_witness : "100.64.0.9" <> "" /\ ResolveBindAddr "100.64.0.9" false None = Some "100.64.0.9".
Proof.
  split; [done|].
  assert (ResolveBindAddr "100.64.0.9" false None = Some "100.64.0.9") as E by (vm_compute; done).
  destruct (bind_addr_spec "100.64.0.9" None "100.64.0.9" E) as [_|_]; exact E.
Defined.

Example refuses_unspecified :
  ResolveBindAddr "0.0.0.0" false None = None /\ ResolveBindAddr "::" false None = None /\
  ResolveBindAddr "::ffff:0.0.0.0" false None = None.
Proof. vm_compute. done. Qed.

End Network.
