(* ===== verification/IngestConcurrent.v ===== *)
(** * IngestConcurrent: ingest requests that run at the same time

    Models the concurrency of internal/transport/server.go: net/http serves every request in
    a goroutine of its own, and handleIngest goes through its stores one after the other,
    each of which takes its own lock: the token store, the limiter, the idempotency store,
    and then the receiver, whose writes take their time. [Transport.Server] runs a request
    from end to end; here the steps of any number of requests interleave, and hosts are
    enrolled in between. *)

From stdpp Require Import base gmap strings list.
From Stdlib Require Import ZArith Lia Ascii.
From S2P Require Import Prelude GoStd Schema Wire Token Transport.
Import GoString Transport.Server.

Local Open Scope string_scope.
Local Open Scope Z_scope.

Module IngestConcurrent.

Section ingest.
Context {T I L : Type} `{TokenStore T, IdempotencyLaws I}.
Context (allow : L -> string -> bool * L) (zstd_dec : string -> option string) (proto_Unmarshal : string -> option Pb.Batch).
Context (maxBodyBytes : Z).

(** Where a request stands. *)
Inductive phase : Type :=
| Arrived
| Authenticated (host : string)
| Decoded (host : string) (batch : Pb.Batch)
| Receiving (host : string) (batch : Pb.Batch)
| Answered (resp : Response).

(** up to the answer of the token store *)
Definition authenticate (tokens : T) (r : Request) : phase :=
  if negb (bool_decide (rq_Method r = "POST")) then Answered (HttpError 405) else
  match bearerToken r with
  | None => Answered (HttpError 401)
  | Some token =>
      match Lookup tokens token with
      | Err _ => Answered (HttpError 500)
      | Ok None => Answered (HttpError 401)
      | Ok (Some hostID) => Authenticated hostID
      end
  end.

(** the limiter, the body and the checks of the batch *)
Definition decode (r : Request) (hostID : string) (lim : option L) : phase * option L :=
  let '(allowed, lim) :=
    match lim with
    | None => (true, None)
    | Some l => let '(ok, l) := allow l hostID in (ok, Some l)
    end in
  if negb allowed then (Answered (HttpError 429), lim) else
  let maxBytes := if maxBodyBytes =? 0 then DefaultMaxBodyBytes else maxBodyBytes in
  (match rq_body r with
   | None => Answered (HttpError 400)
   | Some full =>
       let body := limited (maxBytes + 1) full in
       if maxBytes <? Z.of_nat (String.length body) then Answered (HttpError 413) else
       match zstd_dec body with
       | None => Answered (HttpError 400)
       | Some raw =>
           match proto_Unmarshal raw with
           | None => Answered (HttpError 400)
           | Some batch =>
               if negb (bool_decide (Pb.HostId batch = hostID)) then Answered (HttpError 403)
               else if bool_decide (Pb.BatchId batch = "") then Answered (HttpError 400)
               else Decoded hostID batch
           end
       end
   end, lim).

(** the idempotency store; a new batch goes on to the receiver *)
Definition mark (hostID : string) (batch : Pb.Batch) (idem : I) : phase * I :=
  let '(marked, idem) := MarkSeen idem hostID (Pb.BatchId batch) in
  (match marked with
   | Err _ => Answered (HttpError 500)
   | Ok true => Answered (HttpOK (Pb.mkResponse (Pb.BatchId batch) true))
   | Ok false => Receiving hostID batch
   end, idem).

(** the answer once the receiver has returned *)
Definition finish (batch : Pb.Batch) (stored : bool) : phase :=
  Answered (if stored then HttpOK (Pb.mkResponse (Pb.BatchId batch) false) else HttpError 500).

(** The stores, the requests, and what the receiver was called with and has stored. *)
Record hub := mkHub {
  tokens : T;
  idempotency : I;
  limiter : option L;
  requests : gmap nat (Request * phase);
  calls : list (string * Pb.Batch);
  stored : list (string * Pb.Batch);
}.

Inductive step : hub -> hub -> Prop :=
| step_enroll tk tk' i l rs cs st :
    step (mkHub tk i l rs cs st) (mkHub tk' i l rs cs st)
| step_arrive t r tk i l rs cs st :
    rs !! t = None -> step (mkHub tk i l rs cs st) (mkHub tk i l (<[t := (r, Arrived)]> rs) cs st)
| step_authenticate t r tk i l rs cs st :
    rs !! t = Some (r, Arrived) -> step (mkHub tk i l rs cs st) (mkHub tk i l (<[t := (r, authenticate tk r)]> rs) cs st)
| step_decode t r host ph tk i l l' rs cs st :
    rs !! t = Some (r, Authenticated host) -> decode r host l = (ph, l') ->
    step (mkHub tk i l rs cs st) (mkHub tk i l' (<[t := (r, ph)]> rs) cs st)
| step_mark t r host batch ph tk i i' l rs cs st :
    rs !! t = Some (r, Decoded host batch) -> mark host batch i = (ph, i') ->
    step (mkHub tk i l rs cs st)
      (mkHub tk i' l (<[t := (r, ph)]> rs) (match ph with Receiving h b => cs ++ [(h, b)] | _ => cs end) st)
| step_finish t r host batch ok tk i l rs cs st :
    rs !! t = Some (r, Receiving host batch) ->
    step (mkHub tk i l rs cs st)
      (mkHub tk i l (<[t := (r, finish batch ok)]> rs) cs (if ok : bool then st ++ [(host, batch)] else st)).

Inductive steps : hub -> hub -> Prop :=
| steps_refl s : steps s s
| steps_snoc s s1 s2 : steps s s1 -> step s1 s2 -> steps s s2.

(** ** One request alone *)

(** the steps of a request with nothing in between, for the receiver that logs its calls *)
Definition alone (takes : bool -> string -> Pb.Batch -> bool) (s : Server (R := list (string * Pb.Batch))) (r : Request) :
    phase * Server (R := list (string * Pb.Batch)) :=
  match authenticate (Server.Tokens s) r with
  | Authenticated host =>
      let '(ph, lim) := decode r host (Limiter s) in
      let s := mkServer (Server.Tokens s) (Idempotency s) (Receiver s) lim (MaxBodyBytes s) in
      match ph with
      | Decoded host batch =>
          let '(ph, idem) := mark host batch (Idempotency s) in
          let s := mkServer (Server.Tokens s) idem (Receiver s) (Limiter s) (MaxBodyBytes s) in
          match ph with
          | Receiving host batch =>
              (finish batch (takes (rq_ctx_done r) host batch),
               mkServer (Server.Tokens s) (Idempotency s) (Receiver s ++ [(host, batch)])%list (Limiter s) (MaxBodyBytes s))
          | ph => (ph, s)
          end
      | ph => (ph, s)
      end
  | ph => (ph, s)
  end.

(** Without interleaving, the steps are the handler of [Transport]. *)
Lemma alone_is_ingest takes s r :
  MaxBodyBytes s = maxBodyBytes ->
  (fun '(resp, s') => (Answered resp, s')) (handleIngest allow (logging takes) zstd_dec proto_Unmarshal s r) = alone takes s r.
Proof.
  destruct s as [tk i rc l m]. cbn [MaxBodyBytes]. intros ->. unfold handleIngest, alone, authenticate, decode, mark, finish.
  cbn [Server.Tokens Limiter Idempotency Receiver MaxBodyBytes].
  destruct (negb _); [done|]. destruct (bearerToken r) as [token|]; [|done]. destruct (Lookup tk token) as [[host|]|]; [|done|done].
  destruct (match l with None => _ | Some _ => _ end) as [[] lim]; cbn [negb]; [|done].
  destruct (rq_body r) as [full|]; [|done]. destruct (_ <? _); [done|]. destruct (zstd_dec _) as [raw|]; [|done].
  destruct (proto_Unmarshal raw) as [batch|]; [|done]. destruct (negb _); [done|]. destruct (bool_decide _); [done|].
  destruct (MarkSeen i host (Pb.BatchId batch)) as [[[]|] idem]; [done| |done]. unfold logging. by destruct (takes _ _ _).
Qed.

(** ** The invariant *)

Hypothesis max_nonneg : 0 <= maxBodyBytes.

(** the batch of a request, as the handler reads it for [host] *)
Definition carries (r : Request) (host : string) (batch : Pb.Batch) : Prop :=
  Pb.HostId batch = host /\ Pb.BatchId batch <> "" /\
  exists full, rq_body r = Some full /\
    Z.of_nat (String.length full) <= (if maxBodyBytes =? 0 then DefaultMaxBodyBytes else maxBodyBytes) /\
    (raw ← zstd_dec full; proto_Unmarshal raw) = Some batch.

Definition phase_ok (r : Request) (ph : phase) (i : I) (cs st : list (string * Pb.Batch)) : Prop :=
  match ph with
  | Arrived | Authenticated _ | Answered (HttpError _) => True
  | Decoded host batch => carries r host batch
  | Receiving host batch => carries r host batch /\ (host, batch) ∈ cs
  | Answered (HttpOK resp) =>
      exists host batch, carries r host batch /\ Pb.LastOffset resp = Pb.BatchId batch /\ seen i host (Pb.BatchId batch) = true /\
        (Pb.Duplicate resp = false -> (host, batch) ∈ st)
  end.

Record hinv (s : hub) : Prop := mkHinv {
  hi_once : NoDup (batch_key <$> calls s);
  hi_calls : forall hb, hb ∈ calls s -> seen (idempotency s) hb.1 (Pb.BatchId hb.2) = true /\ Pb.HostId hb.2 = hb.1;
  hi_stored : forall hb, hb ∈ stored s -> hb ∈ calls s;
  hi_requests : forall t r ph, requests s !! t = Some (r, ph) -> phase_ok r ph (idempotency s) (calls s) (stored s);
}.

Lemma phase_ok_grows r ph i i' cs cs' st st' :
  (forall h b, seen i h b = true -> seen i' h b = true) -> (forall x, x ∈ cs -> x ∈ cs') -> (forall x, x ∈ st -> x ∈ st') ->
  phase_ok r ph i cs st -> phase_ok r ph i' cs' st'.
Proof.
  intros Hi Hc Hs. destruct ph as [| | |host batch|[code|resp]]; cbn; try done.
  - intros [? ?]; auto.
  - intros (host & batch & ? & ? & ? & ?). exists host, batch. split_and!; auto.
Qed.

(** a request moves on; the stores have grown *)
Lemma request_moves tk tk' i i' l l' rs cs cs' st st' t r ph :
  hinv (mkHub tk i l rs cs st) -> NoDup (batch_key <$> cs') ->
  (forall h b, seen i h b = true -> seen i' h b = true) -> (forall x, x ∈ cs -> x ∈ cs') -> (forall x, x ∈ st -> x ∈ st') ->
  (forall hb, hb ∈ cs' -> hb ∈ cs \/ seen i' hb.1 (Pb.BatchId hb.2) = true /\ Pb.HostId hb.2 = hb.1) ->
  (forall hb, hb ∈ st' -> hb ∈ st \/ hb ∈ cs') ->
  phase_ok r ph i' cs' st' -> hinv (mkHub tk' i' l' (<[t := (r, ph)]> rs) cs' st').
Proof.
  intros [K1 K2 K3 K4] Hnd Hi Hc Hs Hc' Hs' Hph. constructor; cbn in *; [done|..].
  - intros hb Hin. destruct (Hc' hb Hin) as [Hold|?]; [|done]. destruct (K2 hb Hold). auto.
  - intros hb Hin. destruct (Hs' hb Hin); auto.
  - intros t' r' ph' Ht. apply lookup_insert_Some in Ht as [[_ [= <- <-]]|[_ Ht]]; [done|]. eapply phase_ok_grows; [..|by eapply K4]; auto.
Qed.

Lemma decode_ok r host l ph l' i cs st : decode r host l = (ph, l') -> phase_ok r ph i cs st.
Proof.
  unfold decode. set (lim := match l with None => _ | Some _ => _ end). destruct lim as [[] lim']; cbn [negb]; [|by intros [= <- _]].
  set (maxBytes := if maxBodyBytes =? 0 then _ else _).
  assert (0 <= maxBytes) as Hmb by (unfold maxBytes; destruct (Z.eqb_spec maxBodyBytes 0); [vm_compute; congruence|done]).
  destruct (rq_body r) as [full|] eqn:Eb; [|by intros [= <- _]].
  destruct (Z.ltb_spec maxBytes (Z.of_nat (String.length (limited (maxBytes + 1) full)))) as [Hbig|Hsmall]; [by intros [= <- _]|].
  destruct (limited_length maxBytes full Hmb Hsmall) as [-> Hlen].
  destruct (zstd_dec full) as [raw|] eqn:Ez; [|by intros [= <- _]].
  destruct (proto_Unmarshal raw) as [batch|] eqn:Ep; [|by intros [= <- _]].
  case_bool_decide as Hh; cbn [negb]; [|by intros [= <- _]]. case_bool_decide as Hid; [by intros [= <- _]|].
  intros [= <- _]. split_and!; [done|done|]. exists full. split_and!; [done|done|]. cbn. by rewrite Ez.
Qed.

Lemma mark_inv tk i i' l rs cs st t r host batch ph :
  hinv (mkHub tk i l rs cs st) -> rs !! t = Some (r, Decoded host batch) -> mark host batch i = (ph, i') ->
  hinv (mkHub tk i' l (<[t := (r, ph)]> rs) (match ph with Receiving h b => (cs ++ [(h, b)])%list | _ => cs end) st).
Proof.
  intros Hi Ht. pose proof Hi as [Hnd Hcs _ Hrs]. pose proof (Hrs t r _ Ht) as Hcar. cbn in Hnd, Hcs, Hcar. unfold mark.
  destruct (MarkSeen i host (Pb.BatchId batch)) as [m idem] eqn:Em.
  assert (forall h b, seen i h b = true -> seen idem h b = true) as Hmono by (intros h b; by eapply mark_other).
  destruct m as [[]|]; intros [= <- <-].
  - eapply request_moves; [exact Hi|done|done|auto|auto|auto|auto|]. exists host, batch. split_and!; [done|done|by eapply mark_seen|done].
  - pose proof (mark_answer _ _ _ _ _ Em) as Hns. pose proof (mark_seen _ _ _ _ _ Em) as Hseen.
    eapply request_moves; [exact Hi| |done|set_solver|auto| |auto|].
    + rewrite fmap_app. apply NoDup_app. split; [done|]. split; [|apply NoDup_singleton].
      intros k Hk ->%list_elem_of_singleton. apply list_elem_of_fmap in Hk as (hb & E & Hin). unfold batch_key in E. injection E as E1 E2.
      destruct (Hcs _ Hin) as [Hs _]. rewrite <- E1, <- E2 in Hs. congruence.
    + intros hb [?| ->%list_elem_of_singleton]%elem_of_app; [by left|]. right. split; [done|apply Hcar].
    + split; [done|]. apply elem_of_app. right. by left.
  - eapply request_moves; [exact Hi|done|done|auto|auto|auto|auto|done].
Qed.

Lemma ingest_step_inv s s' : hinv s -> step s s' -> hinv s'.
Proof.
  intros Hi Hs. destruct Hs as [tk tk' i l rs cs st|t r tk i l rs cs st|t r tk i l rs cs st|t r host ph tk i l l' rs cs st Ht E
    |t r host batch ph tk i i' l rs cs st Ht E|t r host batch ok tk i l rs cs st Ht].
  - destruct Hi. by constructor.
  - eapply request_moves; [exact Hi|apply Hi|auto..|done].
  - eapply request_moves; [exact Hi|apply Hi|auto..|]. unfold authenticate. destruct (negb _); [done|].
    destruct (bearerToken r); [|done]. by destruct (Lookup _ _) as [[]|].
  - eapply request_moves; [exact Hi|apply Hi|auto..|by eapply decode_ok].
  - by eapply mark_inv.
  - pose proof (hi_requests _ Hi t r _ Ht) as [Hcar Hin]. cbn in Hcar, Hin.
    pose proof (hi_calls _ Hi _ Hin) as [Hseen _]. cbn in Hseen.
    eapply request_moves; [exact Hi|apply Hi|auto|auto| |auto| |].
    + destruct ok; [|auto]. intros x Hx. apply elem_of_app. by left.
    + destruct ok; [|auto]. intros hb [?| ->%list_elem_of_singleton]%elem_of_app; auto.
    + destruct ok; [|done]. exists host, batch. split_and!; [done|done|done|]. intros _. apply elem_of_app. right. by left.
Qed.

(** C13: At most once, however requests interleave: whatever requests are served at the same
    time, and hosts enrolled meanwhile, the receiver is called at most once for a host and a
    batch id, with a batch that names the host its sender was authenticated as. A request is
    acknowledged only for the batch it carries, whose id is recorded; and as new only after
    the receiver has stored that batch. *)
Theorem ingest_interleaved tk i l s :
  steps (mkHub tk i l ∅ [] []) s ->
  NoDup (batch_key <$> calls s) /\ Forall (fun hb => Pb.HostId hb.2 = hb.1) (calls s) /\
  (forall hb, hb ∈ stored s -> hb ∈ calls s) /\
  forall t r resp, requests s !! t = Some (r, Answered (HttpOK resp)) ->
    exists host batch, carries r host batch /\ Pb.LastOffset resp = Pb.BatchId batch /\
      seen (idempotency s) host (Pb.BatchId batch) = true /\ (Pb.Duplicate resp = false -> (host, batch) ∈ stored s).
Proof.
  intros Hs. assert (hinv s) as [K1 K2 K3 K4].
  { remember (mkHub tk i l ∅ [] []) as s0 eqn:E0. induction Hs as [s|s s1 s2 _ IH Hs]; [|by apply (ingest_step_inv s1); [apply IH|]].
    subst s. constructor; cbn; [constructor|intros hb Hhb; by apply elem_of_nil in Hhb|done|]. intros t r ph. by rewrite lookup_empty. }
  split_and!; [done|apply Forall_forall; intros hb Hhb; apply (K2 hb Hhb)|done|]. intros t r resp Ht. apply (K4 t r _ Ht).
Qed.

End ingest.
(** ** Two deliveries of one batch at the same time *)

Abbreviation demo_hub := (hub (T := list Stores.tokenRecord) (I := gset string) (L := unit)).
Abbreviation demo_steps := (steps (T := list Stores.tokenRecord) (I := gset string) (L := unit) no_limit Some demo_unmarshal 0).

Definition idle_hub : demo_hub := mkHub demo_tokens (∅ : gset string) None ∅ [] [].
Definition rq : Request := demo_request "secret1" false.

(** request [t] up to the idempotency store, and on to the receiver or the answer *)
Definition deliver (t : nat) (s : demo_hub) : demo_hub :=
  let rs := <[t := (rq, Decoded "h1" forged)]> (<[t := (rq, Authenticated "h1")]> (<[t := (rq, Arrived)]> (requests s))) in
  let '(ph, i) := mark "h1" forged (idempotency s) in
  mkHub demo_tokens i None (<[t := (rq, ph)]> rs) (match ph with Receiving h b => (calls s ++ [(h, b)])%list | _ => calls s end) (stored s).

Lemma deliver_steps t s s0 :
  demo_steps s0 s -> tokens s = demo_tokens -> limiter s = None -> requests s !! t = None -> demo_steps s0 (deliver t s).
Proof.
  destruct s as [tk i l rs cs st]. cbn [tokens limiter requests]. intros Hs -> -> Ht. unfold deliver. cbn [requests idempotency calls stored].
  destruct (mark "h1" forged i) as [ph i'] eqn:Em.
  eapply steps_snoc; [|by eapply step_mark; [apply lookup_insert_eq|exact Em]].
  assert (decode no_limit Some demo_unmarshal 0 rq "h1" (None : option unit) = (Decoded "h1" forged, None)) as Ed by (vm_compute; reflexivity).
  eapply steps_snoc; [|by eapply step_decode; [apply lookup_insert_eq|exact Ed]].
  assert (authenticate demo_tokens rq = Authenticated "h1") as Ea by (vm_compute; reflexivity). rewrite <- Ea.
  eapply steps_snoc; [|apply step_authenticate, lookup_insert_eq].
  eapply steps_snoc; [exact Hs|by apply step_arrive].
Qed.

(** The second delivery is acknowledged as a duplicate while the first one is still being
    stored; then the first one fails. *)
Definition both : demo_hub := deliver 1 (deliver 0 idle_hub).
Definition first_failed : demo_hub :=
  mkHub (tokens both) (idempotency both) (limiter both) (<[0%nat := (rq, finish forged false)]> (requests both)) (calls both) (stored both).

Lemma first_failed_steps : demo_steps idle_hub first_failed.
Proof.
  assert (demo_steps idle_hub both) as Hb by (do 2 (apply deliver_steps; [|vm_compute; reflexivity..]); apply steps_refl).
  assert (requests both !! 0%nat = Some (rq, Receiving "h1" forged)) as Hr by (vm_compute; reflexivity).
  unfold first_failed. revert Hb Hr. generalize both. intros [tk i l rs cs st] Hb Hr.
  eapply steps_snoc; [exact Hb|]. by apply (step_finish _ _ _ _ 0%nat rq "h1" forged false).
Qed.

Example acknowledged_but_not_stored :
  demo_steps idle_hub first_failed /\ stored first_failed = [] /\
  requests first_failed !! 0%nat = Some (rq, Answered (HttpError 500)) /\
  requests first_failed !! 1%nat = Some (rq, Answered (HttpOK (Pb.mkResponse "01B" true))).
Proof. split; [apply first_failed_steps|]. split_and!; vm_compute; reflexivity. Qed.

Lemma ingest_interleaved_witness :
  NoDup (batch_key <$> calls first_failed) /\
  exists host batch, carries Some demo_unmarshal 0 rq host batch /\ "01B" = Pb.BatchId batch.
Proof.
  destruct (ingest_interleaved (L := unit) no_limit Some demo_unmarshal 0 (Z.le_refl 0) demo_tokens ∅ None first_failed first_failed_steps)
    as (Hnd & _ & _ & Ha). split; [done|].
  destruct (Ha 1%nat rq (Pb.mkResponse "01B" true)) as (host & batch & Hc & Hl & _); [vm_compute; reflexivity|]. by exists host, batch.
Defined.

End IngestConcurrent.
