(* ===== verification/AgentHub.v ===== *)
(** * AgentHub: the agent's client, against the hub

    Models BuildOverflowEvent (internal/agentbuffer/capacity.go), TransportSender
    (internal/agentbuffer/transportsender.go) and the client of
    internal/transport/client.go, and composes the client with the hub's handler of
    Transport. protobuf, zstd and url.Parse are parameters, with their round trips as
    hypotheses. *)

From stdpp Require Import base gmap strings list.
From Stdlib Require Import ZArith Lia Ascii.
From S2P Require Import Prelude GoStd GoNet GoConv GoIO Schema AgentBuffer AgentBufferSpec AgentBufferDemo AgentBufferProps Wire Token Transport.
Import GoString GoTime Schema AgentBuffer AgentBufferSpec AgentBufferDemo AgentBufferProps.

Local Open Scope string_scope.
Local Open Scope Z_scope.

(** ** BuildOverflowEvent (internal/agentbuffer/capacity.go) *)
Module Overflow.
Import Wire.Sink GoIO.

Definition count_kind (kind : string) (discarded : list DiscardedItem) : Z :=
  Z.of_nat (length (List.filter (fun d => bool_decide (di_Kind d = kind)) discarded)).

Definition BuildOverflowEvent (ulid : string) (now : Time) (hostID : string) (discarded : list DiscardedItem) : Event :=
  mkEvent ulid now 0 hostID "agent" "agent.buffer_overflow" SeverityWarn
    ("buffer overflow: discarded " ++ Itoa (Z.of_nat (length discarded)) ++ " item(s)") no_subject
    (<["log_lines_discarded" := Itoa (count_kind "log_line" discarded)]> {["metrics_discarded" := Itoa (count_kind "metric" discarded)]})
    "" [] CurrentSchemaVersion.

(** the priority the sink gives a record *)
Definition prioritized (it : Item) : Prop :=
  it_Priority it = (if it_LogLine it is Some _ then PriorityLogLine else if it_Metric it is Some _ then PriorityMetric else PriorityEvent).

(** The event accounts for every discarded record: what EnforceCapacity discards of the
    records of the sink is log lines and metrics, and the two numbers of the event add up
    to their count; the event itself is valid. *)
Theorem overflow_accounts ulid now hostID victims :
  ulid <> "" -> hostID <> "" -> is_zero now = false -> Forall prioritized victims ->
  Forall (fun it => it_Priority it = PriorityLogLine \/ it_Priority it = PriorityMetric) victims ->
  let discarded := discarded_of <$> victims in
  Event_Validate (BuildOverflowEvent ulid now hostID discarded) = Ok tt /\
  count_kind "log_line" discarded + count_kind "metric" discarded = Z.of_nat (length victims).
Proof.
  intros Hu Hh Hn Hp Hv discarded. split.
  - unfold Event_Validate, BuildOverflowEvent. cbn [e_ID e_HostID e_TS e_Source e_Type e_Severity e_Title e_Schema].
    rewrite (bool_decide_eq_false_2 (ulid = "")), (bool_decide_eq_false_2 (hostID = "")), Hn by done. done.
  - subst discarded. unfold count_kind. induction Hp as [|it victims Hit _ IH]; [done|]. apply Forall_cons in Hv as [Hit' Hv].
    specialize (IH Hv). rewrite fmap_cons. cbn [List.filter discarded_of di_Kind]. unfold prioritized in Hit. rewrite Hit in Hit'.
    unfold kindOf. destruct (it_LogLine it), (it_Metric it); cbn [bool_decide]; repeat case_bool_decide; try done; cbn [length] in *; try lia;
      by destruct Hit'.
Qed.

End Overflow.

(** ** internal/transport/client.go *)
Module Client.
Import Transport.Server Transport.Network.

Record Client := mkClient { BaseURL : string; c_Token : string }.

(** what a request is answered with: no response, a body that cannot be read, or a status
    and a body *)
Inductive reply := NoReply | BodyFails | Reply (code : Z) (body : string).

Inductive SendError : Set := ErrSecurity (e : SecurityError) | ErrMarshal | ErrCompress | ErrRequest | ErrSending | ErrReading | ErrRejected (code : Z) | ErrDecoding.

Section client.
Context (url_Parse : string -> option (string * string)) (proto_Marshal : Pb.Batch -> option string) (compressZstd : string -> option string)
  (valid_url : string -> bool) (unmarshal_response : string -> option Pb.IngestResponse).

Definition ingest_url (c : Client) : string := trim_suffix (BaseURL c) "/" ++ "/v1/ingest".

(** the request Send makes, or why it makes none *)
Definition prepare (c : Client) (batch : Pb.Batch) : result SendError (string * Request) :=
  match ValidateTransportSecurity (url_Parse (BaseURL c)) with
  | Err e => Err (ErrSecurity e)
  | Ok _ =>
      match proto_Marshal batch with
      | None => Err ErrMarshal
      | Some raw =>
          match compressZstd raw with
          | None => Err ErrCompress
          | Some compressed =>
              if negb (valid_url (ingest_url c)) then Err ErrRequest
              else Ok (ingest_url c, mkRequest "POST" ("Bearer " ++ c_Token c) (Some compressed) false)
          end
      end
  end.

Definition read_reply (r : reply) : result SendError Pb.IngestResponse :=
  match r with
  | NoReply => Err ErrSending
  | BodyFails => Err ErrReading
  | Reply code body =>
      if negb (code =? 200) then Err (ErrRejected code) else
      match unmarshal_response body with
      | None => Err ErrDecoding
      | Some out => Ok out
      end
  end.

(** [net] is the world that answers requests *)
Definition Send {W} (net : W -> string -> Request -> reply * W) (c : Client) (batch : Pb.Batch) (w : W) : result SendError Pb.IngestResponse * W :=
  match prepare c batch with
  | Err e => (Err e, w)
  | Ok (url, rq) => let '(r, w') := net w url rq in (read_reply r, w')
  end.

(** how a request travels: over the caller's own http.Client, over TLS, or over HTTP/2 on a
    plain connection, which the h2c client also dials for https URLs *)
Inductive transport_kind := Given | OverTLS | OverH2C.

Definition httpClient (given : bool) (c : Client) : transport_kind :=
  if given then Given else if has_prefix "https://" (BaseURL c) then OverTLS else OverH2C.

(** Without a client of the caller's, a request travels in the clear only to a trusted
    address, or when the URL spells the scheme https in another way than the prefix test
    of httpClient. *)
Lemma cleartext_request c batch rq :
  prepare c batch = Ok rq -> httpClient false c = OverH2C ->
  exists scheme host, url_Parse (BaseURL c) = Some (scheme, host) /\
    (scheme = "http" /\ IsTrustedNetwork (GoNet.ParseIP host) = true \/ scheme = "https" /\ has_prefix "https://" (BaseURL c) = false).
Proof.
  unfold prepare, httpClient. intros Hp Hc.
  destruct (ValidateTransportSecurity _) as [[]|] eqn:E; [|done]. apply transport_security_spec in E as (scheme & host & -> & Hs).
  exists scheme, host. split; [done|]. destruct Hs as [->|Hs]; [right|by left]. by destruct (has_prefix "https://" (BaseURL c)).
Qed.

(** TransportSender: a fresh batch id for every batch *)
Definition TransportSender {W} (net : W -> string -> Request -> reply * W) (c : Client) (hostID ulid : string) (items : list Item) (w : W) : bool * W :=
  match Send net c (Wire.Sender.ItemsToBatch ulid hostID items) w with
  | (Ok _, w') => (true, w')
  | (Err _, w') => (false, w')
  end.

(** *** Against the hub *)

Section hub.
Context {T I R L : Type} `{TokenStore T, IdempotencyStore I}.
Context (allow : L -> string -> bool * L) (ReceiveBatch : bool -> string -> Pb.Batch -> R -> bool * R).
Context (zstd_dec : string -> option string) (proto_Unmarshal : string -> option Pb.Batch) (marshal_response : Pb.IngestResponse -> string)
  (error_text : Z -> string).

(** what happens to an exchange with the hub: it arrives and is answered, it never arrives,
    or the answer is lost *)
Inductive fate := Answered | NotReached | AnswerLost.

Definition respond (resp : Response) : reply :=
  match resp with HttpOK out => Reply 200 (marshal_response out) | HttpError code => Reply code (error_text code) end.

Definition hub (f : fate) (s : Server) (_ : string) (rq : Request) : reply * Server :=
  match f with
  | NotReached => (NoReply, s)
  | Answered => let '(resp, s') := handleIngest allow ReceiveBatch zstd_dec proto_Unmarshal s rq in (respond resp, s')
  | AnswerLost => let '(_, s') := handleIngest allow ReceiveBatch zstd_dec proto_Unmarshal s rq in (NoReply, s')
  end.

Hypothesis zstd_roundtrip : forall raw z, compressZstd raw = Some z -> zstd_dec z = Some raw.
Hypothesis proto_roundtrip : forall batch raw, proto_Marshal batch = Some raw -> proto_Unmarshal raw = Some batch.
Hypothesis response_roundtrip : forall out, unmarshal_response (marshal_response out) = Some out.

(** What an exchange leaves at the hub: nothing, or the batch admitted for the host the
    client's token is bound to, marked and, unless it was marked before, received. Only in
    the second case can the client see an answer without an error. *)
Definition exchanged (c : Client) (batch : Pb.Batch) (r : result SendError Pb.IngestResponse)
    (s s' : Server (T := T) (I := I) (R := R) (L := L)) : Prop :=
  Lookup (Tokens s) (c_Token c) = Ok (Some (Pb.HostId batch)) /\ Pb.BatchId batch <> "" /\
  let '(marked, idem) := MarkSeen (Idempotency s) (Pb.HostId batch) (Pb.BatchId batch) in
  Idempotency s' = idem /\
  match marked with
  | Err _ => is_ok r = false /\ Receiver s' = Receiver s
  | Ok true => (is_ok r = false \/ r = Ok (Pb.mkResponse (Pb.BatchId batch) true)) /\ Receiver s' = Receiver s
  | Ok false =>
      Receiver s' = (ReceiveBatch false (Pb.HostId batch) batch (Receiver s)).2 /\
      (is_ok r = false \/ r = Ok (Pb.mkResponse (Pb.BatchId batch) false) /\
                         (ReceiveBatch false (Pb.HostId batch) batch (Receiver s)).1 = true)
  end.

Lemma exchange_cases c batch f s r s' :
  0 <= MaxBodyBytes s -> Send (hub f) c batch s = (r, s') ->
  MaxBodyBytes s' = MaxBodyBytes s /\ Tokens s' = Tokens s /\
  (is_ok r = false /\ Idempotency s' = Idempotency s /\ Receiver s' = Receiver s \/ exchanged c batch r s s').
Proof using zstd_roundtrip proto_roundtrip response_roundtrip.
  intros Hmax. unfold Send, prepare.
  assert (forall e, (@Err SendError Pb.IngestResponse e, s) = (r, s') -> MaxBodyBytes s' = MaxBodyBytes s /\ Tokens s' = Tokens s /\
    (is_ok r = false /\ Idempotency s' = Idempotency s /\ Receiver s' = Receiver s \/ exchanged c batch r s s')) as Hnone.
  { intros e [= <- <-]. split_and!; [done..|]. by left. }
  destruct (ValidateTransportSecurity _); [|by apply Hnone].
  destruct (proto_Marshal batch) as [raw|] eqn:Em; [|by apply Hnone]. destruct (compressZstd raw) as [z|] eqn:Ez; [|by apply Hnone].
  destruct (negb (valid_url _)); [by apply Hnone|]. set (rq := mkRequest _ _ _ _).
  pose proof (handle_cases allow ReceiveBatch zstd_dec proto_Unmarshal s rq Hmax) as Hc.
  unfold hub. destruct f.
  2: { intros [= <- <-]. split_and!; [done..|]. by left. }
  1,2: destruct (handleIngest _ _ _ _ s rq) as [resp s1]; destruct Hc as (Ht & Hm & Hc); intros [= Hr <-];
    (split; [done|]); (split; [done|]);
    destruct Hc as [(code & -> & Hcode & Hi & Hrc)|(host & batch' & Hadm & Hing)].
  1: { left. split_and!; [|done..]. subst r. cbn. destruct (Z.eqb_spec code 200) as [->|]; [|done].
       exfalso. revert Hcode. rewrite !elem_of_cons, elem_of_nil. lia. }
  2: { left. by subst r. }
  all: right; destruct Hadm as [_ (token & Htk & Hl) (body & Hb & _ & Hdec) Hhost Hid]; injection Hb as <-;
    rewrite (zstd_roundtrip _ _ Ez) in Hdec; cbn in Hdec; rewrite (proto_roundtrip _ _ Em) in Hdec; injection Hdec as <-; subst host;
    unfold bearerToken in Htk; cbn [rq_Authorization rq] in Htk; rewrite has_prefix_app, trim_prefix_app in Htk; injection Htk as <-;
    (split; [done|]); (split; [done|]); unfold ingested in Hing; destruct (MarkSeen _ _ _) as [marked idem]; destruct Hing as [-> Hing];
    (split; [done|]); destruct marked as [[|]|e]; cbn [rq_ctx_done rq] in Hing.
  - destruct Hing as [-> Hrc]. split; [|done]. right. subst r. cbn. by rewrite response_roundtrip.
  - destruct (ReceiveBatch false _ batch _) as [stored rcv]. destruct Hing as [Hrc ->]. split; [done|]. subst r.
    destruct stored; [right|by left]. cbn. by rewrite response_roundtrip.
  - destruct Hing as [-> Hrc]. by subst r.
  - destruct Hing as [-> Hrc]. split; [|done]. left. by subst r.
  - destruct (ReceiveBatch false _ batch _) as [stored rcv]. destruct Hing as [Hrc ->]. split; [done|]. left. by subst r.
  - destruct Hing as [-> Hrc]. by subst r.
Qed.

(** C4: An acknowledgement means storage: when Send returns without an error, whatever else the
    network did to the exchange, the hub admitted exactly this batch for a host the client's
    token is bound to, and handed it to storage, which took it, or had recorded its id
    before. *)
Theorem acknowledged_means_stored c batch f s out s' :
  0 <= MaxBodyBytes s ->
  Send (hub f) c batch s = (Ok out, s') ->
  Lookup (Tokens s) (c_Token c) = Ok (Some (Pb.HostId batch)) /\ Pb.BatchId batch <> "" /\
  let '(marked, idem) := MarkSeen (Idempotency s) (Pb.HostId batch) (Pb.BatchId batch) in
  Idempotency s' = idem /\
  exists dup, out = Pb.mkResponse (Pb.BatchId batch) dup /\ marked = Ok dup /\
    if dup : bool then Receiver s' = Receiver s
    else ReceiveBatch false (Pb.HostId batch) batch (Receiver s) = (true, Receiver s').
Proof using zstd_roundtrip proto_roundtrip response_roundtrip.
  intros Hmax Hsend. destruct (exchange_cases _ _ _ _ _ _ Hmax Hsend) as (_ & _ & [[? _]|(Hl & Hid & Hx)]); [done|].
  split; [done|]. split; [done|]. destruct (MarkSeen _ _ _) as [marked idem]. destruct Hx as [-> Hx]. split; [done|].
  destruct marked as [[|]|e]; [| |by destruct Hx].
  - destruct Hx as [[?|[= ->]] Hrc]; [done|]. by exists true.
  - destruct Hx as [Hrc [?|[[= ->] Hst]]]; [done|]. exists false. split_and!; [done..|].
    destruct (ReceiveBatch false _ batch _) as [stored rcv]. cbn in *. by subst.
Qed.

(** Nothing leaves the agent over an untrusted cleartext connection: unless the hub's URL
    passes the security check, Send touches the network in no way. *)
Theorem insecure_url_sends_nothing {W} (net : W -> string -> Request -> reply * W) c batch w :
  ValidateTransportSecurity (url_Parse (BaseURL c)) <> Ok tt ->
  exists e, Send net c batch w = (Err (ErrSecurity e), w).
Proof.
  intros Hv. unfold Send, prepare. destruct (ValidateTransportSecurity _) as [[]|e]; [done|]. by exists e.
Qed.

End hub.
End client.

(** *** A concrete exchange *)

Definition demo_parse (_ : string) : option (string * string) := Some ("http", "127.0.0.1").
Definition demo_marshal (b : Pb.Batch) : option string := if decide (b = forged) then Some "forged" else None.
Definition demo_client : Client := mkClient "http://127.0.0.1:8081/" "secret1".
Definition demo_response (r : Pb.IngestResponse) : string := String (if Pb.Duplicate r then "d" else "n")%char (Pb.LastOffset r).
Definition demo_response_of (s : string) : option Pb.IngestResponse :=
  match s with "" => None | String c id => Some (Pb.mkResponse id (bool_decide (c = "d"%char))) end.

Definition demo_hub : fate -> Server -> string -> Request -> reply * Server :=
  hub no_limit (logging (fun _ _ _ => true)) Some demo_unmarshal demo_response (fun _ => "").
Definition demo_send (f : fate) (s : Server) : result SendError Pb.IngestResponse * Server :=
  Send demo_parse demo_marshal Some (fun _ => true) demo_response_of (demo_hub f) demo_client forged s.

Lemma acknowledged_means_stored_witness :
  exists out s', demo_send Answered (demo_server []) = (Ok out, s') /\
    Lookup demo_tokens "secret1" = Ok (Some "h1").
Proof.
  destruct (demo_send Answered (demo_server [])) as [[out|e] s'] eqn:E; [|by vm_compute in E]. exists out, s'. split; [done|].
  apply (acknowledged_means_stored demo_parse demo_marshal Some (fun _ => true) demo_response_of no_limit (logging (fun _ _ _ => true)) Some demo_unmarshal
    demo_response (fun _ => "") ltac:(by intros raw z [= ->])
    ltac:(unfold demo_marshal, demo_unmarshal; intros b raw; case_decide; [|done]; intros [= <-]; by subst b)
    ltac:(by intros [id []]) demo_client forged Answered (demo_server []) out s'); [done|exact E].
Defined.

(** A lost answer is an error for the agent although the hub has stored the batch; the same
    batch sent again is recognised, but the sender draws a new id for every attempt. *)
Example lost_answer :
  let '(r1, s1) := demo_send AnswerLost (demo_server []) in
  let '(r2, s2) := demo_send Answered s1 in
  r1 = Err ErrSending /\ length (Receiver s1) = 1%nat /\ r2 = Ok (Pb.mkResponse "01B" true) /\ length (Receiver s2) = 1%nat.
Proof. vm_compute. done. Qed.

Lemma insecure_url_sends_nothing_witness :
  exists e, Send (fun _ => Some ("http", "203.0.113.5")) demo_marshal Some (fun _ => true) demo_response_of (demo_hub Answered) demo_client forged (demo_server []) =
    (Err (ErrSecurity e), demo_server []).
Proof.
  apply (insecure_url_sends_nothing (fun _ => Some ("http", "203.0.113.5")) demo_marshal Some (fun _ => true) demo_response_of (demo_hub Answered) demo_client forged (demo_server [])).
  vm_compute. done.
Defined.

(** url.Parse puts the scheme in lower case, the prefix test does not: with the scheme in
    capitals the check of transport security accepts any host as https, and the request,
    with its token, travels on a plain connection. *)
Definition lower_scheme (url : string) : option (string * string) :=
  match cut_byte ":" url with
  | Some (scheme, rest) => Some (GoConv.GoConv.ToLower scheme, GoString.trim_prefix rest "//")
  | None => None
  end.

Example uppercase_scheme_in_clear :
  let c := mkClient "HTTPS://203.0.113.5" "secret1" in
  is_ok (prepare lower_scheme demo_marshal Some (fun _ => true) c forged) = true /\
  httpClient false c = OverH2C /\
  httpClient false (mkClient "https://203.0.113.5" "secret1") = OverTLS /\
  ValidateTransportSecurity (lower_scheme "http://203.0.113.5") = Err ErrUntrusted.
Proof. vm_compute. done. Qed.

End Client.
