(* ===== verification/Collector.v ===== *)
(** * Collector: the agent's collector runtime

    Models internal/collector: registry.go ([Registry]: which collectors run) and
    runtime.go ([Runtime]: the loop of one collector, with its timeouts, panics and
    backoff).

    A collector is what the runtime sees of it: its name, the capabilities it requires,
    whether Init fails, and the outcome of each Collect. A panic inside Collect is
    recovered into an error, so it is one of the error outcomes. *)

From stdpp Require Import base gmap strings list.
From Stdlib Require Import ZArith Lia Ascii.
From Stdlib Require SpecFloat.
From S2P Require Import Prelude GoStd.
Import GoString GoTime GoFloat.

Local Open Scope string_scope.
Local Open Scope Z_scope.

(** ** Registry *)
Module Registry.

Record Collector := mkCollector {
  Name : string;
  Requires : list string;
  Init : option string;         (** the error Init returns, if any *)
}.

Record registryItem := mkItem { collector : Collector; interval : Duration; timeout : Duration }.
Record Registration := mkRegistration { rg_Collector : Collector; rg_Interval : Duration; rg_Timeout : Duration }.

(** why a collector does not run; the text of Reason is made from it *)
Inductive Reason : Type := MissingCapability (c : string) | InitFailed (err : string).
Record Disabled := mkDisabled { d_Name : string; d_Reason : Reason }.

Definition Register (items : list registryItem) (c : Collector) (i t : Duration) : list registryItem :=
  (items ++ [mkItem c i t])%list.

Fixpoint firstMissing (required : list string) (available : gmap string bool) : option string :=
  match required with
  | [] => None
  | c :: rest => if negb (default false (available !! c)) then Some c else firstMissing rest available
  end.

(** Resolve, with the names of the collectors whose Init it calls, in order *)
Fixpoint Resolve (items : list registryItem) (available : gmap string bool) :
    list Registration * list Disabled * list string :=
  match items with
  | [] => ([], [], [])
  | item :: rest =>
      let '(regs, disabled, inits) := Resolve rest available in
      match firstMissing (Requires (collector item)) available with
      | Some missing =>
          (regs, mkDisabled (Name (collector item)) (MissingCapability missing) :: disabled, inits)
      | None =>
          let inits := Name (collector item) :: inits in
          match Init (collector item) with
          | Some err => (regs, mkDisabled (Name (collector item)) (InitFailed err) :: disabled, inits)
          | None =>
              (mkRegistration (collector item) (interval item) (timeout item) :: regs, disabled, inits)
          end
      end
  end.

Definition supported (available : gmap string bool) (item : registryItem) : bool :=
  forallb (fun c => default false (available !! c)) (Requires (collector item)).
Definition starts (item : registryItem) : bool :=
  match Init (collector item) with None => true | Some _ => false end.

Lemma firstMissing_spec required available :
  firstMissing required available = List.find (fun c => negb (default false (available !! c))) required.
Proof. induction required as [|c required IH]; [done|]. simpl. by destruct (negb _). Qed.

Lemma firstMissing_None available item :
  match firstMissing (Requires (collector item)) available with
  | None => supported available item = true
  | Some _ => supported available item = false
  end.
Proof.
  unfold supported. induction (Requires (collector item)) as [|c l IH]; simpl; [done|].
  destruct (default false (available !! c)); simpl; [done|done].
Qed.

Lemma resolve_filter items available :
  let '(regs, disabled, inits) := Resolve items available in
  regs = (fun it => mkRegistration (collector it) (interval it) (timeout it)) <$>
           List.filter (fun it => supported available it && starts it) items /\
  d_Name <$> disabled =
    (fun it => Name (collector it)) <$> List.filter (fun it => negb (supported available it && starts it)) items /\
  inits = (fun it => Name (collector it)) <$> List.filter (supported available) items.
Proof.
  induction items as [|item items IH]; [done|]. cbn [Resolve List.filter].
  destruct (Resolve items available) as [[regs disabled] inits]. destruct IH as (-> & IHd & ->).
  pose proof (firstMissing_None available item) as Hm.
  destruct (firstMissing _ _) as [c|]; rewrite Hm; cbn [andb negb].
  { rewrite !fmap_cons, IHd. done. }
  assert (starts item = match Init (collector item) with None => true | Some _ => false end) as -> by done.
  destruct (Init (collector item)); cbn [negb]; rewrite ?fmap_cons, ?IHd; done.
Qed.

(** Every registered collector either runs, with the interval and timeout it was
    registered with, or is reported disabled once: it runs exactly when the host has every
    capability it requires and its Init succeeds, Init is called exactly for the
    collectors whose capabilities are all there, and the order of registration is kept. *)
Theorem resolve_spec items available :
  let '(regs, disabled, inits) := Resolve items available in
  regs = (fun it => mkRegistration (collector it) (interval it) (timeout it)) <$>
           List.filter (fun it => supported available it && starts it) items /\
  d_Name <$> disabled =
    (fun it => Name (collector it)) <$> List.filter (fun it => negb (supported available it && starts it)) items /\
  inits = (fun it => Name (collector it)) <$> List.filter (supported available) items.
Proof. apply resolve_filter. Qed.

End Registry.

(** ** The loop of one collector *)
Module Runtime.

Definition maxBackoffMultiplier : Z := 10.
Definition maxConsecutiveTimeouts : Z := 3.

(** float64(interval) * 0.8, back to an integer number of nanoseconds *)
Definition f_08 : float64 := SpecFloat.SFdiv prec emax (f_of_Z 8) (f_of_Z 10).
Definition trunc_Z (x : float64) : Z :=
  match x with
  | SpecFloat.S754_finite s m e =>
      let a := if 0 <=? e then Z.pos m * 2 ^ e else Z.pos m / 2 ^ (- e) in
      if s : bool then - a else a
  | _ => 0
  end.

Definition effectiveTimeout (interval configured : Duration) : Duration :=
  let hard := trunc_Z (SpecFloat.SFmul prec emax (f_of_Z interval) f_08) in
  if hard <? configured then hard else configured.

(** How one tick ends: the collector did not return in time, returned an error (or
    panicked), or succeeded. *)
Inductive tick : Set := Timeout | Failed | Succeeded.

Inductive notice : Set := NError | NDisabled | NRecovered.

Record Loop := mkLoop {
  consecutiveErrors : Z;
  consecutiveTimeouts : Z;
  period : Duration;            (** of the current ticker *)
  running : bool;
}.

Definition start (interval : Duration) : Loop := mkLoop 0 0 interval true.

(** the loop that computes the multiplier, [i] of [consecutiveErrors] turns done *)
Fixpoint multiplier_loop (n : nat) (multiplier : Z) : Z :=
  match n with
  | O => multiplier
  | S n' =>
      let multiplier := multiplier * 2 in
      if maxBackoffMultiplier <=? multiplier then maxBackoffMultiplier
      else multiplier_loop n' multiplier
  end.

Definition multiplier (consecutiveErrors : Z) : Z := multiplier_loop (Z.to_nat consecutiveErrors) 1.

(** one turn of runLoop's for, on a tick *)
Definition on_tick (interval : Duration) (s : Loop) (t : tick) : Loop * list notice :=
  match t with
  | Timeout =>
      let n := consecutiveTimeouts s + 1 in
      if maxConsecutiveTimeouts <=? n
      then (mkLoop (consecutiveErrors s) n (period s) false, [NError; NDisabled])
      else (mkLoop (consecutiveErrors s) n (period s) true, [NError])
  | Failed =>
      let n := consecutiveErrors s + 1 in
      (mkLoop n 0 (wrap_s 64 (interval * multiplier n)) true, [NError])
  | Succeeded =>
      if 0 <? consecutiveErrors s
      then (mkLoop 0 0 interval true, [NRecovered])
      else (mkLoop (consecutiveErrors s) 0 (period s) true, [])
  end.

(** runLoop over the outcomes of its ticks, with everything it reports *)
Fixpoint runLoop (interval : Duration) (s : Loop) (ticks : list tick) : Loop * list notice :=
  match ticks with
  | [] => (s, [])
  | t :: rest =>
      if negb (running s) then (s, [])
      else
        let '(s, ns) := on_tick interval s t in
        let '(s, ns') := runLoop interval s rest in
        (s, (ns ++ ns')%list)
  end.

(** *** What the counters mean *)

(** errors since the last success, in the order of the ticks *)
Definition errors_since_success (ticks : list tick) : Z :=
  fold_left (fun n t => match t with Failed => n + 1 | Succeeded => 0 | Timeout => n end) ticks 0.

(** timeouts at the end of the history *)
Definition trailing_timeouts (ticks : list tick) : Z :=
  fold_left (fun n t => match t with Timeout => n + 1 | _ => 0 end) ticks 0.

Lemma multiplier_spec n : 0 <= n -> multiplier n = Z.min (2 ^ n) 10.
Proof.
  intros Hn. unfold multiplier. rewrite <- (Z2Nat.id n) at 2 by done. clear Hn.
  assert (forall k m, 1 <= m < 10 -> multiplier_loop k m = Z.min (m * 2 ^ Z.of_nat k) 10) as Hk.
  { induction k as [|k IH]; intros m Hm; [simpl; lia|].
    cbn [multiplier_loop]. unfold maxBackoffMultiplier. rewrite Nat2Z.inj_succ, Z.pow_succ_r by lia.
    assert (0 < 2 ^ Z.of_nat k) by (apply Z.pow_pos_nonneg; lia).
    destruct (Z.leb_spec 10 (m * 2)); [nia|]. rewrite IH by lia. f_equal. lia. }
  rewrite Hk by lia. f_equal. lia.
Qed.

Definition multiplier_of (ticks : list tick) : Z :=
  if errors_since_success ticks =? 0 then 1 else Z.min (2 ^ errors_since_success ticks) 10.

Lemma errors_nonneg ticks : 0 <= errors_since_success ticks.
Proof.
  unfold errors_since_success. induction ticks as [|t ticks IH] using rev_ind; [done|].
  rewrite fold_left_app. simpl. destruct t; lia.
Qed.

(** the loop's state after a history that has not disabled it *)
Definition after (interval : Duration) (ticks : list tick) : Loop :=
  mkLoop (errors_since_success ticks) (trailing_timeouts ticks)
         (if errors_since_success ticks =? 0 then interval else wrap_s 64 (interval * multiplier_of ticks)) true.

Lemma errors_snoc ticks t :
  errors_since_success (ticks ++ [t])%list =
  match t with Failed => errors_since_success ticks + 1 | Succeeded => 0 | Timeout => errors_since_success ticks end.
Proof. unfold errors_since_success. rewrite fold_left_app. done. Qed.

Lemma trailing_snoc ticks t :
  trailing_timeouts (ticks ++ [t])%list = match t with Timeout => trailing_timeouts ticks + 1 | _ => 0 end.
Proof. unfold trailing_timeouts. rewrite fold_left_app. done. Qed.

(** what one tick does after a history that has not disabled the loop *)
Lemma on_tick_after interval ticks t :
  trailing_timeouts (ticks ++ [t])%list < 3 ->
  on_tick interval (after interval ticks) t =
  (after interval (ticks ++ [t])%list,
   match t with
   | Timeout | Failed => [NError]
   | Succeeded => if 0 <? errors_since_success ticks then [NRecovered] else []
   end).
Proof.
  intros Ht. pose proof (errors_nonneg ticks) as He.
  unfold on_tick, after, multiplier_of. cbn [consecutiveErrors consecutiveTimeouts period].
  rewrite errors_snoc, trailing_snoc in *. unfold maxConsecutiveTimeouts. destruct t.
  - destruct (Z.leb_spec 3 (trailing_timeouts ticks + 1)); [lia|done].
  - destruct (Z.eqb_spec (errors_since_success ticks + 1) 0); [lia|].
    by rewrite multiplier_spec by lia.
  - destruct (Z.ltb_spec 0 (errors_since_success ticks)); [done|].
    assert (errors_since_success ticks = 0) as -> by lia. done.
Qed.

Lemma runLoop_app interval ticks1 ticks2 s :
  runLoop interval s (ticks1 ++ ticks2)%list =
  let '(s1, ns1) := runLoop interval s ticks1 in
  let '(s2, ns2) := runLoop interval s1 ticks2 in (s2, (ns1 ++ ns2)%list).
Proof.
  revert s. induction ticks1 as [|t ticks1 IH]; intros s; cbn [runLoop app].
  { by destruct (runLoop interval s ticks2). }
  destruct (negb (running s)) eqn:Hr.
  { destruct ticks2; cbn [runLoop]; [done|]. by rewrite Hr. }
  destruct (on_tick interval s t) as [s' ns]. rewrite IH.
  destruct (runLoop interval s' ticks1) as [s1 ns1].
  destruct (runLoop interval s1 ticks2) as [s2 ns2]. by rewrite app_assoc.
Qed.

(** the history so far, and every prefix of it, ends in fewer than three timeouts *)
Definition never_three (ticks : list tick) : Prop :=
  forall p q, ticks = (p ++ q)%list -> trailing_timeouts p < 3.

Lemma never_three_snoc ticks t :
  never_three (ticks ++ [t])%list <-> never_three ticks /\ trailing_timeouts (ticks ++ [t])%list < 3.
Proof.
  split.
  - intros Hn. split; [|apply (Hn _ []); by rewrite app_nil_r].
    intros p q ->. apply (Hn p (q ++ [t])%list). by rewrite app_assoc.
  - intros [Hn Ht] p q E. destruct q as [|y q _] using rev_ind.
    { rewrite app_nil_r in E. by subst. }
    rewrite app_assoc in E. apply app_inj_tail in E as [-> _]. by apply (Hn p q).
Qed.

(** what the loop reports over a history that does not disable it *)
Fixpoint notices (errors : Z) (ticks : list tick) : list notice :=
  match ticks with
  | [] => []
  | Timeout :: rest => NError :: notices errors rest
  | Failed :: rest => NError :: notices (errors + 1) rest
  | Succeeded :: rest => ((if 0 <? errors then [NRecovered] else []) ++ notices 0 rest)%list
  end.

Lemma notices_snoc ticks t :
  notices 0 (ticks ++ [t])%list = (notices 0 ticks ++
    match t with
    | Timeout | Failed => [NError]
    | Succeeded => if (0 <? errors_since_success ticks)%Z then [NRecovered] else []
    end)%list.
Proof.
  unfold errors_since_success. generalize 0 at 1 2 5. induction ticks as [|u ticks IH]; intros z.
  - destruct t; cbn; try done. by rewrite app_nil_r.
  - destruct u; cbn [notices app fold_left]; rewrite IH; [done|done|by rewrite app_assoc].
Qed.

Lemma runLoop_never_three interval ticks :
  never_three ticks -> runLoop interval (start interval) ticks = (after interval ticks, notices 0 ticks).
Proof.
  induction ticks as [|t ticks IH] using rev_ind; intros Hn; [done|].
  apply never_three_snoc in Hn as [Hn Ht].
  rewrite runLoop_app, IH by done. cbn [runLoop running after negb].
  rewrite on_tick_after by done. by rewrite notices_snoc, app_nil_r.
Qed.

(** C38: As long as no three timeouts follow each other, a collector's loop keeps running,
    and its ticker period is the registered interval, doubled for each error since the
    last success and capped at ten times the interval; timeouts do not change it and the
    first success restores it. Every error and timeout is reported, and a recovery is
    reported exactly at a success that follows an error. *)
Theorem backoff_spec interval ticks :
  never_three ticks ->
  let '(s, ns) := runLoop interval (start interval) ticks in
  running s = true /\ ns = notices 0 ticks /\
  (let k := errors_since_success ticks in
   period s = if k =? 0 then interval else wrap_s 64 (interval * Z.min (2 ^ k) 10)).
Proof.
  intros Hn. rewrite runLoop_never_three by done. unfold after, multiplier_of. cbn [running period].
  split_and!; [done..|]. by destruct (_ =? 0).
Qed.

Lemma backoff_spec_witness :
  period (fst (runLoop 1000 (start 1000) [Failed; Timeout; Failed; Timeout; Timeout])) = 4000.
Proof.
  assert (never_three [Failed; Timeout; Failed; Timeout; Timeout]) as Hn.
  { rewrite (ltac:(done) : [Failed; Timeout; Failed; Timeout; Timeout] =
      ((((([] ++ [Failed]) ++ [Timeout]) ++ [Failed]) ++ [Timeout]) ++ [Timeout])%list).
    rewrite !never_three_snoc. split_and!; [|done..].
    intros p q E. by destruct p. }
  pose proof (backoff_spec 1000 [Failed; Timeout; Failed; Timeout; Timeout] Hn) as Hs.
  vm_compute in Hs. vm_compute. apply Hs.
Defined.

(** At the third timeout in a row the loop stops for good: whatever happens
    afterwards, the collector is never called again, its state does not change, and the
    disabling is reported exactly once, last. *)
Theorem disabled_after_three_timeouts interval ticks later :
  never_three ticks -> trailing_timeouts ticks = 2 ->
  runLoop interval (start interval) (ticks ++ Timeout :: later)%list =
  (mkLoop (errors_since_success ticks) 3 (period (after interval ticks)) false,
   (notices 0 ticks ++ [NError; NDisabled])%list).
Proof.
  intros Hn Ht. rewrite runLoop_app, runLoop_never_three by done. cbn [runLoop running after negb].
  unfold on_tick. cbn [consecutiveTimeouts after]. rewrite Ht. by destruct later.
Qed.

Lemma disabled_after_three_timeouts_witness :
  runLoop 1000 (start 1000) ([Failed; Timeout; Timeout] ++ Timeout :: [Succeeded; Failed])%list =
  (mkLoop 1 3 2000 false, [NError; NError; NError; NError; NDisabled]).
Proof.
  apply (disabled_after_three_timeouts 1000 [Failed; Timeout; Timeout] [Succeeded; Failed]); [|done].
  rewrite (ltac:(done) : [Failed; Timeout; Timeout] = ((([] ++ [Failed]) ++ [Timeout]) ++ [Timeout])%list).
  rewrite !never_three_snoc. split_and!; [|done..]. intros p q E. by destruct p.
Defined.

(** an error between timeouts resets the count: a collector that alternates is never disabled *)
Example alternating_never_disabled :
  running (fst (runLoop 1000 (start 1000) [Timeout; Timeout; Failed; Timeout; Timeout; Failed; Timeout; Timeout])) = true.
Proof. reflexivity. Qed.

End Runtime.
