(* ===== verification/CollectRun.v ===== *)
(** * CollectRun: collections, their goroutines, and the scheduler that waits for them

    Models the concurrency of internal/collector/runtime.go: each collection runs in a
    goroutine of its own (collectOnce), which recovers a panic and leaves its result in a
    channel of capacity one; the scheduler waits for the result or for the end of the
    collection's context, whichever its select takes. Start runs one scheduler per
    registration and Close cancels them and waits.

    [Collector.Runtime] gives what the scheduler does with the outcome of each collection;
    here every interleaving of the two is shown to be such a sequence of outcomes, and
    Close is shown not to depend on any collector. *)

From stdpp Require Import base gmap strings list.
From Stdlib Require Import ZArith Lia.
From S2P Require Import Prelude GoStd Collector.
Import GoTime Runtime.

Local Open Scope Z_scope.

Module CollectRun.

(** how Collect ends, if it does *)
Inductive ending : Set := Returns | ReturnsError | Panics.

(** the error collectOnce receives: a recovered panic is one *)
Definition received (e : ending) : tick :=
  match e with Returns => Succeeded | ReturnsError | Panics => Failed end.

(** what an [Events] receiver is told; a nil receiver is told nothing *)
Definition report (events : bool) (ns : list notice) : list notice := if events then ns else [].

(** one scheduler *)
Record sched := mkSched {
  lp : Loop;
  waiting : option nat;               (** the collection collectOnce waits for *)
  working : gset nat;                 (** goroutines whose Collect has not ended *)
  results : gmap nat ending;          (** what is in the channels of those that have *)
  started : nat;                      (** collections started *)
  cancelled : bool;                   (** the runtime's context *)
  returned : bool;                    (** runLoop has returned *)
  told : list notice;
}.

Section sched.
Context (interval : Duration) (events : bool).

Definition begin : sched := mkSched (start interval) None ∅ ∅ 0 false false [].

(** the scheduler leaves collectOnce with outcome [t] *)
Definition leave (t : tick) (s : sched) : sched :=
  let '(l, ns) := on_tick interval (lp s) t in
  mkSched l None (working s) (results s) (started s) (cancelled s) (negb (running l)) (told s ++ report events ns).

(** steps of the scheduler itself, and steps of a collector *)
Inductive own_step : sched -> sched -> Prop :=
| step_tick s :
    waiting s = None -> returned s = false ->
    own_step s (mkSched (lp s) (Some (started s)) ({[started s]} ∪ working s) (results s) (S (started s))
                  (cancelled s) false (told s))
| step_done s i e :
    waiting s = Some i -> results s !! i = Some e -> own_step s (leave (received e) s)
| step_deadline s i :
    waiting s = Some i -> own_step s (leave Timeout s)
| step_cancel s :
    own_step s (mkSched (lp s) (waiting s) (working s) (results s) (started s) true (returned s) (told s))
| step_return s :
    waiting s = None -> cancelled s = true ->
    own_step s (mkSched (lp s) None (working s) (results s) (started s) true true (told s)).

Inductive step : sched -> sched -> Prop :=
| step_own s s' : own_step s s' -> step s s'
| step_ends s i e :
    i ∈ working s ->
    step s (mkSched (lp s) (waiting s) (working s ∖ {[i]}) (<[i := e]> (results s)) (started s)
              (cancelled s) (returned s) (told s)).

Definition reachable (s : sched) : Prop := rtc step begin s.

(** *** Refinement of the sequential loop *)

(** the outcome of collection [i] is a timeout, or what its Collect came to: only a return
    without an error is a success *)
Definition came_to (s : sched) (i : nat) (t : tick) : Prop :=
  t = Timeout \/ exists e, results s !! i = Some e /\ match e with Returns => t = Succeeded | ReturnsError | Panics => t = Failed end.

(** the outcomes so far explain the state *)
Definition explained (s : sched) (ticks : list tick) : Prop :=
  lp s = (runLoop interval (start interval) ticks).1 /\
  told s = report events (runLoop interval (start interval) ticks).2 /\
  (returned s = false -> running (lp s) = true) /\
  started s = (length ticks + match waiting s with Some _ => 1 | None => 0 end)%nat /\
  (forall i, waiting s = Some i -> i = length ticks /\ running (lp s) = true) /\
  (forall i, i ∈ working s \/ is_Some (results s !! i) -> (i < started s)%nat) /\
  (forall i e, results s !! i = Some e -> i ∉ working s) /\
  (forall i t, ticks !! i = Some t -> came_to s i t).

Lemma snoc_lookup {A} (l : list A) x i y : (l ++ [x]) !! i = Some y -> l !! i = Some y \/ i = length l /\ y = x.
Proof.
  rewrite lookup_app_Some. intros [?|[Hi Hy]]; [by left|right]. apply list_lookup_singleton_Some in Hy as [Hz <-]. split; [lia|done].
Qed.

Lemma report_app ns ns' : report events (ns ++ ns') = report events ns ++ report events ns'.
Proof. by destruct events. Qed.

Lemma runLoop_snoc ticks t :
  running (runLoop interval (start interval) ticks).1 = true ->
  runLoop interval (start interval) (ticks ++ [t]) =
  let '(l, ns) := on_tick interval (runLoop interval (start interval) ticks).1 t in
  (l, (runLoop interval (start interval) ticks).2 ++ ns).
Proof.
  intros Hr. rewrite runLoop_app. destruct (runLoop interval (start interval) ticks) as [l ns]. cbn [fst snd] in *.
  cbn [runLoop]. rewrite Hr. cbn [negb]. destruct (on_tick interval l t) as [l' ns']. by rewrite app_nil_r.
Qed.

Lemma leave_explained s ticks i t :
  explained s ticks -> waiting s = Some i -> came_to s i t -> explained (leave t s) (ticks ++ [t]).
Proof.
  intros (Hl & Ht & Hr & Hst & Hw & Hlt & Hne & Hct) Hi Hit. destruct (Hw i Hi) as [-> Hrun]. rewrite Hi in Hst.
  unfold leave. rewrite Hl in Hrun |- *. pose proof (runLoop_snoc ticks t Hrun) as Hs.
  destruct (on_tick _ _ t) as [l ns]. unfold explained. rewrite Hs. cbn [lp told returned started waiting working results fst snd].
  rewrite report_app, <- Ht, length_app. split_and!; [done|done| |cbn; lia|done|done|done|].
  - by destruct (running l).
  - intros k x [Hk|[Hk Hx]]%snoc_lookup; [by apply Hct|by subst].
Qed.

Lemma step_explained s s' ticks :
  explained s ticks -> step s s' -> exists ticks', explained s' ticks' /\ ticks `prefix_of` ticks'.
Proof.
  intros He Hst. destruct Hst as [s s' Hst|s i e Hi].
  - destruct Hst as [s Hw Hret|s i e Hi Hres|s i Hi|s|s Hw Hc].
    + exists ticks. split; [|done]. destruct He as (Hl & Ht & Hr & Hst & Hws & Hlt & Hne & Hct). rewrite Hw in Hst.
      unfold explained. cbn [lp told returned started waiting working results]. split_and!; [done|done|by intros _; apply Hr|lia| | | |done].
      * intros i [= <-]. split; [lia|auto].
      * intros i Hi. assert (i = started s \/ (i < started s)%nat) as [->|]; [|lia|lia].
        destruct Hi as [[?%elem_of_singleton|?]%elem_of_union|?]; auto.
      * intros i e Hie [->%elem_of_singleton|Hin]%elem_of_union; [|by eapply Hne].
        assert (started s < started s)%nat; [apply Hlt; right; by eexists|lia].
    + exists (ticks ++ [received e]). split; [|by apply prefix_app_r]. eapply leave_explained; [done..|]. right. exists e. split; [done|by destruct e].
    + exists (ticks ++ [Timeout]). split; [|by apply prefix_app_r]. eapply leave_explained; [done..|by left].
    + exists ticks. split; [|done]. apply He.
    + exists ticks. split; [|done]. destruct He as (Hl & Ht & Hr & Hst & Hws & Hlt & Hne & Hct). rewrite Hw in Hst. by split_and!.
  - exists ticks. split; [|done]. destruct He as (Hl & Ht & Hr & Hst & Hws & Hlt & Hne & Hct).
    unfold explained. cbn [lp told returned started waiting working results]. split_and!; [done..| | |].
    + intros j [Hj|[e' Hj]]; [apply Hlt; left; set_solver|]. destruct (decide (i = j)) as [->|]; [apply Hlt; by left|].
      rewrite lookup_insert_ne in Hj by done. apply Hlt. right. by eexists.
    + intros j e'. destruct (decide (i = j)) as [->|]; [set_solver|]. rewrite lookup_insert_ne by done.
      intros Hj%Hne. set_solver.
    + intros j t [->|(e' & He' & Ht')]%Hct; [by left|right]. exists e'. split; [|done]. cbn [results].
      rewrite lookup_insert_ne; [done|]. intros <-. by eapply Hne.
Qed.

Lemma begin_explained : explained begin [].
Proof.
  unfold explained, begin. cbn [lp told returned started waiting working results]. split_and!; try done; [by destruct events|].
  intros i [Hi|[e Hi]]; [set_solver|done].
Qed.

Lemma reachable_explained s : reachable s -> exists ticks, explained s ticks.
Proof.
  unfold reachable. intros Hr. remember begin as s0 eqn:E.
  assert (exists ticks, explained s0 ticks) as H0 by (subst; exists []; apply begin_explained). clear E. revert H0.
  induction Hr as [s|s1 s2 s3 Hst _ IH]; [done|]. intros [ticks He].
  destruct (step_explained _ _ _ He Hst) as (ticks' & He' & _). apply IH. by exists ticks'.
Qed.

(** C22: Whatever the collectors do (return, fail, panic, ignore their context and go on
    in the background) and however deadlines race with results, the scheduler is in the
    state of the sequential loop after one outcome per collection it has stopped waiting
    for, a timeout or what that collection came to, a panic being a failure, and has reported exactly what that loop reports; at most one collection is waited
    for, no panic ends the scheduler, and it returns only when it was cancelled or the
    loop disabled the collector. *)
Theorem scheduler_refines_loop s :
  reachable s ->
  exists ticks,
    lp s = (runLoop interval (start interval) ticks).1 /\
    told s = report events (runLoop interval (start interval) ticks).2 /\
    started s = (length ticks + match waiting s with Some _ => 1 | None => 0 end)%nat /\
    (forall i t, ticks !! i = Some t -> came_to s i t) /\
    (returned s = true -> cancelled s = true \/ running (lp s) = false).
Proof.
  intros Hr. destruct (reachable_explained s Hr) as (ticks & Hl & Ht & _ & Hst & _ & _ & _ & Hct).
  exists ticks. split_and!; [done..|]. clear Hl Ht Hst Hct ticks. revert Hr. unfold reachable.
  assert (returned begin = true -> cancelled begin = true \/ running (lp begin) = false) as H0 by done.
  intros Hr. revert H0. generalize begin Hr. clear Hr. intros s0 Hr.
  induction Hr as [s|s1 s2 s3 Hst _ IH]; [done|]. intros H1. apply IH. clear IH s3.
  destruct Hst as [s1 s2 Hst|]; [|done]. destruct Hst as [| s i e Hi He | s i Hi | |]; cbn [returned cancelled lp]; try tauto; try done.
  - unfold leave. destruct (on_tick _ _ _) as [l ns]. cbn. destruct (running l); [done|by right].
  - unfold leave. destruct (on_tick _ _ _) as [l ns]. cbn. destruct (running l); [done|by right].
Qed.

(** Close never waits for a collector: from every reachable state, once the runtime is
    cancelled the scheduler returns by steps of its own, at most two, whether or not the
    collections in the background ever end. *)
Theorem close_needs_no_collector s :
  reachable s -> cancelled s = true -> returned s = false ->
  exists s1 s2, (s1 = s \/ own_step s s1) /\ (s2 = s1 \/ own_step s1 s2) /\ returned s2 = true /\
    working s2 = working s /\ started s2 = started s.
Proof.
  intros Hr Hc Hret. destruct (waiting s) as [i|] eqn:Hw.
  - exists (leave Timeout s). unfold leave. destruct (on_tick interval (lp s) Timeout) as [l ns] eqn:Hon.
    set (s1 := mkSched _ _ _ _ _ _ _ _).
    exists (mkSched (lp s1) None (working s1) (results s1) (started s1) true true (told s1)).
    assert (leave Timeout s = s1) as Hs1 by (unfold leave; by rewrite Hon).
    split_and!; [right; rewrite <- Hs1; by eapply step_deadline|right; by apply step_return|done..].
  - exists s, (mkSched (lp s) None (working s) (results s) (started s) true true (told s)).
    split_and!; [by left|right; by apply step_return|done..].
Qed.

(** *** Collections left behind *)

(** the scheduler is about to wait for its ticker, with no timeout pending *)
Definition idle (s : sched) : Prop :=
  reachable s /\ waiting s = None /\ returned s = false /\ consecutiveTimeouts (lp s) = 0.

(** a collection that never ends, then one that fails *)
Lemma leave_one_behind s :
  idle s -> exists s', idle s' /\ size (working s') = S (size (working s)).
Proof.
  intros (Hr & Hw & Hret & Hto).
  destruct (reachable_explained s Hr) as (ticks & _ & _ & _ & _ & _ & Hlt & _).
  set (i := started s).
  assert (i ∉ working s /\ S i ∉ working s) as [Hi Hi'].
  { split; intros Hin; [assert (i < started s)%nat by (apply Hlt; by left)|assert (S i < started s)%nat by (apply Hlt; by left)]; unfold i in *; lia. }
  set (s1 := mkSched (lp s) (Some i) ({[i]} ∪ working s) (results s) (S i) (cancelled s) false (told s)).
  assert (step s s1) as H1 by (apply step_own, step_tick; done).
  assert (step s1 (leave Timeout s1)) as H2 by (by eapply step_own, step_deadline).
  assert (leave Timeout s1 = mkSched (mkLoop (consecutiveErrors (lp s)) 1 (period (lp s)) true) None ({[i]} ∪ working s)
            (results s) (S i) (cancelled s) false (told s ++ report events [NError])) as E2.
  { unfold leave, on_tick. cbn [lp s1]. by rewrite Hto. }
  rewrite E2 in H2. set (s2 := mkSched _ _ _ _ _ _ _ _) in H2.
  set (s3 := mkSched (lp s2) (Some (S i)) ({[S i]} ∪ working s2) (results s2) (S (S i)) (cancelled s2) false (told s2)).
  assert (step s2 s3) as H3 by (apply step_own, (step_tick s2); done).
  set (s4 := mkSched (lp s3) (waiting s3) (working s3 ∖ {[S i]}) (<[S i := ReturnsError]> (results s3)) (started s3)
               (cancelled s3) (returned s3) (told s3)).
  assert (step s3 s4) as H4 by (apply step_ends; set_solver).
  assert (step s4 (leave Failed s4)) as H5.
  { apply step_own, (step_done s4 (S i) ReturnsError); [done|]. apply lookup_insert_eq. }
  exists (leave Failed s4). split.
  - split_and!; [|done..]. unfold reachable in *. do 5 (eapply rtc_r; [|eassumption]). done.
  - unfold leave. cbn [working on_tick lp s4 s3 s2].
    assert (({[S i]} ∪ ({[i]} ∪ working s)) ∖ {[S i]} = {[i]} ∪ working s) as -> by set_solver by lia.
    rewrite size_union by set_solver. by rewrite size_singleton.
Qed.

(** Nothing bounds the collections that go on in the background: a collector that ignores
    its context but fails or succeeds in between is never disabled, and each abandoned
    collection runs beside the next ones. *)
Theorem abandoned_collections_unbounded n :
  exists s, reachable s /\ running (lp s) = true /\ size (working s) = n.
Proof.
  assert (exists s, idle s /\ size (working s) = n) as (s & (Hr & Hw & Hret & Hto) & Hn).
  { induction n as [|n (s & Hs & Hn)].
    - exists begin. split; [|done]. split_and!; [apply rtc_refl|done..].
    - destruct (leave_one_behind s Hs) as (s' & Hs' & Hn'). exists s'. split; [done|]. by rewrite Hn', Hn. }
  exists s. split_and!; [done| |done]. destruct (reachable_explained s Hr) as (ticks & _ & _ & Hrun & _). auto.
Qed.

End sched.

(** ** A panic, then a cancelled collection *)

Definition demo_panicked : sched :=
  leave 1000 true Failed
    (mkSched (start 1000) (Some 0%nat) (({[0%nat]} ∪ ∅) ∖ {[0%nat]}) (<[0%nat := Panics]> ∅) 1 false false []).

Lemma panicked_reachable : reachable 1000 true demo_panicked.
Proof.
  unfold reachable, begin.
  eapply rtc_l; [apply step_own, step_tick; done|].
  eapply rtc_l; [apply (step_ends _ _ _ 0%nat Panics); set_solver|].
  eapply rtc_l; [apply step_own, (step_done _ _ _ 0%nat Panics); done|]. apply rtc_refl.
Qed.

Lemma scheduler_refines_loop_witness :
  running (lp demo_panicked) = true /\
  exists ticks, lp demo_panicked = (runLoop 1000 (start 1000) ticks).1 /\
    told demo_panicked = report true (runLoop 1000 (start 1000) ticks).2.
Proof.
  split; [reflexivity|]. destruct (scheduler_refines_loop 1000 true demo_panicked panicked_reachable) as (ticks & Hl & Ht & _).
  exists ticks. split; [exact Hl|exact Ht].
Defined.

(** the runtime is closed while a collection that never ends is waited for *)
Definition demo_closing : sched :=
  mkSched (start 1000) (Some 0%nat) ({[0%nat]} ∪ ∅) ∅ 1 true false [].

Lemma close_needs_no_collector_witness :
  exists s2, returned s2 = true /\ working s2 = working demo_closing.
Proof.
  destruct (close_needs_no_collector 1000 true demo_closing) as (s1 & s2 & _ & _ & Hr & Hw & _).
  - unfold reachable, begin. eapply rtc_l; [apply step_own, step_tick; reflexivity|].
    eapply rtc_l; [apply step_own, step_cancel|]. apply rtc_refl.
  - reflexivity.
  - reflexivity.
  - exists s2. split; [exact Hr|exact Hw].
Defined.

(** stopping the agent during a collection is reported as a timeout of that collection *)
Example cancellation_counts_as_timeout :
  told (leave 1000 true Timeout demo_closing) = [NError] /\
  consecutiveTimeouts (lp (leave 1000 true Timeout demo_closing)) = 1.
Proof. done. Qed.

End CollectRun.
