(* ===== verification/Calendar.v ===== *)
(** * Calendar: the civil dates of Go's time package

    The parts of package time the storage layers use: the (proleptic Gregorian) month and
    day of an instant in UTC, [AddDate(0, 1, 0)] with its normalisation, and the layout
    2006-01. Instants are those of [GoTime]: nanoseconds since 0001-01-01.

    Months are counted from January of year 1, so month [k] is month [k mod 12] (from 0)
    of year [k / 12 + 1]. *)

From stdpp Require Import base strings list.
From Stdlib Require Import ZArith Lia Ascii.
From S2P Require Import Prelude GoStd.
Import GoTime.

Local Open Scope Z_scope.

Module Calendar.

Definition day : Z := 24 * hour.

Definition leap (y : Z) : bool := (y mod 4 =? 0) && (negb (y mod 100 =? 0) || (y mod 400 =? 0)).

(** days before January 1 of year [y + 1] *)
Definition year_start (y : Z) : Z := 365 * y + y / 4 - y / 100 + y / 400.

Definition days_before (m : Z) : Z :=
  nth (Z.to_nat m) [0; 31; 59; 90; 120; 151; 181; 212; 243; 273; 304; 334] 0.

(** the day, counted from 0001-01-01, on which month [k] begins *)
Definition month_start (k : Z) : Z :=
  year_start (k / 12) + days_before (k mod 12) +
  (if leap (k / 12 + 1) && (2 <=? k mod 12) then 1 else 0).

(** the month of a day: an estimate with the mean month length, then the month itself *)
Definition month_of_day (d : Z) : Z :=
  let k := d * 4800 / 146097 in
  if d <? month_start k then k - 1
  else if d <? month_start (k + 1) then k
  else k + 1.

Definition day_of (t : Time) : Z := t / day.
Definition clock_of (t : Time) : Z := t mod day.
Definition month_of (t : Time) : Z := month_of_day (day_of t).
(** the day of the month, from 0 *)
Definition mday (t : Time) : Z := day_of t - month_start (month_of t).

(** t.AddDate(0, 1, 0): the same day number and clock in the next month; a day that month
    does not have runs over into the month after it. *)
Definition add_month (t : Time) : Time := (month_start (month_of t + 1) + mday t) * day + clock_of t.

(** *** Printing with the layout 2006-01 *)
Definition digit (z : Z) : ascii := ascii_of_nat (48 + Z.to_nat (z mod 10)).

Definition four_digits (y : Z) : string :=
  String (digit (y / 1000)) (String (digit (y / 100)) (String (digit (y / 10)) (String (digit y) ""))).
Definition two_digits (m : Z) : string := String (digit (m / 10)) (String (digit m) "").

Definition format_month (k : Z) : string :=
  (four_digits (k / 12 + 1) ++ "-" ++ two_digits (k mod 12 + 1))%string.

Example format_month_2026_07 : format_month (12 * 2025 + 6) = "2026-07"%string.
Proof. reflexivity. Qed.
Example unix_epoch_date : month_of unix_epoch = 12 * 1969 /\ mday unix_epoch = 0.
Proof. done. Qed.

(** *** The calendar's laws *)

(** evaluate the table of days at the literal months of the goal *)
Ltac eval_days :=
  repeat match goal with
  | |- context [days_before ?m] =>
      let v := eval vm_compute in (days_before m) in change (days_before m) with v
  | |- context [(2 <=? ?m)%Z] =>
      let v := eval vm_compute in (2 <=? m)%Z in change (2 <=? m)%Z with v
  end; cbn [andb orb].

Lemma mod12_cases (P : Z -> Prop) m :
  0 <= m < 12 -> P 0 -> P 1 -> P 2 -> P 3 -> P 4 -> P 5 -> P 6 -> P 7 -> P 8 -> P 9 -> P 10 -> P 11 -> P m.
Proof.
  intros Hm. intros.
  assert (m = 0 \/ m = 1 \/ m = 2 \/ m = 3 \/ m = 4 \/ m = 5 \/ m = 6 \/ m = 7 \/ m = 8 \/ m = 9 \/
          m = 10 \/ m = 11) as Hc by lia.
  destruct_or! Hc; by subst.
Qed.

Lemma month_split k : exists y m, k = 12 * y + m /\ 0 <= m < 12.
Proof. exists (k / 12), (k mod 12). pose proof (Z.div_mod k 12). pose proof (Z.mod_pos_bound k 12). lia. Qed.

Lemma month_start_split y m :
  0 <= m < 12 ->
  month_start (12 * y + m) = year_start y + days_before m + (if leap (y + 1) && (2 <=? m) then 1 else 0).
Proof.
  intros Hm. unfold month_start.
  assert ((12 * y + m) / 12 = y) as -> by (Z.div_mod_to_equations; lia).
  assert ((12 * y + m) mod 12 = m) as -> by (Z.div_mod_to_equations; lia). done.
Qed.

Lemma year_start_succ y : year_start (y + 1) = year_start y + 365 + (if leap (y + 1) then 1 else 0).
Proof.
  unfold year_start, leap.
  destruct (Z.eqb_spec ((y + 1) mod 4) 0), (Z.eqb_spec ((y + 1) mod 100) 0), (Z.eqb_spec ((y + 1) mod 400) 0);
    simpl; Z.div_mod_to_equations; lia.
Qed.

(** a month has between 28 and 31 days *)
Lemma month_length k : 28 <= month_start (k + 1) - month_start k <= 31.
Proof.
  destruct (month_split k) as (y & m & -> & Hm).
  destruct (decide (m = 11)) as [->|].
  - replace (12 * y + 11 + 1) with (12 * (y + 1) + 0) by lia.
    rewrite !month_start_split, year_start_succ by lia.
    destruct (leap (y + 1)), (leap (y + 1 + 1)); eval_days; lia.
  - replace (12 * y + m + 1) with (12 * y + (m + 1)) by lia. rewrite !month_start_split by lia.
    revert n. pattern m. apply mod12_cases; [done|..]; intros n;
      destruct (leap (y + 1)); eval_days; lia.
Qed.

Lemma month_start_mono_nat k n : month_start k + 28 * Z.of_nat n <= month_start (k + Z.of_nat n).
Proof.
  induction n as [|n IH]; [change (Z.of_nat 0) with 0; rewrite !Z.add_0_r; lia|].
  pose proof (month_length (k + Z.of_nat n)).
  replace (k + Z.of_nat (S n)) with (k + Z.of_nat n + 1) by lia. lia.
Qed.

Lemma month_start_mono j k : j <= k -> month_start j + 28 * (k - j) <= month_start k.
Proof.
  intros Hjk. pose proof (month_start_mono_nat j (Z.to_nat (k - j))) as Hm.
  rewrite !Z2Nat.id in Hm by lia. replace (j + (k - j)) with k in Hm by lia. done.
Qed.

Lemma month_start_lt j k : month_start j < month_start k -> j < k.
Proof. intros H. destruct (Z.lt_ge_cases j k); [done|]. pose proof (month_start_mono k j). lia. Qed.

(** month [k] begins within five days of [k] mean months *)
Lemma month_start_estimate k :
  146097 * k - 24000 <= 4800 * month_start k <= 146097 * k + 24000.
Proof.
  destruct (month_split k) as (y & m & -> & Hm). rewrite month_start_split by done.
  assert (1752000 * y + 1164 * y - 9600 <= 4800 * year_start y <= 1752000 * y + 1164 * y + 4800) as Hy.
  { unfold year_start. Z.div_mod_to_equations; lia. }
  assert (146097 * m - 14000 <= 4800 * (days_before m + (if leap (y + 1) && (2 <=? m) then 1 else 0)) <=
          146097 * m + 14000) as Hd.
  { pattern m. apply mod12_cases; [done|..]; destruct (leap (y + 1)); eval_days; lia. }
  lia.
Qed.

Lemma month_of_day_spec d : month_start (month_of_day d) <= d < month_start (month_of_day d + 1).
Proof.
  unfold month_of_day. set (k := d * 4800 / 146097).
  assert (146097 * k <= 4800 * d < 146097 * k + 146097) as Hk.
  { subst k. Z.div_mod_to_equations; lia. }
  pose proof (month_start_estimate (k - 1)). pose proof (month_start_estimate (k + 2)).
  destruct (Z.ltb_spec d (month_start k)).
  { replace (k - 1 + 1) with k by lia. lia. }
  destruct (Z.ltb_spec d (month_start (k + 1))); [done|].
  replace (k + 1 + 1) with (k + 2) by lia. lia.
Qed.

Lemma month_of_day_unique d k : month_start k <= d < month_start (k + 1) -> month_of_day d = k.
Proof.
  intros Hd. pose proof (month_of_day_spec d).
  assert (month_of_day d < k + 1) by (apply month_start_lt; lia).
  assert (k < month_of_day d + 1) by (apply month_start_lt; lia). lia.
Qed.

Lemma month_of_mono t u : t <= u -> month_of t <= month_of u.
Proof.
  intros Htu. unfold month_of.
  pose proof (month_of_day_spec (day_of t)). pose proof (month_of_day_spec (day_of u)).
  assert (day_of t <= day_of u) by (apply Z.div_le_mono; done).
  assert (month_of_day (day_of t) < month_of_day (day_of u) + 1) by (apply month_start_lt; lia). lia.
Qed.

Lemma mday_bounds t : 0 <= mday t < 31.
Proof.
  unfold mday, month_of. pose proof (month_of_day_spec (day_of t)).
  pose proof (month_length (month_of_day (day_of t))). lia.
Qed.

Lemma clock_bounds t : 0 <= clock_of t < day.
Proof. by apply Z.mod_pos_bound. Qed.

(** an instant is its month, day of the month and clock *)
Lemma date_split t : t = (month_start (month_of t) + mday t) * day + clock_of t.
Proof.
  unfold mday, clock_of, day_of. pose proof (Z.div_mod t day ltac:(done)). lia.
Qed.

Lemma date_day d c : 0 <= c < day -> day_of (d * day + c) = d /\ clock_of (d * day + c) = c.
Proof.
  intros Hc. unfold day_of, clock_of. rewrite Z.div_add_l, Z.div_small by done.
  split; [lia|]. rewrite Z.add_comm, Z.mod_add by done. by apply Z.mod_small.
Qed.

(** up to the 28th, AddDate(0, 1, 0) is the same day of the next month *)
Lemma add_month_28 t :
  mday t < 28 -> month_of (add_month t) = month_of t + 1 /\ mday (add_month t) = mday t /\
                 clock_of (add_month t) = clock_of t.
Proof.
  intros Ht. pose proof (mday_bounds t). unfold add_month.
  destruct (date_day (month_start (month_of t + 1) + mday t) (clock_of t) (clock_bounds t)) as [Hd Hc].
  assert (month_of ((month_start (month_of t + 1) + mday t) * day + clock_of t) = month_of t + 1) as Hm.
  { unfold month_of at 1. rewrite Hd. apply month_of_day_unique. pose proof (month_length (month_of t + 1)). lia. }
  split; [done|]. split; [|done]. unfold mday at 1. rewrite Hd, Hm. lia.
Qed.

(** it always moves to a later month *)
Lemma add_month_later t : month_of t + 1 <= month_of (add_month t).
Proof.
  pose proof (mday_bounds t). unfold add_month.
  destruct (date_day (month_start (month_of t + 1) + mday t) (clock_of t) (clock_bounds t)) as [Hd _].
  unfold month_of at 2. rewrite Hd.
  pose proof (month_of_day_spec (month_start (month_of t + 1) + mday t)).
  assert (month_of t + 1 < month_of_day (month_start (month_of t + 1) + mday t) + 1)
    by (apply month_start_lt; lia). lia.
Qed.

(** January 31 plus a month is March 3 *)
Example add_month_january_31 :
  let jan31 := (month_start (12 * 2025) + 30) * day in
  month_of (add_month jan31) = 12 * 2025 + 2 /\ mday (add_month jan31) = 2.
Proof. done. Qed.

End Calendar.
