(* ===== verification/FaultCluster.v ===== *)
(** * FaultCluster: segfaults that gather on one CPU core

    Models internal/faultcluster: topology.go ([Topology]: which core a logical CPU
    belongs to, read from /sys), binomial.go ([Binomial]: the probability that so many
    faults on one core are chance) and tracker.go ([Tracker]).

    Files are what reading them gives. math.Pow and the %.6f format are parameters. The
    loop of the binomial test is written over any numbers: with float64 it is the code,
    with rationals it is proved to be the exact tail of the distribution. *)

From stdpp Require Import base gmap strings list sorting.
From Stdlib Require Import ZArith Lia Ascii QArith.
From Stdlib Require SpecFloat.
From S2P Require Import Prelude GoStd GoConv Schema.
Import GoString GoTime GoFloat GoConv Schema.

Local Open Scope string_scope.
Local Open Scope Z_scope.

(** ** Topology *)
Module Topology.

Definition CoreTypeP : string := "p-core".
Definition CoreTypeE : string := "e-core".
Definition CoreTypeUnknown : string := "unknown".

Record Topology := mkTopology {
  LogicalToCore : gmap Z Z;
  CoreType : gmap Z string;
  Online : gmap Z bool;
}.

(** the regular expression ^cpu(\d+)$ and Atoi of its group *)
Definition parseCPUDirName (name : string) : option Z :=
  match trim_prefix_go "cpu" name with
  | None => None
  | Some rest =>
      match unsigned rest with
      | None => None
      | Some n => if n <=? max_int64 then Some n else None
      end
  end.

Definition comma : ascii := ","%char.
Definition dash : ascii := "-"%char.

(** the CPUs of [lo-hi] *)
Definition range (lo hi : Z) : gset Z := list_to_set (seqZ lo (hi - lo + 1)).

Definition add_part (set : gset Z) (part : string) : gset Z :=
  let part := TrimSpace part in
  if bool_decide (part = "") then set
  else match cut_byte dash part with
       | Some (lo, hi) =>
           match Atoi lo, Atoi hi with
           | Some loN, Some hiN => set ∪ range loN hiN
           | _, _ => set
           end
       | None => match Atoi part with Some n => {[n]} ∪ set | None => set end
       end.

Definition parseCPUList (s : string) : gset Z :=
  if bool_decide (s = "") then ∅ else fold_left add_part (split_byte comma s) ∅.

Section read.
(** os.ReadFile of a path under sysRoot *)
Variable ReadFile : list string -> option string.

Definition hybridCPUSet (pmuName : string) : gset Z :=
  match ReadFile ["bus"; "event_source"; "devices"; pmuName; "cpus"] with
  | None => ∅
  | Some raw => parseCPUList (TrimSpace raw)
  end.

Definition cpuRoot : list string := ["devices"; "system"; "cpu"].

Definition read_cpu (t : Topology) (name : string) : Topology :=
  match parseCPUDirName name with
  | None => t
  | Some id =>
      let coreID :=
        match ReadFile (cpuRoot ++ [name; "topology"; "core_id"])%list with
        | None => id
        | Some raw => default id (Atoi (TrimSpace raw))
        end in
      let online :=
        match ReadFile (cpuRoot ++ [name; "online"])%list with
        | None => true
        | Some raw => bool_decide (TrimSpace raw = "1")
        end in
      mkTopology (<[id := coreID]> (LogicalToCore t)) (<[id := CoreTypeUnknown]> (CoreType t))
                 (<[id := online]> (Online t))
  end.

Definition mark (kind : string) (t : Topology) (id : Z) : Topology :=
  match LogicalToCore t !! id with
  | None => t
  | Some _ => mkTopology (LogicalToCore t) (<[id := kind]> (CoreType t)) (Online t)
  end.

(** [entries]: the names of the directory, or [None] when it cannot be read *)
Definition ReadTopology (entries : option (list string)) : option Topology :=
  match entries with
  | None => None
  | Some names =>
      let t := fold_left read_cpu names (mkTopology ∅ ∅ ∅) in
      let t := fold_left (mark CoreTypeP) (elements (hybridCPUSet "cpu_core")) t in
      Some (fold_left (mark CoreTypeE) (elements (hybridCPUSet "cpu_atom")) t)
  end.

End read.

Definition OfflineCPUs (t : Topology) : list Z :=
  merge_sort Z.le (fst <$> List.filter (fun p => negb (snd p)) (map_to_list (Online t))).

Definition ActiveCores (t : Topology) : gset Z :=
  list_to_set (snd <$> List.filter (fun p => default false (Online t !! fst p)) (map_to_list (LogicalToCore t))).

(** *** The kernel's list format *)

Definition show_range (r : Z * Z) : string :=
  let '(lo, hi) := r in if lo =? hi then show lo else show lo ++ String dash (show hi).

Definition show_list (rs : list (Z * Z)) : string :=
  match rs with
  | [] => ""
  | r :: rest => show_range r ++ join_after comma (show_range <$> rest)
  end.

Definition cpu_range (r : Z * Z) : Prop := 0 <= r.1 <= r.2 /\ r.2 <= max_int64.

Lemma show_range_chars r c :
  cpu_range r -> c ∈ String.list_ascii_of_string (show_range r) -> is_digit c = true \/ c = dash.
Proof.
  destruct r as [lo hi]. intros [[Hlo Hhi] _] Hc. cbn [fst snd] in *. unfold show_range in Hc.
  destruct (lo =? hi); [left; apply (show_digits lo); [lia|done]|].
  assert (forall a b, c ∈ String.list_ascii_of_string (a ++ b) ->
            c ∈ String.list_ascii_of_string a \/ c ∈ String.list_ascii_of_string b) as Happ.
  { intros a b. induction a as [|d a IH]; [by right|]. rewrite str_app_cons. cbn [String.list_ascii_of_string].
    intros [->|Hd]%elem_of_cons; [left; by left|]. destruct (IH Hd); [left; by right|by right]. }
  apply Happ in Hc as [Hc|Hc]; [left; apply (show_digits lo); [lia|done]|].
  cbn [String.list_ascii_of_string] in Hc. apply elem_of_cons in Hc as [->|Hc]; [by right|].
  left. apply (show_digits hi); [lia|done].
Qed.

Lemma show_range_lacks r : cpu_range r -> lacks comma (show_range r) = true /\ no_space (show_range r).
Proof.
  intros Hr. split.
  - apply lacks_of_all. intros d Hd ->. by destruct (show_range_chars r _ Hr Hd).
  - intros c Hc. destruct (show_range_chars r c Hr Hc) as [Hd| ->]; [|done].
    unfold is_digit, is_space in *. zbool. apply orb_false_iff. split; [apply Z.eqb_neq; lia|].
    apply andb_false_iff. right. apply Z.leb_gt. lia.
Qed.

Lemma show_range_nonempty r : cpu_range r -> show_range r <> "".
Proof.
  destruct r as [lo hi]. intros [[Hlo Hhi] _]. cbn [fst snd] in *. unfold show_range.
  destruct (show_go_head (S (Z.to_nat (Z.log2 lo))) lo "" ltac:(lia) Hlo) as (d & s & Hs & _).
  fold (show lo) in Hs. rewrite Hs. by destruct (lo =? hi).
Qed.

Lemma add_part_range set r : cpu_range r -> add_part set (show_range r) = set ∪ range r.1 r.2.
Proof.
  intros Hr. unfold add_part. rewrite TrimSpace_id by by apply show_range_lacks.
  rewrite bool_decide_eq_false_2 by by apply show_range_nonempty.
  destruct r as [lo hi]. destruct Hr as [[Hlo Hhi] Hm]. cbn [fst snd] in *. unfold show_range.
  destruct (Z.eqb_spec lo hi) as [->|Hne].
  - rewrite cut_byte_lacks by by apply show_lacks. rewrite Atoi_show by lia.
    apply leibniz_equiv. unfold range. intros x. rewrite !elem_of_union, elem_of_singleton, elem_of_list_to_set, elem_of_seqZ.
    intuition lia.
  - rewrite cut_byte_lacks_app by by apply show_lacks. by rewrite !Atoi_show by lia.
Qed.

(** The kernel's cpu-list format is read back exactly: the CPUs of a list of numbers and
    ranges are the union of the ranges, in whatever order they are written. *)
Theorem cpu_list_roundtrip rs x :
  Forall cpu_range rs ->
  x ∈ parseCPUList (show_list rs) <-> exists r, r ∈ rs /\ r.1 <= x <= r.2.
Proof.
  intros Hrs. assert (forall l acc, Forall cpu_range l ->
    x ∈ fold_left add_part (show_range <$> l) acc <-> x ∈ acc \/ exists r, r ∈ l /\ r.1 <= x <= r.2) as Hf.
  { induction l as [|r l IH]; intros acc Hl.
    { cbn. split; [by left|]. intros [?|(r & []%elem_of_nil & _)]; done. }
    apply Forall_cons in Hl as [Hr Hl]. rewrite fmap_cons. cbn [fold_left]. rewrite (IH _ Hl), (add_part_range _ _ Hr).
    unfold range. rewrite elem_of_union, elem_of_list_to_set, elem_of_seqZ. split.
    - intros [[?|?]|(r' & ? & ?)]; [by left|right|right].
      + exists r. split; [by left|lia].
      + exists r'. split; [by right|done].
    - intros [?|(r' & [->|?]%elem_of_cons & ?)]; [by left; left|left; right; lia|right; by exists r']. }
  destruct rs as [|r rs].
  { split; [done|]. intros (r & []%elem_of_nil & _). }
  apply Forall_cons in Hrs as [Hr Hrs]. unfold parseCPUList. rewrite bool_decide_eq_false_2.
  2: { cbn [show_list]. pose proof (show_range_nonempty r Hr). by destruct (show_range r). }
  cbn [show_list]. rewrite split_byte_join_after; [|by apply show_range_lacks|].
  2: { apply Forall_fmap, (Forall_impl _ _ _ Hrs). intros r' Hr'. by apply show_range_lacks. }
  rewrite <- fmap_cons, Hf by by apply Forall_cons. set_solver.
Qed.

Lemma cpu_list_roundtrip_witness : 10 ∈ parseCPUList (show_list [(0, 3); (8, 8); (10, 11)]) /\
  show_list [(0, 3); (8, 8); (10, 11)] = "0-3,8,10-11".
Proof.
  split; [|reflexivity]. apply cpu_list_roundtrip.
  - repeat (apply Forall_cons; split; [split; [split|]; vm_compute; discriminate|]). by apply Forall_nil.
  - exists (10, 11). split; [right; right; by left|]. cbn. lia.
Defined.

End Topology.

(** ** The binomial test *)
Module Binomial.

(** the arithmetic the loop uses *)
Record Num (A : Type) := mkNum {
  n_add : A -> A -> A; n_mul : A -> A -> A; n_div : A -> A -> A; n_of_Z : Z -> A }.
Arguments n_add {A}. Arguments n_mul {A}. Arguments n_div {A}. Arguments n_of_Z {A}.

(** the loop from [i], with [fuel] turns left *)
Fixpoint tail_loop {A} (N : Num A) (n k : Z) (p q : A) (fuel : nat) (i : Z) (term sum : A) : A :=
  match fuel with
  | O => sum
  | S fuel =>
      let term :=
        if 0 <? i
        then n_mul N term (n_div N (n_mul N (n_div N (n_of_Z N (n - i + 1)) (n_of_Z N i)) p) q)
        else term in
      let sum := if k <=? i then n_add N sum term else sum in
      tail_loop N n k p q fuel (i + 1) term sum
  end.

Definition float_num : Num float64 :=
  mkNum _ (SpecFloat.SFadd prec emax) (SpecFloat.SFmul prec emax) (SpecFloat.SFdiv prec emax) f_of_Z.

Section code.
Variable Pow : float64 -> float64 -> float64.

Definition upperTailPValue (n k : Z) (p : float64) : float64 :=
  if k <=? 0 then f_of_Z 1
  else if (n <=? 0) || (n <? k) then f_zero
  else if SpecFloat.SFleb p f_zero then f_zero
  else if SpecFloat.SFleb (f_of_Z 1) p then f_of_Z 1
  else
    let q := SpecFloat.SFsub prec emax (f_of_Z 1) p in
    let term := Pow q (f_of_Z n) in
    let sum := tail_loop float_num n k p q (Z.to_nat (n + 1)) 0 term f_zero in
    if fgt sum (f_of_Z 1) then f_of_Z 1 else sum.
End code.

(** *** The exact tail *)

Fixpoint choose (n k : nat) : Z :=
  match n, k with
  | _, O => 1
  | O, S _ => 0
  | S n', S k' => choose n' k' + choose n' k
  end.

Lemma choose_small n k : (n < k)%nat -> choose n k = 0.
Proof.
  revert k. induction n as [|n IH]; intros [|k] Hk; try lia; [done|]. cbn [choose].
  rewrite !IH by lia. done.
Qed.

(** the ratio of neighbouring coefficients, which the loop multiplies by *)
Lemma choose_ratio n k : (Z.of_nat k + 1) * choose n (S k) = (Z.of_nat n - Z.of_nat k) * choose n k.
Proof.
  revert k. induction n as [|n IH]; intros k.
  { destruct k; cbn [choose]; lia. }
  change (choose (S n) (S k)) with (choose n k + choose n (S k)).
  rewrite Z.mul_add_distr_l, IH. destruct k as [|k].
  - destruct n; cbn [choose]; lia.
  - change (choose (S n) (S k)) with (choose n k + choose n (S k)).
    pose proof (IH k) as Hk. nia.
Qed.

Local Open Scope Q_scope.

Fixpoint qpow (x : Q) (n : nat) : Q := match n with O => 1 | S n => x * qpow x n end.

(** P(X = i) for X binomial with [n] trials *)
Definition mass (n : nat) (p q : Q) (i : nat) : Q := inject_Z (choose n i) * qpow p i * qpow q (n - i).

(** the sum of [f] over [i], ..., [i + m - 1] *)
Fixpoint qsum (f : nat -> Q) (i m : nat) : Q := match m with O => 0 | S m => f i + qsum f (S i) m end.

Definition rational_num : Num Q := mkNum _ Qplus Qmult Qdiv inject_Z.

Lemma mass_step n p q i :
  ~ q == 0 -> (S i <= n)%nat ->
  mass n p q i * (inject_Z (Z.of_nat n - Z.of_nat (S i) + 1) / inject_Z (Z.of_nat (S i)) * p / q) ==
  mass n p q (S i).
Proof.
  intros Hq Hi. unfold mass. replace (n - i)%nat with (S (n - S i)) by lia. cbn [qpow].
  assert (inject_Z (choose n i) * inject_Z (Z.of_nat n - Z.of_nat (S i) + 1) ==
          inject_Z (Z.of_nat (S i)) * inject_Z (choose n (S i))) as Hr.
  { rewrite <- !inject_Z_mult. apply inject_Z_injective. pose proof (choose_ratio n i). lia. }
  assert (~ inject_Z (Z.of_nat (S i)) == 0) as Hs.
  { intros E. apply (inject_Z_injective (Z.of_nat (S i)) 0) in E. lia. }
  transitivity (inject_Z (choose n i) * inject_Z (Z.of_nat n - Z.of_nat (S i) + 1) *
                (p * qpow p i * qpow q (n - S i)) / inject_Z (Z.of_nat (S i))); [by field|].
  rewrite Hr. by field.
Qed.

(** the masses from [i] on, those below [k] left out *)
Definition kept (n : nat) (p q : Q) (k i : nat) : Q := if (k <=? i)%nat then mass n p q i else 0.

Lemma tail_loop_exact n k p q fuel i term sum :
  ~ q == 0 -> (i + fuel = S n)%nat ->
  (match i with O => term == mass n p q 0 | S j => term == mass n p q j end) ->
  tail_loop rational_num (Z.of_nat n) (Z.of_nat k) p q fuel (Z.of_nat i) term sum ==
  sum + qsum (kept n p q k) i fuel.
Proof.
  intros Hq. revert i term sum. induction fuel as [|fuel IH]; intros i term sum Hi Ht.
  { cbn. by rewrite Qplus_0_r. }
  cbn [tail_loop qsum]. cbn [n_add n_mul n_div n_of_Z rational_num].
  set (term' := if (0 <? Z.of_nat i)%Z then _ else _).
  assert (term' == mass n p q i) as Ht'.
  { subst term'. destruct i as [|j]; [exact Ht|]. destruct (Z.ltb_spec 0 (Z.of_nat (S j))); [|lia].
    rewrite Ht. apply mass_step; [done|lia]. }
  set (sum' := if (Z.of_nat k <=? Z.of_nat i)%Z then _ else _).
  assert (sum' == sum + kept n p q k i) as Hs.
  { subst sum'. unfold kept. destruct (Z.leb_spec (Z.of_nat k) (Z.of_nat i)), (Nat.leb_spec k i); try lia.
    - by rewrite Ht'.
    - by rewrite Qplus_0_r. }
  replace (Z.of_nat i + 1)%Z with (Z.of_nat (S i)) by lia.
  rewrite IH; [|lia|done]. rewrite Hs. by rewrite Qplus_assoc.
Qed.

(** leaving out the masses below [k] is starting at [k] *)
Lemma qsum_kept n p q k m i : (i + m = S n)%nat -> (i <= k <= S n)%nat ->
  qsum (kept n p q k) i m == qsum (mass n p q) k (S n - k).
Proof.
  revert i. induction m as [|m IH]; intros i Hi Hk.
  { replace (S n - k)%nat with O by lia. done. }
  destruct (decide (i = k)) as [->|Hne].
  - replace (S n - k)%nat with (S m) by lia. clear IH Hk.
    assert (forall j m, (k <= j)%nat -> qsum (kept n p q k) j m == qsum (mass n p q) j m) as Hsame.
    { intros j m'. revert j. induction m' as [|m' IHm]; intros j Hj; [done|]. cbn [qsum].
      rewrite IHm by lia. unfold kept. by rewrite (proj2 (Nat.leb_le k j) Hj). }
    by apply Hsame.
  - cbn [qsum]. rewrite IH by lia. unfold kept. rewrite (proj2 (Nat.leb_gt k i)) by lia. by rewrite Qplus_0_l.
Qed.

(** C39: The loop of the binomial test, in exact arithmetic and started at P(X = 0), computes
    the upper tail of the binomial distribution: the sum of C(n,i) p^i q^(n-i) over the
    i from k to n. *)
Theorem upper_tail_exact n k p q :
  ~ q == 0 -> (k <= n)%nat ->
  tail_loop rational_num (Z.of_nat n) (Z.of_nat k) p q (Z.to_nat (Z.of_nat n + 1)) 0 (qpow q n) 0 ==
  qsum (mass n p q) k (S n - k).
Proof.
  intros Hq Hk. replace (Z.to_nat (Z.of_nat n + 1)) with (S n) by lia.
  change 0%Z with (Z.of_nat 0). rewrite (tail_loop_exact n k p q (S n) 0); [|done|lia|].
  - rewrite qsum_kept by lia. by rewrite Qplus_0_l.
  - unfold mass. replace (choose n 0) with 1%Z by by destruct n. rewrite Nat.sub_0_r. cbn [qpow].
    change (inject_Z 1) with 1. by rewrite !Qmult_1_l.
Qed.

(** five faults of six on one of four cores: 19/4096 *)
Lemma upper_tail_exact_witness :
  tail_loop rational_num 6 5 (1 # 4) (3 # 4) 7 0 (qpow (3 # 4) 6) 0 == 19 # 4096 /\
  qsum (mass 6 (1 # 4) (3 # 4)) 5 2 == 19 # 4096.
Proof.
  split; [|reflexivity]. rewrite (upper_tail_exact 6 5 (1 # 4) (3 # 4)); [reflexivity|discriminate|lia].
Defined.

End Binomial.

(** ** The tracker *)
Module Tracker.
Import Topology Binomial.

Definition MinSamples : Z := 5.
(** 0.01 *)
Definition MaxPValue : float64 := SpecFloat.SFdiv prec emax (f_of_Z 1) (f_of_Z 100).

Definition show_int (z : Z) : string := if z <? 0 then String dash (show (- z)) else show z.

Record Tracker := mkTracker {
  topo : Topology;
  countByCore : gmap Z Z;
  total : Z;
  flagged : gset Z;
}.

Definition NewTracker (t : Topology) : Tracker := mkTracker t ∅ 0 ∅.

Section tracker.
Variable Pow : float64 -> float64 -> float64.
Variable fmt6 : float64 -> string.        (** fmt.Sprintf("%.6f", x) *)

Definition buildEvent (ulid : string) (t : Tracker) (hostID comm : string) (coreID logicalCPU k n : Z)
    (pValue : float64) (now : Time) : Event :=
  let attrs : gmap string string := list_to_map
    [("comm", comm); ("core_id", show_int coreID); ("cpu", show_int logicalCPU); ("fault_count", show_int k);
     ("total_faults", show_int n); ("p_value", fmt6 pValue);
     ("core_type", default "" (CoreType (topo t) !! logicalCPU))] in
  mkEvent ulid now 0 hostID "faultcluster" "hw.cpu_fault_cluster" "warn"
    (show_int k ++ " of " ++ show_int n ++ " segfaults clustered on physical core " ++ show_int coreID)
    (mkSubject "cpu_core" (show_int coreID) 0) attrs "" [] CurrentSchemaVersion.

(** one reported segfault *)
Record Fault := mkFault { f_host : string; f_comm : string; f_cpu : Z; f_now : Time; f_ulid : string }.

(** the p-value Observe computes for [k] of [n] faults *)
Definition pvalue (tp : Topology) (n k : Z) : float64 :=
  upperTailPValue Pow n k (SpecFloat.SFdiv prec emax (f_of_Z 1) (f_of_Z (Z.of_nat (size (ActiveCores tp))))).

Definition Observe (f : Fault) (t : Tracker) : option Event * Tracker :=
  match LogicalToCore (topo t) !! f_cpu f with
  | None => (None, t)
  | Some coreID =>
      let k := default 0 (countByCore t !! coreID) + 1 in
      let t := mkTracker (topo t) (<[coreID := k]> (countByCore t)) (total t + 1) (flagged t) in
      if bool_decide (coreID ∈ flagged t) || (k <? MinSamples) then (None, t)
      else
        let activeCores := Z.of_nat (size (ActiveCores (topo t))) in
        if activeCores <=? 0 then (None, t)
        else
          let pValue := pvalue (topo t) (total t) k in
          if SpecFloat.SFleb MaxPValue pValue then (None, t)      (** pValue >= MaxPValue *)
          else
            (Some (buildEvent (f_ulid f) t (f_host f) (f_comm f) coreID (f_cpu f) k (total t) pValue (f_now f)),
             mkTracker (topo t) (countByCore t) (total t) ({[coreID]} ∪ flagged t))
  end.

(** *** Each bad core is reported once, when its share becomes significant *)

Definition core_of (tp : Topology) (f : Fault) : option Z := LogicalToCore tp !! f_cpu f.

Definition faults_on (tp : Topology) (c : Z) (fs : list Fault) : Z :=
  Z.of_nat (length (List.filter (fun f => bool_decide (core_of tp f = Some c)) fs)).
Definition resolved (tp : Topology) (fs : list Fault) : Z :=
  Z.of_nat (length (List.filter (fun f => bool_decide (is_Some (core_of tp f))) fs)).

Definition significant (tp : Topology) (fs : list Fault) (c : Z) : Prop :=
  MinSamples <= faults_on tp c fs /\ 0 < Z.of_nat (size (ActiveCores tp)) /\
  SpecFloat.SFleb MaxPValue (pvalue tp (resolved tp fs) (faults_on tp c fs)) = false.

(** the cores reported so far, with their events, and the tracker *)
Definition observe_step (acc : list (Z * Event) * Tracker) (f : Fault) : list (Z * Event) * Tracker :=
  let '(evs, t) := acc in
  match Observe f t with
  | (None, t) => (evs, t)
  | (Some e, t) => ((evs ++ [(default 0 (core_of (topo t) f), e)])%list, t)
  end.

Definition observe_all (tp : Topology) (fs : list Fault) : list (Z * Event) * Tracker :=
  fold_left observe_step fs ([], NewTracker tp).

(** at some point of the history a fault on core [c] made it significant *)
Definition became_significant (tp : Topology) (fs : list Fault) (c : Z) : Prop :=
  exists p f q, fs = (p ++ f :: q)%list /\ core_of tp f = Some c /\ significant tp (p ++ [f])%list c.

Record tracked (tp : Topology) (fs : list Fault) (evs : list (Z * Event)) (t : Tracker) : Prop := mkTracked {
  tr_topo : topo t = tp;
  tr_count : forall c, default 0 (countByCore t !! c) = faults_on tp c fs;
  tr_total : total t = resolved tp fs;
  tr_flagged : forall c, c ∈ flagged t <-> c ∈ evs.*1;
  tr_nodup : NoDup evs.*1;
  tr_sound : forall c, c ∈ evs.*1 <-> became_significant tp fs c;
}.

Lemma faults_on_snoc tp c fs f :
  faults_on tp c (fs ++ [f])%list = faults_on tp c fs + (if decide (core_of tp f = Some c) then 1 else 0).
Proof.
  unfold faults_on. rewrite List.filter_app, length_app. cbn [List.filter].
  destruct (decide (core_of tp f = Some c)).
  - rewrite bool_decide_eq_true_2 by done. cbn. lia.
  - rewrite bool_decide_eq_false_2 by done. cbn. lia.
Qed.

Lemma resolved_snoc tp fs f :
  resolved tp (fs ++ [f])%list = resolved tp fs + (if core_of tp f is Some _ then 1 else 0).
Proof.
  unfold resolved. rewrite List.filter_app, length_app. cbn [List.filter].
  destruct (core_of tp f); cbn; lia.
Qed.

Lemma became_snoc tp fs f c :
  became_significant tp (fs ++ [f])%list c <->
  became_significant tp fs c \/ (core_of tp f = Some c /\ significant tp (fs ++ [f])%list c).
Proof.
  split.
  - intros (p & g & q & E & Hc & Hs). destruct q as [|g' q _] using rev_ind.
    + apply app_inj_tail in E as [-> ->]. by right.
    + left. exists p, g, q. rewrite app_comm_cons, app_assoc in E. by apply app_inj_tail in E as [-> _].
  - intros [(p & g & q & -> & Hc & Hs)|[Hc Hs]].
    + exists p, g, (q ++ [f])%list. by rewrite <- app_assoc.
    + by exists fs, f, [].
Qed.

Lemma tracked_step tp fs evs t f :
  tracked tp fs evs t ->
  let '(evs', t') := observe_step (evs, t) f in tracked tp (fs ++ [f])%list evs' t'.
Proof.
  intros [Htp Hcnt Htot Hfl Hnd Hs]. unfold observe_step, Observe.
  assert (LogicalToCore (topo t) !! f_cpu f = core_of tp f) as -> by (rewrite Htp; done).
  destruct (core_of tp f) as [c|] eqn:Hc.
  2: { split; [done| | |done|done|].
    - intros c. rewrite faults_on_snoc, decide_False by congruence. rewrite Hcnt. lia.
    - rewrite resolved_snoc, Hc. lia.
    - intros c. rewrite became_snoc, Hs. split; [by left|]. intros [?|[? _]]; [done|congruence]. }
  set (k := default 0 (countByCore t !! c) + 1). set (t1 := mkTracker _ _ _ _).
  assert (k = faults_on tp c (fs ++ [f])%list) as Hk.
  { rewrite faults_on_snoc, decide_True by done. unfold k. by rewrite Hcnt. }
  assert (total t1 = resolved tp (fs ++ [f])%list) as Ht1 by (rewrite resolved_snoc, Hc; cbn; lia).
  assert (forall c', default 0 (countByCore t1 !! c') = faults_on tp c' (fs ++ [f])%list) as Hcnt1.
  { intros c'. cbn [t1 countByCore]. destruct (decide (c = c')) as [<-|Hne].
    - by rewrite lookup_insert_eq.
    - rewrite lookup_insert_ne by done. rewrite faults_on_snoc, decide_False by congruence. rewrite Hcnt. lia. }
  (** when nothing is reported, the history gained nothing for a core not reported yet *)
  assert ((c ∈ evs.*1 \/ ~ significant tp (fs ++ [f])%list c) -> tracked tp (fs ++ [f])%list evs t1) as Hquiet.
  { intros Hq. split; [done|done|done|done|done|]. intros c'. rewrite became_snoc, Hs.
    split; [by left|]. intros [?|[E Hsig]]; [done|]. assert (c' = c) as -> by congruence. destruct Hq; [by apply Hs|done]. }
  change (flagged t1) with (flagged t).
  destruct (bool_decide_reflect (c ∈ flagged t)) as [Hin|Hnin]; cbn [orb].
  { apply Hquiet. left. by apply Hfl. }
  unfold significant in Hquiet. rewrite <- Hk, <- Ht1 in Hquiet.
  change (topo t1) with (topo t). rewrite Htp.
  destruct (Z.ltb_spec k MinSamples); [apply Hquiet; right; lia|].
  destruct (Z.leb_spec (Z.of_nat (size (ActiveCores tp))) 0); [apply Hquiet; right; lia|].
  destruct (SpecFloat.SFleb MaxPValue _) eqn:Hp; [apply Hquiet; right; intros (_ & _ & E); congruence|].
  cbn [topo]. rewrite Hc. cbn [default].
  assert (significant tp (fs ++ [f])%list c) as Hsig by (split_and!; [lia|lia|by rewrite <- Hk, <- Ht1]).
  assert (c ∉ evs.*1) as Hnew by by rewrite <- Hfl.
  split; [done|done|done| | |].
  - intros c'. cbn [flagged]. rewrite fmap_app, elem_of_union, elem_of_app, elem_of_singleton, <- Hfl.
    cbn. rewrite list_elem_of_singleton. tauto.
  - rewrite fmap_app. apply NoDup_app. split; [done|]. split; [|apply NoDup_singleton].
    intros x Hx ->%list_elem_of_singleton. done.
  - intros c'. rewrite fmap_app, elem_of_app, became_snoc, Hs. cbn. rewrite list_elem_of_singleton.
    split; [intros [?| ->]; [by left|by right]|]. intros [?|[E _]]; [by left|right; congruence].
Qed.

(** Over any sequence of segfaults the tracker counts, for each physical core, exactly
    the faults of its logical CPUs, and in all those whose CPU it knows; it reports a core
    at the first fault that makes its share significant (at least five faults and a
    p-value below one percent at that point), never twice, and no other core. *)
Theorem tracker_reports_once tp fs :
  let '(evs, t) := observe_all tp fs in
  (forall c, default 0 (countByCore t !! c) = faults_on tp c fs) /\ total t = resolved tp fs /\
  NoDup evs.*1 /\ (forall c, c ∈ evs.*1 <-> became_significant tp fs c).
Proof.
  assert (let '(evs, t) := observe_all tp fs in tracked tp fs evs t) as Ht.
  { unfold observe_all. induction fs as [|f fs IH] using rev_ind.
    - split; [done|done|done| |apply NoDup_nil_2|].
      + intros c. cbn. split; [set_solver|by intros []%elem_of_nil].
      + intros c. cbn. split; [by intros []%elem_of_nil|]. intros (p & f & q & E & _). by destruct p.
    - rewrite fold_left_app. cbn [fold_left]. destruct (fold_left _ fs _) as [evs t]. by apply tracked_step. }
  destruct (observe_all tp fs) as [evs t]. destruct Ht. done.
Qed.

End tracker.

(** repeated multiplication, for a whole exponent *)
Definition demo_pow (n : nat) (x _ : float64) : float64 :=
  Nat.iter n (fun acc => SpecFloat.SFmul prec emax acc x) (f_of_Z 1).

(** four cores of two logical CPUs each; five faults on core 2 are reported once *)
Definition demo_topology : Topology :=
  mkTopology (list_to_map ((fun i => (i, i / 2)) <$> seqZ 0 8)) ∅ (list_to_map ((fun i => (i, true)) <$> seqZ 0 8)).
Definition demo_fault (cpu : Z) : Fault := mkFault "h1" "worker" cpu 1 "01F".

Example five_faults_reported_once :
  let '(evs, t) := observe_all (demo_pow 5) (fun _ => "") demo_topology
                     (demo_fault <$> [4; 5; 99; 4; 5; 4; 4]) in
  evs.*1 = [2] /\ countByCore t !! 2 = Some 6 /\ total t = 6 /\
  (fun e => e_Title e.2) <$> evs = ["5 of 5 segfaults clustered on physical core 2"].
Proof. vm_compute. done. Qed.

End Tracker.
