(* ===== verification/MetricStore.v ===== *)
(** * MetricStore: metric samples and their downsampling

    Models internal/metricstore: metricstore.go (what is written to and read from the
    time series database, a parameter) and downsample.go (averaging samples into buckets).

    The maps of Downsample are finite maps; the order in which a Go map is iterated does
    not matter, because the buckets are sorted. *)

From stdpp Require Import base gmap strings list sorting.
From Stdlib Require Import ZArith Lia Ascii.
From Stdlib Require SpecFloat.
From S2P Require Import Prelude GoStd Schema.
Import GoString GoTime GoFloat Schema.

Local Open Scope string_scope.
Local Open Scope Z_scope.

Module MetricStore.

Definition ResolutionRaw : string := "raw".
Definition Resolution1m : string := "1m".
Definition Resolution5m : string := "5m".

Definition BucketWidth (r : string) : option Duration :=
  if decide (r = Resolution1m) then Some minute
  else if decide (r = Resolution5m) then Some (5 * minute) else None.

Record Sample := mkSample { sm_Labels : gmap string string; sm_Timestamp : Time; sm_Value : float64 }.

Definition MetricName : string := "__name__".

(** the label pairs of a metric's series *)
Definition toLabels (m : Metric) : list (string * string) :=
  ((MetricName, m_Name m) :: ("host_id", m_HostID m) :: map_to_list (m_Labels m))%list.

Inductive StoreError : Set := ErrInvalid (e : SchemaError) | ErrAppend | ErrQuery | ErrResolution.

Definition DefaultRetention (r : string) : option Duration :=
  if decide (r = ResolutionRaw) then Some (7 * 24 * hour)
  else if decide (r = Resolution1m) then Some (90 * 24 * hour)
  else if decide (r = Resolution5m) then Some (2 * 365 * 24 * hour) else None.

(** Open: the database is opened with the retention in whole milliseconds *)
Definition Open {D : Type} (tsdb_open : list string -> Z -> option D) (dir : list string) (retention : Duration) : option D :=
  tsdb_open dir (Z.quot retention millisecond).

Section store.
Context {D : Type}.
(** the database: appending a sample to a series, and the series a query selects, each
    with its samples in time order *)
Variable tsdb_append : D -> list (string * string) -> Z -> float64 -> bool * D.
Variable tsdb_select : D -> string -> Z -> Z -> list (string * string) ->
                       option (list (gmap string string * list (Z * float64))).

Definition Append (m : Metric) (d : D) : result StoreError unit * D :=
  match Metric_Validate m with
  | Err err => (Err (ErrInvalid err), d)
  | Ok _ =>
      let '(ok, d) := tsdb_append d (toLabels m) (unix_milli (m_Timestamp m)) (m_Value m) in
      (if ok then Ok tt else Err ErrAppend, d)
  end.

(** the samples of one series *)
Definition series_samples (s : gmap string string * list (Z * float64)) : list Sample :=
  (fun p => mkSample s.1 (of_unix_milli p.1) p.2) <$> s.2.

Definition Query (d : D) (name : string) (from to : Time) (extra : list (string * string)) :
    result StoreError (list Sample) :=
  match tsdb_select d name (unix_milli from) (unix_milli to) extra with
  | None => Err ErrQuery
  | Some series =>
      Ok (concat (series_samples <$> series))
  end.

(** *** Downsampling *)

Fixpoint write_labels (lbls : gmap string string) (keys : list string) : string :=
  match keys with
  | [] => ""
  | k :: rest => k ++ "=" ++ default "" (lbls !! k) ++ ";" ++ write_labels lbls rest
  end.

Definition seriesLabelKey (lbls : gmap string string) : string :=
  write_labels lbls (sort_strings (map_to_list lbls).*1).

Definition bucketKey : Type := string * Z.

Definition bucket_of (width : Duration) (s : Sample) : bucketKey :=
  (seriesLabelKey (sm_Labels s), unix_milli (truncate (sm_Timestamp s) width)).

Definition fadd (x y : float64) : float64 := SpecFloat.SFadd prec emax x y.

Record Sums := mkSums {
  sums : gmap bucketKey float64;
  counts : gmap bucketKey Z;
  labelsByKey : gmap string (gmap string string);
}.

Definition add_sample (width : Duration) (a : Sums) (s : Sample) : Sums :=
  let bk := bucket_of width s in
  mkSums (<[bk := fadd (default f_zero (sums a !! bk)) (sm_Value s)]> (sums a))
         (<[bk := default 0 (counts a !! bk) + 1]> (counts a))
         (<[seriesLabelKey (sm_Labels s) := sm_Labels s]> (labelsByKey a)).

(** the order of the buckets: by series, then by time *)
Definition bucket_le (b1 b2 : bucketKey) : Prop :=
  (b1.1 <> b2.1 /\ String.le b1.1 b2.1) \/ (b1.1 = b2.1 /\ b1.2 <= b2.2).
Global Instance bucket_le_dec : RelDecision bucket_le.
Proof. intros b1 b2. unfold bucket_le. apply _. Defined.

Definition bucket_metric (name : string) (a : Sums) (bk : bucketKey) : Metric :=
  let lbls := default ∅ (labelsByKey a !! bk.1) in
  let extraLabels := filter (fun kv => kv.1 <> "host_id" /\ kv.1 <> MetricName) lbls in
  mkMetric name (default "" (lbls !! "host_id")) extraLabels
    (SpecFloat.SFdiv prec emax (default f_zero (sums a !! bk)) (f_of_Z (default 0 (counts a !! bk))))
    (of_unix_milli bk.2).

(** the bucket samples in the order they are appended *)
Definition bucket_metrics (width : Duration) (name : string) (samples : list Sample) : list Metric :=
  let a := fold_left (add_sample width) samples (mkSums ∅ ∅ ∅) in
  bucket_metric name a <$> merge_sort bucket_le (map_to_list (sums a)).*1.

Fixpoint append_loop (ms : list Metric) (written : Z) (d : D) : (Z * option StoreError) * D :=
  match ms with
  | [] => ((written, None), d)
  | m :: rest =>
      match Append m d with
      | (Err err, d) => ((written, Some err), d)
      | (Ok _, d) => append_loop rest (written + 1) d
      end
  end.

(** Downsample: the number of samples written and the error, if any *)
Definition Downsample (src dst : D) (resolution name : string) (from to : Time) (extra : list (string * string)) :
    (Z * option StoreError) * D :=
  match BucketWidth resolution with
  | None => ((0, Some ErrResolution), dst)
  | Some width =>
      match Query src name from to extra with
      | Err err => ((0, Some err), dst)
      | Ok [] => ((0, None), dst)
      | Ok samples => append_loop (bucket_metrics width name samples) 0 dst
      end
  end.
End store.

(** ** What the buckets hold *)

Definition in_bucket (width : Duration) (bk : bucketKey) (s : Sample) : bool := bool_decide (bucket_of width s = bk).
Definition bucket_samples (width : Duration) (bk : bucketKey) (samples : list Sample) : list Sample :=
  List.filter (in_bucket width bk) samples.

Definition sum_values (ss : list Sample) : float64 := fold_left (fun acc s => fadd acc (sm_Value s)) ss f_zero.

Lemma bucket_samples_snoc width bk samples s :
  bucket_samples width bk (samples ++ [s])%list =
  (bucket_samples width bk samples ++ if decide (bucket_of width s = bk) then [s] else [])%list.
Proof.
  unfold bucket_samples. rewrite List.filter_app. f_equal. cbn [List.filter]. unfold in_bucket.
  destruct (decide (bucket_of width s = bk)); [by rewrite bool_decide_eq_true_2|by rewrite bool_decide_eq_false_2].
Qed.

Definition accumulate (width : Duration) (samples : list Sample) : Sums :=
  fold_left (add_sample width) samples (mkSums ∅ ∅ ∅).

Lemma accumulate_spec width samples bk :
  sums (accumulate width samples) !! bk =
    (match bucket_samples width bk samples with [] => None | ss => Some (sum_values ss) end) /\
  counts (accumulate width samples) !! bk =
    (match bucket_samples width bk samples with [] => None | ss => Some (Z.of_nat (length ss)) end).
Proof.
  unfold accumulate. induction samples as [|s samples [IHs IHc]] using rev_ind; [done|].
  rewrite fold_left_app. cbn [fold_left]. set (a := fold_left _ samples _) in *.
  rewrite bucket_samples_snoc. cbn [add_sample sums counts].
  destruct (decide (bucket_of width s = bk)) as [<-|Hne].
  - rewrite !lookup_insert_eq, IHs, IHc.
    assert (forall l, (l ++ [s])%list <> []) as Hne by (intros l; by destruct l).
    destruct (bucket_samples width (bucket_of width s) samples) as [|x l] eqn:E; [done|].
    assert (sum_values ((x :: l) ++ [s])%list = fadd (sum_values (x :: l)) (sm_Value s)) as Hs.
    { unfold sum_values. by rewrite fold_left_app. }
    split; [exact (f_equal Some (eq_sym Hs))|]. cbn. f_equal. rewrite length_app. cbn. lia.
  - rewrite !lookup_insert_ne by done. by rewrite app_nil_r.
Qed.

(** a series with a sample has labels, those of one of its samples *)
Lemma accumulate_labels width samples key :
  match labelsByKey (accumulate width samples) !! key with
  | None => Forall (fun s => seriesLabelKey (sm_Labels s) <> key) samples
  | Some lbls => seriesLabelKey lbls = key /\ exists s, s ∈ samples /\ sm_Labels s = lbls
  end.
Proof.
  unfold accumulate. induction samples as [|s samples IH] using rev_ind.
  { cbn. by apply Forall_nil. }
  rewrite fold_left_app. cbn [fold_left]. set (a := fold_left _ samples _) in *. cbn [add_sample labelsByKey].
  destruct (decide (seriesLabelKey (sm_Labels s) = key)) as [<-|Hne].
  - rewrite lookup_insert_eq. split; [done|]. exists s. split; [apply elem_of_app; right; by apply list_elem_of_singleton|done].
  - rewrite lookup_insert_ne by done. destruct (labelsByKey a !! key) as [lbls|].
    + destruct IH as (? & x & Hx & ?). split; [done|]. exists x. split; [apply elem_of_app; by left|done].
    + apply Forall_app. split; [done|]. by apply Forall_singleton.
Qed.

Global Instance bucket_le_total : Total bucket_le.
Proof.
  intros [k1 t1] [k2 t2]. unfold bucket_le. cbn. destruct (decide (k1 = k2)) as [->|Hne].
  - destruct (Z.le_ge_cases t1 t2); [left|right]; right; split; done || lia.
  - destruct (total String.le k1 k2); [left|right]; left; split; congruence || done.
Qed.

Global Instance bucket_le_trans : Transitive bucket_le.
Proof.
  intros [k1 t1] [k2 t2] [k3 t3]. unfold bucket_le. cbn. intros [[H1 L1]|[-> L1]] [[H2 L2]|[E2 L2]].
  - left. split; [|by etrans]. intros ->. apply H1. by apply (anti_symm String.le).
  - subst k3. left. done.
  - left. done.
  - subst k3. right. split; [done|lia].
Qed.

(** the buckets in the order they are written *)
Definition buckets (width : Duration) (samples : list Sample) : list bucketKey :=
  merge_sort bucket_le (map_to_list (sums (accumulate width samples))).*1.

Lemma buckets_spec width samples :
  StronglySorted bucket_le (buckets width samples) /\ NoDup (buckets width samples) /\
  forall bk, bk ∈ buckets width samples <-> exists s, s ∈ samples /\ bucket_of width s = bk.
Proof.
  unfold buckets. split; [apply StronglySorted_merge_sort; apply _|].
  split; [rewrite merge_sort_Permutation; apply NoDup_fst_map_to_list|].
  intros bk. rewrite merge_sort_Permutation, list_elem_of_fmap. split.
  - intros ([bk' v] & -> & Hv%elem_of_map_to_list). rewrite (proj1 (accumulate_spec width samples bk')) in Hv.
    destruct (bucket_samples width bk' samples) as [|s l] eqn:E; [done|].
    assert (s ∈ bucket_samples width bk' samples) as Hs by (rewrite E; by left).
    apply list_elem_of_In, filter_In in Hs as [Hs Hb]. apply bool_decide_eq_true in Hb.
    exists s. split; [by apply list_elem_of_In|done].
  - intros (s & Hs & <-). destruct (sums (accumulate width samples) !! bucket_of width s) as [v|] eqn:E.
    + exists (bucket_of width s, v). split; [done|]. by apply elem_of_map_to_list.
    + rewrite (proj1 (accumulate_spec width samples (bucket_of width s))) in E.
      destruct (bucket_samples width (bucket_of width s) samples) as [|x l] eqn:Eb; [|done].
      assert (s ∈ bucket_samples width (bucket_of width s) samples) as Hin; [|by rewrite Eb in Hin; apply elem_of_nil in Hin].
      apply list_elem_of_In, filter_In. split; [by apply list_elem_of_In|]. by apply bool_decide_eq_true.
Qed.

(** the average of a bucket *)
Definition average (ss : list Sample) : float64 :=
  SpecFloat.SFdiv prec emax (sum_values ss) (f_of_Z (Z.of_nat (length ss))).

(** *** Series and their keys *)

(** the labels of a series whose key can be read back: no name holds an equals sign and no
    value a semicolon *)
Definition separable (lbls : gmap string string) : Prop :=
  map_Forall (fun k v => lacks "=" k = true /\ lacks ";" v = true) lbls.

Definition label_pairs (lbls : gmap string string) : list (string * string) :=
  (fun k => (k, default "" (lbls !! k))) <$> sort_strings (map_to_list lbls).*1.

Lemma label_pairs_spec lbls k v : (k, v) ∈ label_pairs lbls <-> lbls !! k = Some v.
Proof.
  unfold label_pairs, sort_strings. rewrite merge_sort_Permutation, list_elem_of_fmap.
  setoid_rewrite list_elem_of_fmap. split.
  - intros (k' & [= -> ->] & [k'' v'] & -> & Hin). apply elem_of_map_to_list in Hin. cbn [fst]. by rewrite Hin.
  - intros Hv. exists k. rewrite Hv. split; [done|]. exists (k, v). split; [done|]. by apply elem_of_map_to_list.
Qed.

Definition write_pairs (l : list (string * string)) : string :=
  foldr (fun kv acc => kv.1 ++ String "=" (kv.2 ++ String ";" acc)) "" l.

Lemma seriesLabelKey_pairs lbls : seriesLabelKey lbls = write_pairs (label_pairs lbls).
Proof.
  unfold seriesLabelKey, label_pairs. induction (sort_strings _) as [|k keys IH]; [done|].
  rewrite fmap_cons. cbn [write_labels write_pairs foldr fst snd]. by rewrite IH.
Qed.

Lemma key_pairs_inj l1 l2 :
  Forall (fun kv => lacks "=" kv.1 = true /\ lacks ";" kv.2 = true) l1 ->
  Forall (fun kv => lacks "=" kv.1 = true /\ lacks ";" kv.2 = true) l2 ->
  write_pairs l1 = write_pairs l2 -> l1 = l2.
Proof.
  intros Hl1. revert l2. induction Hl1 as [|[k v] l1 [Hk Hv] Hl1 IH]; intros l2 Hl2 E;
    destruct Hl2 as [|[k2 v2] l2 [Hk2 Hv2] Hl2]; [done|..]; cbn [write_pairs foldr fst snd] in *;
    apply (f_equal (cut_byte "=")) in E; rewrite ?cut_byte_lacks_app in E by done; [done..|].
  injection E as -> E. apply (f_equal (cut_byte ";")) in E. rewrite !cut_byte_lacks_app in E by done.
  injection E as -> E. f_equal. by apply IH.
Qed.

Lemma seriesLabelKey_inj L1 L2 : separable L1 -> separable L2 -> seriesLabelKey L1 = seriesLabelKey L2 -> L1 = L2.
Proof.
  assert (forall L, separable L -> Forall (fun kv => lacks "=" kv.1 = true /\ lacks ";" kv.2 = true) (label_pairs L)) as Hs.
  { intros L HL. apply Forall_forall. intros [k v] Hkv. apply label_pairs_spec in Hkv. by apply (HL k v). }
  intros H1 H2 E. rewrite !seriesLabelKey_pairs in E. apply key_pairs_inj in E; [|by apply Hs..].
  apply map_eq. intros k. apply option_eq. intros v. by rewrite <- !label_pairs_spec, E.
Qed.

(** *** Buckets of time *)

Lemma truncate_start width t u :
  0 < width -> (width | u) -> truncate t width = u <-> u <= t < u + width.
Proof.
  intros Hw [q ->]. unfold truncate. destruct (Z.leb_spec width 0); [lia|].
  pose proof (Z.mod_pos_bound t width Hw) as Hm. pose proof (Z.div_mod t width ltac:(lia)) as Hd. split.
  - intros E. nia.
  - intros Ht. assert (t / width = q) by nia. nia.
Qed.

Lemma milli_exact width u : (millisecond | width) -> (width | u) -> of_unix_milli (unix_milli u) = u.
Proof.
  intros [a ->] [b ->]. unfold of_unix_milli, unix_milli.
  replace (b * (a * millisecond) - unix_epoch) with ((b * a - 62135596800 * 1000) * millisecond)
    by (unfold unix_epoch, second, millisecond; lia).
  rewrite Z.div_mul by done. unfold unix_epoch, second, millisecond. lia.
Qed.

Lemma BucketWidth_ok resolution width : BucketWidth resolution = Some width -> 0 < width /\ (millisecond | width).
Proof.
  unfold BucketWidth. repeat case_decide; intros [= <-]; (split; [done|]).
  - by exists 60000.
  - by exists 300000.
Qed.

(** *** The cells of the result *)

(** the sample is of the series [c.1] and in the bucket that starts at [c.2] *)
Definition in_cell (width : Duration) (c : gmap string string * Time) (s : Sample) : bool :=
  bool_decide (sm_Labels s = c.1) && (c.2 <=? sm_Timestamp s) && (sm_Timestamp s <? c.2 + width).
Definition cell_samples (width : Duration) (c : gmap string string * Time) (samples : list Sample) : list Sample :=
  List.filter (in_cell width c) samples.

Definition cell_of (width : Duration) (samples : list Sample) (bk : bucketKey) : gmap string string * Time :=
  (default ∅ (labelsByKey (accumulate width samples) !! bk.1), of_unix_milli bk.2).

Section cells.
Context (width : Duration) (samples : list Sample).
Hypothesis width_pos : 0 < width.
Hypothesis width_milli : (millisecond | width).
Hypothesis labels_ok : Forall (fun s => separable (sm_Labels s)) samples.

Lemma cell_of_sample s : s ∈ samples ->
  cell_of width samples (bucket_of width s) = (sm_Labels s, truncate (sm_Timestamp s) width).
Proof.
  intros Hs. unfold cell_of, bucket_of. cbn [fst snd]. rewrite Forall_forall in labels_ok. f_equal.
  - pose proof (accumulate_labels width samples (seriesLabelKey (sm_Labels s))) as Hl.
    destruct (labelsByKey _ !! _) as [lbls|].
    + destruct Hl as (Hk & x & Hx & <-). cbn [default from_option]. apply seriesLabelKey_inj; [by apply labels_ok..|done].
    + rewrite Forall_forall in Hl. by destruct (Hl s Hs).
  - apply (milli_exact width); [done|]. unfold truncate. destruct (Z.leb_spec width 0); [lia|].
    exists (sm_Timestamp s / width). pose proof (Z.div_mod (sm_Timestamp s) width). lia.
Qed.

Lemma truncate_divides t : (width | truncate t width).
Proof.
  unfold truncate. destruct (Z.leb_spec width 0); [lia|].
  exists (t / width). pose proof (Z.div_mod t width). lia.
Qed.

Lemma same_bucket_cell s s' : s ∈ samples -> s' ∈ samples ->
  bucket_of width s' = bucket_of width s <-> in_cell width (sm_Labels s, truncate (sm_Timestamp s) width) s' = true.
Proof.
  intros Hs Hs'. unfold in_cell. cbn [fst snd]. rewrite !andb_true_iff, bool_decide_eq_true, Z.leb_le, Z.ltb_lt.
  pose proof (truncate_start width (sm_Timestamp s') (truncate (sm_Timestamp s) width) width_pos (truncate_divides _)) as Ht.
  split.
  - intros E. apply (f_equal (cell_of width samples)) in E. rewrite !cell_of_sample in E by done. injection E as El Et.
    apply Ht in Et. tauto.
  - intros [[El Et1] Et2]. assert (truncate (sm_Timestamp s') width = truncate (sm_Timestamp s) width) as Et by (by apply Ht). unfold bucket_of. by rewrite El, Et.
Qed.

Lemma bucket_cell_samples s : s ∈ samples ->
  bucket_samples width (bucket_of width s) samples = cell_samples width (sm_Labels s, truncate (sm_Timestamp s) width) samples.
Proof.
  intros Hs. unfold bucket_samples, cell_samples. apply List.filter_ext_in. intros s' Hs'. apply list_elem_of_In in Hs'.
  unfold in_bucket. apply eq_true_iff_eq. rewrite bool_decide_eq_true. by apply same_bucket_cell.
Qed.

(** every bucket is that of a sample *)
Lemma bucket_witness bk : bk ∈ buckets width samples -> exists s, s ∈ samples /\ bk = bucket_of width s /\
  cell_of width samples bk = (sm_Labels s, truncate (sm_Timestamp s) width).
Proof.
  intros (s & Hs & <-)%(proj2 (proj2 (buckets_spec width samples))). exists s. split_and!; [done..|by apply cell_of_sample].
Qed.

Lemma cells_NoDup : NoDup (cell_of width samples <$> buckets width samples).
Proof.
  apply NoDup_fmap_2_strong; [|apply buckets_spec]. intros b1 b2 H1 H2 E.
  destruct (bucket_witness b1 H1) as (s1 & Hs1 & -> & E1), (bucket_witness b2 H2) as (s2 & Hs2 & -> & E2).
  rewrite E1, E2 in E. apply same_bucket_cell; [done..|]. rewrite <- E. by apply (same_bucket_cell s1 s1).
Qed.

Lemma cells_spec L t :
  (L, t) ∈ cell_of width samples <$> buckets width samples <->
  (width | t) /\ exists s, s ∈ samples /\ sm_Labels s = L /\ t <= sm_Timestamp s < t + width.
Proof.
  rewrite list_elem_of_fmap. split.
  - intros (bk & E & Hbk). destruct (bucket_witness bk Hbk) as (s & Hs & -> & E'). rewrite E' in E. injection E as -> ->.
    split; [apply truncate_divides|]. exists s. do 2 (split; [done|]).
    by apply (truncate_start width (sm_Timestamp s) (truncate (sm_Timestamp s) width) width_pos (truncate_divides _)).
  - intros (Hd & s & Hs & <- & Ht). exists (bucket_of width s). rewrite cell_of_sample by done. split.
    + f_equal. symmetry. by apply truncate_start.
    + apply buckets_spec. by exists s.
Qed.

Lemma cells_sorted :
  StronglySorted (fun c1 c2 : gmap string string * Time => c1.1 = c2.1 -> c1.2 < c2.2) (cell_of width samples <$> buckets width samples).
Proof.
  destruct (buckets_spec width samples) as (Hsort & Hnd & _).
  assert (forall bk, bk ∈ buckets width samples -> bk ∈ buckets width samples) as Hall by done. revert Hsort Hnd Hall.
  generalize (buckets width samples) at 1 2 3 5 as bks. induction bks as [|bk bks IH]; intros Hs Hnd Hall; [constructor|].
  apply StronglySorted_inv in Hs as [Hs Hf]. apply NoDup_cons in Hnd as [Hn Hnd]. rewrite fmap_cons.
  constructor; [apply IH; [done..|intros x Hx; apply Hall; by right]|].
  apply Forall_fmap, Forall_forall. intros bk' Hbk' El. cbn [compose] in *. rewrite Forall_forall in Hf. specialize (Hf bk' Hbk').
  destruct (bucket_witness bk (Hall bk ltac:(by left))) as (s & Hs1 & -> & E1).
  destruct (bucket_witness bk' (Hall bk' ltac:(by right))) as (s' & Hs1' & -> & E1').
  rewrite E1, E1' in El. rewrite E1, E1'. cbn [fst snd] in *. unfold bucket_le, bucket_of in Hf. cbn [fst snd] in Hf. rewrite El in Hf.
  destruct Hf as [[? _]|[_ Hle]]; [done|].
  rewrite <- (milli_exact width (truncate (sm_Timestamp s) width)), <- (milli_exact width (truncate (sm_Timestamp s') width))
    by (done || apply truncate_divides).
  assert (unix_milli (truncate (sm_Timestamp s) width) <> unix_milli (truncate (sm_Timestamp s') width)).
  { intros E. apply Hn. unfold bucket_of in *. by rewrite El, E. }
  unfold of_unix_milli, millisecond. lia.
Qed.

Lemma cell_metric name bk : bk ∈ buckets width samples ->
  let c := cell_of width samples bk in let m := bucket_metric name (accumulate width samples) bk in
  m_Name m = name /\ m_Timestamp m = c.2 /\ m_HostID m = default "" (c.1 !! "host_id") /\
  m_Labels m = filter (fun kv => kv.1 <> "host_id" /\ kv.1 <> MetricName) c.1 /\
  m_Value m = average (cell_samples width c samples).
Proof.
  intros Hbk c m. subst c m. split_and!; [done..|]. destruct (bucket_witness bk Hbk) as (s & Hs & Eb & ->).
  rewrite <- bucket_cell_samples, <- Eb by done. cbn [bucket_metric m_Value].
  destruct (accumulate_spec width samples bk) as [-> ->]. unfold average. by destruct (bucket_samples width bk samples).
Qed.

End cells.

(** C35: when no label name of the samples holds an equals sign and no label value a
    semicolon, downsampling to a resolution of width w appends one sample for every series
    (label set) and every interval from a multiple of w to the next that has samples of the
    series, and no other: its time is the start of the interval, its value the sum of the
    interval's samples of that series, in the order read, divided by their number, its host
    and labels those of the series. The samples of a series are appended in strictly
    increasing time, which is what the database accepts. *)
Theorem downsample_spec {D} tsdb_append tsdb_select (src dst : D) resolution width name from to extra samples :
  BucketWidth resolution = Some width ->
  Query tsdb_select src name from to extra = Ok samples -> samples <> [] ->
  Forall (fun s => separable (sm_Labels s)) samples ->
  exists (cells : list (gmap string string * Time)) (ms : list Metric),
    Downsample tsdb_append tsdb_select src dst resolution name from to extra = append_loop tsdb_append ms 0 dst /\
    NoDup cells /\
    (forall L t, (L, t) ∈ cells <-> (width | t) /\ exists s, s ∈ samples /\ sm_Labels s = L /\ t <= sm_Timestamp s < t + width) /\
    StronglySorted (fun c1 c2 : gmap string string * Time => c1.1 = c2.1 -> c1.2 < c2.2) cells /\
    Forall2 (fun (c : gmap string string * Time) m =>
      m_Name m = name /\ m_Timestamp m = c.2 /\ m_HostID m = default "" (c.1 !! "host_id") /\
      m_Labels m = filter (fun kv => kv.1 <> "host_id" /\ kv.1 <> MetricName) c.1 /\
      m_Value m = average (cell_samples width c samples)) cells ms.
Proof.
  intros Hw Hq Hne Hl. destruct (BucketWidth_ok _ _ Hw) as [Hpos Hms].
  exists (cell_of width samples <$> buckets width samples), (bucket_metric name (accumulate width samples) <$> buckets width samples).
  split_and!.
  - unfold Downsample. rewrite Hw, Hq. by destruct samples.
  - by apply cells_NoDup.
  - by apply cells_spec.
  - by apply cells_sorted.
  - apply Forall2_fmap_l, Forall2_fmap_r, Forall_Forall2_diag, Forall_forall. intros bk Hbk. by apply cell_metric.
Qed.

(** *** Separators in label values *)

(** Two different series whose keys are the same are averaged into one *)
Example series_key_collision :
  let s1 : gmap string string := {[ "a" := "1;b=2" ]} in
  let s2 : gmap string string := {[ "a" := "1"; "b" := "2" ]} in
  s1 <> s2 /\ seriesLabelKey s1 = seriesLabelKey s2.
Proof. split; [discriminate|]. vm_compute. done. Qed.

Example two_buckets :
  let sample ms v := mkSample {[ "host_id" := "h1" ]} (of_unix_milli ms) (f_of_Z v) in
  (fun m => (unix_milli (m_Timestamp m), m_Value m)) <$>
    bucket_metrics minute "bitacora_cpu_ratio" [sample 70000 1; sample 10000 2; sample 20000 4] =
  [(0, f_of_Z 3); (60000, f_of_Z 1)].
Proof. vm_compute. done. Qed.

Lemma downsample_spec_witness :
  let sample ms v := mkSample {[ "host_id" := "h1" ]} (of_unix_milli ms) (f_of_Z v) in
  exists cells ms,
    Downsample (fun (d : unit) _ _ _ => (true, d)) (fun _ _ _ _ _ => Some [({[ "host_id" := "h1" ]}, [(10000, f_of_Z 2); (70000, f_of_Z 1)])])
      tt tt Resolution1m "bitacora_cpu_ratio" 0 0 [] = append_loop (fun (d : unit) _ _ _ => (true, d)) ms 0 tt /\
    (({[ "host_id" := "h1" ]} : gmap string string), of_unix_milli 60000) ∈ cells /\ length ms = length cells.
Proof.
  intros sample.
  destruct (downsample_spec (fun (d : unit) _ _ _ => (true, d))
    (fun _ _ _ _ _ => Some [({[ "host_id" := "h1" ]}, [(10000, f_of_Z 2); (70000, f_of_Z 1)])]) tt tt Resolution1m minute
    "bitacora_cpu_ratio" 0 0 [] [sample 10000 2; sample 70000 1]) as (cells & ms & E & _ & Hin & _ & Hf).
  - reflexivity.
  - reflexivity.
  - done.
  - assert (separable {[ "host_id" := "h1" ]}) as Hs by (apply map_Forall_singleton; split; reflexivity).
    apply Forall_cons. split; [exact Hs|]. apply Forall_cons. split; [exact Hs|]. by apply Forall_nil.
  - exists cells, ms. split_and!; [exact E| |symmetry; by eapply Forall2_length].
    apply Hin. split; [exists (62135596800 / 60 + 1); reflexivity|].
    exists (sample 70000 1). split_and!; [right; by left|done|vm_compute; discriminate|vm_compute; reflexivity].
Defined.

End MetricStore.
