(* ===== verification/Extraction.v ===== *)
(** * Extraction: log lines that become events

    Models internal/extraction: rule.go (rules and their validation, the order in which a
    directory of them is loaded), engine.go (matching, attributes, the event and its
    fingerprint) and enrich.go (what is looked up in /proc and /sys).

    Regular expressions, text/template, YAML and SHA-256 are parameters; a file is what
    reading it gives; the ULID of an event is an input. *)

From stdpp Require Import base gmap strings list.
From Stdlib Require Import ZArith Lia Ascii.
From S2P Require Import Prelude GoStd GoConv Schema.
Import GoString GoTime GoConv Schema.

Local Open Scope string_scope.
Local Open Scope Z_scope.

Module Extraction.

Record EmitSpec := mkEmit {
  em_Type : string; em_Severity : string; em_Title : string; em_Enrich : list string;
  em_FingerprintFields : list string }.

Section engine.
(** a compiled regular expression: FindStringSubmatch and SubexpNames *)
Context {Regexp : Type}.
Variable FindStringSubmatch : Regexp -> string -> option (list string).
Variable SubexpNames : Regexp -> list string.
Variable Compile : string -> option Regexp.

(** a rule as the YAML file gives it, and with its expression compiled *)
Record RuleSpec := mkSpec { sp_ID : string; sp_Source : string; sp_Match : string; sp_Emit : EmitSpec }.
Record Rule := mkRule { ru_spec : RuleSpec; re : Regexp }.

Definition builtinEnrichers : list string := ["cpu_from_context"; "core_from_cpu"].

Inductive RuleError : Set :=
| ErrYAML | ErrID | ErrMatch | ErrType | ErrSeverity | ErrEnricher (name : string) | ErrRegexp | ErrRead | ErrDir.

Definition validate (r : RuleSpec) : result RuleError unit :=
  if bool_decide (sp_ID r = "") then Err ErrID
  else if bool_decide (sp_Match r = "") then Err ErrMatch
  else if bool_decide (em_Type (sp_Emit r) = "") then Err ErrType
  else if bool_decide (em_Severity (sp_Emit r) = "") then Err ErrSeverity
  else match List.find (fun n => negb (bool_decide (n ∈ builtinEnrichers))) (em_Enrich (sp_Emit r)) with
       | Some name => Err (ErrEnricher name)
       | None => Ok tt
       end.

Section load.
Variable yaml_Unmarshal : string -> option RuleSpec.

Definition Parse (data : string) : result RuleError Rule :=
  match yaml_Unmarshal data with
  | None => Err ErrYAML
  | Some r =>
      match validate r with
      | Err err => Err err
      | Ok _ => match Compile (sp_Match r) with None => Err ErrRegexp | Some e => Ok (mkRule r e) end
      end
  end.

Fixpoint parse_files (ReadFile : string -> option string) (names : list string) : result RuleError (list Rule) :=
  match names with
  | [] => Ok []
  | name :: rest =>
      match ReadFile name with
      | None => Err ErrRead
      | Some data =>
          match Parse data with
          | Err err => Err err
          | Ok r => match parse_files ReadFile rest with Err err => Err err | Ok rs => Ok (r :: rs) end
          end
      end
  end.

(** [entries]: the names of the directory and whether each is a directory itself *)
Definition LoadDir (entries : option (list (string * bool))) (ReadFile : string -> option string) :
    result RuleError (list Rule) :=
  match entries with
  | None => Err ErrDir
  | Some es =>
      let names := fst <$> List.filter (fun e => negb (snd e) &&
                     (has_suffix ".yaml" (fst e) || has_suffix ".yml" (fst e))) es in
      parse_files ReadFile (sort_strings names)
  end.
End load.

(** *** Enrichment *)

(** os.ReadFile of a path under ProcRoot or SysRoot *)
Variable proc_file sys_file : list string -> option string.

Definition attr (attrs : gmap string string) (k : string) : string := default "" (attrs !! k).

Definition cpuFromContext (attrs : gmap string string) : gmap string string :=
  let pid := attr attrs "pid" in
  if bool_decide (pid = "") then attrs
  else match proc_file [pid; "stat"] with
       | None => attrs
       | Some raw =>
           match cut_last_byte ")"%char raw with
           | None => attrs
           | Some (_, after_comm) =>
               match Fields after_comm !! 36%nat with
               | None => attrs
               | Some f => if Atoi f is Some _ then <["cpu" := f]> attrs else attrs
               end
           end
       end.

Definition coreFromCPU (attrs : gmap string string) : gmap string string :=
  let cpu := attr attrs "cpu" in
  if bool_decide (cpu = "") then attrs
  else match sys_file ["devices"; "system"; "cpu"; "cpu" ++ cpu; "topology"; "core_id"] with
       | None => attrs
       | Some raw =>
           let coreID := TrimSpace raw in
           if Atoi coreID is Some _ then <["core_id" := coreID]> attrs else attrs
       end.

Definition enrich (attrs : gmap string string) (name : string) : gmap string string :=
  if decide (name = "cpu_from_context") then cpuFromContext attrs
  else if decide (name = "core_from_cpu") then coreFromCPU attrs
  else attrs.

(** *** The engine *)

(** the groups after the whole match that have a name *)
Definition namedGroups (e : Regexp) (m : list string) : gmap string string :=
  fold_left (fun attrs nv => if bool_decide (fst nv = "") then attrs else <[fst nv := snd nv]> attrs)
    (drop 1 (zip (SubexpNames e) m)) ∅.

Variable sha256_hex : string -> string.
(** template.Parse and Execute with missing keys as zero values *)
Variable render : string -> gmap string string -> option string.

Definition fingerprint_fields (r : RuleSpec) (attrs : gmap string string) : list string :=
  match em_FingerprintFields (sp_Emit r) with
  | [] => sort_strings (map_to_list attrs).*1
  | fields => fields
  end.

Definition fingerprint_input (r : RuleSpec) (attrs : gmap string string) : string :=
  em_Type (sp_Emit r) ++ write_pairs attrs (fingerprint_fields r attrs).

Definition fingerprint (r : RuleSpec) (attrs : gmap string string) : string :=
  "sha256:" ++ sha256_hex (fingerprint_input r attrs).

Definition renderTitle (text : string) (attrs : gmap string string) : option string :=
  if bool_decide (text = "") then Some "" else render text attrs.

Definition event_subject (attrs : gmap string string) : EventSubject :=
  match attrs !! "comm" with
  | None => no_subject
  | Some comm => mkSubject "process" comm (default 0 (Atoi (attr attrs "pid")))
  end.

Definition buildEvent (ulid : string) (r : RuleSpec) (line : LogLine) (attrs : gmap string string) : option Event :=
  match renderTitle (em_Title (sp_Emit r)) attrs with
  | None => None
  | Some title =>
      let title := if bool_decide (title = "") then em_Type (sp_Emit r) else title in
      Some (mkEvent ulid (l_TS line) 0 (l_HostID line) (l_Source line) (em_Type (sp_Emit r))
              (em_Severity (sp_Emit r)) title (event_subject attrs) attrs (fingerprint r attrs) [] CurrentSchemaVersion)
  end.

(** Process: [Err] with the id of the rule whose title does not render *)
Fixpoint Process (ulid : string) (rules : list Rule) (line : LogLine) : result string (option Event) :=
  match rules with
  | [] => Ok None
  | r :: rest =>
      let sp := ru_spec r in
      if negb (bool_decide (sp_Source sp = "")) && negb (bool_decide (sp_Source sp = l_Source line))
      then Process ulid rest line
      else match FindStringSubmatch (re r) (l_Message line) with
           | None => Process ulid rest line
           | Some m =>
               let attrs := fold_left enrich (em_Enrich (sp_Emit sp)) (namedGroups (re r) m) in
               match buildEvent ulid sp line attrs with
               | None => Err (sp_ID sp)
               | Some e => Ok (Some e)
               end
           end
  end.

(** ** At most one event, of the first rule that matches *)

Definition fires (line : LogLine) (r : Rule) : bool :=
  (bool_decide (sp_Source (ru_spec r) = "") || bool_decide (sp_Source (ru_spec r) = l_Source line)) &&
  (if FindStringSubmatch (re r) (l_Message line) is Some _ then true else false).

(** what Process returns when [r] is the rule that fires *)
Definition fired (ulid : string) (line : LogLine) (r : Rule) (res : result string (option Event)) : Prop :=
  match FindStringSubmatch (re r) (l_Message line) with
  | None => False
  | Some m =>
      let attrs := fold_left enrich (em_Enrich (sp_Emit (ru_spec r))) (namedGroups (re r) m) in
      res = match buildEvent ulid (ru_spec r) line attrs with
            | None => Err (sp_ID (ru_spec r))
            | Some e => Ok (Some e)
            end
  end.

Lemma Process_find ulid rules line :
  match List.find (fires line) rules with
  | None => Process ulid rules line = Ok None
  | Some r => fired ulid line r (Process ulid rules line)
  end.
Proof.
  induction rules as [|r rules IH]; [done|]. cbn [List.find Process]. unfold fires at 1.
  rewrite <- negb_orb.
  destruct (bool_decide (sp_Source (ru_spec r) = "") || bool_decide (sp_Source (ru_spec r) = l_Source line));
    cbn [negb andb]; [|done].
  destruct (FindStringSubmatch (re r) (l_Message line)) as [m|] eqn:Hm; [|done].
  unfold fired. by rewrite Hm.
Qed.

(** a rule whose events have a severity and a type the schema knows *)
Definition rule_sound (r : Rule) : Prop :=
  validate (ru_spec r) = Ok tt /\ severity_valid (em_Severity (sp_Emit (ru_spec r))) = true /\
  contains "." (em_Type (sp_Emit (ru_spec r))) = true.

Lemma validate_type r : validate r = Ok tt -> em_Type (sp_Emit r) <> "".
Proof. unfold validate. intros H E. rewrite E in H. by repeat case_bool_decide. Qed.

Lemma buildEvent_valid ulid r line attrs e :
  ulid <> "" -> LogLine_Validate line = Ok tt -> rule_sound r ->
  buildEvent ulid (ru_spec r) line attrs = Some e -> Event_Validate e = Ok tt.
Proof.
  intros Hid Hl (Hv & Hsev & Hdot) Hb. unfold buildEvent in Hb.
  destruct (renderTitle _ _) as [title|]; [|done]. injection Hb as <-. pose proof (validate_type _ Hv) as Hty.
  unfold LogLine_Validate in Hl. unfold Event_Validate.
  cbn [e_ID e_HostID e_TS e_Source e_Type e_Severity e_Title e_Schema].
  destruct (bool_decide_reflect (l_HostID line = "")); [done|].
  destruct (bool_decide_reflect (l_Source line = "")); [done|].
  destruct (is_zero (l_TS line)); [done|].
  rewrite (bool_decide_eq_false_2 (ulid = "")) by done. rewrite (bool_decide_eq_false_2 (em_Type _ = "")) by done.
  rewrite Hdot, Hsev. cbn [negb orb].
  destruct (bool_decide_reflect (title = "")).
  - by rewrite (bool_decide_eq_false_2 (em_Type _ = "")) by done.
  - by rewrite (bool_decide_eq_false_2 (title = "")) by done.
Qed.

(** C36: A log line becomes at most one event, that of the first rule in order whose source
    and expression match; no later rule is looked at. The event carries the line's time,
    host and source and the rule's type and severity, its title is never empty, and it is
    a valid event whenever the line is valid and the rule's type and severity are the
    schema's. *)
Theorem extraction_first_match ulid rules line :
  ulid <> "" -> LogLine_Validate line = Ok tt -> Forall rule_sound rules ->
  match List.find (fires line) rules with
  | None => Process ulid rules line = Ok None
  | Some r =>
      Process ulid rules line = Err (sp_ID (ru_spec r)) \/
      exists e, Process ulid rules line = Ok (Some e) /\ Event_Validate e = Ok tt /\
        e_TS e = l_TS line /\ e_HostID e = l_HostID line /\ e_Source e = l_Source line /\
        e_Type e = em_Type (sp_Emit (ru_spec r)) /\ e_Severity e = em_Severity (sp_Emit (ru_spec r)) /\
        e_Title e <> ""
  end.
Proof.
  intros Hid Hl Hrs. pose proof (Process_find ulid rules line) as Hp.
  destruct (List.find (fires line) rules) as [r|] eqn:Hf; [|done].
  apply find_some in Hf as [Hr%list_elem_of_In _]. rewrite Forall_forall in Hrs. specialize (Hrs r Hr).
  unfold fired in Hp. destruct (FindStringSubmatch (re r) (l_Message line)) as [m|]; [|done]. rewrite Hp.
  destruct (buildEvent _ _ _ _) as [e|] eqn:Hb; [right|by left]. exists e. split; [done|].
  split; [by eapply buildEvent_valid|]. unfold buildEvent in Hb.
  destruct (renderTitle _ _) as [title|]; [|done]. injection Hb as <-. split_and!; try done. cbn [e_Title].
  destruct (bool_decide_reflect (title = "")); [|done]. apply validate_type, Hrs.
Qed.

(** ** Recurrences share a fingerprint *)

Definition plain_fields (fields : list string) (attrs : gmap string string) : Prop :=
  Forall (fun k => plain_pair (k, label attrs k) = true) fields.

Lemma fmap_pairs_inj (fields : list string) (a1 a2 : gmap string string) :
  ((fun k => (k, label a1 k)) <$> fields) = ((fun k => (k, label a2 k)) <$> fields) <->
  Forall (fun k => label a1 k = label a2 k) fields.
Proof.
  induction fields as [|k fields IH]; [split; [by intros; apply Forall_nil|done]|].
  rewrite !fmap_cons, Forall_cons, <- IH. split; [by intros [= -> ->]|]. by intros [-> ->].
Qed.

(** Two occurrences matched by the same rule have the same fingerprint exactly when the
    attributes the rule names for it agree, whatever the other attributes (such as a
    process id or an address) are; values are assumed free of the separator byte, and
    SHA-256 not to collide on the two inputs. *)
Theorem fingerprint_recurrence r attrs1 attrs2 :
  let fields := em_FingerprintFields (sp_Emit r) in
  fields <> [] -> lacks byte_1f (em_Type (sp_Emit r)) = true ->
  plain_fields fields attrs1 -> plain_fields fields attrs2 ->
  (sha256_hex (fingerprint_input r attrs1) = sha256_hex (fingerprint_input r attrs2) ->
   fingerprint_input r attrs1 = fingerprint_input r attrs2) ->
  fingerprint r attrs1 = fingerprint r attrs2 <-> Forall (fun k => label attrs1 k = label attrs2 k) fields.
Proof.
  intros fields Hne Ht H1 H2 Hsha. rewrite <- fmap_pairs_inj.
  assert (forall a, fingerprint_input r a =
    em_Type (sp_Emit r) ++ join_after byte_1f (pair_word <$> ((fun k => (k, label a k)) <$> fields))) as Hin.
  { intros a. unfold fingerprint_input, fingerprint_fields. rewrite write_pairs_join. fold fields. by destruct fields. }
  split.
  - unfold fingerprint. intros E%(inj (String.append "sha256:"))%Hsha. rewrite !Hin in E.
    apply key_words_inj in E as [_ E]; [done..| |]; apply Forall_fmap; done.
  - intros E. unfold fingerprint. by rewrite !Hin, E.
Qed.

End engine.
(** ** A concrete engine *)

(** expressions are words to look for, with the whole line as their one group *)
Definition demo_find (word msg : string) : option (list string) := if contains word msg then Some [msg; msg] else None.
Definition demo_names (_ : string) : list string := [""; "comm"].
Definition demo_rule (id word severity : string) : Rule (Regexp := string) :=
  mkRule (mkSpec id "kernel" word (mkEmit "kernel.fault" severity "" [] ["comm"])) word.
Definition demo_line (msg : string) : LogLine := mkLogLine 1 "h1" "kernel" "" "" "" 0 msg.
Definition demo_process (rules : list Rule) (msg : string) : result string (option Event) :=
  Process demo_find demo_names (fun _ => None) (fun _ => None) (fun x => x) (fun _ _ => None) "01E" rules (demo_line msg).

Definition demo_rules : list Rule := [demo_rule "oom" "out of memory" "error"; demo_rule "seg" "segfault" "warn"].

Lemma extraction_first_match_witness :
  exists e, demo_process demo_rules "segfault at 0" = Ok (Some e) /\ Event_Validate e = Ok tt /\ e_Severity e = "warn".
Proof.
  destruct (extraction_first_match demo_find demo_names (fun _ => None) (fun _ => None) (fun x => x) (fun _ _ => None)
              "01E" demo_rules (demo_line "segfault at 0")) as [E|(e & He & Hv & _ & _ & _ & _ & Hs & _)].
  - done.
  - done.
  - repeat (apply Forall_cons; split; [by split_and!|]). by apply Forall_nil.
  - discriminate E.
  - by exists e.
Defined.

Lemma fingerprint_recurrence_witness :
  fingerprint (fun x => x) (ru_spec (demo_rule "seg" "segfault" "warn")) {[ "comm" := "worker"; "pid" := "1" ]} =
  fingerprint (fun x => x) (ru_spec (demo_rule "seg" "segfault" "warn")) {[ "comm" := "worker"; "pid" := "2" ]}.
Proof.
  apply (fingerprint_recurrence (fun x => x) (ru_spec (demo_rule "seg" "segfault" "warn"))
           {[ "comm" := "worker"; "pid" := "1" ]} {[ "comm" := "worker"; "pid" := "2" ]}); try done.
  - by apply Forall_singleton.
  - by apply Forall_singleton.
  - by apply Forall_singleton.
Defined.

(** The severity of a rule is only required to be there: a rule with one the schema does
    not know is accepted, and each of its events is invalid. *)
Example unknown_severity_accepted :
  validate (ru_spec (demo_rule "seg" "segfault" "fatal")) = Ok tt /\
  match demo_process [demo_rule "seg" "segfault" "fatal"] "segfault at 0" with
  | Ok (Some e) => Event_Validate e = Err ErrInvalidSeverity
  | _ => False
  end.
Proof. vm_compute. done. Qed.

End Extraction.
