(* ===== verification/Notify.v ===== *)
(** * Notify: routing of notifications

    Models internal/notify/router.go and the texts of notify.go: which routes a
    notification reaches, under the rate limit.

    A notifier is a function of the notification on a world of its own that reports
    success; rate.Limiter is a parameter (its Allow). *)

From stdpp Require Import base gmap strings list.
From Stdlib Require Import ZArith Lia Ascii.
From S2P Require Import Prelude GoStd.
Import GoString GoTime GoFloat.

Local Open Scope string_scope.
Local Open Scope Z_scope.

Module Notify.

Record Notification := mkNotification {
  n_RuleID : string; n_Labels : gmap string string; n_Severity : string; n_State : string;
  n_Value : float64; n_At : Time; n_DeepLink : string }.

Definition upper (c : ascii) : ascii :=
  if (97 <=? byte_of c) && (byte_of c <=? 122) then ascii_of_nat (Z.to_nat (byte_of c - 32)) else c.
Fixpoint ToUpper (s : string) : string :=
  match s with "" => "" | String c rest => String (upper c) (ToUpper rest) end.

Definition Title (n : Notification) : string :=
  let state := if bool_decide (n_State n = "") then "firing" else n_State n in
  "[" ++ ToUpper state ++ "] " ++ n_RuleID n.

Section router.
Context {W L : Type}.
Variable allow : L -> bool * L.

Record Route := mkRoute {
  rt_Name : string;
  rt_Notify : Notification -> W -> bool * W;
  rt_Severities : list string;
  rt_Labels : gmap string string }.

Definition matches (r : Route) (n : Notification) : bool :=
  (match rt_Severities r with [] => true | ss => existsb (fun s => bool_decide (s = n_Severity n)) ss end) &&
  forallb (fun kv => bool_decide (default "" (n_Labels n !! fst kv) = snd kv)) (map_to_list (rt_Labels r)).

Record Router := mkRouter { routes : list Route; limiter : option L }.

(** NewRouter: a limiter only when a rate or a burst is given *)
Definition NewRouter (new_limiter : float64 -> Z -> L) (rs : list Route) (rps : float64) (burst : Z) : Router :=
  mkRouter rs (if fgt rps f_zero || (0 <? burst) then Some (new_limiter rps burst) else None).

Inductive DispatchError : Type := RateLimited (route : string) | Failed (route : string).

Fixpoint dispatch_loop (rs : list Route) (n : Notification) (lim : option L) (w : W) :
    list DispatchError * option L * W :=
  match rs with
  | [] => ([], lim, w)
  | r :: rest =>
      if negb (matches r n) then dispatch_loop rest n lim w
      else
        let '(ok, lim) := match lim with None => (true, None) | Some l => let '(ok, l) := allow l in (ok, Some l) end in
        if negb ok
        then let '(errs, lim, w) := dispatch_loop rest n lim w in (RateLimited (rt_Name r) :: errs, lim, w)
        else
          let '(sent, w) := rt_Notify r n w in
          let '(errs, lim, w) := dispatch_loop rest n lim w in
          ((if sent then errs else Failed (rt_Name r) :: errs), lim, w)
  end.

Definition Dispatch (rt : Router) (n : Notification) (w : W) : list DispatchError * Router * W :=
  let '(errs, lim, w) := dispatch_loop (routes rt) n (limiter rt) w in (errs, mkRouter (routes rt) lim, w).
End router.
Arguments Route W : clear implicits.
Arguments Router W L : clear implicits.

(** ** Failures of one route do not touch the others *)

Section spec.
Context {L : Type} (allow : L -> bool * L).

(** the answers of the limiter to [k] calls *)
Fixpoint grants (lim : option L) (k : nat) : list bool :=
  match k with
  | O => []
  | S k => match lim with
           | None => true :: grants None k
           | Some l => let '(ok, l) := allow l in ok :: grants (Some l) k
           end
  end.

(** notifiers that log which route was called and succeed or fail by [works] *)
Definition logging (works : string -> bool) (name : string) : Notification -> list string -> bool * list string :=
  fun _ w => (works name, (w ++ [name])%list).
Definition is_logging (works : string -> bool) (r : Route (list string)) : Prop :=
  rt_Notify r = logging works (rt_Name r).

Definition errors_of (works : string -> bool) (names : list string) (gs : list bool) : list DispatchError :=
  omap (fun ng : string * bool =>
    if negb ng.2 then Some (RateLimited ng.1) else if works ng.1 then None else Some (Failed ng.1)) (zip names gs).
Definition called (names : list string) (gs : list bool) : list string :=
  omap (fun ng : string * bool => if ng.2 then Some ng.1 else None) (zip names gs).

(** A notification is handed to every route it matches that the limiter lets through,
    once each and in order, whether or not the notifiers before it failed; the errors
    returned are exactly the routes over the limit and the failed ones, in order, and a
    route it does not match is neither called nor charged to the limit. *)
Theorem dispatch_spec (works : string -> bool) (rt : Router (list string) L) n w :
  Forall (is_logging works) (routes rt) ->
  let names := rt_Name <$> List.filter (fun r => matches r n) (routes rt) in
  let gs := grants (limiter rt) (length names) in
  let '(errs, rt', w') := Dispatch allow rt n w in
  errs = errors_of works names gs /\ w' = (w ++ called names gs)%list /\ routes rt' = routes rt.
Proof.
  destruct rt as [rs lim]. unfold Dispatch. cbn [routes limiter]. intros Hlog.
  assert (forall rs lim w, Forall (is_logging works) rs ->
    let names := rt_Name <$> List.filter (fun r => matches r n) rs in
    let gs := grants lim (length names) in
    let '(errs, lim', w') := dispatch_loop allow rs n lim w in
    errs = errors_of works names gs /\ w' = (w ++ called names gs)%list) as Hl.
  { clear. intros rs. induction rs as [|r rs IH]; intros lim w Hlog; [cbn; by rewrite app_nil_r|].
    apply Forall_cons in Hlog as [Hr Hlog]. cbn [dispatch_loop List.filter].
    destruct (matches r n); cbn [negb]; [|by apply IH]. rewrite fmap_cons. cbn [length grants].
    destruct (match lim with None => _ | Some _ => _ end) as [ok lim1] eqn:Ha.
    assert (grants lim (S (length (rt_Name <$> List.filter (fun r => matches r n) rs))) =
            ok :: grants lim1 (length (rt_Name <$> List.filter (fun r => matches r n) rs))) as Hg.
    { cbn [grants]. destruct lim as [l|]; [|by injection Ha as <- <-].
      destruct (allow l). by injection Ha as <- <-. }
    cbn [grants] in Hg. rewrite Hg. destruct ok; cbn [negb].
    - rewrite Hr. cbn [logging]. specialize (IH lim1 (w ++ [rt_Name r])%list Hlog).
      destruct (dispatch_loop allow rs n lim1 _) as [[errs lim'] w']. destruct IH as [-> ->].
      unfold errors_of, called. cbn [zip zip_with omap list_omap fst snd negb]. rewrite <- app_assoc.
      by destruct (works (rt_Name r)).
    - specialize (IH lim1 w Hlog). destruct (dispatch_loop allow rs n lim1 w) as [[errs lim'] w'].
      destruct IH as [-> ->]. done. }
  specialize (Hl rs lim w Hlog). destruct (dispatch_loop allow rs n lim w) as [[errs lim'] w']. by destruct Hl.
Qed.
End spec.

(** ** Concrete routers *)

(** a budget of calls *)
Definition budget (l : nat) : bool * nat := match l with O => (false, O) | S l => (true, l) end.

Definition demo_route (works : string -> bool) (name : string) (severities : list string) : Route (list string) :=
  mkRoute name (logging works name) severities ∅.
Definition demo_notification (severity : string) : Notification :=
  mkNotification "disk-full" ∅ severity "" f_zero 0 "".
Definition ntfy_down (name : string) : bool := negb (bool_decide (name = "ntfy")).
Definition demo_router : Router (list string) nat :=
  mkRouter [demo_route ntfy_down "ntfy" []; demo_route ntfy_down "pager" ["critical"]; demo_route ntfy_down "mail" ["warn"]]
    (Some 5%nat).

Lemma dispatch_spec_witness :
  let '(errs, _, w) := Dispatch budget demo_router (demo_notification "warn") [] in
  errs = [Failed "ntfy"] /\ w = ["ntfy"; "mail"].
Proof.
  pose proof (dispatch_spec budget ntfy_down demo_router (demo_notification "warn") []) as Hd.
  assert (Forall (is_logging ntfy_down) (routes demo_router)) as Hl.
  { repeat (apply Forall_cons; split; [done|]). by apply Forall_nil. }
  specialize (Hd Hl). vm_compute in Hd. vm_compute. exact (conj (proj1 Hd) (proj1 (proj2 Hd))).
Defined.

(** The budget is one for all routes: a route that uses it up silences the others. *)
Example shared_budget :
  let rt := mkRouter [demo_route (fun _ => true) "ntfy" []; demo_route (fun _ => true) "pager" []] (Some 1%nat) in
  let '(errs, _, w) := Dispatch budget rt (demo_notification "critical") [] in
  errs = [RateLimited "pager"] /\ w = ["ntfy"].
Proof. vm_compute. done. Qed.

Example title : Title (demo_notification "warn") = "[FIRING] disk-full".
Proof. vm_compute. done. Qed.

End Notify.
