(* ===== verification/Notifiers.v ===== *)
(** * Notifiers: the channels of notifications and the external heartbeat

    Models the texts of internal/notify/notify.go (Body, DeepLink), the notifiers (log.go,
    ntfy.go, webhook.go, telegram.go, smtp.go) and internal/alerting/externaldeadman.go. HTTP,
    SMTP, JSON, net/url and the printing of floats and dates are parameters. *)

From stdpp Require Import base gmap strings list.
From Stdlib Require Import ZArith Lia Ascii.
From S2P Require Import Prelude GoStd GoConv GoIO Schema Notify.
Import GoString GoConv GoIO GoTime GoFloat Schema Notify.Notify.

Local Open Scope string_scope.
Local Open Scope Z_scope.

Module Notifiers.

Definition nl : string := String newline "".
Definition crlf : string := String carriage_return nl.

(** an HTTP request, and what is done with it: a status and a body, or an error *)
Record HttpRequest := mkHttp { Method : string; URL : string; Headers : list (string * string); ReqBody : string }.
Abbreviation Net W := (W -> HttpRequest -> option (Z * string) * W).

Definition success (code : Z) : bool := negb ((code <? 200) || (300 <=? code)).

Section texts.
(** %v of a float64, t.Format of the two layouts, the labels in the order of the iteration *)
Context (show_float : float64 -> string) (rfc3339 rfc3339_milli : Time -> string) (iteration : gmap string string -> list (string * string)).

Definition Body (n : Notification) : string :=
  let s := Title n ++ nl ++ "severity: " ++ n_Severity n ++ nl ++ "value: " ++ show_float (n_Value n) ++ nl ++ "at: " ++ rfc3339 (n_At n) in
  let s := fold_left (fun s kv => s ++ nl ++ kv.1 ++ ": " ++ kv.2) (iteration (n_Labels n)) s in
  if bool_decide (n_DeepLink n = "") then s else s ++ nl ++ nl ++ n_DeepLink n.

(** [url_Parse] of the base URL, and the URL with the query values set *)
Definition DeepLink {U} (url_Parse : string -> option U) (with_query : U -> list (string * string) -> string) (baseURL : string) (labels : gmap string string) (at_ : Time) : string :=
  let hostID := label labels "host_id" in
  if bool_decide (baseURL = "") || bool_decide (hostID = "") then "" else
  match url_Parse baseURL with
  | None => ""
  | Some u => with_query u [("host_id", hostID); ("at", rfc3339 at_)]
  end.

Inductive NotifyError := ErrMarshal | ErrBuilding | ErrSending | ErrStatus (code : Z) | ErrTelegram (description : string) | ErrNoRecipients.

Section http.
Context (valid_url : string -> bool) {W : Type} (net : Net W).

(** NewRequestWithContext and client.Do *)
Definition do_request (rq : HttpRequest) (w : W) : result NotifyError (Z * string) * W :=
  if negb (valid_url (URL rq)) then (Err ErrBuilding, w) else
  match net w rq with (None, w) => (Err ErrSending, w) | (Some r, w) => (Ok r, w) end.

(** the status decides *)
Definition by_status (r : result NotifyError (Z * string) * W) : result NotifyError unit * W :=
  match r with
  | (Err e, w) => (Err e, w)
  | (Ok (code, _), w) => (if success code then Ok tt else Err (ErrStatus code), w)
  end.

(** *** ntfy.go *)

Definition ntfyPriority (severity : string) : string :=
  if decide (severity = "critical") then "urgent"
  else if decide (severity = "error") then "high"
  else if decide (severity = "warn") then "default"
  else if decide (severity = "notice" \/ severity = "info") then "low"
  else "min".

Definition ntfy_Notify (TopicURL : string) (n : Notification) (w : W) : result NotifyError unit * W :=
  let headers := ([("Title", Title n); ("Priority", ntfyPriority (n_Severity n))] ++
                  if bool_decide (n_DeepLink n = "") then [] else [("Click", n_DeepLink n)])%list in
  by_status (do_request (mkHttp "POST" TopicURL headers (Body n)) w).

(** *** webhook.go *)

Record webhookPayload := mkPayload { p_RuleID : string; p_Labels : gmap string string; p_Severity : string; p_State : string; p_Value : float64; p_At : string; p_DeepLink : string }.

Definition webhook_Notify (marshal : webhookPayload -> option string) (url : string) (n : Notification) (w : W) : result NotifyError unit * W :=
  match marshal (mkPayload (n_RuleID n) (n_Labels n) (n_Severity n) (n_State n) (n_Value n) (rfc3339_milli (n_At n)) (n_DeepLink n)) with
  | None => (Err ErrMarshal, w)
  | Some body => by_status (do_request (mkHttp "POST" url [("Content-Type", "application/json")] body) w)
  end.

(** *** telegram.go *)

Definition defaultTelegramAPIBaseURL : string := "https://api.telegram.org".

Record TelegramNotifier := mkTelegram { BotToken : string; ChatID : string; apiBaseURL : string }.
Record telegramResponse := mkResponse { OK : bool; Description : string }.

(** [marshal] of the chat and the text; [decode] of the answer, which is all zero when it
    cannot be decoded *)
Definition telegram_Notify (marshal : string * string -> option string) (decode : string -> option telegramResponse) (t : TelegramNotifier) (n : Notification) (w : W) :
    result NotifyError unit * W :=
  let base := if bool_decide (apiBaseURL t = "") then defaultTelegramAPIBaseURL else apiBaseURL t in
  match marshal (ChatID t, Body n) with
  | None => (Err ErrMarshal, w)
  | Some body =>
      match do_request (mkHttp "POST" (base ++ "/bot" ++ BotToken t ++ "/sendMessage") [("Content-Type", "application/json")] body) w with
      | (Err e, w) => (Err e, w)
      | (Ok (code, answer), w) =>
          let decoded := default (mkResponse false "") (decode answer) in
          if negb (success code) || negb (OK decoded)
          then (if bool_decide (Description decoded = "") then Err (ErrStatus code) else Err (ErrTelegram (Description decoded)), w)
          else (Ok tt, w)
      end
  end.

End http.

(** *** smtp.go *)

Definition buildEmailMessage (from : string) (to : list string) (subject body : string) : string :=
  "From: " ++ from ++ crlf ++ "To: " ++ String.concat ", " to ++ crlf ++ "Subject: " ++ subject ++ crlf ++
  "MIME-Version: 1.0" ++ crlf ++ "Content-Type: text/plain; charset=" ++ String "034" ("utf-8" ++ String "034" crlf) ++ crlf ++ body.

Record SMTPNotifier := mkSMTP { Host : string; Port : Z; Username : string; Password : string; From : string; To : list string }.

(** smtp.SendMail: the address, the credentials for the host, the sender, the recipients and
    the message *)
Record mail := mkMail { addr : string; auth : string * string * string; mail_from : string; mail_to : list string; message : string }.

Definition smtp_Notify {W} (sendMail : mail -> W -> bool * W) (s : SMTPNotifier) (n : Notification) (w : W) : result NotifyError unit * W :=
  if (length (To s) =? 0)%nat then (Err ErrNoRecipients, w) else
  let msg := buildEmailMessage (From s) (To s) (Title n) (Body n) in
  match sendMail (mkMail (Host s ++ ":" ++ Itoa (Port s)) (Username s, Password s, Host s) (From s) (To s) msg) w with
  | (true, w) => (Ok tt, w)
  | (false, w) => (Err ErrSending, w)
  end.

(** *** log.go *)

(** the line written to the log; the result of the write is ignored *)
Definition log_Notify (n : Notification) (log : list string) : result NotifyError unit * list string := (Ok tt, (log ++ [(Body n ++ nl)%string])%list).

(** ** What is delivered *)

(** No channel reports a delivery that did not happen: ntfy and the webhook succeed only
    when the endpoint answered the one request with a status of success, Telegram when its
    API also confirmed it. *)
Theorem notify_confirmed {W} valid_url (net : Net W) marshal marshal_t decode (t : TelegramNotifier) url n w w' :
  (ntfy_Notify valid_url net url n w = (Ok tt, w') -> exists rq code answer, URL rq = url /\ ReqBody rq = Body n /\ net w rq = (Some (code, answer), w') /\ 200 <= code < 300) /\
  (webhook_Notify valid_url net marshal url n w = (Ok tt, w') -> exists rq code answer, URL rq = url /\ net w rq = (Some (code, answer), w') /\ 200 <= code < 300) /\
  (telegram_Notify valid_url net marshal_t decode t n w = (Ok tt, w') -> exists rq code answer d, net w rq = (Some (code, answer), w') /\ 200 <= code < 300 /\
     marshal_t (ChatID t, Body n) = Some (ReqBody rq) /\ decode answer = Some (mkResponse true d)).
Proof.
  assert (forall code, success code = true -> 200 <= code < 300) as Hs.
  { intros code. unfold success. rewrite negb_true_iff, orb_false_iff, Z.ltb_ge, Z.leb_gt. lia. }
  assert (forall rq r, do_request valid_url net rq w = (Ok r, w') -> net w rq = (Some r, w')) as Hd.
  { intros rq r. unfold do_request. destruct (negb _); [done|]. destruct (net w rq) as [[r'|] w1]; [|done]. by intros [= -> ->]. }
  assert (forall rq, by_status (do_request valid_url net rq w) = (Ok tt, w') -> exists code answer, net w rq = (Some (code, answer), w') /\ 200 <= code < 300) as Hb.
  { intros rq Hr. destruct (do_request valid_url net rq w) as [[[code answer]|e] w1] eqn:E; [|done]. cbn in Hr. destruct (success code) eqn:Ec; [|done].
    injection Hr as <-. exists code, answer. split; [by apply Hd|by apply Hs]. }
  split_and!.
  - intros (code & answer & Hn & Hc)%Hb. eexists _, code, answer. split; [|split; [|split; [exact Hn|exact Hc]]]; done.
  - unfold webhook_Notify. destruct (marshal _) as [body|]; [|done]. intros (code & answer & Hn & Hc)%Hb. eexists _, code, answer. split; [|split; [exact Hn|exact Hc]]; done.
  - unfold telegram_Notify. destruct (marshal_t _) as [body|] eqn:Em; [|done]. set (rq := mkHttp _ _ _ body).
    destruct (do_request valid_url net rq w) as [[[code answer]|e] w1] eqn:E; [|done]. destruct (success code) eqn:Ec; cbn [negb orb]; [|by case_bool_decide].
    destruct (decode answer) as [[ok d]|] eqn:Ed; [|done]. cbn. destruct ok; cbn; [|by case_bool_decide]. intros [= <-].
    exists rq, code, answer, d. split_and!; [by apply Hd|by apply Hs..|done|done].
Qed.

(** *** Mail *)

(** a mail reader: the header lines up to the first empty one, and the rest *)
Fixpoint read_headers (fuel : nat) (s : string) : option (list string * string) :=
  match fuel with
  | O => None
  | S fuel =>
      '(line, rest) ← cut_byte newline s;
      let line := drop_cr line in
      if bool_decide (line = "") then Some ([], rest) else
      '(lines, body) ← read_headers fuel rest; Some (line :: lines, body)
  end.

Lemma read_line fuel line rest :
  lacks newline line = true -> line <> "" ->
  read_headers (S fuel) (line ++ crlf ++ rest) = '(lines, body) ← read_headers fuel rest; Some (line :: lines, body).
Proof.
  intros Hl Hne. unfold crlf, nl. cbn [read_headers]. change (String carriage_return (String newline "") ++ rest) with (String carriage_return (String newline rest)).
  assert (line ++ String carriage_return (String newline rest) = (line ++ String carriage_return "") ++ String newline rest) as ->.
  { by rewrite <- str_app_assoc. }
  rewrite cut_byte_lacks_app by (rewrite lacks_app, Hl; done). cbn [mbind option_bind]. unfold drop_cr. rewrite trim_suffix_app. by rewrite bool_decide_false.
Qed.

Definition email_headers (from : string) (to : list string) (subject : string) : list string :=
  ["From: " ++ from; "To: " ++ String.concat ", " to; "Subject: " ++ subject; "MIME-Version: 1.0"; "Content-Type: text/plain; charset=" ++ String "034" ("utf-8" ++ String "034" "")].

(** A mail reads as it was meant: as long as addresses and the title are single lines, the
    message has the five headers and no other, and its text is the body, whatever that
    holds. *)
Theorem email_reads_back from to subject body :
  lacks newline from = true -> lacks newline (String.concat ", " to) = true -> lacks newline subject = true ->
  read_headers 6 (buildEmailMessage from to subject body) = Some (email_headers from to subject, body).
Proof.
  intros Hf Ht Hs. unfold buildEmailMessage, email_headers.
  rewrite (str_app_assoc "From: "), (str_app_assoc "To: "), (str_app_assoc "Subject: ").
  rewrite read_line by done. rewrite read_line by done. rewrite read_line by done. rewrite read_line by done.
  assert ("Content-Type: text/plain; charset=" ++ String "034" ("utf-8" ++ String "034" crlf) ++ crlf ++ body =
    ("Content-Type: text/plain; charset=" ++ String "034" ("utf-8" ++ String "034" "")) ++ crlf ++ crlf ++ body) as -> by done.
  rewrite read_line by done. cbn [read_headers]. change (crlf ++ body) with (String carriage_return "" ++ String newline body).
  rewrite cut_byte_lacks_app by done. done.
Qed.

End texts.

Definition demo_notification (severity : string) : Notification :=
  mkNotification "disk_full" {[ "host_id" := "h1" ]} severity "firing" (f_of_Z 1) 5 "".

Lemma email_reads_back_witness :
  read_headers 6 (buildEmailMessage "hub@x" ["a@x"; "b@x"] "[FIRING] disk_full" ("x" ++ crlf ++ crlf ++ "y")) =
    Some (email_headers "hub@x" ["a@x"; "b@x"] "[FIRING] disk_full", "x" ++ crlf ++ crlf ++ "y").
Proof. by apply (email_reads_back "hub@x" ["a@x"; "b@x"] "[FIRING] disk_full"). Defined.

(** The API of Telegram answers errors with a status of success, too. *)
Example telegram_error_in_answer :
  (telegram_Notify (fun _ => "1") (fun _ => "now") map_to_list (fun _ => true) (fun (w : unit) _ => (Some (200, "{}"), w)) (fun _ => Some "{}")
    (fun _ => Some (mkResponse false "chat not found")) (mkTelegram "t" "c" "") (demo_notification "warn") tt).1 = Err (ErrTelegram "chat not found").
Proof. vm_compute. done. Qed.

(** A rule id with a line end in it adds a header to the mail. *)
Example rule_id_adds_header :
  fst <$> read_headers 7 (buildEmailMessage "a" ["b"] (Title (mkNotification ("x" ++ crlf ++ "Bcc: evil@x") ∅ "warn" "" f_zero 0 "")) "body") =
    Some ["From: a"; "To: b"; "Subject: [FIRING] x"; "Bcc: evil@x"; "MIME-Version: 1.0"; "Content-Type: text/plain; charset=" ++ String "034" ("utf-8" ++ String "034" "")].
Proof. vm_compute. done. Qed.

End Notifiers.

(** ** internal/alerting/externaldeadman.go *)
Module ExternalDeadman.
Import Notifiers.

Inductive PingError := PingBuilding | PingSending | PingStatus (code : Z).

Section deadman.
Context (valid_url : string -> bool) {W : Type} (net : Net W) (url : string).

Definition Ping (w : W) : result PingError unit * W :=
  if negb (valid_url url) then (Err PingBuilding, w) else
  match net w (mkHttp "GET" url [] "") with
  | (None, w) => (Err PingSending, w)
  | (Some (code, _), w) => (if success code then Ok tt else Err (PingStatus code), w)
  end.

(** [ticks] of the ticker until the context is done; the errors handed to onError, in order *)
Fixpoint Run (ticks : nat) (w : W) : list PingError * W :=
  match ticks with
  | O => ([], w)
  | S ticks =>
      let '(r, w) := Ping w in
      let '(errs, w) := Run ticks w in
      ((match r with Err e => [e] | Ok _ => [] end ++ errs)%list, w)
  end.

End deadman.

(** a network that logs requests and answers as scripted, then not at all *)
Definition scripted (w : list (option (Z * string)) * nat) (_ : HttpRequest) : option (Z * string) * (list (option (Z * string)) * nat) :=
  match w.1 with [] => (None, ([], S w.2)) | r :: rest => (r, (rest, S w.2)) end.

Definition failed (r : option (Z * string)) : bool := match r with Some (code, _) => negb (success code) | None => true end.

(** The heartbeat never gives up: whatever the endpoint answers, there is one request per
    tick, and each failure is reported once, with nothing reported for the others. *)
Theorem heartbeat_persists valid_url url answers :
  valid_url url = true ->
  let '(errs, w) := Run valid_url scripted url (length answers) (answers, 0%nat) in
  w = ([], length answers) /\ length errs = length (List.filter failed answers).
Proof.
  intros Hv. assert (forall sent, let '(errs, w) := Run valid_url scripted url (length answers) (answers, sent) in
    w = ([], (sent + length answers)%nat) /\ length errs = length (List.filter failed answers)) as Hg; [|apply Hg].
  induction answers as [|a answers IH]; intros sent; cbn [length Run]; [by rewrite Nat.add_0_r|]. unfold Ping. rewrite Hv. cbn [negb scripted fst snd].
  specialize (IH (S sent)). cbn [List.filter]. destruct a as [[code body]|]; cbn [failed].
  - destruct (success code) eqn:Ec; cbn [negb]; destruct (Run _ _ _ _ _) as [errs w]; destruct IH as [-> IH]; (split; [f_equal; lia|]); cbn [app length]; lia.
  - destruct (Run _ _ _ _ _) as [errs w]. destruct IH as [-> IH]. split; [f_equal; lia|]. cbn [app length]. lia.
Qed.

Lemma heartbeat_persists_witness :
  let '(errs, w) := Run (fun _ => true) scripted "https://hc" 3 ([Some (200, ""); None; Some (503, "")], 0%nat) in
  w = ([], 3%nat) /\ length errs = 2%nat.
Proof. by apply (heartbeat_persists (fun _ => true) "https://hc" [Some (200, ""); None; Some (503, "")]). Defined.

End ExternalDeadman.
