(* ===== verification/Storage.v ===== *)
(** * Storage: the hub's relational store

    Models internal/storage/sqlite.go and inventory.go: events in one SQLite file per
    month, written by a single goroutine, and the latest inventory of each host and kind.

    A database is what its tables hold: the rows of [events] and of the full-text index
    [events_fts] of each month, and the rows of [inventories]. SQL statements are the
    changes they make to those rows. What SQLite and encoding/json do beyond that is a
    parameter: the texts json.Marshal makes and the values json.Unmarshal reads back, the
    number of databases one connection can attach, the match operator of FTS5, and which
    operations fail. *)

From stdpp Require Import base gmap strings list sorting.
From Stdlib Require Import ZArith Lia Ascii.
From S2P Require Import Prelude GoStd Schema Calendar.
Import GoString GoTime Schema Calendar.

Local Open Scope string_scope.
Local Open Scope Z_scope.

(** encoding/json on the fields of an event and on inventory items; the readers give the
    value json.Unmarshal leaves in a zero variable when its error is ignored *)
Class StoreJson := mkStoreJson {
  subject_json : EventSubject -> string;
  attrs_json : gmap string string -> string;
  refs_json : list LogRef -> string;
  items_json : list InventoryItem -> string;
  read_subject : string -> EventSubject;
  read_attrs : string -> gmap string string;
  read_refs : string -> list LogRef;
  read_items : string -> option (list InventoryItem);
}.

Module Sqlite.
Section store.
Context {J : StoreJson}.

Record Row := mkRow {
  r_id : string; r_ts : Z; r_ts_received : option Z; r_host_id : string; r_source : string;
  r_type : string; r_severity : string; r_title : string; r_subject_json : string;
  r_attrs_json : string; r_fingerprint : string; r_log_refs_json : string; r_schema : Z }.

Record MonthDB := mkMonthDB { events : list Row; events_fts : list (string * string) }.

Record InvRow := mkInvRow {
  ir_host_id : string; ir_kind : string; ir_reported_at : Z; ir_schema : Z; ir_items_json : string }.

Record SQLiteStore := mkStore {
  files : gmap string MonthDB;                    (** the month files on disk *)
  dbs : gset string;                              (** the months opened by this process *)
  inventories : gmap (string * string) InvRow;    (** the inventory file on disk *)
  inv_open : bool;                                (** whether this process has opened it *)
  closed : bool;
}.

Definition empty_store : SQLiteStore := mkStore ∅ ∅ ∅ false false.

(** NewSQLiteStore on a directory that holds [files] and [inventories]: every file is
    opened later, on its first use *)
Definition NewSQLiteStore (mkdir_ok : bool) (files : gmap string MonthDB)
    (inventories : gmap (string * string) InvRow) : option SQLiteStore :=
  if mkdir_ok then Some (mkStore files ∅ inventories false false) else None.

Inductive StorageError : Set :=
| ErrInvalid (e : SchemaError) | ErrClosed | ErrContext | ErrOpen (month : string)
| ErrExec | ErrIndex | ErrAttach | ErrQuery | ErrItems.

(** What happens to the context of a write: nothing, it ends before the writer takes the
    request, or it ends while the caller waits for the result. *)
Inductive ctx : Set := CtxLive | CtxDone | CtxGivesUp.

(** enqueueWrite: [fn] runs in the writer goroutine, alone *)
Definition enqueueWrite (c : ctx) (fn : SQLiteStore -> result StorageError unit * SQLiteStore)
    (s : SQLiteStore) : result StorageError unit * SQLiteStore :=
  if closed s then (Err ErrClosed, s)
  else match c with
       | CtxDone => (Err ErrContext, s)
       | CtxLive => fn s
       | CtxGivesUp => (Err ErrContext, snd (fn s))
       end.

Definition monthKey (t : Time) : string := format_month (month_of t).
Definition pathForMonth (month : string) : string := "events-" ++ month ++ ".db".

(** monthDB: a month not open yet is opened, and created with empty tables *)
Definition monthDB (open_ok : bool) (month : string) (s : SQLiteStore) :
    result StorageError MonthDB * SQLiteStore :=
  let db := default (mkMonthDB [] []) (files s !! month) in
  if decide (month ∈ dbs s) then (Ok db, s)
  else if open_ok
       then (Ok db, mkStore (<[month := db]> (files s)) ({[month]} ∪ dbs s) (inventories s) (inv_open s) (closed s))
       else (Err (ErrOpen month), s).

Definition toRow (e : Event) : Row :=
  mkRow (e_ID e) (unix_milli (e_TS e))
    (if is_zero (e_TSReceived e) then None else Some (unix_milli (e_TSReceived e)))
    (e_HostID e) (e_Source e) (e_Type e) (e_Severity e) (e_Title e)
    (subject_json (e_Subject e)) (attrs_json (e_Attrs e)) (e_Fingerprint e)
    (refs_json (e_LogRefs e)) (e_Schema e).

(** which of the calls of a write succeed *)
Record IO := mkIO { io_open : bool; io_exec : bool; io_index : bool }.

Definition insertEvent (io : IO) (db : MonthDB) (e : Event) : result StorageError unit * MonthDB :=
  if negb (io_exec io) then (Err ErrExec, db)
  else if existsb (fun r => bool_decide (r_id r = e_ID e)) (events db)
  then (Ok tt, db)                                       (** ON CONFLICT(id) DO NOTHING *)
  else
    let events := (events db ++ [toRow e])%list in
    if io_index io
    then (Ok tt, mkMonthDB events ((e_ID e, e_Title e) :: events_fts db))
    else (Err ErrIndex, mkMonthDB events (events_fts db)).

(** the closure InsertEvent gives to the writer *)
Definition write_event (io : IO) (e : Event) (s : SQLiteStore) : result StorageError unit * SQLiteStore :=
  let month := monthKey (e_TS e) in
  match monthDB (io_open io) month s with
  | (Err err, s) => (Err err, s)
  | (Ok db, s) =>
      let '(r, db) := insertEvent io db e in
      (r, mkStore (<[month := db]> (files s)) (dbs s) (inventories s) (inv_open s) (closed s))
  end.

Definition InsertEvent (c : ctx) (io : IO) (e : Event) (s : SQLiteStore) :
    result StorageError unit * SQLiteStore :=
  match Event_Validate e with
  | Err err => (Err (ErrInvalid err), s)
  | Ok _ => enqueueWrite c (write_event io e) s
  end.

(** *** Reading events *)

(** the loop of monthsBetween; [fuel] is the number of months from [from] to [to] *)
Fixpoint months_loop (fuel : nat) (cur to : Time) (seen : gset string) (months : list string) :
    gset string * list string :=
  match fuel with
  | O => (seen, months)
  | S fuel =>
      if after cur to then (seen, months)
      else
        let key := monthKey cur in
        if decide (key ∈ seen)
        then months_loop fuel (add_month cur) to seen months
        else months_loop fuel (add_month cur) to ({[key]} ∪ seen) (months ++ [key])%list
  end.

Definition months_fuel (from to : Time) : nat := Z.to_nat (month_of to - month_of from + 1).

Definition monthsBetween (from to : Time) : list string :=
  if before to from then []
  else
    let '(seen, months) := months_loop (months_fuel from to) from to ∅ [] in
    let toKey := monthKey to in
    if decide (toKey ∈ seen) then months else (months ++ [toKey])%list.

(** one row of scanEvents. The columns are selected in the order attrs_json, fingerprint,
    log_refs_json and scanned into attrsJSON, logRefsJSON, e.Fingerprint. *)
Definition scanEvent (r : Row) : Event :=
  let attrsJSON := r_attrs_json r in
  let logRefsJSON := r_fingerprint r in
  let fingerprint := r_log_refs_json r in
  mkEvent (r_id r) (of_unix_milli (r_ts r))
    (match r_ts_received r with Some ms => of_unix_milli ms | None => 0 end)
    (r_host_id r) (r_source r) (r_type r) (r_severity r) (r_title r)
    (if bool_decide (r_subject_json r = "") then mkSubject "" "" 0 else read_subject (r_subject_json r))
    (if bool_decide (attrsJSON = "") then ∅ else read_attrs attrsJSON)
    fingerprint
    (if bool_decide (logRefsJSON = "") then [] else read_refs logRefsJSON)
    (r_schema r).

Definition scanEvents (rows : list Row) : list Event := scanEvent <$> rows.

Fixpoint prepare (open_ok : string -> bool) (months : list string) (s : SQLiteStore) :
    result StorageError unit * SQLiteStore :=
  match months with
  | [] => (Ok tt, s)
  | m :: rest =>
      match monthDB (open_ok m) m s with
      | (Err err, s) => (Err err, s)
      | (Ok _, s) => prepare open_ok rest s
      end
  end.

Definition rows_of (s : SQLiteStore) (month : string) : list Row :=
  match files s !! month with Some db => events db | None => [] end.

(** WHERE ts BETWEEN ? AND ? AND (? = '' OR host_id = ?) *)
Definition selected (from to : Time) (hostID : string) (r : Row) : bool :=
  (unix_milli from <=? r_ts r) && (r_ts r <=? unix_milli to) &&
  (bool_decide (hostID = "") || bool_decide (r_host_id r = hostID)).

Definition by_ts (r1 r2 : Row) : Prop := r_ts r1 <= r_ts r2.
Global Instance by_ts_dec : RelDecision by_ts.
Proof. intros r1 r2. unfold by_ts. apply _. Defined.

(** ListEvents: the union of the months' rows; SQLite gives rows with the same ts in an
    order of its own *)
Definition ListEvents (max_attached : nat) (open_ok : string -> bool) (query_ok : bool)
    (from to : Time) (hostID : string) (s : SQLiteStore) :
    result StorageError (list Event) * SQLiteStore :=
  let months := monthsBetween from to in
  match months with
  | [] => (Ok [], s)
  | _ =>
      match prepare open_ok months s with
      | (Err err, s) => (Err err, s)
      | (Ok _, s) =>
          if (max_attached <? length months)%nat then (Err ErrAttach, s)
          else if negb query_ok then (Err ErrQuery, s)
          else
            let rows := List.filter (selected from to hostID) (concat (rows_of s <$> months)) in
            (Ok (scanEvents (merge_sort by_ts rows)), s)
      end
  end.

Definition by_ts_desc (r1 r2 : Row) : Prop := r_ts r2 <= r_ts r1.
Global Instance by_ts_desc_dec : RelDecision by_ts_desc.
Proof. intros r1 r2. unfold by_ts_desc. apply _. Defined.

(** LIMIT: SQLite takes a negative limit as none *)
Definition limited (limit : Z) (rows : list Row) : list Row :=
  if limit <? 0 then rows else take (Z.to_nat limit) rows.

(** SearchEventTitles, over the open months in the order [months] in which the map is
    iterated; [matches query title] is FTS5's MATCH *)
Definition search_month (matches : string -> string -> bool) (query : string) (limit : Z) (db : MonthDB) :
    list Row :=
  let ids := fst <$> List.filter (fun p => matches query (snd p)) (events_fts db) in
  limited limit (merge_sort by_ts_desc (List.filter (fun r => bool_decide (r_id r ∈ ids)) (events db))).

Fixpoint SearchEventTitles (query_ok : string -> bool) (matches : string -> string -> bool) (months : list string)
    (query : string) (limit : Z) (s : SQLiteStore) : result StorageError (list Event) :=
  match months with
  | [] => Ok []
  | m :: rest =>
      if negb (query_ok m) then Err ErrQuery
      else
        let found := scanEvents (search_month matches query limit (default (mkMonthDB [] []) (files s !! m))) in
        match SearchEventTitles query_ok matches rest query limit s with
        | Err err => Err err
        | Ok all => Ok (found ++ all)%list
        end
  end.

(** *** Inventories *)

(** inventoryDB: opened and migrated on its first use, then kept *)
Definition inventoryDB (open_ok : bool) (s : SQLiteStore) : result StorageError unit * SQLiteStore :=
  if inv_open s then (Ok tt, s)
  else if open_ok then (Ok tt, mkStore (files s) (dbs s) (inventories s) true (closed s))
  else (Err (ErrOpen "inventory"), s).

Definition UpsertInventory (c : ctx) (io : IO) (inv : Inventory) (s : SQLiteStore) :
    result StorageError unit * SQLiteStore :=
  match Inventory_Validate inv with
  | Err err => (Err (ErrInvalid err), s)
  | Ok _ =>
      let itemsJSON := items_json (inv_Items inv) in
      enqueueWrite c (fun s =>
        match inventoryDB (io_open io) s with
        | (Err err, s) => (Err err, s)
        | (Ok _, s) =>
            if negb (io_exec io) then (Err ErrExec, s)
            else
              let row := mkInvRow (inv_HostID inv) (inv_Kind inv) (unix_milli (inv_ReportedAt inv))
                           (inv_Schema inv) itemsJSON in
              (Ok tt, mkStore (files s) (dbs s)
                        (<[(inv_HostID inv, inv_Kind inv) := row]> (inventories s)) (inv_open s) (closed s))
        end) s
  end.

Definition scanInventory (row : option InvRow) : result StorageError (option Inventory) :=
  match row with
  | None => Ok None
  | Some r =>
      match read_items (ir_items_json r) with
      | None => Err ErrItems
      | Some items =>
          Ok (Some (mkInventory (ir_host_id r) (ir_kind r) (of_unix_milli (ir_reported_at r))
                                (ir_schema r) items))
      end
  end.

Definition GetInventory (open_ok query_ok : bool) (hostID kind : string) (s : SQLiteStore) :
    result StorageError (option Inventory) * SQLiteStore :=
  match inventoryDB open_ok s with
  | (Err err, s) => (Err err, s)
  | (Ok _, s) =>
      (if negb query_ok then Err ErrQuery else scanInventory (inventories s !! (hostID, kind)), s)
  end.

(** Close stops the writer: every later write is refused *)
Definition Close (s : SQLiteStore) : SQLiteStore := mkStore (files s) (dbs s) (inventories s) (inv_open s) true.

(** ** monthsBetween lists the months of the range *)

Lemma add_month_after t : t < add_month t.
Proof.
  pose proof (add_month_later t). destruct (Z.lt_ge_cases t (add_month t)) as [|Hle]; [done|].
  pose proof (month_of_mono _ _ Hle). lia.
Qed.

(** what the loop keeps true: [seen] holds the keys listed, each once *)
Definition loop_ok (seen : gset string) (months : list string) : Prop :=
  NoDup months /\ forall key, key ∈ seen <-> key ∈ months.

Lemma loop_ok_add seen months key :
  loop_ok seen months -> key ∉ seen -> loop_ok ({[key]} ∪ seen) (months ++ [key])%list.
Proof.
  intros [Hnd Hs] Hk. split.
  - apply NoDup_app. split; [done|]. split; [|apply NoDup_singleton].
    intros x Hx ->%list_elem_of_singleton. by apply Hk, Hs.
  - intros x. rewrite elem_of_union, elem_of_singleton, elem_of_app, list_elem_of_singleton, Hs. tauto.
Qed.

Lemma months_loop_ok fuel cur to seen months :
  loop_ok seen months ->
  let '(seen', months') := months_loop fuel cur to seen months in
  loop_ok seen' months' /\
  (forall key, key ∈ months -> key ∈ months') /\
  (forall key, key ∈ months' -> key ∈ months \/
     exists k, month_of cur <= k <= month_of to /\ key = format_month k).
Proof.
  revert cur seen months. induction fuel as [|fuel IH]; intros cur seen months Hok; cbn [months_loop].
  { split_and!; [done..|by left]. }
  unfold after. destruct (Z.ltb_spec to cur) as [|Hle]; [split_and!; [done..|by left]|].
  pose proof (month_of_mono _ _ Hle). pose proof (add_month_later cur).
  destruct (decide (monthKey cur ∈ seen)) as [Hin|Hin].
  - specialize (IH (add_month cur) seen months Hok). destruct (months_loop _ _ _ _ _) as [seen' months'].
    destruct IH as (IHo & IHk & IHs). split_and!; [done..|].
    intros key [?|(k & ? & ->)]%IHs; [by left|right]. exists k. split; [lia|done].
  - specialize (IH (add_month cur) _ _ (loop_ok_add _ _ _ Hok Hin)).
    destruct (months_loop _ _ _ _ _) as [seen' months']. destruct IH as (IHo & IHk & IHs).
    split_and!; [done|intros key ?; apply IHk, elem_of_app; by left|].
    intros key [[?| ->%list_elem_of_singleton]%elem_of_app|(k & ? & ->)]%IHs; [by left|right..].
    + exists (month_of cur). split; [lia|done].
    + exists k. split; [lia|done].
Qed.

(** starting by the 28th, no month before that of [to] is skipped *)
Lemma months_loop_complete fuel cur to seen months k :
  loop_ok seen months -> mday cur < 28 -> month_of to - month_of cur < Z.of_nat fuel ->
  month_of cur <= k < month_of to ->
  format_month k ∈ (months_loop fuel cur to seen months).2.
Proof.
  revert cur seen months. induction fuel as [|fuel IH]; intros cur seen months Hok Hd Hf Hk; [lia|].
  cbn [months_loop]. unfold after. destruct (Z.ltb_spec to cur) as [Hlt|Hle].
  { pose proof (month_of_mono to cur). lia. }
  destruct (add_month_28 cur Hd) as (Hm & Hd' & _).
  destruct (decide (k = month_of cur)) as [->|Hne].
  - change (format_month (month_of cur)) with (monthKey cur).
    destruct (decide (monthKey cur ∈ seen)) as [Hin|Hin].
    + pose proof (months_loop_ok fuel (add_month cur) to seen months Hok) as Hl.
      destruct (months_loop _ _ _ _ _). destruct Hl as (_ & Hl & _). apply Hl. by apply Hok.
    + pose proof (months_loop_ok fuel (add_month cur) to _ _ (loop_ok_add _ _ _ Hok Hin)) as Hl.
      destruct (months_loop _ _ _ _ _). destruct Hl as (_ & Hl & _).
      apply Hl, elem_of_app. right. by apply list_elem_of_singleton.
  - destruct (decide (monthKey cur ∈ seen)) as [Hin|Hin];
      (apply IH; [first [done|by apply loop_ok_add]|lia..]).
Qed.

(** the fuel is enough: running longer changes nothing *)
Lemma months_loop_fuel fuel extra cur to seen months :
  month_of to - month_of cur < Z.of_nat fuel ->
  months_loop (fuel + extra) cur to seen months = months_loop fuel cur to seen months.
Proof.
  revert cur seen months. induction fuel as [|fuel IH]; intros cur seen months Hf.
  - destruct extra as [|extra]; [done|]. cbn [months_loop Nat.add]. unfold after.
    destruct (Z.ltb_spec to cur) as [|Hle]; [done|]. pose proof (month_of_mono _ _ Hle). lia.
  - cbn [months_loop Nat.add]. destruct (after cur to); [done|].
    pose proof (add_month_later cur). destruct (decide _); apply IH; lia.
Qed.

Lemma monthsBetween_ok from to :
  from <= to ->
  NoDup (monthsBetween from to) /\
  (forall key, key ∈ monthsBetween from to ->
     exists k, month_of from <= k <= month_of to /\ key = format_month k) /\
  (mday from < 28 -> forall k, month_of from <= k <= month_of to -> format_month k ∈ monthsBetween from to).
Proof.
  intros Hft. pose proof (month_of_mono _ _ Hft). unfold monthsBetween, before.
  destruct (Z.ltb_spec to from); [lia|].
  assert (loop_ok ∅ []) as Hok0.
  { split; [apply NoDup_nil_2|]. intros key. split; intros Hk; [set_solver|by apply elem_of_nil in Hk]. }
  pose proof (months_loop_ok (months_fuel from to) from to ∅ [] Hok0) as Hl.
  pose proof (fun k => months_loop_complete (months_fuel from to) from to ∅ [] k Hok0) as Hc.
  destruct (months_loop _ _ _ _ _) as [seen months]. destruct Hl as (Hok & _ & Hs). cbn [snd] in Hc.
  unfold months_fuel in Hc.
  assert (forall key, key ∈ months -> exists k, month_of from <= k <= month_of to /\ key = format_month k) as Hs'.
  { intros key [Hn%elem_of_nil|?]%Hs; done. }
  destruct (decide (monthKey to ∈ seen)) as [Hin|Hin]; (split_and!; [| |intros Hd k Hk]).
  - apply Hok.
  - done.
  - destruct (decide (k = month_of to)) as [->|]; [by apply Hok|]. apply Hc; lia.
  - by apply (loop_ok_add _ _ _ Hok Hin).
  - intros key [?| ->%list_elem_of_singleton]%elem_of_app; [auto|].
    exists (month_of to). split; [lia|done].
  - apply elem_of_app. destruct (decide (k = month_of to)) as [->|].
    { right. by apply list_elem_of_singleton. }
    left. apply Hc; lia.
Qed.

(** monthsBetween names each month file once, only months between those of the two
    instants, and, when the range starts on or before the 28th of a month, every one of
    them; its loop ends because each turn moves to a later month. *)
Theorem monthsBetween_spec from to extra :
  from <= to ->
  NoDup (monthsBetween from to) /\
  (forall key, key ∈ monthsBetween from to ->
     exists k, month_of from <= k <= month_of to /\ key = format_month k) /\
  (mday from < 28 -> forall k, month_of from <= k <= month_of to -> format_month k ∈ monthsBetween from to) /\
  months_loop (months_fuel from to + extra) from to ∅ [] = months_loop (months_fuel from to) from to ∅ [].
Proof.
  intros Hft. destruct (monthsBetween_ok from to Hft) as (? & ? & ?). split_and!; [done..|].
  pose proof (month_of_mono _ _ Hft). apply months_loop_fuel. unfold months_fuel. lia.
Qed.

(** ** What is written is what is read *)

(** the events of a history that are stored: the first of each id in its month *)
Definition same_key (e1 e2 : Event) : bool :=
  bool_decide (monthKey (e_TS e1) = monthKey (e_TS e2)) && bool_decide (e_ID e1 = e_ID e2).
Definition keep (acc : list Event) (e : Event) : list Event :=
  if existsb (same_key e) acc then acc else (acc ++ [e])%list.
Definition first_of_each (evs : list Event) : list Event := fold_left keep evs [].

(** a history of acknowledged writes, across restarts of the hub *)
Inductive inserted : list Event -> SQLiteStore -> Prop :=
| inserted_none : inserted [] empty_store
| inserted_one evs s c io e s' :
    inserted evs s -> InsertEvent c io e s = (Ok tt, s') -> inserted (evs ++ [e])%list s'
| inserted_restart evs s s' :
    inserted evs s -> NewSQLiteStore true (files s) (inventories s) = Some s' -> inserted evs s'.

(** the row of [e] as scanEvent reads it *)
Definition readback (e : Event) : Event := scanEvent (toRow e).

(** the event is of the range, to the millisecond and both ends included, and of the
    host, no host name meaning every host *)
Definition in_range (from to : Time) (hostID : string) (e : Event) : bool :=
  (unix_milli from <=? unix_milli (e_TS e)) && (unix_milli (e_TS e) <=? unix_milli to) &&
  (bool_decide (hostID = "") || bool_decide (e_HostID e = hostID)).

Definition in_month (m : string) (e : Event) : bool := bool_decide (monthKey (e_TS e) = m).

Lemma existsb_row e l :
  existsb (fun r => bool_decide (r_id r = e_ID e))
    (toRow <$> List.filter (in_month (monthKey (e_TS e))) l) = existsb (same_key e) l.
Proof.
  induction l as [|x l IH]; [done|]. cbn [List.filter existsb]. unfold same_key at 1, in_month at 1.
  destruct (decide (monthKey (e_TS x) = monthKey (e_TS e))) as [Heq|Hne].
  - rewrite (bool_decide_eq_true_2 _ Heq), (bool_decide_eq_true_2 _ (eq_sym Heq)). rewrite fmap_cons.
    cbn [existsb andb]. rewrite IH. f_equal. apply bool_decide_ext. cbn [toRow r_id]. split; congruence.
  - rewrite (bool_decide_eq_false_2 _ Hne).
    rewrite (bool_decide_eq_false_2 (monthKey (e_TS e) = _)) by (intros E; by rewrite E in Hne).
    cbn [andb orb]. done.
Qed.

Lemma rows_of_insert m m' db fs ds iv io cl :
  rows_of (mkStore (<[m := db]> fs) ds iv io cl) m' = if decide (m = m') then events db
                                                      else rows_of (mkStore fs ds iv io cl) m'.
Proof.
  unfold rows_of. cbn [files]. destruct (decide (m = m')) as [->|].
  - by rewrite lookup_insert_eq.
  - by rewrite lookup_insert_ne.
Qed.

Lemma monthDB_rows ok m s db s' :
  monthDB ok m s = (Ok db, s') ->
  events db = rows_of s m /\ (forall m', rows_of s' m' = rows_of s m') /\ closed s' = closed s /\
  inventories s' = inventories s.
Proof.
  unfold monthDB. destruct (decide (m ∈ dbs s)).
  { intros [= <- <-]. split_and!; [|done..]. unfold rows_of. by destruct (files s !! m). }
  destruct ok; [|done]. intros [= <- <-].
  assert (events (default (mkMonthDB [] []) (files s !! m)) = rows_of s m) as Hdb.
  { unfold rows_of. by destruct (files s !! m). }
  split_and!; [done| |done..]. intros m'. rewrite rows_of_insert, Hdb. by destruct (decide _) as [->|].
Qed.

(** the rows of every month are those of the events [evs] *)
Definition holds (evs : list Event) (s : SQLiteStore) : Prop :=
  forall m, rows_of s m = toRow <$> List.filter (in_month m) (first_of_each evs).

(** an insertion, acknowledged or not, leaves the rows as they are or adds the event; an
    acknowledged one adds it *)
Lemma holds_insert_any c io e evs s r s' :
  holds evs s -> InsertEvent c io e s = (r, s') ->
  (holds evs s' /\ is_ok r = false) \/ holds (evs ++ [e])%list s'.
Proof.
  intros Hh. unfold InsertEvent, enqueueWrite. destruct (Event_Validate e) as [[]|]; [|intros [= <- <-]; by left].
  destruct (closed s); [intros [= <- <-]; by left|].
  assert ((holds evs (write_event io e s).2 /\ is_ok (write_event io e s).1 = false) \/
          holds (evs ++ [e])%list (write_event io e s).2) as Hfn.
  { unfold write_event. destruct (monthDB _ _ s) as [[db|err] s1] eqn:Hdb.
    2: { left. unfold monthDB in Hdb. destruct (decide _); [done|]. destruct (io_open io); [done|]. by injection Hdb as _ <-. }
    apply monthDB_rows in Hdb as (Hdb & Hrows & _). rewrite Hh in Hdb.
    assert (holds evs (mkStore (<[monthKey (e_TS e) := db]> (files s1)) (dbs s1) (inventories s1) (inv_open s1) (closed s1))) as Hsame.
    { intros m. rewrite rows_of_insert. destruct (decide _) as [<-|]; [done|]. rewrite <- Hh, <- Hrows. done. }
    assert (forall fts, existsb (same_key e) (first_of_each evs) = false ->
      holds (evs ++ [e])%list (mkStore (<[monthKey (e_TS e) := mkMonthDB (events db ++ [toRow e])%list fts]> (files s1))
                                 (dbs s1) (inventories s1) (inv_open s1) (closed s1))) as Hadd.
    { intros fts Hk m. unfold first_of_each in *. rewrite fold_left_app. cbn [fold_left]. unfold keep at 1. rewrite Hk.
      rewrite rows_of_insert, List.filter_app, fmap_app. cbn [List.filter].
      change (in_month m e) with (bool_decide (monthKey (e_TS e) = m)). destruct (decide _) as [<-|Hne].
      - rewrite bool_decide_eq_true_2 by done. cbn [events]. by rewrite Hdb.
      - rewrite bool_decide_eq_false_2 by done. rewrite app_nil_r, <- Hh, <- Hrows. done. }
    unfold insertEvent. rewrite Hdb, existsb_row.
    destruct (io_exec io); cbn [negb]; [|left; split; [exact Hsame|done]].
    destruct (existsb (same_key e) (first_of_each evs)) eqn:Hk.
    - right. intros m. unfold first_of_each in *. rewrite fold_left_app. cbn [fold_left snd]. unfold keep at 1. rewrite Hk. apply Hsame.
    - right. rewrite <- Hdb. destruct (io_index io); by apply Hadd. }
  destruct (write_event io e s) as [r1 s1]. cbn [fst snd] in Hfn.
  destruct c; intros [= <- <-]; [done|by left|]. destruct Hfn as [[? _]|?]; [by left|by right].
Qed.

Lemma holds_insert c io e evs s s' :
  holds evs s -> InsertEvent c io e s = (Ok tt, s') -> holds (evs ++ [e])%list s'.
Proof. intros Hh Hi. by destruct (holds_insert_any _ _ _ _ _ _ _ Hh Hi) as [[_ ?]|?]. Qed.

(** an insertion touches neither the inventories nor the writer *)
Lemma insert_frame c io e s :
  inventories (InsertEvent c io e s).2 = inventories s /\ closed (InsertEvent c io e s).2 = closed s.
Proof.
  unfold InsertEvent, enqueueWrite, write_event, monthDB. destruct (Event_Validate e); [|done].
  destruct (closed s) eqn:Hc; [done|].
  destruct c, (decide (monthKey (e_TS e) ∈ dbs s)), (io_open io); cbn [snd]; rewrite ?Hc; try done;
    destruct (insertEvent _ _ _); cbn [snd closed inventories]; by rewrite ?Hc.
Qed.

(** when nothing fails, exactly the valid events are acknowledged *)
Lemma insert_up e s :
  closed s = false ->
  (InsertEvent CtxLive (mkIO true true true) e s).1 =
  match Event_Validate e with Ok _ => Ok tt | Err err => Err (ErrInvalid err) end.
Proof.
  intros Hc. unfold InsertEvent, enqueueWrite. destruct (Event_Validate e); [|done]. rewrite Hc.
  unfold write_event, monthDB, insertEvent. cbn [io_open io_exec io_index negb].
  destruct (decide (monthKey (e_TS e) ∈ dbs s)); by destruct (existsb _ _).
Qed.

(** the rows of every month after a history *)
Lemma inserted_rows evs s : inserted evs s -> holds evs s.
Proof.
  induction 1 as [|evs s c io e s' _ IH Hins|evs s s' _ IH [= <-]]; intros m; [done| |apply (IH m)].
  by apply (holds_insert c io e evs s).
Qed.

Lemma prepare_rows open_ok months s :
  (forall m, open_ok m = true) ->
  exists s', prepare open_ok months s = (Ok tt, s') /\ (forall m, rows_of s' m = rows_of s m) /\
    closed s' = closed s /\ inventories s' = inventories s.
Proof.
  intros Hok. revert s. induction months as [|m months IH]; intros s; [by exists s|]. cbn [prepare].
  rewrite Hok. destruct (monthDB true m s) as [[db|err] s1] eqn:Hdb.
  - apply monthDB_rows in Hdb as (_ & Hr & Hc & Hi). destruct (IH s1) as (s' & Hp & Hr' & Hc' & Hi').
    exists s'. split_and!; [done| |congruence..]. intros m'. by rewrite Hr', Hr.
  - unfold monthDB in Hdb. by destruct (decide _).
Qed.

(** rows gathered month by month, over a list of months without repetition, are the rows
    whose month is in the list *)
Lemma gather_months (months : list string) (l : list Event) :
  NoDup months ->
  concat ((fun m => List.filter (in_month m) l) <$> months) ≡ₚ
  List.filter (fun e => bool_decide (monthKey (e_TS e) ∈ months)) l.
Proof.
  intros Hnd. induction l as [|e l IH].
  - cbn [List.filter]. induction months as [|m months IHm]; [done|]. rewrite fmap_cons. cbn [concat app].
    apply IHm. by apply NoDup_cons in Hnd as [_ ?].
  - cbn [List.filter]. destruct (bool_decide_reflect (monthKey (e_TS e) ∈ months)) as [Hin|Hin].
    + rewrite <- IH. clear IH. revert Hin. induction Hnd as [|m months Hm Hnd IHm]; intros Hin.
      { by apply elem_of_nil in Hin. }
      rewrite !fmap_cons. cbn [concat]. unfold in_month at 1.
      destruct (bool_decide_reflect (monthKey (e_TS e) = m)) as [Heq|Hne].
      * cbn [app]. constructor. apply Permutation_app_head. subst m.
        erewrite list_fmap_ext; [done|]. intros i m' Hi. cbn beta. unfold in_month at 1.
        rewrite bool_decide_eq_false_2; [done|]. intros E. apply Hm. rewrite E.
        by eapply list_elem_of_lookup_2.
      * apply elem_of_cons in Hin as [?|Hin]; [done|]. rewrite (IHm Hin). symmetry. apply Permutation_middle.
    + rewrite <- IH. erewrite list_fmap_ext; [done|]. intros i m' Hi. cbn beta. unfold in_month at 1.
      rewrite bool_decide_eq_false_2; [done|]. intros E. apply Hin. rewrite E. by eapply list_elem_of_lookup_2.
Qed.

(** the month of an instant is that of its millisecond *)
Lemma month_of_milli t u : unix_milli t <= unix_milli u -> month_of t <= month_of u.
Proof.
  assert (forall v, day_of v = 719162 + unix_milli v / 86400000) as Hd.
  { intros v. unfold day_of, unix_milli, unix_epoch, day, hour, minute, second, millisecond.
    Z.div_mod_to_equations; lia. }
  intros Htu. unfold month_of.
  pose proof (month_of_day_spec (day_of t)). pose proof (month_of_day_spec (day_of u)).
  assert (day_of t <= day_of u) by (rewrite !Hd; pose proof (Z.div_le_mono _ _ 86400000 ltac:(done) Htu); lia).
  assert (month_of_day (day_of t) < month_of_day (day_of u) + 1) by (apply month_start_lt; lia). lia.
Qed.

Lemma in_range_month from to hostID e :
  in_range from to hostID e = true -> month_of from <= month_of (e_TS e) <= month_of to.
Proof.
  unfold in_range, selected, toRow. cbn [r_ts]. intros Hr. zbool.
  split; by apply month_of_milli.
Qed.

Lemma filter_filter_month from to hostID (months : list string) (l : list Event) :
  (forall e, in_range from to hostID e = true -> monthKey (e_TS e) ∈ months) ->
  List.filter (in_range from to hostID) (List.filter (fun e => bool_decide (monthKey (e_TS e) ∈ months)) l) =
  List.filter (in_range from to hostID) l.
Proof.
  intros Hm. induction l as [|e l IH]; [done|]. cbn [List.filter].
  destruct (in_range from to hostID e) eqn:He.
  - rewrite bool_decide_eq_true_2 by auto. cbn [List.filter]. by rewrite He, IH.
  - destruct (bool_decide _); cbn [List.filter]; by rewrite ?He, IH.
Qed.

Lemma filter_fmap_row from to hostID (l : list Event) :
  List.filter (selected from to hostID) (toRow <$> l) = toRow <$> List.filter (in_range from to hostID) l.
Proof.
  induction l as [|e l IH]; [done|]. rewrite fmap_cons. cbn [List.filter].
  change (selected from to hostID (toRow e)) with (in_range from to hostID e).
  destruct (in_range _ _ _ _); [by rewrite fmap_cons, IH|done].
Qed.

Lemma concat_rows (f : string -> list Event) (months : list string) :
  concat ((fun m => toRow <$> f m) <$> months) = toRow <$> concat (f <$> months).
Proof. induction months as [|m months IH]; [done|]. rewrite !fmap_cons. cbn [concat]. by rewrite fmap_app, IH. Qed.

Global Instance by_ts_total : Total by_ts.
Proof. intros r1 r2. unfold by_ts. lia. Qed.
Global Instance by_ts_trans : Transitive by_ts.
Proof. intros r1 r2 r3. unfold by_ts. lia. Qed.

Lemma Permutation_filter {A} (f : A -> bool) (l1 l2 : list A) :
  l1 ≡ₚ l2 -> List.filter f l1 ≡ₚ List.filter f l2.
Proof.
  induction 1; cbn [List.filter]; try done.
  - by destruct (f x); [constructor|].
  - destruct (f x), (f y); try done. constructor.
  - by etransitivity.
Qed.

(** json.Marshal's text of a field is never empty and reads back as the field *)
Definition json_faithful (e : Event) : Prop :=
  subject_json (e_Subject e) <> "" /\ read_subject (subject_json (e_Subject e)) = e_Subject e /\
  attrs_json (e_Attrs e) <> "" /\ read_attrs (attrs_json (e_Attrs e)) = e_Attrs e.

(** A stored event as a listing gives it: every field as written, the times cut to the
    millisecond, except two. The fingerprint listed is the JSON text of the log
    references written, and the log references listed are read from the fingerprint
    written: the two columns are scanned into each other's variable. *)
Definition listed_as (e : Event) : Event :=
  mkEvent (e_ID e) (of_unix_milli (unix_milli (e_TS e)))
    (if is_zero (e_TSReceived e) then 0 else of_unix_milli (unix_milli (e_TSReceived e)))
    (e_HostID e) (e_Source e) (e_Type e) (e_Severity e) (e_Title e) (e_Subject e) (e_Attrs e)
    (refs_json (e_LogRefs e))
    (if bool_decide (e_Fingerprint e = "") then [] else read_refs (e_Fingerprint e))
    (e_Schema e).

Lemma readback_listed e : json_faithful e -> readback e = listed_as e.
Proof.
  intros (Hs & Hrs & Ha & Hra). unfold readback, scanEvent, toRow, listed_as.
  cbn [r_id r_ts r_ts_received r_host_id r_source r_type r_severity r_title r_subject_json r_attrs_json
    r_fingerprint r_log_refs_json r_schema].
  rewrite (bool_decide_eq_false_2 (subject_json _ = _)), (bool_decide_eq_false_2 (attrs_json _ = _)) by done.
  rewrite Hrs, Hra. f_equal. by destruct (is_zero _).
Qed.

Lemma readback_all_listed evs : Forall json_faithful evs -> readback <$> evs = listed_as <$> evs.
Proof. induction 1 as [|e evs He _ IH]; [done|]. by rewrite !fmap_cons, IH, readback_listed. Qed.

Lemma first_of_each_incl evs e : e ∈ first_of_each evs -> e ∈ evs.
Proof.
  unfold first_of_each. induction evs as [|x evs IH] using rev_ind; [done|].
  rewrite fold_left_app. cbn [fold_left]. unfold keep at 1.
  destruct (existsb _ _); rewrite ?elem_of_app; tauto.
Qed.

Lemma stored_faithful evs from to hostID :
  Forall json_faithful evs -> Forall json_faithful (List.filter (in_range from to hostID) (first_of_each evs)).
Proof.
  rewrite !Forall_forall. intros Hj e He. apply Hj, first_of_each_incl.
  apply list_elem_of_In, filter_In in He as [He _]. by apply list_elem_of_In.
Qed.

Definition ts_order (e1 e2 : Event) : Prop := e_TS e1 <= e_TS e2.

Lemma scan_sorted rows : StronglySorted by_ts rows -> StronglySorted ts_order (scanEvent <$> rows).
Proof.
  induction 1 as [|r rows Hs IH Hr]; [constructor|]. rewrite fmap_cons. constructor; [done|].
  apply Forall_fmap. eapply Forall_impl; [exact Hr|]. intros r' Hr'. unfold ts_order, compose. simpl.
  unfold by_ts in Hr'. unfold of_unix_milli, millisecond. lia.
Qed.

(** the events of a range, over any history *)
Lemma list_events_lists max_attached open_ok from to hostID evs s :
  holds evs s -> from <= to -> mday from < 28 ->
  (length (monthsBetween from to) <= max_attached)%nat -> (forall m, open_ok m = true) ->
  exists rows s',
    ListEvents max_attached open_ok true from to hostID s = (Ok (scanEvent <$> rows), s') /\
    StronglySorted by_ts rows /\
    scanEvent <$> rows ≡ₚ readback <$> List.filter (in_range from to hostID) (first_of_each evs) /\
    holds evs s' /\ closed s' = closed s /\ inventories s' = inventories s.
Proof.
  intros Hins Hft Hd Hlen Hok.
  destruct (monthsBetween_ok from to Hft) as (Hnd & Hin & Hall). specialize (Hall Hd).
  destruct (prepare_rows open_ok (monthsBetween from to) s Hok) as (s' & Hp & Hrows & Hcl & Hinv).
  set (rows := List.filter (selected from to hostID) (concat (rows_of s' <$> monthsBetween from to))).
  exists (merge_sort by_ts rows), s'.
  assert (rows ≡ₚ toRow <$> List.filter (in_range from to hostID) (first_of_each evs)) as Hperm.
  { subst rows. erewrite list_fmap_ext.
    2: { intros i m _. rewrite Hrows, (Hins m). reflexivity. }
    rewrite concat_rows, filter_fmap_row.
    apply fmap_Permutation.
    rewrite (Permutation_filter _ _ _ (gather_months _ _ Hnd)).
    rewrite filter_filter_month; [done|]. intros e He. apply Hall. by eapply in_range_month. }
  split_and!.
  - unfold ListEvents. rewrite Hp.
    destruct (monthsBetween from to) as [|m ms] eqn:Hm.
    { specialize (Hall (month_of from)). pose proof (month_of_mono _ _ Hft).
      destruct (not_elem_of_nil (format_month (month_of from))). apply Hall. lia. }
    rewrite (proj2 (Nat.ltb_ge _ _) Hlen). done.
  - apply StronglySorted_merge_sort; apply _.
  - rewrite (merge_sort_Permutation by_ts rows), Hperm.
    by rewrite <- list_fmap_compose.
  - intros m. by rewrite Hrows.
  - done.
  - done.
Qed.

(** C7: after any history of acknowledged writes, restarts of the hub included, of events
    whose subject and attributes survive encoding/json, ListEvents of a range that starts
    on or before the 28th and spans no more months than SQLite attaches, when every month
    file opens and the query succeeds, returns in ascending order of time exactly the
    stored events of the range and the host: each event once, however often its write was
    repeated, with the fields it was written with and the times cut to the millisecond,
    except that the fingerprint and the log references come back exchanged
    ([listed_as]). *)
Theorem list_events_spec max_attached open_ok from to hostID evs s :
  inserted evs s -> Forall json_faithful evs -> from <= to -> mday from < 28 ->
  (length (monthsBetween from to) <= max_attached)%nat -> (forall m, open_ok m = true) ->
  exists listed s',
    ListEvents max_attached open_ok true from to hostID s = (Ok listed, s') /\
    StronglySorted ts_order listed /\
    listed ≡ₚ listed_as <$> List.filter (in_range from to hostID) (first_of_each evs).
Proof.
  intros Hins Hj Hft Hd Hlen Hok.
  destruct (list_events_lists max_attached open_ok from to hostID evs s)
    as (rows & s' & ? & Hs & Hp & _); [by apply inserted_rows|done..|].
  exists (scanEvent <$> rows), s'. split_and!; [done|by apply scan_sorted|].
  by rewrite <- readback_all_listed by (by apply stored_faithful).
Qed.

(** ids identify events, as ULIDs do *)
Definition ids_identify (evs : list Event) : Prop :=
  forall e1 e2, e1 ∈ evs -> e2 ∈ evs -> e_ID e1 = e_ID e2 -> e1 = e2.

Definition has_id (id : string) (e : Event) : bool := bool_decide (e_ID e = id).

Lemma first_of_each_by_id evs id :
  ids_identify evs ->
  List.filter (has_id id) (first_of_each evs) = match List.find (has_id id) evs with Some e => [e] | None => [] end.
Proof.
  revert id. induction evs as [|e evs IH] using rev_ind; intros id Hid; [done|].
  assert (ids_identify evs) as Hid' by (intros e1 e2 H1 H2; apply Hid; apply elem_of_app; by left).
  unfold first_of_each in *. rewrite fold_left_app. cbn [fold_left].
  assert (List.find (has_id id) (evs ++ [e]) = match List.find (has_id id) evs with Some x => Some x | None => List.find (has_id id) [e] end) as ->.
  { clear. induction evs as [|x evs IHe]; [done|]. cbn [app List.find]. by destruct (has_id id x). }
  assert (existsb (same_key e) (fold_left keep evs []) = match List.find (has_id (e_ID e)) evs with Some _ => true | None => false end) as Hex.
  { specialize (IH (e_ID e) Hid'). destruct (List.find (has_id (e_ID e)) evs) as [x|] eqn:Hf.
    - apply List.find_some in Hf as [Hin Heq%bool_decide_eq_true].
      assert (x = e) as ->.
      { apply Hid; [apply elem_of_app; left; by apply list_elem_of_In|apply elem_of_app; right; by apply list_elem_of_singleton|done]. }
      apply existsb_exists. exists e. split.
      + assert (In e (List.filter (has_id (e_ID e)) (fold_left keep evs []))) as [? _]%filter_In by (rewrite IH; by left). done.
      + unfold same_key. by rewrite !bool_decide_eq_true_2.
    - apply not_true_is_false. intros (x & Hin & [_ Hk%bool_decide_eq_true]%andb_true_iff)%existsb_exists.
      assert (In x (List.filter (has_id (e_ID e)) (fold_left keep evs []))) as Hx.
      { apply filter_In. split; [done|]. by apply bool_decide_eq_true_2. }
      by rewrite IH in Hx. }
  unfold keep at 1. rewrite Hex. specialize (IH id Hid').
  destruct (List.find (has_id (e_ID e)) evs) as [x|] eqn:Hf.
  - rewrite IH. destruct (List.find (has_id id) evs) eqn:Hf'; [done|]. cbn [List.find].
    destruct (has_id id e) eqn:He; [|done]. apply bool_decide_eq_true in He. subst id. congruence.
  - rewrite List.filter_app, IH. cbn [List.filter List.find].
    destruct (has_id id e) eqn:He.
    + apply bool_decide_eq_true in He. subst id. by rewrite Hf.
    + rewrite app_nil_r. by destruct (List.find _ _).
Qed.

(** an event of the history that is in the range is in the listing, once *)
Lemma listed_once evs from to hostID listed e :
  listed ≡ₚ readback <$> List.filter (in_range from to hostID) (first_of_each evs) ->
  ids_identify evs -> e ∈ evs -> in_range from to hostID e = true ->
  List.filter (has_id (e_ID e)) listed = [readback e].
Proof.
  intros Hp Hid Hin Hr. apply Permutation_singleton_r.
  rewrite (Permutation_filter _ _ _ Hp).
  assert (forall l, List.filter (has_id (e_ID e)) (readback <$> List.filter (in_range from to hostID) l) =
                    readback <$> List.filter (in_range from to hostID) (List.filter (has_id (e_ID e)) l)) as Hc.
  { induction l as [|x l IH]; [done|]. cbn [List.filter].
    destruct (in_range from to hostID x) eqn:Hx; [rewrite fmap_cons; cbn [List.filter]; change (has_id (e_ID e) (readback x)) with (has_id (e_ID e) x)|];
      destruct (has_id (e_ID e) x); cbn [List.filter]; rewrite ?Hx, ?fmap_cons, ?IH; done. }
  rewrite Hc, first_of_each_by_id by done.
  destruct (List.find (has_id (e_ID e)) evs) as [x|] eqn:Hf.
  - apply List.find_some in Hf as [Hx Heq%bool_decide_eq_true].
    assert (x = e) as -> by (apply Hid; [by apply list_elem_of_In|done|done]).
    cbn [List.filter]. by rewrite Hr.
  - apply list_elem_of_In in Hin. apply (List.find_none _ _ Hf) in Hin. apply bool_decide_eq_false in Hin. done.
Qed.

(** ** Inventories: the latest of each host and kind *)

Inductive upserted : list Inventory -> SQLiteStore -> Prop :=
| upserted_none : upserted [] empty_store
| upserted_one invs s c io inv s' :
    upserted invs s -> UpsertInventory c io inv s = (Ok tt, s') -> upserted (invs ++ [inv])%list s'
| upserted_restart invs s s' :
    upserted invs s -> NewSQLiteStore true (files s) (inventories s) = Some s' -> upserted invs s'.

Lemma inventoryDB_same ok s r s' : inventoryDB ok s = (r, s') -> inventories s' = inventories s.
Proof. unfold inventoryDB. destruct (inv_open s); [|destruct ok]; by intros [= _ <-]. Qed.

Definition inventory_for (hostID kind : string) (inv : Inventory) : bool :=
  bool_decide (inv_HostID inv = hostID) && bool_decide (inv_Kind inv = kind).

Definition inventory_at_milli (inv : Inventory) : Inventory :=
  mkInventory (inv_HostID inv) (inv_Kind inv) (of_unix_milli (unix_milli (inv_ReportedAt inv)))
              (inv_Schema inv) (inv_Items inv).

Definition toInvRow (inv : Inventory) : InvRow :=
  mkInvRow (inv_HostID inv) (inv_Kind inv) (unix_milli (inv_ReportedAt inv)) (inv_Schema inv)
           (items_json (inv_Items inv)).

(** the inventory rows are the last of each host and kind in [invs] *)
Definition inv_holds (invs : list Inventory) (rows : gmap (string * string) InvRow) (toInvRow : Inventory -> InvRow) : Prop :=
  forall hostID kind, rows !! (hostID, kind) = toInvRow <$> last (List.filter (inventory_for hostID kind) invs).

Lemma inv_holds_insert invs rows row inv :
  inv_holds invs rows row ->
  inv_holds (invs ++ [inv])%list (<[(inv_HostID inv, inv_Kind inv) := row inv]> rows) row.
Proof.
  intros IH hostID kind. rewrite List.filter_app. cbn [List.filter].
  change (inventory_for hostID kind inv) with
    (bool_decide (inv_HostID inv = hostID) && bool_decide (inv_Kind inv = kind)).
  destruct (decide ((inv_HostID inv, inv_Kind inv) = (hostID, kind))) as [Heq|Hne].
  - rewrite Heq, lookup_insert_eq. injection Heq as <- <-. rewrite !bool_decide_eq_true_2 by done.
    cbn [andb]. by rewrite last_snoc.
  - rewrite lookup_insert_ne by done.
    assert (bool_decide (inv_HostID inv = hostID) && bool_decide (inv_Kind inv = kind) = false) as ->.
    { destruct (bool_decide_reflect (inv_HostID inv = hostID)) as [<-|]; [|done].
      destruct (bool_decide_reflect (inv_Kind inv = kind)) as [<-|]; [|done]. done. }
    by rewrite app_nil_r.
Qed.

Lemma upsert_rows c io inv s s' :
  UpsertInventory c io inv s = (Ok tt, s') ->
  inventories s' = <[(inv_HostID inv, inv_Kind inv) := toInvRow inv]> (inventories s) /\
  files s' = files s /\ closed s' = closed s.
Proof.
  unfold UpsertInventory, enqueueWrite, inventoryDB. destruct (Inventory_Validate inv) as [[]|]; [|done].
  destruct (closed s) eqn:Hc; [done|]. destruct c; [|done|done].
  destruct (inv_open s); [|destruct (io_open io); [|done]]; (destruct (io_exec io); [|done]);
    intros [= <-]; done.
Qed.

Lemma upserted_rows invs s : upserted invs s -> inv_holds invs (inventories s) toInvRow.
Proof.
  induction 1 as [|invs s c io inv s' _ IH Hup|invs s s' _ IH [= <-]]; [done| |apply IH].
  apply upsert_rows in Hup as (-> & _). by apply inv_holds_insert.
Qed.

(** GetInventory returns the last acknowledged inventory of the host and kind, whole,
    and reports none exactly when none was ever acknowledged. *)
Theorem inventory_latest invs s hostID kind :
  upserted invs s ->
  (forall inv, inv ∈ invs -> read_items (items_json (inv_Items inv)) = Some (inv_Items inv)) ->
  (GetInventory true true hostID kind s).1 =
  Ok (inventory_at_milli <$> last (List.filter (inventory_for hostID kind) invs)).
Proof.
  intros Hup Hjson. unfold GetInventory.
  destruct (inventoryDB true s) as [[[]|] s1] eqn:Hdb; [|unfold inventoryDB in Hdb; by destruct (inv_open s)].
  rewrite (inventoryDB_same _ _ _ _ Hdb). cbn [negb fst]. rewrite (upserted_rows _ _ Hup).
  destruct (last (List.filter (inventory_for hostID kind) invs)) as [inv|] eqn:Hl; [|done].
  cbn [fmap option_fmap option_map scanInventory toInvRow ir_items_json].
  rewrite Hjson; [done|]. apply last_Some_elem_of in Hl.
  apply list_elem_of_In, filter_In in Hl as [Hl _]. by apply list_elem_of_In.
Qed.

End store.

(** ** Concrete stores *)

(** the texts encoding/json makes for events without subject details and attributes *)
Local Instance demo_json : StoreJson := {|
  subject_json _ := "{}"; attrs_json _ := "null";
  refs_json refs := match refs with [] => "null" | _ => "[{}]" end;
  items_json items := match items with [] => "[]" | _ => "[{}]" end;
  read_subject _ := no_subject; read_attrs _ := ∅; read_refs _ := [];
  read_items text := if bool_decide (text = "[]") then Some [] else None |}.

Definition all_ok : IO := mkIO true true true.
(** midnight of day [d] (from 1) of month [m] (from 1) of year [y] *)
Definition date (y m d : Z) : Time := (month_start (12 * (y - 1) + (m - 1)) + (d - 1)) * day.

Definition demo_event (id : string) (ts : Time) : Event :=
  mkEvent id ts 0 "h1" "journald" "kernel.segfault" "warn" "segfault" no_subject ∅ "sha256:ab" [] 1.

Definition insert_all (evs : list Event) : SQLiteStore :=
  fold_left (fun s e => (InsertEvent CtxLive all_ok e s).2) evs empty_store.

Definition ids (r : result StorageError (list Event)) : list string :=
  match r with Ok evs => e_ID <$> evs | Err _ => [] end.

Definition demo_events : list Event :=
  [demo_event "e1" (date 2026 1 31); demo_event "e2" (date 2026 2 10); demo_event "e1" (date 2026 1 31);
   demo_event "e3" (date 2026 3 31)].

Lemma inserted_snoc evs e :
  inserted evs (insert_all evs) -> (InsertEvent CtxLive all_ok e (insert_all evs)).1 = Ok tt ->
  inserted (evs ++ [e])%list (insert_all (evs ++ [e])%list).
Proof.
  intros Hi Hr. apply (inserted_one _ _ CtxLive all_ok _ _ Hi).
  unfold insert_all at 2. rewrite fold_left_app. cbn [fold_left]. fold (insert_all evs).
  by rewrite (surjective_pairing (InsertEvent _ _ _ _)), Hr.
Qed.

Lemma demo_inserted : inserted demo_events (insert_all demo_events).
Proof.
  apply (inserted_snoc (take 3 demo_events)); [|by vm_compute].
  apply (inserted_snoc (take 2 demo_events)); [|by vm_compute].
  apply (inserted_snoc (take 1 demo_events)); [|by vm_compute].
  apply (inserted_snoc []); [|by vm_compute]. apply inserted_none.
Qed.

Lemma monthsBetween_spec_witness :
  date 2026 1 28 <= date 2026 3 31 /\ format_month (12 * 2025 + 1) ∈ monthsBetween (date 2026 1 28) (date 2026 3 31).
Proof.
  split; [vm_compute; discriminate|].
  refine (proj1 (proj2 (proj2 (monthsBetween_spec (date 2026 1 28) (date 2026 3 31) 0 _))) _ _ _).
  - vm_compute. discriminate.
  - reflexivity.
  - split; vm_compute; discriminate.
Defined.

(** From January 31 the loop steps to March 3: February's file is never read, so an event
    of February is missing from the list although it was stored. *)
Example months_skipped_from_31st :
  monthsBetween (date 2026 1 31) (date 2026 3 31) = ["2026-01"; "2026-03"] /\
  ids (ListEvents 10 (fun _ => true) true (date 2026 1 31) (date 2026 3 31) "" (insert_all demo_events)).1 =
    ["e1"; "e3"].
Proof. split; vm_compute; reflexivity. Qed.

Lemma list_events_spec_witness :
  exists listed s',
    ListEvents 10 (fun _ => true) true (date 2026 1 1) (date 2026 3 1) "h1" (insert_all demo_events) =
      (Ok listed, s') /\
    StronglySorted ts_order listed /\
    listed ≡ₚ listed_as <$> [demo_event "e1" (date 2026 1 31); demo_event "e2" (date 2026 2 10)].
Proof.
  apply (list_events_spec 10 (fun _ => true) (date 2026 1 1) (date 2026 3 1) "h1" demo_events
           (insert_all demo_events)).
  - apply demo_inserted.
  - by repeat constructor.
  - vm_compute. discriminate.
  - reflexivity.
  - vm_compute. lia.
  - done.
Defined.

(** The fingerprint of a stored event is listed as the text of its log references. *)
Example fingerprint_listed_as_refs :
  e_Fingerprint (demo_event "e1" (date 2026 1 31)) = "sha256:ab" /\
  (e_Fingerprint <$>
    default [] (match (ListEvents 10 (fun _ => true) true (date 2026 1 1) (date 2026 2 1) "h1" (insert_all demo_events)).1
                with Ok l => Some l | Err _ => None end)) = ["null"].
Proof. split; vm_compute; reflexivity. Qed.

Definition demo_inventory (at_ : Time) (schema : Z) : Inventory := mkInventory "h1" "shares" at_ schema [].

Definition demo_inv1 : SQLiteStore := (UpsertInventory CtxLive all_ok (demo_inventory (date 2026 1 1) 1) empty_store).2.
Definition demo_inv2 : SQLiteStore := (UpsertInventory CtxLive all_ok (demo_inventory (date 2026 2 1) 2) demo_inv1).2.

Lemma inventory_latest_witness :
  (GetInventory true true "h1" "shares" demo_inv2).1 = Ok (Some (demo_inventory (date 2026 2 1) 2)).
Proof.
  apply (inventory_latest [demo_inventory (date 2026 1 1) 1; demo_inventory (date 2026 2 1) 2]).
  - apply (upserted_one [demo_inventory (date 2026 1 1) 1] demo_inv1 CtxLive all_ok); [|vm_compute; reflexivity].
    apply (upserted_one [] empty_store CtxLive all_ok); [apply upserted_none|vm_compute; reflexivity].
  - intros inv [->|[->|[]%elem_of_nil]%elem_of_cons]%elem_of_cons; reflexivity.
Defined.

(** The row and its index entry are two statements: when the second fails, the caller is
    told and retries, the retry finds the row and returns without indexing it, and no
    search ever finds the event. *)
Example index_failure_is_permanent :
  let e := demo_event "e1" (date 2026 1 31) in
  let '(r1, s1) := InsertEvent CtxLive (mkIO true true false) e empty_store in
  let '(r2, s2) := InsertEvent CtxLive all_ok e s1 in
  r1 = Err ErrIndex /\ r2 = Ok tt /\
  SearchEventTitles (fun _ => true) (fun _ _ => true) ["2026-01"] "segfault" 10 s2 = Ok [] /\
  length (rows_of s2 "2026-01") = 1%nat.
Proof. vm_compute. done. Qed.

(** The limit of a search applies to each month, not to the result *)
Example search_limit_per_month :
  length (ids (SearchEventTitles (fun _ => true) (fun _ _ => true) ["2026-01"; "2026-02"; "2026-03"] "segfault" 1
                 (insert_all demo_events))) = 3%nat.
Proof. vm_compute. done. Qed.

(** SearchEventTitles reads the months opened since the process started: after a restart it
    finds nothing until a write or a listing opens the month again. *)
Example search_empty_after_restart :
  let s := insert_all demo_events in
  match NewSQLiteStore true (files s) (inventories s) with
  | Some s' =>
      SearchEventTitles (fun _ => true) (fun _ _ => true) (elements (dbs s')) "segfault" 10 s' = Ok [] /\
      length (ids (SearchEventTitles (fun _ => true) (fun _ _ => true) (elements (dbs s)) "segfault" 10 s)) = 3%nat
  | None => False
  end.
Proof. vm_compute. done. Qed.

End Sqlite.
