(* ===== verification/StoreWriter.v ===== *)
(** * StoreWriter: the single writer of the SQLite store

    Models the concurrency of internal/storage/sqlite.go: callers of enqueueWrite hand a
    write to the goroutine of writerLoop over an unbuffered channel and wait for its
    result, while their contexts may end and Close may be called at any time. [Storage]
    treats a write as one step; the theorems here show that every interleaving is such a
    sequence of steps. *)

From stdpp Require Import base gmap strings list.
From Stdlib Require Import ZArith Lia.
From S2P Require Import Prelude GoStd Storage.
Import Sqlite.

Module StoreWriter.
Section writer.

(** a write: what the closure given to enqueueWrite does when the writer runs it *)
Context {S : Type}.
Abbreviation write := (S -> result StorageError unit * S) (only parsing).

(** a call of enqueueWrite: at its first select, at its second one with the result sent or
    not, or returned *)
Inductive caller :=
| Offering (fn : write) | Waiting | Sent (r : result StorageError unit)
| Returned (r : result StorageError unit).

(** the writer goroutine: at its select, running the write of a caller, or returned *)
Inductive loop := Selecting | Running (c : nat) (fn : write) | Stopped.

Record State := mkState {
  store : S;
  writer : loop;
  closeCh : bool;                        (** whether it has been closed *)
  callers : gmap nat caller;
  log : list (nat * write);              (** the writes run so far, oldest first *)
}.

Definition start (s : S) : State := mkState s Selecting false ∅ [].

(** the result reaches a caller that still waits; the channel holds it if nobody reads it *)
Definition answer (r : result StorageError unit) (o : option caller) : option caller :=
  match o with Some Waiting => Some (Sent r) | _ => o end.

Inductive step : State -> State -> Prop :=
| step_call s w cl cs l c fn :
    cs !! c = None ->
    step (mkState s w cl cs l) (mkState s w cl (<[c := Offering fn]> cs) l)
| step_send s cl cs l c fn :
    cs !! c = Some (Offering fn) ->
    step (mkState s Selecting cl cs l) (mkState s (Running c fn) cl (<[c := Waiting]> cs) l)
| step_run s cl cs l c fn :
    step (mkState s (Running c fn) cl cs l)
      (mkState (fn s).2 Selecting cl (partial_alter (answer (fn s).1) c cs) (l ++ [(c, fn)]))
| step_receive s w cl cs l c r :
    cs !! c = Some (Sent r) ->
    step (mkState s w cl cs l) (mkState s w cl (<[c := Returned r]> cs) l)
| step_ctx_done s w cl cs l c k :
    cs !! c = Some k -> (forall r, k <> Returned r) ->
    step (mkState s w cl cs l) (mkState s w cl (<[c := Returned (Err ErrContext)]> cs) l)
| step_refused s w cs l c fn :
    cs !! c = Some (Offering fn) ->
    step (mkState s w true cs l) (mkState s w true (<[c := Returned (Err ErrClosed)]> cs) l)
| step_close s w cs l :
    step (mkState s w false cs l) (mkState s w true cs l)
| step_stop s cs l :
    step (mkState s Selecting true cs l) (mkState s Stopped true cs l).

Definition reachable (s : S) (st : State) : Prop := rtc step (start s) st.

(** the same writes one after the other, with their results *)
Fixpoint serial (l : list (nat * write)) (s : S) : list (nat * result StorageError unit) * S :=
  match l with
  | [] => ([], s)
  | (c, fn) :: rest => let '(r, s) := fn s in let '(rs, s) := serial rest s in ((c, r) :: rs, s)
  end.

Lemma serial_snoc l c fn s :
  serial (l ++ [(c, fn)]) s =
  ((serial l s).1 ++ [(c, (fn (serial l s).2).1)], (fn (serial l s).2).2).
Proof.
  revert s. induction l as [|[c' fn'] l IH]; intros s; cbn [serial app].
  - destruct (fn s) as [r s'] eqn:E. cbn [fst snd app]. by rewrite E.
  - destruct (fn' s) as [r s']. rewrite IH. by destruct (serial l s').
Qed.

Lemma serial_fst l s : (serial l s).1.*1 = l.*1.
Proof.
  revert s. induction l as [|[c fn] l IH]; intros s; [done|]. cbn [serial]. destruct (fn s) as [r s'].
  specialize (IH s'). destruct (serial l s') as [rs s'']. cbn [fst snd fmap list_fmap] in *. by f_equal.
Qed.

(** what a caller has seen agrees with the serial run [rs] *)
Definition caller_ok (rs : list (nat * result StorageError unit)) (w : loop) (c : nat) (k : caller) : Prop :=
  match k with
  | Offering _ => c ∉ rs.*1 /\ (forall fn, w <> Running c fn)
  | Waiting => c ∉ rs.*1
  | Sent r => (c, r) ∈ rs
  | Returned r => (c, r) ∈ rs \/ r = Err ErrContext \/
                  (r = Err ErrClosed /\ c ∉ rs.*1 /\ forall fn, w <> Running c fn)
  end.

Definition invariant (s0 : S) (st : State) : Prop :=
  let rs := (serial (log st) s0).1 in
  store st = (serial (log st) s0).2 /\ NoDup (rs.*1) /\
  (forall c fn, writer st = Running c fn -> c ∉ rs.*1) /\
  (forall c, c ∈ rs.*1 \/ (exists fn, writer st = Running c fn) -> is_Some (callers st !! c)) /\
  (forall c k, callers st !! c = Some k -> caller_ok rs (writer st) c k).

(** a step of one caller that does not involve the writer *)
Lemma invariant_caller s0 s w cl cl' cs l c k :
  invariant s0 (mkState s w cl cs l) -> caller_ok (serial l s0).1 w c k ->
  invariant s0 (mkState s w cl' (<[c := k]> cs) l).
Proof.
  intros (Hs & Hnd & Hrun & Hdom & Hok) Hk. unfold invariant in *. cbn [store writer callers log] in *.
  split_and!; [done..| |].
  - intros c' Hc'. destruct (decide (c = c')) as [->|]; [by rewrite lookup_insert_eq|].
    rewrite lookup_insert_ne by done. auto.
  - intros c' k'. destruct (decide (c = c')) as [->|]; [rewrite lookup_insert_eq; by intros [= <-]|].
    rewrite lookup_insert_ne by done. auto.
Qed.

Lemma invariant_send s0 s cl cs l c fn :
  invariant s0 (mkState s Selecting cl cs l) -> cs !! c = Some (Offering fn) ->
  invariant s0 (mkState s (Running c fn) cl (<[c := Waiting]> cs) l).
Proof.
  intros (Hs & Hnd & Hrun & Hdom & Hok) Hc. unfold invariant in *. cbn [store writer callers log] in *.
  pose proof (Hok _ _ Hc) as [Hnot _]. split_and!; [done..| | |].
  - intros c' fn' [= <- <-]. done.
  - intros c' Hc'. destruct (decide (c = c')) as [->|Hne]; [by rewrite lookup_insert_eq|].
    rewrite lookup_insert_ne by done. apply Hdom. destruct Hc' as [?|[fn' [= ? ?]]]; [by left|done].
  - intros c' k'. destruct (decide (c = c')) as [->|Hne].
    { rewrite lookup_insert_eq. intros [= <-]. done. }
    rewrite lookup_insert_ne by done. intros Hk%Hok. destruct k'; cbn [caller_ok] in *; [|done..|].
    + split; [by apply Hk|]. intros fn'. congruence.
    + destruct Hk as [?|[?|(? & ? & ?)]]; [by left|by right; left|right; right].
      split_and!; [done..|]. intros fn'. congruence.
Qed.

Lemma caller_ok_run rs c c' r fn k :
  c <> c' -> caller_ok rs (Running c fn) c' k -> caller_ok (rs ++ [(c, r)]) Selecting c' k.
Proof.
  intros Hne. assert (c' ∉ rs.*1 -> c' ∉ (rs ++ [(c, r)]).*1) as Hnot.
  { rewrite fmap_app, elem_of_app. intros Hn [?|Hx%list_elem_of_singleton]; [done|]. by cbn in Hx. }
  destruct k as [?| |r'|r']; cbn [caller_ok].
  - intros [? _]. auto.
  - auto.
  - rewrite elem_of_app. by left.
  - rewrite elem_of_app. intros [?|[?|(? & ? & _)]]; [by left; left|by right; left|right; right].
    split_and!; [done|auto|done].
Qed.

Lemma invariant_run s0 s cl cs l c fn :
  invariant s0 (mkState s (Running c fn) cl cs l) ->
  invariant s0 (mkState (fn s).2 Selecting cl (partial_alter (answer (fn s).1) c cs) (l ++ [(c, fn)])).
Proof.
  intros (Hs & Hnd & Hrun & Hdom & Hok). unfold invariant in *. cbn [store writer callers log] in *.
  rewrite serial_snoc. cbn [fst snd]. rewrite <- Hs. set (rs := (serial l s0).1) in *.
  specialize (Hrun c fn eq_refl). destruct (Hdom c) as [k Hk]; [right; by exists fn|].
  split_and!; [done| |done| |].
  - rewrite fmap_app, NoDup_app. split_and!; [done| |apply NoDup_singleton].
    intros x Hx ->%list_elem_of_singleton. done.
  - intros c' [Hc'|[? ?]]; [|done]. destruct (decide (c = c')) as [->|Hne].
    + rewrite lookup_partial_alter_eq, Hk. by destruct k.
    + rewrite lookup_partial_alter_ne by done. apply Hdom. left.
      rewrite fmap_app, elem_of_app in Hc'. destruct Hc' as [?|Hx%list_elem_of_singleton]; [done|]. by cbn in Hx.
  - intros c' k'. destruct (decide (c = c')) as [<-|Hne].
    + rewrite lookup_partial_alter_eq, Hk. pose proof (Hok _ _ Hk) as Hold.
      destruct k as [fn'| |r|r]; cbn [answer]; intros [= <-]; cbn [caller_ok] in *.
      * destruct Hold as [_ Hold]. by destruct (Hold fn).
      * apply elem_of_app. right. by apply list_elem_of_singleton.
      * apply elem_of_app. by left.
      * destruct Hold as [?|[?|(_ & _ & Hold)]]; [left; apply elem_of_app; by left|by right; left|].
        by destruct (Hold fn).
    + rewrite lookup_partial_alter_ne by done. intros Hk'%Hok. by eapply caller_ok_run.
Qed.

Lemma invariant_step s0 st st' : invariant s0 st -> step st st' -> invariant s0 st'.
Proof.
  intros Hinv Hst. destruct Hst as [s w cl cs l c fn Hc|s cl cs l c fn Hc|s cl cs l c fn|s w cl cs l c r Hc
                                    |s w cl cs l c k Hc Hk|s w cs l c fn Hc|s w cs l|s cs l].
  - apply (invariant_caller _ _ _ cl); [done|]. destruct Hinv as (_ & _ & _ & Hdom & _). split.
    + intros Hin. destruct (Hdom c) as [? ?]; [by left|]. cbn [callers] in *. congruence.
    + intros fn' Hw. destruct (Hdom c) as [? ?]; [right; by exists fn'|]. cbn [callers] in *. congruence.
  - by apply invariant_send.
  - by apply invariant_run.
  - apply (invariant_caller _ _ _ cl); [done|]. left. by apply Hinv in Hc.
  - apply (invariant_caller _ _ _ cl); [done|]. by right; left.
  - apply (invariant_caller _ _ _ true); [done|]. right; right. apply Hinv in Hc as [? ?]. done.
  - done.
  - destruct Hinv as (Hs & Hnd & Hrun & Hdom & Hok). unfold invariant. cbn [store writer callers log] in *.
    split_and!; [done..| |].
    + intros c [?|[? ?]]; [|done]. apply Hdom. by left.
    + intros c k Hk%Hok. destruct k; cbn [caller_ok] in *; [by split; [apply Hk|]|done..|].
      destruct Hk as [?|[?|(? & ? & _)]]; [by left|by right; left|by right; right].
Qed.

Lemma reachable_invariant s0 st : reachable s0 st -> invariant s0 st.
Proof.
  unfold reachable. intros Hr. remember (start s0) as st0 eqn:E.
  assert (invariant s0 st0) as H0.
  { subst st0. split_and!; cbn; [done|apply NoDup_nil_2|done| |done].
    intros c [?%elem_of_nil|[? ?]]; done. }
  clear E. revert H0. induction Hr as [st1|st1 st2 st3 Hst _ IH]; [done|]. intros H0. apply IH. by eapply invariant_step.
Qed.

(** C10: In every interleaving of calls, ending contexts and Close, the writes take effect
    one at a time and each at most once: the store is what running the log of writes in
    order gives, a call that returns success was run and returns the result of its own
    write, a call refused because the store is closed was not and will not be run, and
    every other return is the end of the caller's context. *)
Theorem writes_serialized s0 st :
  reachable s0 st ->
  let '(results, final) := serial (log st) s0 in
  store st = final /\ NoDup (log st).*1 /\
  forall c r, callers st !! c = Some (Returned r) ->
    (c, r) ∈ results \/ r = Err ErrContext \/
    (r = Err ErrClosed /\ c ∉ (log st).*1 /\ forall fn, writer st <> Running c fn).
Proof.
  intros (Hs & Hnd & _ & _ & Hok)%reachable_invariant.
  rewrite serial_fst in Hnd. pose proof (serial_fst (log st) s0) as Hfst.
  destruct (serial (log st) s0) as [results final]. cbn [fst snd] in *.
  split_and!; [done..|]. intros c r Hc. specialize (Hok _ _ Hc). cbn [caller_ok] in Hok. by rewrite Hfst in Hok.
Qed.

(** Close waits for the writer to return; after that no call changes the store. *)
Theorem stopped_is_final st st' :
  writer st = Stopped -> rtc step st st' -> store st' = store st /\ log st' = log st.
Proof.
  intros Hw Hr. assert (writer st' = Stopped /\ store st' = store st /\ log st' = log st) as (_ & ? & ?); [|done].
  revert Hw. induction Hr as [st|st1 st2 st3 Hst _ IH]; intros Hw; [done|].
  destruct Hst; cbn [writer] in Hw; try done; apply IH; by subst.
Qed.

End writer.

(** ** Two calls and a Close *)

Local Existing Instance demo_json.

Definition w1 := write_event all_ok (demo_event "e1" (date 2026 1 31)).
Definition w2 := write_event all_ok (demo_event "e2" (date 2026 2 10)).

(** the second caller gives up while its write waits for the first, and the write runs *)
Definition demo_end : State (S := SQLiteStore) :=
  mkState (w2 (w1 empty_store).2).2 Stopped true
    (<[2%nat := Returned (Err ErrContext)]> (<[1%nat := Returned (Ok tt)]> ∅)) [(1%nat, w1); (2%nat, w2)].

Lemma demo_reachable : reachable empty_store demo_end.
Proof.
  unfold reachable, start.
  eapply rtc_l; [apply (step_call _ _ _ _ _ 1%nat w1); done|].
  eapply rtc_l; [apply (step_call _ _ _ _ _ 2%nat w2); done|].
  eapply rtc_l; [apply (step_send _ _ _ _ 1%nat w1); done|].
  eapply rtc_l; [apply step_run|].
  eapply rtc_l; [apply (step_send _ _ _ _ 2%nat w2); done|].
  eapply rtc_l; [apply (step_ctx_done _ _ _ _ _ 2%nat Waiting); done|].
  eapply rtc_l; [apply step_close|].
  eapply rtc_l; [apply step_run|].
  eapply rtc_l; [apply (step_receive _ _ _ _ _ 1%nat (Ok tt)); vm_compute; reflexivity|].
  eapply rtc_l; [apply step_stop|].
  match goal with |- rtc _ ?a ?b => assert (a = b) as -> by (unfold demo_end; f_equal; vm_compute; reflexivity) end.
  apply rtc_refl.
Qed.

Lemma writes_serialized_witness :
  exists results, serial (log demo_end) empty_store = (results, store demo_end) /\
    callers demo_end !! 1%nat = Some (Returned (Ok tt)) /\ (1%nat, Ok tt) ∈ results.
Proof.
  pose proof (writes_serialized empty_store demo_end demo_reachable) as H.
  destruct (serial (log demo_end) empty_store) as [results final] eqn:E.
  destruct H as (-> & _ & Hc). exists results. split; [reflexivity|]. split; [reflexivity|].
  destruct (Hc 1%nat (Ok tt)) as [H|[H|[H _]]]; [reflexivity|exact H|discriminate|discriminate].
Defined.

Lemma stopped_is_final_witness : store demo_end = store demo_end /\ log demo_end = log demo_end.
Proof. apply (stopped_is_final demo_end demo_end); [reflexivity|apply rtc_refl]. Defined.

End StoreWriter.
