(* ===== verification/Postgres.v ===== *)
(** * Postgres: the optional relational backend, and its conformance with SQLite

    Models internal/storage/postgres.go: the migrations and the operations of
    PostgresStore, and the interface of internal/storage/relational.go with its two
    implementations.

    A database is its objects (tables and indexes) and the rows of its two tables. The
    server is a parameter: which calls fail, the text a JSONB column gives back for a text
    stored in it, and the match operator of its full-text search. *)

From stdpp Require Import base gmap strings list sorting.
From Stdlib Require Import ZArith Lia Ascii.
From S2P Require Import Prelude GoStd Schema Calendar Storage.
Import GoString GoTime Schema Calendar Sqlite.

Local Open Scope string_scope.
Local Open Scope Z_scope.

(** ** relational.go: what a backend offers *)

(** [Env] is what happens around a call: its context and the answers of the database. *)
Class Relational (Env St : Type) := mkRelational {
  rel_insert : Env -> Event -> St -> result StorageError unit * St;
  rel_list : Env -> Time -> Time -> string -> St -> result StorageError (list Event) * St;
  rel_search : Env -> string -> Z -> St -> result StorageError (list Event);
  rel_upsert : Env -> Inventory -> St -> result StorageError unit * St;
  rel_get : Env -> string -> string -> St -> result StorageError (option Inventory) * St;
  rel_close : St -> St;
}.

Module Postgres.
Section store.
Context {J : StoreJson}.

(** the text of a jsonb value, as the server prints it *)
Context (jsonb : string -> string).

Record Database := mkDatabase {
  objects : gset string;
  pg_events : list Row;
  pg_inventories : gmap (string * string) InvRow;
}.

(** a pool that has not been closed, and the database behind it *)
Record PostgresStore := mkPostgres { db : Database; pool_open : bool }.

Definition empty_database : Database := mkDatabase ∅ [] ∅.

(** *** Migrations *)

(** each statement creates one object IF NOT EXISTS; an index is built on a table *)
Definition postgresMigrations : list string :=
  ["events"; "idx_events_ts_brin"; "idx_events_host_ts"; "idx_events_attrs_gin";
   "idx_events_title_fts"; "inventories"].

Definition exec_migration (stmt : string) (d : Database) : Database :=
  mkDatabase ({[stmt]} ∪ objects d) (pg_events d) (pg_inventories d).

(** [exec_ok] says which statements the server accepts *)
Fixpoint run_migrations (exec_ok : string -> bool) (stmts : list string) (d : Database) : bool * Database :=
  match stmts with
  | [] => (true, d)
  | stmt :: rest => if exec_ok stmt then run_migrations exec_ok rest (exec_migration stmt d) else (false, d)
  end.

Inductive PostgresError : Set := ErrOpening | ErrPinging | ErrMigrating.

Definition NewPostgresStore (open_ok ping_ok : bool) (exec_ok : string -> bool) (d : Database) :
    result PostgresError PostgresStore * Database :=
  if negb open_ok then (Err ErrOpening, d)
  else if negb ping_ok then (Err ErrPinging, d)
  else
    match run_migrations exec_ok postgresMigrations d with
    | (true, d) => (Ok (mkPostgres d true), d)
    | (false, d) => (Err ErrMigrating, d)
    end.

Definition Close (s : PostgresStore) : PostgresStore := mkPostgres (db s) false.

(** *** Writes *)

(** ExecContext: refused by a closed pool and by a context that has ended; a context that
    ends during the call gives an error although the statement took effect *)
Definition ExecContext (c : ctx) (exec_ok : bool) (stmt : Database -> Database) (s : PostgresStore) :
    result StorageError unit * PostgresStore :=
  if negb (pool_open s) then (Err ErrClosed, s)
  else match c with
       | CtxDone => (Err ErrContext, s)
       | CtxLive => if exec_ok then (Ok tt, mkPostgres (stmt (db s)) true) else (Err ErrExec, s)
       | CtxGivesUp => (Err ErrContext, if exec_ok then mkPostgres (stmt (db s)) true else s)
       end.

(** the row as its columns hold it: the three JSON columns are JSONB *)
Definition toPgRow (e : Event) : Row :=
  mkRow (e_ID e) (unix_milli (e_TS e))
    (if is_zero (e_TSReceived e) then None else Some (unix_milli (e_TSReceived e)))
    (e_HostID e) (e_Source e) (e_Type e) (e_Severity e) (e_Title e)
    (jsonb (subject_json (e_Subject e))) (jsonb (attrs_json (e_Attrs e))) (e_Fingerprint e)
    (jsonb (refs_json (e_LogRefs e))) (e_Schema e).

(** INSERT ... ON CONFLICT (id) DO NOTHING *)
Definition insert_row (r : Row) (d : Database) : Database :=
  if existsb (fun r' => bool_decide (r_id r' = r_id r)) (pg_events d) then d
  else mkDatabase (objects d) (pg_events d ++ [r])%list (pg_inventories d).

Definition InsertEvent (c : ctx) (exec_ok : bool) (e : Event) (s : PostgresStore) :
    result StorageError unit * PostgresStore :=
  match Event_Validate e with
  | Err err => (Err (ErrInvalid err), s)
  | Ok _ => ExecContext c exec_ok (insert_row (toPgRow e)) s
  end.

Definition toPgInvRow (inv : Inventory) : InvRow :=
  mkInvRow (inv_HostID inv) (inv_Kind inv) (unix_milli (inv_ReportedAt inv)) (inv_Schema inv)
           (jsonb (items_json (inv_Items inv))).

(** INSERT ... ON CONFLICT (host_id, kind) DO UPDATE *)
Definition upsert_row (r : InvRow) (d : Database) : Database :=
  mkDatabase (objects d) (pg_events d) (<[(ir_host_id r, ir_kind r) := r]> (pg_inventories d)).

Definition UpsertInventory (c : ctx) (exec_ok : bool) (inv : Inventory) (s : PostgresStore) :
    result StorageError unit * PostgresStore :=
  match Inventory_Validate inv with
  | Err err => (Err (ErrInvalid err), s)
  | Ok _ => ExecContext c exec_ok (upsert_row (toPgInvRow inv)) s
  end.

(** *** Reads *)

Definition QueryContext (query_ok : bool) (rows : Database -> list Row) (s : PostgresStore) :
    result StorageError (list Row) :=
  if negb (pool_open s) then Err ErrClosed else if negb query_ok then Err ErrQuery else Ok (rows (db s)).

(** SELECT ... WHERE ts BETWEEN $1 AND $2 AND ($3 = '' OR host_id = $3) ORDER BY ts ASC *)
Definition ListEvents (query_ok : bool) (from to : Time) (hostID : string) (s : PostgresStore) :
    result StorageError (list Event) :=
  match QueryContext query_ok
          (fun d => merge_sort by_ts (List.filter (selected from to hostID) (pg_events d))) s with
  | Err err => Err err
  | Ok rows => Ok (scanEvents rows)
  end.

(** SELECT ... WHERE to_tsvector(title) @@ plainto_tsquery($1) ORDER BY ts DESC LIMIT $2; a
    negative limit is an error of the statement *)
Definition SearchEventTitles (query_ok : bool) (matches : string -> string -> bool) (query : string) (limit : Z)
    (s : PostgresStore) : result StorageError (list Event) :=
  match QueryContext (query_ok && (0 <=? limit))
          (fun d => take (Z.to_nat limit)
                      (merge_sort by_ts_desc (List.filter (fun r => matches query (r_title r)) (pg_events d)))) s with
  | Err err => Err err
  | Ok rows => Ok (scanEvents rows)
  end.

Definition GetInventory (query_ok : bool) (hostID kind : string) (s : PostgresStore) :
    result StorageError (option Inventory) :=
  if negb (pool_open s) then Err ErrClosed
  else if negb query_ok then Err ErrQuery
  else scanInventory (pg_inventories (db s) !! (hostID, kind)).

(** ** Migrations can be repeated *)

Lemma run_migrations_data exec_ok stmts d b d' :
  run_migrations exec_ok stmts d = (b, d') ->
  pg_events d' = pg_events d /\ pg_inventories d' = pg_inventories d /\ objects d ⊆ objects d' /\
  (b = true -> forall stmt, stmt ∈ stmts -> stmt ∈ objects d').
Proof. clear jsonb.
  revert d. induction stmts as [|stmt stmts IH]; intros d; cbn [run_migrations].
  { intros [= <- <-]. split_and!; [done..|]. intros _ x Hx. by apply elem_of_nil in Hx. }
  destruct (exec_ok stmt); [|intros [= <- <-]; done].
  intros (He & Hi & Ho & Hall)%IH. cbn [exec_migration pg_events pg_inventories objects] in *.
  split_and!; [done..|set_solver|]. intros Hb x [->|Hx]%elem_of_cons; [set_solver|auto].
Qed.

Lemma run_migrations_accepted exec_ok stmts d :
  (forall stmt, exec_ok stmt = true) -> (run_migrations exec_ok stmts d).1 = true.
Proof. intros Hok. revert d. induction stmts; intros d; cbn [run_migrations]; [done|rewrite Hok; auto]. Qed.

(** Opening the store never changes what the tables hold, whichever statement fails, and a
    later opening the server accepts leaves every table and index of the schema: an
    interrupted migration is finished by the next start. *)
Theorem migrations_resumable exec_ok exec_ok' d :
  (forall stmt, exec_ok' stmt = true) ->
  let d1 := (NewPostgresStore true true exec_ok d).2 in
  exists s, NewPostgresStore true true exec_ok' d1 = (Ok s, db s) /\
    pool_open s = true /\
    pg_events (db s) = pg_events d /\ pg_inventories (db s) = pg_inventories d /\
    forall stmt, stmt ∈ postgresMigrations -> stmt ∈ objects (db s).
Proof.
  intros Hok. unfold NewPostgresStore. cbn [negb].
  destruct (run_migrations exec_ok postgresMigrations d) as [b d1] eqn:H1.
  apply run_migrations_data in H1 as (He & Hi & _ & _).
  assert ((match b with true => (Ok (mkPostgres d1 true), d1)
           | false => (Err ErrMigrating, d1) end : result PostgresError PostgresStore * Database).2 = d1) as ->
    by (by destruct b).
  pose proof (run_migrations_accepted exec_ok' postgresMigrations d1 Hok) as Hb.
  destruct (run_migrations exec_ok' postgresMigrations d1) as [b' d2] eqn:H2. cbn [fst] in Hb. subst b'.
  apply run_migrations_data in H2 as (He' & Hi' & _ & Hall).
  exists (mkPostgres d2 true). cbn [db pool_open]. split_and!; [done..|congruence|congruence|by apply Hall].
Qed.

(** ** What is written is what is read *)

(** a history of acknowledged writes to one database, across restarts of the hub *)
Inductive inserted : list Event -> PostgresStore -> Prop :=
| inserted_new exec_ok s :
    NewPostgresStore true true exec_ok empty_database = (Ok s, db s) -> inserted [] s
| inserted_one evs s c exec_ok e s' :
    inserted evs s -> InsertEvent c exec_ok e s = (Ok tt, s') -> inserted (evs ++ [e])%list s'
| inserted_restart evs s exec_ok s' :
    inserted evs s -> NewPostgresStore true true exec_ok (db s) = (Ok s', db s') -> inserted evs s'.

(** the events of a history that are stored: the first of each id *)
Definition same_id (e1 e2 : Event) : bool := bool_decide (e_ID e1 = e_ID e2).
Definition keep_id (acc : list Event) (e : Event) : list Event :=
  if existsb (same_id e) acc then acc else (acc ++ [e])%list.
Definition first_of_each_id (evs : list Event) : list Event := fold_left keep_id evs [].

Lemma existsb_pg_row e l :
  existsb (fun r => bool_decide (r_id r = r_id (toPgRow e))) (toPgRow <$> l) = existsb (same_id e) l.
Proof.
  induction l as [|x l IH]; [done|]. rewrite fmap_cons. cbn [existsb]. rewrite IH. f_equal.
  unfold same_id. apply bool_decide_ext. cbn [toPgRow r_id]. split; congruence.
Qed.

Lemma new_keeps_rows exec_ok d s :
  NewPostgresStore true true exec_ok d = (Ok s, db s) ->
  pg_events (db s) = pg_events d /\ pg_inventories (db s) = pg_inventories d /\ pool_open s = true.
Proof. clear jsonb.
  unfold NewPostgresStore. cbn [negb]. destruct (run_migrations _ _ _) as [[|] d'] eqn:Hm; [|done].
  apply run_migrations_data in Hm as (He & Hi & _). intros [= <-]. cbn [db pool_open]. done.
Qed.

Lemma exec_acknowledged c ok stmt s s' :
  ExecContext c ok stmt s = (Ok tt, s') -> pool_open s' = true /\ db s' = stmt (db s).
Proof.
  unfold ExecContext. destruct (pool_open s); [|done]. destruct c; [|done|done].
  destruct ok; [|done]. by intros [= <-].
Qed.

Definition pg_holds (evs : list Event) (s : PostgresStore) : Prop :=
  pool_open s = true /\ pg_events (db s) = toPgRow <$> first_of_each_id evs.

Lemma insert_spec c ok e s s' :
  InsertEvent c ok e s = (Ok tt, s') ->
  pool_open s' = true /\ db s' = insert_row (toPgRow e) (db s).
Proof. unfold InsertEvent. destruct (Event_Validate e) as [[]|]; [|done]. apply exec_acknowledged. Qed.

Lemma pg_holds_insert c ok e evs s s' :
  pg_holds evs s -> InsertEvent c ok e s = (Ok tt, s') -> pg_holds (evs ++ [e])%list s'.
Proof.
  intros [_ IH] [Ho Hdb]%insert_spec. unfold pg_holds. rewrite Ho, Hdb. split; [done|].
  unfold first_of_each_id in *. rewrite fold_left_app. cbn [fold_left]. unfold insert_row, keep_id at 1.
  rewrite IH, existsb_pg_row. destruct (existsb (same_id e) _); [done|]. cbn [pg_events].
  by rewrite fmap_app.
Qed.

Lemma pg_inserted_holds evs s : inserted evs s -> pg_holds evs s.
Proof.
  induction 1 as [ok s Hn|evs s c ok e s' _ IH Hins|evs s ok s' _ [_ IH] Hn].
  - by apply new_keeps_rows in Hn as (He & _ & Ho).
  - by apply (pg_holds_insert c ok e evs s).
  - apply new_keeps_rows in Hn as (He & _ & Ho). split; [done|]. by rewrite He.
Qed.

(** the event ListEvents gives back for [e] *)
Definition pg_readback (e : Event) : Event := scanEvent (toPgRow e).

Lemma filter_pg_row from to hostID (l : list Event) :
  List.filter (selected from to hostID) (toPgRow <$> l) = toPgRow <$> List.filter (in_range from to hostID) l.
Proof.
  induction l as [|e l IH]; [done|]. rewrite fmap_cons. cbn [List.filter].
  change (selected from to hostID (toPgRow e)) with (in_range from to hostID e).
  destruct (in_range _ _ _ _); [by rewrite fmap_cons, IH|done].
Qed.

Lemma pg_list_lists from to hostID evs s :
  pg_holds evs s ->
  exists rows,
    ListEvents true from to hostID s = Ok (scanEvent <$> rows) /\ StronglySorted by_ts rows /\
    scanEvent <$> rows ≡ₚ pg_readback <$> List.filter (in_range from to hostID) (first_of_each_id evs).
Proof.
  intros [Hopen Hrows]. unfold ListEvents, QueryContext. rewrite Hopen. cbn [negb].
  eexists. split; [done|]. split; [apply StronglySorted_merge_sort; apply _|].
  rewrite merge_sort_Permutation, Hrows, filter_pg_row. by rewrite <- list_fmap_compose.
Qed.

(** After any history of acknowledged writes, restarts included, ListEvents returns in
    ascending order of time the events of the range and the host, the first write of each id. *)
Theorem pg_list_events_spec from to hostID evs s :
  inserted evs s ->
  exists rows,
    ListEvents true from to hostID s = Ok (scanEvent <$> rows) /\ StronglySorted by_ts rows /\
    scanEvent <$> rows ≡ₚ pg_readback <$> List.filter (in_range from to hostID) (first_of_each_id evs).
Proof. intros H%pg_inserted_holds. by apply pg_list_lists. Qed.

Lemma upsert_spec c ok inv s s' :
  UpsertInventory c ok inv s = (Ok tt, s') ->
  pool_open s' = true /\ db s' = upsert_row (toPgInvRow inv) (db s).
Proof. unfold UpsertInventory. destruct (Inventory_Validate inv) as [[]|]; [|done]. apply exec_acknowledged. Qed.

End store.
End Postgres.

(** ** The two backends give the same answers *)

Module Conformance.
Section conformance.
Context {J : StoreJson}.
Context (jsonb : string -> string).

(** what SQLite decides during a call; the month files are searched in the order of the
    iteration over a map *)
Record SqliteEnv := mkSqliteEnv {
  se_ctx : ctx; se_io : IO; se_attached : nat; se_open : string -> bool; se_query : bool;
  se_order : gset string -> list string; se_matches : string -> string -> bool }.

(** what PostgreSQL decides during a call *)
Record PgEnv := mkPgEnv {
  pe_ctx : ctx; pe_exec : bool; pe_query : bool; pe_matches : string -> string -> bool }.

Global Instance sqlite_relational : Relational SqliteEnv SQLiteStore := {|
  rel_insert env e s := Sqlite.InsertEvent (se_ctx env) (se_io env) e s;
  rel_list env from to hostID s :=
    Sqlite.ListEvents (se_attached env) (se_open env) (se_query env) from to hostID s;
  rel_search env query limit s :=
    Sqlite.SearchEventTitles (fun _ => se_query env) (se_matches env) (se_order env (dbs s)) query limit s;
  rel_upsert env inv s := Sqlite.UpsertInventory (se_ctx env) (se_io env) inv s;
  rel_get env hostID kind s := Sqlite.GetInventory (io_open (se_io env)) (se_query env) hostID kind s;
  rel_close := Sqlite.Close |}.

Global Instance postgres_relational : Relational PgEnv Postgres.PostgresStore := {|
  rel_insert env e s := Postgres.InsertEvent jsonb (pe_ctx env) (pe_exec env) e s;
  rel_list env from to hostID s := (Postgres.ListEvents (pe_query env) from to hostID s, s);
  rel_search env query limit s := Postgres.SearchEventTitles (pe_query env) (pe_matches env) query limit s;
  rel_upsert env inv s := Postgres.UpsertInventory jsonb (pe_ctx env) (pe_exec env) inv s;
  rel_get env hostID kind s := (Postgres.GetInventory (pe_query env) hostID kind s, s);
  rel_close := Postgres.Close |}.

(** the calls of a client, and their answers *)
Inductive Op :=
| OInsert (e : Event) | OUpsert (inv : Inventory)
| OList (from to : Time) (hostID : string) | OGet (hostID kind : string).

Inductive Answer :=
| ADone (r : result StorageError unit)
| AEvents (r : result StorageError (list Event))
| AInventory (r : result StorageError (option Inventory)).

Definition call {Env St} `{Relational Env St} (env : Env) (op : Op) (s : St) : Answer * St :=
  match op with
  | OInsert e => let '(r, s) := rel_insert env e s in (ADone r, s)
  | OUpsert inv => let '(r, s) := rel_upsert env inv s in (ADone r, s)
  | OList from to hostID => let '(r, s) := rel_list env from to hostID s in (AEvents r, s)
  | OGet hostID kind => let '(r, s) := rel_get env hostID kind s in (AInventory r, s)
  end.

Fixpoint calls {Env St} `{Relational Env St} (env : Env) (ops : list Op) (s : St) : list Answer :=
  match ops with
  | [] => []
  | op :: rest => let '(a, s) := call env op s in a :: calls env rest s
  end.

(** environments in which no call fails *)
Definition sqlite_up (attached : nat) (order : gset string -> list string) (m : string -> string -> bool) : SqliteEnv :=
  mkSqliteEnv CtxLive (mkIO true true true) attached (fun _ => true) true order m.
Definition postgres_up (m : string -> string -> bool) : PgEnv := mkPgEnv CtxLive true true m.

(** A JSONB column gives back another text of the same JSON value. *)
Class JsonbLaws : Prop := {
  jsonb_empty : forall text, jsonb text = "" <-> text = "";
  jsonb_subject : forall v, read_subject (jsonb (subject_json v)) = read_subject (subject_json v);
  jsonb_attrs : forall v, read_attrs (jsonb (attrs_json v)) = read_attrs (attrs_json v);
  jsonb_items : forall v, read_items (jsonb (items_json v)) = read_items (items_json v);
}.

(** the only field in which the two differ is the fingerprint, which both read from the
    JSON text of the log references *)
Definition jsonb_fingerprint (e : Event) : Event :=
  mkEvent (e_ID e) (e_TS e) (e_TSReceived e) (e_HostID e) (e_Source e) (e_Type e) (e_Severity e) (e_Title e)
    (e_Subject e) (e_Attrs e) (jsonb (e_Fingerprint e)) (e_LogRefs e) (e_Schema e).

Definition conforms (a1 a2 : Answer) : Prop :=
  match a1, a2 with
  | ADone r1, ADone r2 => r1 = r2
  | AEvents (Ok l1), AEvents (Ok l2) => l2 ≡ₚ jsonb_fingerprint <$> l1 /\ e_TS <$> l2 = e_TS <$> l1
  | AInventory r1, AInventory r2 => r1 = r2
  | _, _ => False
  end.

(** the events a client writes, and whether their ids identify their month *)
Definition written (ops : list Op) : list Event :=
  omap (fun op => match op with OInsert e => Some e | _ => None end) ops.

Definition ids_fix_month (evs : list Event) : Prop :=
  forall e1 e2, e1 ∈ evs -> e2 ∈ evs -> e_ID e1 = e_ID e2 -> monthKey (e_TS e1) = monthKey (e_TS e2).

(** ranges SQLite can list whole *)
Definition listable (attached : nat) (op : Op) : Prop :=
  match op with
  | OList from to _ => from <= to /\ mday from < 28 /\ (length (monthsBetween from to) <= attached)%nat
  | _ => True
  end.

(** *** The simulation *)

Definition sim (evs : list Event) (invs : list Inventory) (sq : SQLiteStore) (pg : Postgres.PostgresStore) : Prop :=
  holds evs sq /\ closed sq = false /\ inv_holds invs (inventories sq) toInvRow /\
  Postgres.pg_holds jsonb evs pg /\
  inv_holds invs (Postgres.pg_inventories (Postgres.db pg)) (Postgres.toPgInvRow jsonb).

(** with ids that fix their month, one id per month is one id *)
Lemma first_of_each_agree evs :
  ids_fix_month evs -> first_of_each evs = Postgres.first_of_each_id evs /\
                       forall e, e ∈ first_of_each evs -> e ∈ evs.
Proof.
  induction evs as [|e evs IH] using rev_ind; intros Hfix; [split; [done|by intros e ?%elem_of_nil]|].
  destruct IH as [IH Hsub].
  { intros e1 e2 H1 H2. apply Hfix; apply elem_of_app; by left. }
  unfold first_of_each, Postgres.first_of_each_id in *. rewrite !fold_left_app. cbn [fold_left].
  rewrite <- IH. revert Hsub. generalize (fold_left keep evs []) as l. clear IH. intros l Hsub.
  unfold keep, Postgres.keep_id.
  assert (existsb (same_key e) l = existsb (Postgres.same_id e) l) as ->.
  { assert (forall x, x ∈ l -> same_key e x = Postgres.same_id e x) as Hx.
    { intros x Hx. unfold same_key, Postgres.same_id. destruct (bool_decide_reflect (e_ID e = e_ID x)) as [Hid|].
      - rewrite bool_decide_eq_true_2; [done|]. apply Hfix; [..|done]; apply elem_of_app.
        + right. by apply list_elem_of_singleton.
        + left. by apply Hsub.
      - by rewrite andb_false_r. }
    clear Hsub. induction l as [|x l IHl]; [done|]. cbn [existsb]. rewrite Hx, IHl by set_solver. done. }
  destruct (existsb (Postgres.same_id e) _); (split; [done|]); intros x Hx; apply elem_of_app.
  - left. by apply Hsub.
  - apply elem_of_app in Hx as [Hx|Hx]; [left; by apply Hsub|by right].
Qed.

Lemma sorted_ts (rows1 rows2 : list Row) :
  StronglySorted by_ts rows1 -> StronglySorted by_ts rows2 ->
  (r_ts <$> rows1) ≡ₚ (r_ts <$> rows2) -> r_ts <$> rows1 = r_ts <$> rows2.
Proof.
  intros H1 H2. apply (StronglySorted_unique Z.le).
  - induction H1 as [|r rows _ IH Hall]; [constructor|]. rewrite fmap_cons. constructor; [done|].
    by apply Forall_fmap.
  - induction H2 as [|r rows _ IH Hall]; [constructor|]. rewrite fmap_cons. constructor; [done|].
    by apply Forall_fmap.
Qed.

Context {HJ : JsonbLaws}.

Lemma readback_jsonb e : Postgres.pg_readback jsonb e = jsonb_fingerprint (readback e).
Proof.
  unfold Postgres.pg_readback, readback, jsonb_fingerprint, scanEvent, Postgres.toPgRow, toRow.
  cbn [r_id r_ts r_ts_received r_host_id r_source r_type r_severity r_title r_subject_json r_attrs_json
       r_fingerprint r_log_refs_json r_schema e_ID e_TS e_TSReceived e_HostID e_Source e_Type e_Severity e_Title
       e_Subject e_Attrs e_Fingerprint e_LogRefs e_Schema].
  rewrite (bool_decide_ext _ _ (jsonb_empty (subject_json (e_Subject e)))), jsonb_subject.
  rewrite (bool_decide_ext _ _ (jsonb_empty (attrs_json (e_Attrs e)))), jsonb_attrs. done.
Qed.

Lemma list_conforms attached order m1 m2 evs invs sq pg from to hostID :
  sim evs invs sq pg -> ids_fix_month evs -> listable attached (OList from to hostID) ->
  exists l1 sq' l2,
    rel_list (sqlite_up attached order m1) from to hostID sq = (Ok l1, sq') /\
    rel_list (postgres_up m2) from to hostID pg = (Ok l2, pg) /\
    conforms (AEvents (Ok l1)) (AEvents (Ok l2)) /\ sim evs invs sq' pg.
Proof.
  intros (Hsq & Hcl & Hiq & Hpg & Hip) [Hfix _]%first_of_each_agree (Hft & Hd & Hlen).
  destruct (list_events_lists attached (fun _ => true) from to hostID evs sq)
    as (rows1 & sq' & Hl1 & Hs1 & Hp1 & Hsq' & Hcl' & Hinv'); [done..|].
  destruct (Postgres.pg_list_lists jsonb from to hostID evs pg Hpg) as (rows2 & Hl2 & Hs2 & Hp2).
  exists (scanEvent <$> rows1), sq', (scanEvent <$> rows2).
  assert (scanEvent <$> rows2 ≡ₚ jsonb_fingerprint <$> (scanEvent <$> rows1)) as Hp.
  { rewrite Hp2, Hp1, <- list_fmap_compose, <- Hfix.
    erewrite list_fmap_ext; [done|]. intros i e _. apply readback_jsonb. }
  split_and!; [done| | |].
  - cbn [rel_list postgres_relational postgres_up pe_query]. by rewrite Hl2.
  - cbn [conforms]. split; [done|].
    assert (forall rows : list Row, e_TS <$> (scanEvent <$> rows) = of_unix_milli <$> (r_ts <$> rows)) as Hts.
    { intros rows. rewrite <- !list_fmap_compose. done. }
    rewrite !Hts. f_equal. apply sorted_ts; [done..|].
    apply (fmap_Permutation (fun e => unix_milli (e_TS e))) in Hp. rewrite <- !list_fmap_compose in Hp.
    assert (forall rows : list Row, (fun e => unix_milli (e_TS e)) ∘ scanEvent <$> rows = r_ts <$> rows) as Hms.
    { intros rows. apply list_fmap_ext. intros i r _. cbn [compose scanEvent e_TS].
      apply unix_milli_of_unix_milli. }
    rewrite <- (Hms rows1), <- (Hms rows2), Hp. done.
  - unfold sim. rewrite Hcl', Hinv'. done.
Qed.

Lemma insert_conforms attached order m1 m2 evs invs sq pg e :
  sim evs invs sq pg ->
  let '(r1, sq') := rel_insert (sqlite_up attached order m1) e sq in
  let '(r2, pg') := rel_insert (postgres_up m2) e pg in
  r1 = r2 /\ (sim (evs ++ [e])%list invs sq' pg' \/ sim evs invs sq' pg').
Proof.
  intros (Hsq & Hcl & Hiq & Hpg & Hip).
  cbn [rel_insert sqlite_relational postgres_relational sqlite_up postgres_up se_ctx se_io pe_ctx pe_exec].
  pose proof (insert_up e sq Hcl) as Hr.
  pose proof (insert_frame CtxLive (mkIO true true true) e sq) as [Hi' Hc'].
  destruct (Sqlite.InsertEvent _ _ _ sq) as [r1 sq'] eqn:H1. cbn [fst snd] in *.
  destruct (Postgres.InsertEvent _ _ _ _ pg) as [r2 pg'] eqn:H2.
  destruct (Event_Validate e) as [[]|err] eqn:Hv.
  - subst r1. assert (r2 = Ok tt) as ->.
    { unfold Postgres.InsertEvent, Postgres.ExecContext in H2. rewrite Hv, (proj1 Hpg) in H2. by injection H2 as <-. }
    split; [done|]. left. split_and!.
    + by apply (holds_insert CtxLive (mkIO true true true) e evs sq).
    + by rewrite Hc'.
    + by rewrite Hi'.
    + by apply (Postgres.pg_holds_insert jsonb CtxLive true e evs pg).
    + apply Postgres.insert_spec in H2 as [_ ->]. unfold Postgres.insert_row. by destruct (existsb _ _).
  - subst r1. unfold Postgres.InsertEvent in H2. rewrite Hv in H2. injection H2 as <- <-.
    unfold Sqlite.InsertEvent in H1. rewrite Hv in H1. injection H1 as <-.
    split; [done|]. by right.
Qed.

Lemma upsert_conforms attached order m1 m2 evs invs sq pg inv :
  sim evs invs sq pg ->
  let '(r1, sq') := rel_upsert (sqlite_up attached order m1) inv sq in
  let '(r2, pg') := rel_upsert (postgres_up m2) inv pg in
  r1 = r2 /\ (sim evs (invs ++ [inv])%list sq' pg' \/ sim evs invs sq' pg').
Proof.
  intros (Hsq & Hcl & Hiq & Hpg & Hip).
  cbn [rel_upsert sqlite_relational postgres_relational sqlite_up postgres_up se_ctx se_io pe_ctx pe_exec].
  destruct (Sqlite.UpsertInventory _ _ _ sq) as [r1 sq'] eqn:H1.
  destruct (Postgres.UpsertInventory _ _ _ _ pg) as [r2 pg'] eqn:H2.
  destruct (Inventory_Validate inv) as [[]|err] eqn:Hv.
  - assert (r1 = Ok tt) as ->.
    { unfold Sqlite.UpsertInventory, enqueueWrite, inventoryDB in H1. rewrite Hv, Hcl in H1.
      destruct (inv_open sq); by injection H1 as <-. }
    assert (r2 = Ok tt) as ->.
    { unfold Postgres.UpsertInventory, Postgres.ExecContext in H2. rewrite Hv, (proj1 Hpg) in H2.
      by injection H2 as <-. }
    apply upsert_rows in H1 as (Hi' & Hf' & Hc'). apply Postgres.upsert_spec in H2 as [Ho' Hd'].
    split; [done|]. left. unfold sim, Postgres.pg_holds. rewrite Hi', Hd', Ho', Hc'. split_and!; [|done| |done| |].
    + intros m. unfold rows_of. rewrite Hf'. apply Hsq.
    + by apply inv_holds_insert.
    + apply Hpg.
    + by apply (inv_holds_insert invs _ (Postgres.toPgInvRow jsonb) inv).
  - unfold Postgres.UpsertInventory in H2. rewrite Hv in H2. injection H2 as <- <-.
    unfold Sqlite.UpsertInventory in H1. rewrite Hv in H1. injection H1 as <- <-.
    split; [done|]. by right.
Qed.

Lemma get_conforms attached order m1 m2 evs invs sq pg hostID kind :
  sim evs invs sq pg ->
  let '(r1, sq') := rel_get (sqlite_up attached order m1) hostID kind sq in
  rel_get (postgres_up m2) hostID kind pg = (r1, pg) /\ sim evs invs sq' pg.
Proof.
  intros (Hsq & Hcl & Hiq & Hpg & Hip).
  cbn [rel_get sqlite_relational postgres_relational sqlite_up postgres_up se_io se_query pe_query io_open].
  unfold Sqlite.GetInventory, Postgres.GetInventory, inventoryDB. rewrite (proj1 Hpg). cbn [negb].
  rewrite Hip. specialize (Hiq hostID kind) as Hl.
  assert (scanInventory (Postgres.toPgInvRow jsonb <$> last (List.filter (inventory_for hostID kind) invs)) =
          scanInventory (inventories sq !! (hostID, kind))) as Hscan.
  { rewrite Hl. destruct (last _) as [inv|]; [|done].
    cbn [fmap option_fmap option_map scanInventory Postgres.toPgInvRow toInvRow ir_host_id ir_kind
         ir_reported_at ir_schema ir_items_json]. by rewrite jsonb_items. }
  rewrite Hscan. destruct (inv_open sq); by split.
Qed.

Lemma calls_conform attached order m1 m2 ops evs invs sq pg :
  sim evs invs sq pg -> ids_fix_month (evs ++ written ops)%list -> Forall (listable attached) ops ->
  Forall2 conforms (calls (sqlite_up attached order m1) ops sq) (calls (postgres_up m2) ops pg).
Proof.
  revert evs invs sq pg. induction ops as [|op ops IH]; intros evs invs sq pg Hsim Hfix Hl; [constructor|].
  apply Forall_cons in Hl as [Hop Hl]. cbn [calls].
  assert (ids_fix_month (evs ++ written ops)%list) as Hfix'.
  { intros e1 e2 H1 H2. apply Hfix; revert H1 H2; unfold written; rewrite !elem_of_app, !list_elem_of_omap;
      set_solver. }
  destruct op as [e|inv|from to hostID|hostID kind]; cbn [call].
  - pose proof (insert_conforms attached order m1 m2 _ _ _ _ e Hsim) as Hc.
    destruct (rel_insert _ e sq) as [r1 sq'], (rel_insert _ e pg) as [r2 pg']. destruct Hc as [-> Hs].
    constructor; [done|]. destruct Hs as [Hs|Hs]; [|by apply (IH evs invs)].
    apply (IH (evs ++ [e])%list invs); [done| |done]. by rewrite <- app_assoc.
  - pose proof (upsert_conforms attached order m1 m2 _ _ _ _ inv Hsim) as Hc.
    destruct (rel_upsert _ inv sq) as [r1 sq'], (rel_upsert _ inv pg) as [r2 pg']. destruct Hc as [-> Hs].
    constructor; [done|]. destruct Hs as [Hs|Hs]; by eapply IH.
  - destruct (list_conforms attached order m1 m2 _ _ _ _ from to hostID Hsim) as (l1 & sq' & l2 & -> & -> & Hc & Hs).
    { intros e1 e2 H1 H2. apply Hfix; apply elem_of_app; by left. }
    { done. }
    constructor; [done|]. by eapply IH.
  - pose proof (get_conforms attached order m1 m2 _ _ _ _ hostID kind Hsim) as Hc.
    destruct (rel_get _ hostID kind sq) as [r1 sq']. destruct Hc as [-> Hs].
    constructor; [done|]. by eapply IH.
Qed.

(** C8: for every sequence of the calls InsertEvent, UpsertInventory, ListEvents and
    GetInventory, none of which meets a failing database, a fresh SQLite store and a
    fresh PostgreSQL store give conforming answers: the same acceptances and validation
    errors, the same inventories, and for every listing the same events (up to the text
    in the fingerprint) with the same sequence of times. The events must not reuse an id
    in another month ([same_id_in_two_months]), and a listing must start on or before
    the 28th and touch no more months than SQLite can attach. SearchEventTitles is not
    among the calls: there the two stores do differ ([listing_and_search_differ]). *)
Theorem backends_conform attached order m1 m2 exec_ok pg ops :
  Postgres.NewPostgresStore true true exec_ok Postgres.empty_database = (Ok pg, Postgres.db pg) ->
  ids_fix_month (written ops) -> Forall (listable attached) ops ->
  Forall2 conforms (calls (sqlite_up attached order m1) ops empty_store) (calls (postgres_up m2) ops pg).
Proof.
  intros (He & Hi & Ho)%Postgres.new_keeps_rows Hfix Hl. apply (calls_conform _ _ _ _ _ [] []); [|done..].
  unfold sim, Postgres.pg_holds. rewrite He, Hi, Ho. done.
Qed.

End conformance.

(** ** Concrete stores *)

Local Existing Instance demo_json.

(** on the texts of [demo_json] the server prints what it was given *)
Definition demo_jsonb (text : string) : string := text.

Local Instance demo_jsonb_laws : JsonbLaws demo_jsonb.
Proof. by split. Qed.

Definition demo_pg : Postgres.PostgresStore :=
  Postgres.mkPostgres (Postgres.run_migrations (fun _ => true) Postgres.postgresMigrations Postgres.empty_database).2 true.

Definition match_all (query title : string) : bool := true.

Definition demo_ops : list Op :=
  [OInsert (demo_event "e1" (date 2026 1 31)); OUpsert (demo_inventory (date 2026 2 1) 2);
   OInsert (demo_event "" (date 2026 1 31)); OInsert (demo_event "e2" (date 2026 2 10));
   OInsert (demo_event "e1" (date 2026 1 31)); OList (date 2026 1 1) (date 2026 3 1) "h1"; OGet "h1" "shares"].

(** the length of a listing, for the other answers nothing *)
Definition listed (a : Answer) : option nat := match a with AEvents (Ok l) => Some (length l) | _ => None end.

Lemma backends_conform_witness :
  omap listed (calls (sqlite_up 10 elements match_all) demo_ops empty_store) = [2%nat] /\
  Forall2 (conforms demo_jsonb) (calls (sqlite_up 10 elements match_all) demo_ops empty_store)
    (calls (H := postgres_relational demo_jsonb) (postgres_up match_all) demo_ops demo_pg).
Proof.
  split; [vm_compute; reflexivity|].
  apply (backends_conform demo_jsonb 10 elements match_all match_all (fun _ => true) demo_pg demo_ops).
  - reflexivity.
  - intros e1 e2 H1 H2. change (written demo_ops) with
      [demo_event "e1" (date 2026 1 31); demo_event "" (date 2026 1 31); demo_event "e2" (date 2026 2 10);
       demo_event "e1" (date 2026 1 31)] in H1, H2.
    repeat (apply elem_of_cons in H1 as [->|H1]); try (by apply elem_of_nil in H1);
      repeat (apply elem_of_cons in H2 as [->|H2]); try (by apply elem_of_nil in H2); by vm_compute.
  - repeat (apply Forall_cons; split; [first [exact I|vm_compute; split_and!; [discriminate|reflexivity|lia]]|]).
    apply Forall_nil. exact I.
Defined.

Lemma migrations_resumable_witness :
  exists s, Postgres.NewPostgresStore true true (fun _ => true)
              (Postgres.NewPostgresStore true true (fun stmt => bool_decide (stmt = "events")) Postgres.empty_database).2 =
            (Ok s, Postgres.db s) /\
    forall stmt, stmt ∈ Postgres.postgresMigrations -> stmt ∈ Postgres.objects (Postgres.db s).
Proof.
  destruct (Postgres.migrations_resumable (fun stmt => bool_decide (stmt = "events")) (fun _ => true)
              Postgres.empty_database) as (s & Hs & _ & _ & _ & Hall); [done|].
  exists s. split; [exact Hs|exact Hall].
Defined.

Definition pg_insert_all (evs : list Event) : Postgres.PostgresStore :=
  fold_left (fun s e => (Postgres.InsertEvent demo_jsonb CtxLive true e s).2) evs demo_pg.

(** Where the backends differ. An id used again in another month is a second event on
    SQLite and a repetition on PostgreSQL. *)
Example same_id_in_two_months :
  let evs := [demo_event "e1" (date 2026 1 31); demo_event "e1" (date 2026 2 10)] in
  ids (ListEvents 10 (fun _ => true) true (date 2026 1 1) (date 2026 3 1) "" (insert_all evs)).1 = ["e1"; "e1"] /\
  ids (Postgres.ListEvents true (date 2026 1 1) (date 2026 3 1) "" (pg_insert_all evs)) = ["e1"].
Proof. split; vm_compute; reflexivity. Qed.

(** A listing from the 31st skips February on SQLite only, and a limit of one search result
    gives one result on PostgreSQL and one per month on SQLite; a negative limit is an error
    on PostgreSQL and no limit on SQLite. *)
Example listing_and_search_differ :
  ids (ListEvents 10 (fun _ => true) true (date 2026 1 31) (date 2026 3 31) "" (insert_all demo_events)).1 =
    ["e1"; "e3"] /\
  ids (Postgres.ListEvents true (date 2026 1 31) (date 2026 3 31) "" (pg_insert_all demo_events)) =
    ["e1"; "e2"; "e3"] /\
  length (ids (rel_search (sqlite_up 10 elements match_all) "segfault" 1 (insert_all demo_events))) = 3%nat /\
  ids (Postgres.SearchEventTitles true match_all "segfault" 1 (pg_insert_all demo_events)) = ["e3"] /\
  length (ids (rel_search (sqlite_up 10 elements match_all) "segfault" (-1) (insert_all demo_events))) = 3%nat /\
  Postgres.SearchEventTitles true match_all "segfault" (-1) (pg_insert_all demo_events) = Err ErrQuery.
Proof. split_and!; vm_compute; reflexivity. Qed.

End Conformance.
