(* ===== verification/LogStore.v ===== *)
(** * LogStore: compressed log blocks and their index

    Models internal/logstore: logstore.go (accumulating lines per host and source and
    writing them as immutable blocks) and index.go (rebuilding the index from the files).

    A path is the list of the segments filepath.Clean leaves of it; the file system maps
    absolute paths to contents. writeAtomic writes a temporary file and renames it, so its
    outcome is the whole new file or none. zstd and encoding/json on the metadata are
    parameters, the block ids (ULIDs), the clock and the failing calls are inputs. *)

From stdpp Require Import base gmap strings list.
From Stdlib Require Import ZArith Lia Ascii.
From S2P Require Import Prelude GoStd GoConv Schema Calendar.
Import GoString GoTime Schema Calendar.

Local Open Scope string_scope.
Local Open Scope Z_scope.

(** ** Paths: path/filepath on slash-separated segments *)
Module Path.

Definition slash : ascii := "/"%char.

Fixpoint clean_from (rooted : bool) (stack segs : list string) : list string :=
  match segs with
  | [] => rev stack
  | s :: rest =>
      if decide (s = "" \/ s = ".") then clean_from rooted stack rest
      else if decide (s = "..")
      then match stack with
           | [] => clean_from rooted (if rooted then [] else [".."]) rest
           | t :: st => if decide (t = "..") then clean_from rooted (".." :: stack) rest
                        else clean_from rooted st rest
           end
      else clean_from rooted (s :: stack) rest
  end.

Definition clean (rooted : bool) (segs : list string) : list string := clean_from rooted [] segs.

(** filepath.Join: the elements may hold slashes themselves *)
Definition join (rooted : bool) (base : list string) (elems : list string) : list string :=
  clean rooted (base ++ concat (split_byte slash <$> elems))%list.

(** a segment Clean keeps as it is *)
Definition plain (s : string) : Prop := s <> "" /\ s <> "." /\ s <> ".." /\ lacks slash s = true.

Lemma clean_from_plain rooted stack segs :
  Forall plain segs -> clean_from rooted stack segs = (rev stack ++ segs)%list.
Proof.
  intros Hs. revert stack. induction Hs as [|s segs (H1 & H2 & H3 & _) _ IH]; intros stack; cbn [clean_from].
  { by rewrite app_nil_r. }
  rewrite decide_False by tauto. rewrite decide_False by done. rewrite IH. cbn [rev]. by rewrite <- app_assoc.
Qed.

Lemma join_plain rooted base elems :
  Forall plain base -> Forall plain elems -> join rooted base elems = (base ++ elems)%list.
Proof.
  intros Hb He. unfold join, clean.
  assert (concat (split_byte slash <$> elems) = elems) as ->.
  { induction He as [|e elems (_ & _ & _ & Hl) _ IH]; [done|]. rewrite fmap_cons. cbn [concat].
    by rewrite IH, split_byte_lacks. }
  by rewrite clean_from_plain by by apply Forall_app.
Qed.

End Path.

(** ** The store *)
Module LogStore.
Import Path.

Definition DefaultMaxBytes : Z := 5 * 1024 * 1024.
Definition DefaultMaxAge : Duration := 5 * minute.

Definition levelBit (level : string) : option Z :=
  if decide (level = "debug") then Some (Z.shiftl 1 0)
  else if decide (level = "info") then Some (Z.shiftl 1 1)
  else if decide (level = "notice") then Some (Z.shiftl 1 2)
  else if decide (level = "warn") then Some (Z.shiftl 1 3)
  else if decide (level = "warning") then Some (Z.shiftl 1 3)
  else if decide (level = "error") then Some (Z.shiftl 1 4)
  else if decide (level = "critical") then Some (Z.shiftl 1 5)
  else None.

Record BlockMeta := mkMeta {
  BlockID : string; b_HostID : string; b_Source : string; TSMin : Time; TSMax : Time; Unit_ : string;
  NLines : Z; LevelsBitmap : Z; Path_ : list string; SizeRaw : Z; SizeCompressed : Z }.

Record buffer := mkBuffer { lines : list LogLine; rawBytes : Z; firstAt : Time }.

Abbreviation FS := (gmap (list string) string) (only parsing).

Record Store := mkStore {
  baseDir : list string;
  maxBytes : Z;
  maxAge : Duration;
  buffers : gmap (string * string) buffer;
  fs : FS;
}.

Definition NewStore (dir : list string) : Store := mkStore dir DefaultMaxBytes DefaultMaxAge ∅ ∅.

Inductive LogError : Set := ErrInvalid (e : SchemaError) | ErrMkdir | ErrWrite | ErrWriteMeta.

(** the calls of writeBlock that succeed *)
Record IO := mkIO { io_mkdir : bool; io_payload : bool; io_meta : bool }.

Section store.
Variable compress : string -> string.
Variable decompress : string -> option string.
Variable marshal_meta : BlockMeta -> string.
Variable unmarshal_meta : string -> option BlockMeta.

Definition newline : ascii := ascii_of_nat 10.

(** what the loop of writeBlock computes *)
Record Scan := mkScan { sc_raw : string; sc_min : Time; sc_max : Time; sc_bitmap : Z }.

Definition scan_line (a : Scan) (l : LogLine) : Scan :=
  mkScan (sc_raw a ++ l_Message l ++ String newline "")
    (if before (l_TS l) (sc_min a) then l_TS l else sc_min a)
    (if after (l_TS l) (sc_max a) then l_TS l else sc_max a)
    (match levelBit (GoConv.ToLower (l_Level l)) with Some bit => Z.lor (sc_bitmap a) bit | None => sc_bitmap a end).

Definition scan_lines (first : LogLine) (ls : list LogLine) : Scan :=
  fold_left scan_line ls (mkScan "" (l_TS first) (l_TS first) 0).

(** host/YYYY/MM/DD *)
Definition relDir (hostID : string) (t : Time) : list string :=
  join false [] [hostID; four_digits (month_of t / 12 + 1); two_digits (month_of t mod 12 + 1);
                 two_digits (mday t + 1)].

Definition writeBlock (id : string) (io : IO) (base : list string) (hostID source : string)
    (ls : list LogLine) (files : FS) : result LogError BlockMeta * FS :=
  match ls with
  | [] => (Err ErrWrite, files)          (** not reached: Flush checks *)
  | first :: _ =>
      let a := scan_lines first ls in
      let dir := relDir hostID (sc_min a) in
      if negb (io_mkdir io) then (Err ErrMkdir, files)
      else
        let compressed := compress (sc_raw a) in
        let relPath := join false dir [(id ++ ".zst")%string] in
        if negb (io_payload io) then (Err ErrWrite, files)
        else
          let files := <[clean true (base ++ relPath)%list := compressed]> files in
          let meta := mkMeta id hostID source (sc_min a) (sc_max a) (l_UnitOrContainer first)
                        (Z.of_nat (length ls)) (sc_bitmap a) relPath
                        (Z.of_nat (String.length (sc_raw a))) (Z.of_nat (String.length compressed)) in
          if negb (io_meta io) then (Err ErrWriteMeta, files)
          else (Ok meta, <[join true (base ++ dir)%list [(id ++ ".meta.json")%string] := marshal_meta meta]> files)
  end.

Definition Flush (id : string) (io : IO) (hostID source : string) (s : Store) :
    result LogError (option BlockMeta) * Store :=
  let key := (hostID, source) in
  match buffers s !! key with
  | None => (Ok None, s)
  | Some buf =>
      match lines buf with
      | [] => (Ok None, s)
      | _ =>
          let bufs := delete key (buffers s) in
          let '(r, files) := writeBlock id io (baseDir s) hostID source (lines buf) (fs s) in
          (match r with Ok meta => Ok (Some meta) | Err err => Err err end,
           mkStore (baseDir s) (maxBytes s) (maxAge s) bufs files)
      end
  end.

(** Append: [now] is the clock when a new accumulator starts, [now'] when its age is
    compared *)
Definition Append (id : string) (io : IO) (now now' : Time) (line : LogLine) (s : Store) :
    result LogError (option BlockMeta) * Store :=
  match LogLine_Validate line with
  | Err err => (Err (ErrInvalid err), s)
  | Ok _ =>
      let key := (l_HostID line, l_Source line) in
      let buf := default (mkBuffer [] 0 now) (buffers s !! key) in
      let buf := mkBuffer (lines buf ++ [line])%list
                   (rawBytes buf + Z.of_nat (String.length (l_Message line)) + 1) (firstAt buf) in
      let s := mkStore (baseDir s) (maxBytes s) (maxAge s) (<[key := buf]> (buffers s)) (fs s) in
      let shouldFlush := (maxBytes s <=? rawBytes buf) || (maxAge s <=? sub now' (firstAt buf)) in
      if negb shouldFlush then (Ok None, s) else Flush id io (l_HostID line) (l_Source line) s
  end.

(** FlushAll over the accumulators in the order [keys] in which the map is iterated, with
    the id and the outcome of each block *)
Fixpoint FlushAll (keys : list (string * string * string * IO)) (s : Store) :
    list BlockMeta * option LogError * Store :=
  match keys with
  | [] => ([], None, s)
  | (host, source, id, io) :: rest =>
      match Flush id io host source s with
      | (Err err, s) => ([], Some err, s)
      | (Ok meta, s) =>
          let '(metas, err, s) := FlushAll rest s in
          (match meta with Some m => m :: metas | None => metas end, err, s)
      end
  end.

Definition DecompressBlock (path : list string) (files : FS) : option string :=
  files !! path ≫= decompress.

(** *** Rebuilding the index *)

Record VerifyResult := mkVerify {
  Blocks : list BlockMeta;
  TotalRawBytes : Z;
  TotalCompBytes : Z;
  OrphanPayloads : list (list string);
  OrphanMeta : list (list string);
  Corrupt : list (list string);
}.

Definition base_name (p : list string) : string := default "." (last p).

(** the walk: the file of each block id, the last one walked *)
Definition walk_meta (m : gmap string (list string)) (p : list string) : gmap string (list string) :=
  if has_suffix ".meta.json" (base_name p) then <[trim_suffix (base_name p) ".meta.json" := p]> m else m.
Definition walk_payload (m : gmap string (list string)) (p : list string) : gmap string (list string) :=
  if has_suffix ".meta.json" (base_name p) then m
  else if has_suffix ".zst" (base_name p) then <[trim_suffix (base_name p) ".zst" := p]> m else m.

Definition scan_meta (files : FS) (payloadFiles : gmap string (list string)) (r : VerifyResult)
    (idp : string * list string) : VerifyResult :=
  let '(id, metaPath) := idp in
  match payloadFiles !! id with
  | None => mkVerify (Blocks r) (TotalRawBytes r) (TotalCompBytes r) (OrphanPayloads r)
              (OrphanMeta r ++ [metaPath])%list (Corrupt r)
  | Some _ =>
      match files !! metaPath ≫= unmarshal_meta with
      | None => mkVerify (Blocks r) (TotalRawBytes r) (TotalCompBytes r) (OrphanPayloads r)
                  (OrphanMeta r) (Corrupt r ++ [metaPath])%list
      | Some meta => mkVerify (Blocks r ++ [meta])%list (TotalRawBytes r + SizeRaw meta)
                       (TotalCompBytes r + SizeCompressed meta) (OrphanPayloads r) (OrphanMeta r) (Corrupt r)
      end
  end.

Definition scan_payload (metaFiles : gmap string (list string)) (r : VerifyResult)
    (idp : string * list string) : VerifyResult :=
  match metaFiles !! fst idp with
  | Some _ => r
  | None => mkVerify (Blocks r) (TotalRawBytes r) (TotalCompBytes r)
              (OrphanPayloads r ++ [snd idp])%list (OrphanMeta r) (Corrupt r)
  end.

(** the outcome of filepath.Walk: the files it visited, in order, or why it stopped *)
Inductive walk : Type := Walked (paths : list (list string)) | WalkNotExist | WalkFailed.

Definition no_blocks : VerifyResult := mkVerify [] 0 0 [] [] [].

Definition scan_files (paths : list (list string)) (files : FS) : VerifyResult :=
  let metaFiles := fold_left walk_meta paths ∅ in
  let payloadFiles := fold_left walk_payload paths ∅ in
  let r := fold_left (scan_meta files payloadFiles) (map_to_list metaFiles) no_blocks in
  fold_left (scan_payload metaFiles) (map_to_list payloadFiles) r.

Definition ScanIndex (w : walk) (files : FS) : result unit VerifyResult :=
  match w with
  | Walked paths => Ok (scan_files paths files)
  | WalkNotExist => Ok no_blocks
  | WalkFailed => Err tt
  end.

(** ** What a block holds *)

Lemma list_ascii_app (a b : string) :
  String.list_ascii_of_string (a ++ b) = (String.list_ascii_of_string a ++ String.list_ascii_of_string b)%list.
Proof. induction a as [|c a IH]; [done|]. rewrite str_app_cons. cbn [String.list_ascii_of_string app]. by rewrite IH. Qed.

(** no name ends in both suffixes *)
Lemma suffixes_differ (a b : string) : (a ++ ".meta.json")%string <> (b ++ ".zst")%string.
Proof.
  intros E%(f_equal (fun s => last (String.list_ascii_of_string s))). rewrite !list_ascii_app, !last_app in E. done.
Qed.

Definition raw_of (ls : list LogLine) : string :=
  foldr (fun l acc => (l_Message l ++ String newline "") ++ acc) "" ls.

Lemma scan_raw ls a : sc_raw (fold_left scan_line ls a) = sc_raw a ++ raw_of ls.
Proof.
  revert a. induction ls as [|l ls IH]; intros a; cbn [fold_left raw_of foldr]; [by rewrite str_app_nil_r|].
  rewrite IH. cbn [scan_line sc_raw]. by rewrite !str_app_assoc.
Qed.

Lemma scan_min ls a :
  sc_min (fold_left scan_line ls a) <= sc_min a /\
  Forall (fun l => sc_min (fold_left scan_line ls a) <= l_TS l) ls /\
  (sc_min (fold_left scan_line ls a) = sc_min a \/ exists l, l ∈ ls /\ sc_min (fold_left scan_line ls a) = l_TS l).
Proof.
  revert a. induction ls as [|l ls IH]; intros a; [split_and!; [done|constructor|by left]|]. cbn [fold_left].
  destruct (IH (scan_line a l)) as (Hle & Hall & Hex). set (r := sc_min (fold_left _ _ _)) in *.
  assert (sc_min (scan_line a l) <= sc_min a /\ sc_min (scan_line a l) <= l_TS l /\
          (sc_min (scan_line a l) = sc_min a \/ sc_min (scan_line a l) = l_TS l)) as (H1 & H2 & H3).
  { cbn [scan_line sc_min]. unfold before. destruct (Z.ltb_spec (l_TS l) (sc_min a)); lia. }
  split_and!; [lia|constructor; [lia|done]|].
  destruct Hex as [Hex|(x & Hx & Hex)].
  - destruct H3; [left; lia|right]. exists l. split; [by left|lia].
  - right. exists x. split; [by right|done].
Qed.

Lemma scan_max ls a :
  sc_max a <= sc_max (fold_left scan_line ls a) /\
  Forall (fun l => l_TS l <= sc_max (fold_left scan_line ls a)) ls /\
  (sc_max (fold_left scan_line ls a) = sc_max a \/ exists l, l ∈ ls /\ sc_max (fold_left scan_line ls a) = l_TS l).
Proof.
  revert a. induction ls as [|l ls IH]; intros a; [split_and!; [done|constructor|by left]|]. cbn [fold_left].
  destruct (IH (scan_line a l)) as (Hle & Hall & Hex). set (r := sc_max (fold_left _ _ _)) in *.
  assert (sc_max a <= sc_max (scan_line a l) /\ l_TS l <= sc_max (scan_line a l) /\
          (sc_max (scan_line a l) = sc_max a \/ sc_max (scan_line a l) = l_TS l)) as (H1 & H2 & H3).
  { cbn [scan_line sc_max]. unfold after. destruct (Z.ltb_spec (sc_max a) (l_TS l)); lia. }
  split_and!; [lia|constructor; [lia|done]|].
  destruct Hex as [Hex|(x & Hx & Hex)].
  - destruct H3; [left; lia|right]. exists l. split; [by left|lia].
  - right. exists x. split; [by right|done].
Qed.

(** a line of the list has the level of bit [i] *)
Definition has_level (i : Z) (l : LogLine) : bool :=
  match levelBit (GoConv.ToLower (l_Level l)) with Some bit => Z.testbit bit i | None => false end.

Lemma scan_bitmap ls a i :
  Z.testbit (sc_bitmap (fold_left scan_line ls a)) i = Z.testbit (sc_bitmap a) i || existsb (has_level i) ls.
Proof.
  revert a. induction ls as [|l ls IH]; intros a; cbn [fold_left existsb]; [by rewrite orb_false_r|].
  rewrite IH, orb_assoc. f_equal. cbn [scan_line sc_bitmap]. unfold has_level.
  destruct (levelBit _); [apply Z.lor_spec|by rewrite orb_false_r].
Qed.

Hypothesis decompress_compress : forall raw, decompress (compress raw) = Some raw.

Lemma digit_plain z : lacks slash (String (digit z) "") = true.
Proof.
  unfold digit, lacks. rewrite andb_true_r. apply bool_decide_eq_true.
  pose proof (Z.mod_pos_bound z 10 ltac:(done)) as Hz.
  assert (exists n, Z.to_nat (z mod 10) = n /\ (n < 10)%nat) as (n & -> & Hn) by (eexists; split; [done|lia]).
  do 10 (destruct n as [|n]; [vm_compute; congruence|]). lia.
Qed.

Lemma digits_plain s : forall z, s = four_digits z \/ s = two_digits z -> plain s.
Proof.
  intros z Hs. assert (lacks slash s = true) as Hl.
  { assert (forall z rest, lacks slash rest = true -> lacks slash (String (digit z) rest) = true) as Hd.
    { intros y rest Hr. pose proof (digit_plain y) as Hy. cbn [lacks] in *. by rewrite andb_true_r in Hy; rewrite Hy. }
    destruct Hs as [-> | ->]; unfold four_digits, two_digits; by repeat apply Hd. }
  assert (forall z, digit z <> "."%char) as Hdot.
  { intros y. unfold digit. pose proof (Z.mod_pos_bound y 10 ltac:(done)) as Hy.
    assert (exists n, Z.to_nat (y mod 10) = n /\ (n < 10)%nat) as (n & -> & Hn) by (eexists; split; [done|lia]).
    do 10 (destruct n as [|n]; [vm_compute; congruence|]). lia. }
  split_and!; [destruct Hs as [-> | ->]; done..| |done].
  destruct Hs as [-> | ->]; unfold four_digits, two_digits; intros [= E]; by eapply Hdot.
Qed.

Lemma relDir_plain hostID t : plain hostID -> Forall plain (relDir hostID t) /\
  relDir hostID t = [hostID; four_digits (month_of t / 12 + 1); two_digits (month_of t mod 12 + 1); two_digits (mday t + 1)].
Proof.
  intros Hh. assert (Forall plain [hostID; four_digits (month_of t / 12 + 1); two_digits (month_of t mod 12 + 1);
    two_digits (mday t + 1)]) as Hp.
  { apply Forall_cons; split; [done|]. apply Forall_cons; split; [eapply digits_plain; by left|].
    apply Forall_cons; split; [eapply digits_plain; by right|].
    apply Forall_cons; split; [eapply digits_plain; by right|by apply Forall_nil]. }
  unfold relDir. rewrite join_plain by (done || apply Forall_nil; done). done.
Qed.

(** the metadata of a block *)
Definition meta_of (id hostID source : string) (first : LogLine) (ls : list LogLine) : BlockMeta :=
  let a := scan_lines first ls in
  mkMeta id hostID source (sc_min a) (sc_max a) (l_UnitOrContainer first) (Z.of_nat (length ls)) (sc_bitmap a)
    (relDir hostID (sc_min a) ++ [(id ++ ".zst")%string])%list (Z.of_nat (String.length (sc_raw a)))
    (Z.of_nat (String.length (compress (sc_raw a)))).

Definition ok_io : IO := mkIO true true true.

Lemma plain_app_suffix s suf :
  lacks slash suf = true -> (1 < String.length suf)%nat -> suf <> "." -> lacks slash s = true -> s <> "" -> plain (s ++ suf).
Proof.
  intros Hsuf Hlen Hdot Hs Hne. split_and!.
  - intros E%(f_equal String.length). rewrite str_length_app in E. simpl in E. lia.
  - intros E%(f_equal String.length). rewrite str_length_app in E. simpl in E. lia.
  - intros E%(f_equal String.length). rewrite str_length_app in E. destruct s; [done|]. simpl in E. lia.
  - by rewrite lacks_app, Hs, Hsuf.
Qed.

Lemma block_names_plain id : plain id -> plain (id ++ ".zst") /\ plain (id ++ ".meta.json").
Proof. intros (H1 & _ & _ & H4). split; (apply plain_app_suffix; [done|simpl; lia|done..]). Qed.

Lemma writeBlock_ok id base hostID source first rest files :
  Forall plain base -> plain id -> plain hostID ->
  let ls := first :: rest in
  let meta := meta_of id hostID source first ls in
  let dir := relDir hostID (TSMin meta) in
  writeBlock id ok_io base hostID source ls files =
  (Ok meta, <[(base ++ dir ++ [(id ++ ".meta.json")%string])%list := marshal_meta meta]>
            (<[(base ++ dir ++ [(id ++ ".zst")%string])%list := compress (raw_of ls)]> files)).
Proof.
  intros Hb Hid Hh ls meta dir. unfold writeBlock. change (first :: rest) with ls.
  destruct (relDir_plain hostID (sc_min (scan_lines first ls)) Hh) as [Hd _].
  destruct (block_names_plain id Hid) as [Hz Hm].
  unfold ls at 1. cbn [ok_io io_mkdir io_payload io_meta negb].
  rewrite join_plain by (done || by apply Forall_singleton).
  rewrite join_plain by (by apply Forall_app || by apply Forall_singleton).
  assert (clean true (base ++ relDir hostID (sc_min (scan_lines first ls)) ++ [(id ++ ".zst")%string])%list =
          (base ++ relDir hostID (sc_min (scan_lines first ls)) ++ [(id ++ ".zst")%string])%list) as ->.
  { unfold clean. rewrite clean_from_plain; [done|]. rewrite !Forall_app. split_and!; [done..|by apply Forall_singleton]. }
  assert (raw_of ls = sc_raw (scan_lines first ls)) as -> by (unfold scan_lines; by rewrite scan_raw).
  rewrite <- app_assoc. done.
Qed.

(** A block that is written holds exactly its lines, in order, one per line of text,
    under the path its metadata gives; its time span is the tightest one around the lines,
    its count is right, a level bit is set exactly when a line has that level, and no
    other file changes but the block's own metadata. *)
Theorem block_spec id base hostID source first rest files :
  Forall plain base -> plain id -> plain hostID ->
  let ls := first :: rest in
  exists meta files', writeBlock id ok_io base hostID source ls files = (Ok meta, files') /\
    DecompressBlock (base ++ Path_ meta)%list files' = Some (raw_of ls) /\
    (forall p, p ∉ [(base ++ Path_ meta)%list; (base ++ relDir hostID (TSMin meta) ++ [(id ++ ".meta.json")%string])%list] ->
       files' !! p = files !! p) /\
    NLines meta = Z.of_nat (length ls) /\ SizeRaw meta = Z.of_nat (String.length (raw_of ls)) /\
    Forall (fun l => TSMin meta <= l_TS l <= TSMax meta) ls /\
    (exists l, l ∈ ls /\ l_TS l = TSMin meta) /\ (exists l, l ∈ ls /\ l_TS l = TSMax meta) /\
    (forall i, Z.testbit (LevelsBitmap meta) i = existsb (has_level i) ls).
Proof.
  intros Hb Hid Hh ls. pose proof (writeBlock_ok id base hostID source first rest files Hb Hid Hh) as Hw.
  cbv zeta in Hw. fold ls in Hw. eexists _, _. split; [exact Hw|]. clear Hw.
  cbn [meta_of Path_ NLines SizeRaw TSMin TSMax LevelsBitmap].
  pose proof (scan_min ls (mkScan "" (l_TS first) (l_TS first) 0)) as (Hm1 & Hm2 & Hm3).
  pose proof (scan_max ls (mkScan "" (l_TS first) (l_TS first) 0)) as (Hx1 & Hx2 & Hx3).
  fold (scan_lines first ls) in Hm1, Hm2, Hm3, Hx1, Hx2, Hx3. cbn [sc_min sc_max] in *.
  assert (first ∈ ls) as Hfirst by by left.
  split_and!.
  - unfold DecompressBlock. rewrite lookup_insert_ne.
    + rewrite lookup_insert_eq. apply decompress_compress.
    + intros E%app_inv_head%app_inv_head. injection E as E. apply (f_equal (has_suffix ".zst")) in E.
      rewrite has_suffix_app in E. revert E.
      assert (has_suffix ".zst" (id ++ ".meta.json") = false) as ->; [|done].
      unfold has_suffix. destruct (strip_suffix ".zst" _) as [b|] eqn:Es; [|done].
      apply strip_suffix_Some in Es. by apply suffixes_differ in Es.
  - intros p Hp. rewrite !lookup_insert_ne; [done|..]; intros <-; apply Hp; set_solver.
  - done.
  - unfold scan_lines. by rewrite scan_raw.
  - rewrite Forall_forall in *. intros l Hl. split; auto.
  - destruct Hm3 as [E|(l & ? & E)]; [exists first; auto|exists l; auto].
  - destruct Hx3 as [E|(l & ? & E)]; [exists first; auto|exists l; auto].
  - intros i. unfold scan_lines. rewrite scan_bitmap. cbn [sc_bitmap]. by rewrite Z.bits_0.
Qed.

(** ** No line is lost between the accumulators and the blocks *)

Definition key_of (l : LogLine) : string * string := (l_HostID l, l_Source l).
Definition lines_of (s : Store) (key : string * string) : list LogLine :=
  match buffers s !! key with Some buf => lines buf | None => [] end.

(** a call of Append (with its line) or of Flush, for a host and source, with the id drawn
    for its block and what it returned *)
Record Call := mkCall {
  c_line : option LogLine; c_key : string * string; c_id : string; c_result : result LogError (option BlockMeta) }.

(** the line an Append took: it did not refuse it as invalid *)
Definition accepted_line (c : Call) : option LogLine :=
  match c_result c with Err (ErrInvalid _) => None | _ => c_line c end.

(** the block a call wrote for [key], or tried to *)
Definition tried (key : string * string) (c : Call) : option (option BlockMeta) :=
  if decide (c_key c = key) then
    match c_result c with
    | Ok None | Err (ErrInvalid _) => None
    | Ok (Some meta) => Some (Some meta)
    | Err _ => Some None
    end
  else None.

Definition accepted (calls : list Call) : list LogLine := omap accepted_line calls.

(** Histories of a store: the calls made, in order, and the store reached. Block ids are
    drawn anew, and ids and host names are single path elements. *)
Inductive history (base : list string) : list Call -> Store -> Prop :=
| hist_new maxb maxa : history base [] (mkStore base maxb maxa ∅ ∅)
| hist_append calls s id io now now' line r s' :
    history base calls s -> id ∉ c_id <$> calls -> plain id -> plain (l_HostID line) ->
    Append id io now now' line s = (r, s') ->
    history base (calls ++ [mkCall (Some line) (key_of line) id r])%list s'
| hist_flush calls s id io host source r s' :
    history base calls s -> id ∉ c_id <$> calls -> plain id -> plain host ->
    Flush id io host source s = (r, s') ->
    history base (calls ++ [mkCall None (host, source) id r])%list s'.

Definition of_key (key : string * string) (l : LogLine) : bool := bool_decide (key_of l = key).

(** a block whose payload is on disk with exactly the lines [ls], and which counts them; or
    a block that failed *)
Definition holds_lines (base : list string) (files : FS) (group : list LogLine * option BlockMeta) : Prop :=
  match group.2 with
  | None => True
  | Some meta => DecompressBlock (base ++ Path_ meta)%list files = Some (raw_of group.1) /\
                 NLines meta = Z.of_nat (length group.1)
  end.

Definition payload_of (id : string) (p : list string) : Prop := last p = Some (id ++ ".zst")%string.

Lemma payload_of_other id id' base dir p :
  payload_of id' p -> id' <> id ->
  p <> (base ++ dir ++ [(id ++ ".zst")%string])%list /\ p <> (base ++ dir ++ [(id ++ ".meta.json")%string])%list.
Proof.
  unfold payload_of. intros Hp Hne. split; intros ->; rewrite !last_app in Hp; cbn [last] in Hp; injection Hp as Hp.
  - apply (f_equal (fun n => trim_suffix n ".zst")) in Hp. by rewrite !trim_suffix_app in Hp.
  - by apply suffixes_differ in Hp.
Qed.

(** a block changes no payload but its own *)
Lemma writeBlock_frame id io base hostID source ls files r files' id' p :
  Forall plain base -> plain id -> plain hostID ->
  writeBlock id io base hostID source ls files = (r, files') -> payload_of id' p -> id' <> id -> files' !! p = files !! p.
Proof.
  intros Hb Hid Hh Hw Hp Hne. destruct ls as [|first rest]; [by injection Hw as <- <-|]. unfold writeBlock in Hw.
  set (t := sc_min (scan_lines first (first :: rest))) in *.
  destruct (relDir_plain hostID t Hh) as [Hd _]. destruct (block_names_plain id Hid) as [Hz Hm].
  rewrite join_plain in Hw by (done || by apply Forall_singleton).
  rewrite join_plain in Hw by (by apply Forall_app || by apply Forall_singleton).
  unfold clean in Hw. rewrite clean_from_plain in Hw by (rewrite !Forall_app; split_and!; [done..|by apply Forall_singleton]).
  rewrite <- app_assoc in Hw. destruct (payload_of_other id id' base (relDir hostID t) p Hp Hne) as [H1 H2].
  destruct (io_mkdir io), (io_payload io), (io_meta io); injection Hw as <- <-; rewrite ?lookup_insert_ne by done; done.
Qed.

(** what a Flush did, by what it returned *)
Definition flushed (s : Store) (key : string * string) (id : string) (r : result LogError (option BlockMeta)) (s' : Store) : Prop :=
  match r with
  | Ok None => lines_of s' key = lines_of s key
  | Ok (Some meta) => lines_of s' key = [] /\ payload_of id (Path_ meta) /\
                      holds_lines (baseDir s') (fs s') (lines_of s key, Some meta)
  | Err (ErrInvalid _) => False
  | Err _ => lines_of s' key = []
  end.

Lemma writeBlock_result id io base hostID source first rest files r files' :
  writeBlock id io base hostID source (first :: rest) files = (r, files') ->
  io = ok_io \/ exists err, r = Err err /\ err ∈ [ErrMkdir; ErrWrite; ErrWriteMeta].
Proof.
  unfold writeBlock. destruct io as [[] [] []]; intros [= <- _]; [by left|right..]; eexists; (split; [done|set_solver]).
Qed.

Lemma Flush_step id io host source s r s' :
  Forall plain (baseDir s) -> plain id -> plain host -> Flush id io host source s = (r, s') ->
  baseDir s' = baseDir s /\ (forall key, key <> (host, source) -> lines_of s' key = lines_of s key) /\
  (forall p id', payload_of id' p -> id' <> id -> fs s' !! p = fs s !! p) /\ flushed s (host, source) id r s'.
Proof.
  intros Hb Hid Hh. unfold Flush, flushed. destruct (buffers s !! (host, source)) as [buf|] eqn:Hbuf; [|by intros [= <- <-]].
  destruct (lines buf) as [|l ls] eqn:Hl; [by intros [= <- <-]|].
  destruct (writeBlock _ _ _ _ _ _ _) as [w files] eqn:Hw. intros [= <- <-]. cbn [baseDir fs].
  assert (lines_of s (host, source) = l :: ls) as Els by (unfold lines_of; by rewrite Hbuf, Hl).
  assert (lines_of (mkStore (baseDir s) (maxBytes s) (maxAge s) (delete (host, source) (buffers s)) files) (host, source) = []) as Enil
    by (unfold lines_of; cbn [buffers]; by rewrite lookup_delete_eq).
  split_and!; [done|intros key Hk; unfold lines_of; cbn [buffers]; by rewrite lookup_delete_ne|
    intros p id' Hp Hne; exact (writeBlock_frame _ _ _ _ _ _ _ _ _ _ _ Hb Hid Hh Hw Hp Hne)|].
  destruct (writeBlock_result _ _ _ _ _ _ _ _ _ _ Hw) as [->|(err & -> & Herr)].
  - destruct (block_spec id (baseDir s) host source l ls (fs s) Hb Hid Hh) as (meta & files' & Hw' & Hdec & _ & Hn & _).
    rewrite Hw in Hw'. injection Hw' as -> <-. rewrite Els. split_and!; [done| |by split].
    pose proof (writeBlock_ok id (baseDir s) host source l ls (fs s) Hb Hid Hh) as Hok. cbv zeta in Hok.
    rewrite Hw in Hok. injection Hok as -> _. unfold payload_of. cbn [meta_of Path_]. by rewrite last_snoc.
  - rewrite !elem_of_cons, elem_of_nil in Herr. destruct Herr as [->|[->|[->|[]]]]; exact Enil.
Qed.

Lemma Append_step id io now now' line s r s' :
  Forall plain (baseDir s) -> plain id -> plain (l_HostID line) -> Append id io now now' line s = (r, s') ->
  (exists err, r = Err (ErrInvalid err) /\ s' = s) \/
  exists s1, baseDir s1 = baseDir s /\ fs s1 = fs s /\
    (forall key, lines_of s1 key = (lines_of s key ++ List.filter (of_key key) [line])%list) /\
    (r = Ok None /\ s' = s1 \/ Flush id io (l_HostID line) (l_Source line) s1 = (r, s')).
Proof.
  intros Hb Hid Hh. unfold Append. destruct (LogLine_Validate line) as [[]|err]; [|intros [= <- <-]; left; by exists err].
  set (buf := mkBuffer _ _ _). set (s1 := mkStore _ _ _ _ _). intros Ha. right. exists s1. split_and!; [done..| |].
  - intros k. unfold lines_of at 1. cbn [s1 buffers List.filter]. unfold of_key.
    change (l_HostID line, l_Source line) with (key_of line).
    destruct (decide (key_of line = k)) as [<-|Hne].
    + rewrite lookup_insert_eq, bool_decide_eq_true_2 by done. cbn [buf lines]. f_equal. unfold lines_of, key_of.
      by destruct (buffers s !! (l_HostID line, l_Source line)).
    + rewrite lookup_insert_ne, bool_decide_eq_false_2 by done. by rewrite app_nil_r.
  - destruct (negb _); [injection Ha as <- <-; by left|by right].
Qed.

(** [placed calls s key groups]: the accepted lines of [key] are those of [groups], the
    blocks tried for it, and then those of its accumulator *)
Definition placed (base : list string) (calls : list Call) (s : Store) (key : string * string)
    (groups : list (list LogLine * option BlockMeta)) : Prop :=
  groups.*2 = omap (tried key) calls /\
  List.filter (of_key key) (accepted calls) = (concat groups.*1 ++ lines_of s key)%list /\
  Forall (holds_lines base (fs s)) groups.

(** what is kept: every payload of a written block bears the id of a call *)
Definition from_calls (calls : list Call) (group : list LogLine * option BlockMeta) : Prop :=
  forall meta, group.2 = Some meta -> exists id, id ∈ c_id <$> calls /\ payload_of id (Path_ meta).

Lemma holds_frame base files files' calls id group :
  (forall p id', payload_of id' p -> id' <> id -> files' !! p = files !! p) -> id ∉ c_id <$> calls ->
  from_calls calls group -> holds_lines base files group -> holds_lines base files' group.
Proof.
  intros Hf Hid Hfrom. unfold holds_lines. destruct (group.2) as [meta|] eqn:E; [|done].
  destruct (Hfrom meta E) as (id' & Hin & Hp). unfold DecompressBlock. rewrite (Hf (base ++ Path_ meta)%list id'); [done| |by intros ->].
  unfold payload_of in *. by rewrite last_app, Hp.
Qed.

(** one more call: what it wrote or lost is the lines it took from the accumulator *)
Lemma placed_flush base calls c s s1 s' key groups :
  Forall plain base -> baseDir s = base -> baseDir s1 = base -> fs s1 = fs s -> c_id c ∉ c_id <$> calls -> plain (c_id c) -> plain (c_key c).1 ->
  (forall k, lines_of s1 k = (lines_of s k ++ List.filter (of_key k) (option_list (accepted_line c)))%list) ->
  (c_result c = Ok None /\ s' = s1 \/ exists io, Flush (c_id c) io (c_key c).1 (c_key c).2 s1 = (c_result c, s')) ->
  placed base calls s key groups -> Forall (from_calls calls) groups ->
  baseDir s' = base /\ exists more, placed base (calls ++ [c]) s' key (groups ++ more)%list /\ Forall (from_calls (calls ++ [c])) (groups ++ more)%list.
Proof.
  intros Hb Es Es1 Efs Hid Hpl Hh Hls Hc (Hg & Happ & Hholds) Hfrom.
  assert (forall g, from_calls calls g -> from_calls (calls ++ [c]) g) as Hmore.
  { intros g Hgf meta E. destruct (Hgf meta E) as (id & ? & ?). exists id. rewrite fmap_app, elem_of_app. auto. }
  assert (List.filter (of_key key) (accepted (calls ++ [c])) = (concat groups.*1 ++ lines_of s1 key)%list) as Hacc.
  { unfold accepted in *. rewrite omap_app, List.filter_app, Happ, Hls, <- app_assoc. done. }
  assert (Forall (from_calls (calls ++ [c])) groups) as Hfrom' by (eapply Forall_impl; [exact Hfrom|exact Hmore]).
  destruct Hc as [[Hr ->]|[io Hf]].
  { split; [done|]. exists []. rewrite app_nil_r. split; [|done]. split_and!; [|done|by rewrite Efs].
    rewrite omap_app, Hg. cbn [omap list_omap]. unfold tried at 3. rewrite Hr. destruct (decide _); by rewrite app_nil_r. }
  apply Flush_step in Hf as (Eb & Hother & Hframe & Hfl); [|by rewrite Es1|done|done].
  split; [congruence|].
  assert (Forall (holds_lines base (fs s')) groups) as Hholds'.
  { rewrite Forall_forall in *. intros g Hgin. eapply (holds_frame base (fs s) (fs s') calls (c_id c)); eauto.
    intros p id' Hp Hne. rewrite <- Efs. by eapply Hframe. }
  destruct (decide (c_key c = key)) as [<-|Hne].
  2: { exists []. rewrite app_nil_r. split; [|done]. split_and!; [| |done].
       - rewrite omap_app, Hg. cbn [omap list_omap]. unfold tried at 3. rewrite decide_False by done. by rewrite app_nil_r.
       - rewrite Hacc, Hother; [done|]. by rewrite <- surjective_pairing; apply not_eq_sym. }
  rewrite <- surjective_pairing in Hfl. unfold flushed in Hfl.
  assert (forall m, tried (c_key c) c = Some m -> lines_of s' (c_key c) = [] ->
    (forall meta, m = Some meta -> payload_of (c_id c) (Path_ meta) /\ holds_lines base (fs s') (lines_of s1 (c_key c), Some meta)) ->
    exists more, placed base (calls ++ [c]) s' (c_key c) (groups ++ more)%list /\ Forall (from_calls (calls ++ [c])) (groups ++ more)%list) as Hone.
  { intros m Ht En Hm. exists [(lines_of s1 (c_key c), m)]. unfold placed. rewrite !fmap_app, !Forall_app, !Forall_singleton, concat_app, Hacc, En.
    split_and!; [|by cbn; rewrite !app_nil_r|done| |done|].
    - rewrite omap_app, Hg. cbn [omap list_omap]. by rewrite Ht.
    - destruct m as [meta|]; [by apply Hm|done].
    - intros meta E. exists (c_id c). rewrite fmap_app, elem_of_app. split; [right; by left|by apply Hm]. }
  unfold tried in Hone. rewrite decide_True in Hone by done. rewrite Eb, Es1 in Hfl.
  destruct (c_result c) as [[meta|]|err] eqn:Er.
  - destruct Hfl as (H1 & H2 & H3). apply (Hone (Some meta)); [done..|]. by intros x [= <-].
  - exists []. rewrite app_nil_r. split; [|done]. split_and!; [|by rewrite Hacc, Hfl|done].
    rewrite omap_app, Hg. cbn [omap list_omap]. unfold tried at 3. rewrite decide_True, Er by done. by rewrite app_nil_r.
  - destruct err; [done|..]; apply (Hone None); done.
Qed.

(** a refused line changes nothing *)
Lemma placed_refused base calls c s key groups err :
  c_result c = Err (ErrInvalid err) -> placed base calls s key groups -> placed base (calls ++ [c]) s key groups.
Proof.
  intros Er (Hg & Happ & Hh). unfold placed, accepted in *. rewrite !omap_app. cbn [omap list_omap].
  unfold accepted_line at 2, tried at 2. rewrite Er. destruct (decide _); rewrite !app_nil_r; done.
Qed.

Lemma history_placed base calls s :
  Forall plain base -> history base calls s ->
  baseDir s = base /\ forall key, exists groups, placed base calls s key groups /\ Forall (from_calls calls) groups.
Proof.
  intros Hb. induction 1 as [maxb maxa|calls s id io now now' line r s' _ [Es IH] Hid Hpl Hh Ha|calls s id io host source r s' _ [Es IH] Hid Hpl Hh Hf].
  - split; [done|]. intros key. exists []. split; [|constructor]. split_and!; [done| |constructor].
    unfold lines_of. cbn [buffers]. by rewrite lookup_empty.
  - apply Append_step in Ha as [(err & -> & ->)|(s1 & E1 & E2 & Hl & Hc)]; [| |by rewrite Es|done|done].
    + split; [done|]. intros key. destruct (IH key) as (groups & Hp & Hfrom). exists groups.
      split; [by eapply placed_refused|]. eapply Forall_impl; [exact Hfrom|]. intros g Hg meta E.
      destruct (Hg meta E) as (i & ? & ?). exists i. rewrite fmap_app, elem_of_app. auto.
    + assert (accepted_line (mkCall (Some line) (key_of line) id r) = Some line) as Hacc.
      { unfold accepted_line. cbn [c_result c_line]. destruct r as [|[]]; try done. exfalso. destruct Hc as [[? _]|Hf]; [done|].
        apply Flush_step in Hf as (_ & _ & _ & []); [by rewrite E1, Es|done|done]. }
      assert (forall key, exists groups, placed base calls s key groups /\ Forall (from_calls calls) groups /\
        baseDir s' = base /\ exists more, placed base (calls ++ [mkCall (Some line) (key_of line) id r]) s' key (groups ++ more)%list /\
          Forall (from_calls (calls ++ [mkCall (Some line) (key_of line) id r])) (groups ++ more)%list) as Hk.
      { intros key. destruct (IH key) as (groups & Hp & Hfrom). exists groups. do 2 (split; [done|]).
        apply (placed_flush base calls (mkCall (Some line) (key_of line) id r) s s1); try done; [congruence|intros k; by rewrite Hacc|].
        cbn [c_result c_id c_key key_of fst snd]. destruct Hc as [?|?]; [by left|right; by exists io]. }
      split; [by destruct (Hk (key_of line)) as (? & _ & _ & ? & _)|]. intros key. destruct (Hk key) as (groups & _ & _ & _ & more & ?). by exists (groups ++ more)%list.
  - assert (forall key, exists groups, placed base calls s key groups /\ Forall (from_calls calls) groups /\
        baseDir s' = base /\ exists more, placed base (calls ++ [mkCall None (host, source) id r]) s' key (groups ++ more)%list /\
          Forall (from_calls (calls ++ [mkCall None (host, source) id r])) (groups ++ more)%list) as Hk.
    { intros key. destruct (IH key) as (groups & Hp & Hfrom). exists groups. do 2 (split; [done|]).
      apply (placed_flush base calls (mkCall None (host, source) id r) s s); try done; [|right; by exists io].
      intros k. cbn [accepted_line c_result c_line]. destruct r as [|[]]; by rewrite app_nil_r. }
    split; [by destruct (Hk (host, source)) as (? & _ & _ & ? & _)|]. intros key. destruct (Hk key) as (groups & _ & _ & _ & more & ?). by exists (groups ++ more)%list.
Qed.

(** C32: over any history of calls of Append and Flush, of any hosts and sources and with
    any failing writes (block ids drawn anew, host names and ids single path elements):
    the accepted lines of a host and source, in the order they were accepted, are those of
    the blocks its calls returned, one after the other, then those in its accumulator; the
    payload of every block returned is still on disk and decompresses to exactly the text
    of its lines. Lines are missing from the disk only as a whole block, and only where a
    call reported that writing it failed. *)
Theorem log_lines_conserved base calls s key :
  Forall plain base -> history base calls s ->
  exists groups : list (list LogLine * option BlockMeta),
    groups.*2 = omap (tried key) calls /\
    List.filter (of_key key) (accepted calls) = (concat groups.*1 ++ lines_of s key)%list /\
    Forall (holds_lines base (fs s)) groups.
Proof. intros Hb Hh. destruct (proj2 (history_placed base calls s Hb Hh) key) as (groups & Hp & _). by exists groups. Qed.

(** ** The index is what was written *)

(** a block to write *)
Record Job := mkJob { j_id : string; j_host : string; j_source : string; j_first : LogLine; j_rest : list LogLine }.

Definition write_job (base : list string) (files : FS) (j : Job) : FS :=
  (writeBlock (j_id j) ok_io base (j_host j) (j_source j) (j_first j :: j_rest j) files).2.

Definition job_meta (j : Job) : BlockMeta := meta_of (j_id j) (j_host j) (j_source j) (j_first j) (j_first j :: j_rest j).

Definition sum_list_with_Z {A} (f : A -> Z) (l : list A) : Z := foldr (fun x n => f x + n) 0 l.

Lemma sum_cons {A} (f : A -> Z) x l : sum_list_with_Z f (x :: l) = f x + sum_list_with_Z f l.
Proof. done. Qed.

Lemma sum_list_with_Z_perm {A} (f : A -> Z) l1 l2 : l1 ≡ₚ l2 -> 0 + sum_list_with_Z f l1 = sum_list_with_Z f l2.
Proof. rewrite Z.add_0_l. induction 1; cbn [sum_list_with_Z foldr] in *; unfold sum_list_with_Z in *; lia. Qed.

Section index.
Variable base : list string.
Hypothesis base_plain : Forall plain base.

Definition job_dir (j : Job) : list string := (base ++ relDir (j_host j) (TSMin (job_meta j)))%list.
Definition meta_path (j : Job) : list string := (job_dir j ++ [(j_id j ++ ".meta.json")%string])%list.
Definition zst_path (j : Job) : list string := (job_dir j ++ [(j_id j ++ ".zst")%string])%list.

Definition job_ok (j : Job) : Prop := plain (j_id j) /\ plain (j_host j).

Lemma base_name_meta j : base_name (meta_path j) = (j_id j ++ ".meta.json")%string.
Proof. unfold base_name, meta_path. by rewrite last_snoc. Qed.
Lemma base_name_zst j : base_name (zst_path j) = (j_id j ++ ".zst")%string.
Proof. unfold base_name, zst_path. by rewrite last_snoc. Qed.

Lemma zst_not_meta (id : string) : has_suffix ".meta.json" (id ++ ".zst") = false.
Proof.
  unfold has_suffix. destruct (strip_suffix ".meta.json" _) as [b|] eqn:Es; [|done].
  apply strip_suffix_Some in Es. by destruct (suffixes_differ b id).
Qed.

Lemma trim_inj suf (a b : string) : (a ++ suf = b ++ suf)%string -> a = b.
Proof. intros E%(f_equal (fun s => trim_suffix s suf)). by rewrite !trim_suffix_app in E. Qed.

Lemma write_jobs_lookup jobs p c :
  Forall job_ok jobs -> NoDup (j_id <$> jobs) ->
  fold_left (write_job base) jobs ∅ !! p = Some c <->
  exists j, j ∈ jobs /\ ((p = meta_path j /\ c = marshal_meta (job_meta j)) \/
                         (p = zst_path j /\ c = compress (raw_of (j_first j :: j_rest j)))).
Proof.
  intros Hok Hnd. induction jobs as [|j jobs IH] using rev_ind.
  { cbn [fold_left]. rewrite lookup_empty. split; [done|]. intros (j & Hj%elem_of_nil & _). done. }
  rewrite fold_left_app. cbn [fold_left].
  apply Forall_app in Hok as [Hok Hj]. apply Forall_singleton in Hj as [Hid Hh].
  rewrite fmap_app in Hnd. apply NoDup_app in Hnd as (Hnd & Hdis & _).
  specialize (IH Hok Hnd). set (files := fold_left _ jobs ∅) in *.
  unfold write_job. rewrite (writeBlock_ok _ base _ _ _ _ files base_plain Hid Hh). cbn [snd].
  rewrite !(app_assoc base). change (base ++ relDir (j_host j) _)%list with (job_dir j).
  change (job_dir j ++ [(j_id j ++ ".meta.json")%string])%list with (meta_path j).
  change (job_dir j ++ [(j_id j ++ ".zst")%string])%list with (zst_path j).
  change (meta_of _ _ _ _ _) with (job_meta j).
  assert (forall j', j' ∈ jobs -> meta_path j' <> meta_path j /\ zst_path j' <> zst_path j) as Hne.
  { intros j' Hj'. assert (j_id j' <> j_id j) as Hij.
    { intros E. apply (Hdis (j_id j')); [by apply list_elem_of_fmap_2|]. rewrite E. by apply list_elem_of_singleton. }
    split; intros E%(f_equal base_name); apply Hij.
    - rewrite !base_name_meta in E. by eapply trim_inj.
    - rewrite !base_name_zst in E. by eapply trim_inj. }
  assert (forall j1 j2, meta_path j1 <> zst_path j2) as Hmz.
  { intros j1 j2 E%(f_equal base_name). rewrite base_name_meta, base_name_zst in E. by apply suffixes_differ in E. }
  destruct (decide (p = meta_path j)) as [->|Hpm].
  { rewrite lookup_insert_eq. split.
    - intros [= <-]. exists j. split; [apply elem_of_app; right; by apply list_elem_of_singleton|by left].
    - intros (j' & [Hj'| ->%list_elem_of_singleton]%elem_of_app & [[E ->]|[E ->]]).
      + by destruct (proj1 (Hne _ Hj')).
      + by destruct (Hmz j j').
      + done.
      + by destruct (Hmz j j). }
  rewrite lookup_insert_ne by done. destruct (decide (p = zst_path j)) as [->|Hpz].
  { rewrite lookup_insert_eq. split.
    - intros [= <-]. exists j. split; [apply elem_of_app; right; by apply list_elem_of_singleton|by right].
    - intros (j' & [Hj'| ->%list_elem_of_singleton]%elem_of_app & [[E ->]|[E ->]]).
      + by destruct (Hmz j' j).
      + by destruct (proj2 (Hne _ Hj')).
      + by destruct (Hmz j j).
      + done. }
  rewrite lookup_insert_ne by done. rewrite IH. split.
  - intros (j' & Hj' & Hc). exists j'. split; [apply elem_of_app; by left|done].
  - intros (j' & [Hj'| ->%list_elem_of_singleton]%elem_of_app & Hc); [by exists j'|]. naive_solver.
Qed.

(** a walk that records the last path of each id, when no two paths share an id *)
Lemma fold_walk (sel : list string -> option string) (paths : list (list string)) id p :
  (forall q q' i, q ∈ paths -> q' ∈ paths -> sel q = Some i -> sel q' = Some i -> q = q') ->
  fold_left (fun m q => match sel q with Some i => <[i := q]> m | None => m end) paths (∅ : gmap string (list string)) !! id =
    Some p <-> p ∈ paths /\ sel p = Some id.
Proof.
  induction paths as [|q paths IH] using rev_ind; intros Hu.
  { cbn [fold_left]. rewrite lookup_empty. split; [done|]. by intros [Hp%elem_of_nil _]. }
  rewrite fold_left_app. cbn [fold_left].
  assert (q ∈ (paths ++ [q])%list) as Hq by (apply elem_of_app; right; by apply list_elem_of_singleton).
  assert (forall x, x ∈ paths -> x ∈ (paths ++ [q])%list) as Hin by (intros x Hx; apply elem_of_app; by left).
  specialize (IH ltac:(intros; eauto)). destruct (sel q) as [i|] eqn:Hi.
  - destruct (decide (i = id)) as [->|Hne].
    + rewrite lookup_insert_eq. split; [by intros [= <-]|]. intros [Hp Hs]. f_equal. by eapply Hu.
    + rewrite lookup_insert_ne by done. rewrite IH. split; [intros [??]; auto|].
      intros [[Hp| ->%list_elem_of_singleton]%elem_of_app Hs]; [done|congruence].
  - rewrite IH. split; [intros [??]; auto|].
    intros [[Hp| ->%list_elem_of_singleton]%elem_of_app Hs]; [done|congruence].
Qed.

Definition sel_meta (p : list string) : option string :=
  if has_suffix ".meta.json" (base_name p) then Some (trim_suffix (base_name p) ".meta.json") else None.
Definition sel_payload (p : list string) : option string :=
  if has_suffix ".meta.json" (base_name p) then None
  else if has_suffix ".zst" (base_name p) then Some (trim_suffix (base_name p) ".zst") else None.

Lemma sel_meta_path j : sel_meta (meta_path j) = Some (j_id j) /\ sel_payload (meta_path j) = None.
Proof. unfold sel_meta, sel_payload. by rewrite base_name_meta, has_suffix_app, trim_suffix_app. Qed.

Lemma sel_zst_path j : sel_meta (zst_path j) = None /\ sel_payload (zst_path j) = Some (j_id j).
Proof. unfold sel_meta, sel_payload. by rewrite base_name_zst, zst_not_meta, has_suffix_app, trim_suffix_app. Qed.

Lemma fold_left_ext {A B} (f g : A -> B -> A) l a : (forall a b, f a b = g a b) -> fold_left f l a = fold_left g l a.
Proof. intros Hfg. revert a. induction l as [|b l IH]; intros a; [done|]. cbn [fold_left]. by rewrite Hfg, IH. Qed.

(** the files after a list of blocks is written *)
Definition written (jobs : list Job) : FS := fold_left (write_job base) jobs ∅.

Section scan.
Context (jobs : list Job) (paths : list (list string)).
Hypothesis jobs_ok : Forall job_ok jobs.
Hypothesis jobs_ids : NoDup (j_id <$> jobs).
(** encoding/json reads back the metadata it wrote *)
Hypothesis unmarshal_marshal :
  forall j, j ∈ jobs -> unmarshal_meta (marshal_meta (job_meta j)) = Some (job_meta j).
(** the walk visits the files there are *)
Hypothesis walked : forall p, p ∈ paths <-> is_Some (written jobs !! p).

Lemma paths_jobs p : p ∈ paths <-> exists j, j ∈ jobs /\ (p = meta_path j \/ p = zst_path j).
Proof.
  rewrite walked. split.
  - intros [c (j & Hj & [[-> _]|[-> _]])%write_jobs_lookup]; [eauto..|done|done].
  - intros (j & Hj & Hp). destruct Hp as [-> | ->]; eexists; apply write_jobs_lookup; try done; exists j; eauto.
Qed.

Lemma job_of_id j j' : j ∈ jobs -> j' ∈ jobs -> j_id j = j_id j' -> j = j'.
Proof.
  clear walked unmarshal_marshal. revert jobs_ids. clear jobs_ok. induction jobs as [|x l IH]; intros Hnd Hj Hj' E.
  { by apply elem_of_nil in Hj. }
  rewrite fmap_cons in Hnd. apply NoDup_cons in Hnd as [Hx Hnd].
  apply elem_of_cons in Hj as [->|Hj]; apply elem_of_cons in Hj' as [->|Hj']; [done| | |auto].
  - destruct Hx. rewrite E. by apply list_elem_of_fmap_2.
  - destruct Hx. rewrite <- E. by apply list_elem_of_fmap_2.
Qed.

Lemma sel_unique (sel : list string -> option string) (path : Job -> list string) :
  (forall p i, p ∈ paths -> sel p = Some i -> exists j, j ∈ jobs /\ p = path j /\ i = j_id j) ->
  forall q q' i, q ∈ paths -> q' ∈ paths -> sel q = Some i -> sel q' = Some i -> q = q'.
Proof.
  intros Hs q q' i Hq Hq' H1 H2. destruct (Hs _ _ Hq H1) as (j & Hj & -> & Ei).
  destruct (Hs _ _ Hq' H2) as (j' & Hj' & -> & Ei'). by rewrite (job_of_id j j') by congruence.
Qed.

Lemma sel_meta_job p i : p ∈ paths -> sel_meta p = Some i -> exists j, j ∈ jobs /\ p = meta_path j /\ i = j_id j.
Proof.
  intros (j & Hj & [-> | ->])%paths_jobs.
  - rewrite (proj1 (sel_meta_path j)). intros [= <-]. eauto.
  - by rewrite (proj1 (sel_zst_path j)).
Qed.

Lemma sel_payload_job p i : p ∈ paths -> sel_payload p = Some i -> exists j, j ∈ jobs /\ p = zst_path j /\ i = j_id j.
Proof.
  intros (j & Hj & [-> | ->])%paths_jobs.
  - by rewrite (proj2 (sel_meta_path j)).
  - rewrite (proj2 (sel_zst_path j)). intros [= <-]. eauto.
Qed.

Lemma metaFiles_lookup id p :
  fold_left walk_meta paths ∅ !! id = Some p <-> exists j, j ∈ jobs /\ id = j_id j /\ p = meta_path j.
Proof.
  rewrite (fold_left_ext walk_meta (fun m q => match sel_meta q with Some i => <[i := q]> m | None => m end)).
  2: { intros m q. unfold walk_meta, sel_meta. by destruct (has_suffix _ _). }
  rewrite fold_walk by (eapply sel_unique; apply sel_meta_job). split.
  - intros [Hp Hs]. destruct (sel_meta_job _ _ Hp Hs) as (j & ? & ? & ?). eauto.
  - intros (j & Hj & -> & ->). split; [apply paths_jobs; eauto|apply sel_meta_path].
Qed.

Lemma payloadFiles_lookup id p :
  fold_left walk_payload paths ∅ !! id = Some p <-> exists j, j ∈ jobs /\ id = j_id j /\ p = zst_path j.
Proof.
  rewrite (fold_left_ext walk_payload (fun m q => match sel_payload q with Some i => <[i := q]> m | None => m end)).
  2: { intros m q. unfold walk_payload, sel_payload. destruct (has_suffix _ _); [done|]. by destruct (has_suffix _ _). }
  rewrite fold_walk by (eapply sel_unique; apply sel_payload_job). split.
  - intros [Hp Hs]. destruct (sel_payload_job _ _ Hp Hs) as (j & ? & ? & ?). eauto.
  - intros (j & Hj & -> & ->). split; [apply paths_jobs; eauto|apply sel_zst_path].
Qed.

Lemma metaFiles_list :
  exists js, map_to_list (fold_left walk_meta paths ∅) = (fun j => (j_id j, meta_path j)) <$> js /\ js ≡ₚ jobs.
Proof.
  assert (map_to_list (fold_left walk_meta paths ∅) ≡ₚ (fun j => (j_id j, meta_path j)) <$> jobs) as Hp.
  { apply NoDup_Permutation; [apply NoDup_map_to_list| |].
    - apply (NoDup_fmap_1 fst). by rewrite <- list_fmap_compose.
    - intros [id p]. rewrite elem_of_map_to_list, metaFiles_lookup, list_elem_of_fmap. naive_solver. }
  apply Permutation_map_inv in Hp as (js & Hjs & Hperm). exists js. by rewrite Hperm.
Qed.

Lemma scan_meta_jobs js r :
  (forall j, j ∈ js -> j ∈ jobs) ->
  fold_left (scan_meta (written jobs) (fold_left walk_payload paths ∅)) ((fun j => (j_id j, meta_path j)) <$> js) r =
  mkVerify (Blocks r ++ (job_meta <$> js))%list
    (TotalRawBytes r + sum_list_with_Z (fun j => SizeRaw (job_meta j)) js)
    (TotalCompBytes r + sum_list_with_Z (fun j => SizeCompressed (job_meta j)) js)
    (OrphanPayloads r) (OrphanMeta r) (Corrupt r).
Proof.
  revert r. induction js as [|j js IH]; intros r Hjs.
  { cbn. rewrite app_nil_r, !Z.add_0_r. by destruct r. }
  rewrite fmap_cons. cbn [fold_left]. rewrite IH by (intros; apply Hjs; by right).
  assert (j ∈ jobs) as Hj by (apply Hjs; by left).
  unfold scan_meta. rewrite (proj2 (payloadFiles_lookup (j_id j) (zst_path j))) by eauto.
  assert (written jobs !! meta_path j = Some (marshal_meta (job_meta j))) as ->.
  { apply write_jobs_lookup; [done..|]. exists j. auto. }
  cbn [mbind option_bind]. rewrite unmarshal_marshal by done. cbn [Blocks TotalRawBytes TotalCompBytes OrphanPayloads OrphanMeta Corrupt].
  rewrite fmap_cons, <- app_assoc. rewrite !sum_cons. f_equal; lia.
Qed.

Lemma scan_payload_jobs r :
  fold_left (scan_payload (fold_left walk_meta paths ∅)) (map_to_list (fold_left walk_payload paths ∅)) r = r.
Proof.
  assert (forall idp, idp ∈ map_to_list (fold_left walk_payload paths ∅) ->
            is_Some (fold_left walk_meta paths ∅ !! idp.1)) as Hl.
  { intros [id p] (j & Hj & -> & ->)%elem_of_map_to_list%payloadFiles_lookup. exists (meta_path j).
    apply metaFiles_lookup. eauto. }
  revert Hl. generalize (map_to_list (fold_left walk_payload paths ∅)).
  intros l. induction l as [|idp l IH]; intros Hl; [done|]. cbn [fold_left]. unfold scan_payload at 2.
  destruct (Hl idp) as [p ->]; [by left|]. apply IH. intros x Hx. apply Hl. by right.
Qed.

(** Scanning the directory rebuilds the index without the database: after any set of
    blocks with distinct ids is written, ScanIndex reports exactly the metadata of those
    blocks, each once, the totals are their sums, and nothing is reported as orphaned or
    corrupt. *)
Theorem scan_index_complete :
  exists r, ScanIndex (Walked paths) (written jobs) = Ok r /\
  Blocks r ≡ₚ job_meta <$> jobs /\
  OrphanPayloads r = [] /\ OrphanMeta r = [] /\ Corrupt r = [] /\
  TotalRawBytes r = sum_list_with_Z (fun j => SizeRaw (job_meta j)) jobs /\
  TotalCompBytes r = sum_list_with_Z (fun j => SizeCompressed (job_meta j)) jobs.
Proof.
  eexists. split; [reflexivity|]. unfold scan_files. destruct metaFiles_list as (js & -> & Hperm).
  rewrite scan_payload_jobs, scan_meta_jobs by (intros j; by rewrite Hperm).
  cbn [Blocks TotalRawBytes TotalCompBytes OrphanPayloads OrphanMeta Corrupt app].
  split_and!; [by rewrite Hperm|done..|by apply sum_list_with_Z_perm|by apply sum_list_with_Z_perm].
Qed.

End scan.
End index.

(** ** What a scan reports *)

Lemma scan_meta_problems files payloads l r :
  let r' := fold_left (scan_meta files payloads) l r in
  OrphanPayloads r' = OrphanPayloads r /\
  (OrphanMeta r' = [] /\ Corrupt r' = [] <->
   OrphanMeta r = [] /\ Corrupt r = [] /\
   forall id p, (id, p) ∈ l -> is_Some (payloads !! id) /\ is_Some (files !! p ≫= unmarshal_meta)).
Proof.
  revert r. induction l as [|[id p] l IH]; intros r; cbn [fold_left].
  { split; [done|]. split; [|naive_solver]. intros [? ?]. split_and!; [done..|]. by intros ? ? ?%elem_of_nil. }
  destruct (IH (scan_meta files payloads r (id, p))) as [IH1 IH2]. rewrite IH1, IH2. clear IH IH1 IH2.
  unfold scan_meta. destruct (payloads !! id) as [q|] eqn:Hq; cbn [OrphanPayloads OrphanMeta Corrupt].
  - destruct (files !! p ≫= unmarshal_meta) as [meta|] eqn:Hm; cbn [OrphanPayloads OrphanMeta Corrupt].
    + split; [done|]. split; intros (? & ? & Hall); (split_and!; [done..|]).
      * intros id' p' [[= -> ->]|Hin]%elem_of_cons; [by rewrite Hq, Hm|auto].
      * intros id' p' Hin. apply Hall. by right.
    + split; [done|]. split; [intros (_ & Hc & _); by destruct (Corrupt r)|].
      intros (_ & _ & Hall). destruct (Hall id p) as [_ [? ?]]; [by left|]. congruence.
  - split; [done|]. split; [intros (Ho & _); by destruct (OrphanMeta r)|].
    intros (_ & _ & Hall). destruct (Hall id p) as [[? ?] _]; [by left|]. congruence.
Qed.

Lemma scan_payload_problems metas l r :
  let r' := fold_left (scan_payload metas) l r in
  OrphanMeta r' = OrphanMeta r /\ Corrupt r' = Corrupt r /\
  (OrphanPayloads r' = [] <-> OrphanPayloads r = [] /\ forall id p, (id, p) ∈ l -> is_Some (metas !! id)).
Proof.
  revert r. induction l as [|[id p] l IH]; intros r; cbn [fold_left].
  { split_and!; [done..|]. split; [|naive_solver]. intros ?. split; [done|]. by intros ? ? ?%elem_of_nil. }
  destruct (IH (scan_payload metas r (id, p))) as (IH1 & IH2 & IH3). rewrite IH1, IH2, IH3. clear IH IH1 IH2 IH3.
  unfold scan_payload. cbn [fst snd]. destruct (metas !! id) as [q|] eqn:Hq; cbn [OrphanPayloads OrphanMeta Corrupt].
  - split_and!; [done..|]. split; intros [? Hall]; (split; [done|]).
    + intros id' p' [[= -> ->]|Hin]%elem_of_cons; [by rewrite Hq|eauto].
    + intros id' p' Hin. apply (Hall id' p'). by right.
  - split_and!; [done..|]. split; [intros [Ho _]; by destruct (OrphanPayloads r)|].
    intros [_ Hall]. destruct (Hall id p) as [? ?]; [by left|]. congruence.
Qed.

Lemma scan_meta_blocks files payloads l r :
  Blocks (fold_left (scan_meta files payloads) l r) =
  (Blocks r ++ omap (fun idp => if payloads !! idp.1 is Some _ then files !! idp.2 ≫= unmarshal_meta else None) l)%list.
Proof.
  revert r. induction l as [|[id p] l IH]; intros r; cbn [fold_left omap list_omap fst snd]; [by rewrite app_nil_r|].
  rewrite IH. unfold scan_meta. destruct (payloads !! id); [|done]. destruct (files !! p ≫= unmarshal_meta); [|done].
  cbn [Blocks]. by rewrite <- app_assoc.
Qed.

Lemma scan_payload_orphans metas l r :
  let r' := fold_left (scan_payload metas) l r in
  Blocks r' = Blocks r /\ forall p, p ∈ OrphanPayloads r' <-> p ∈ OrphanPayloads r \/ exists id, (id, p) ∈ l /\ metas !! id = None.
Proof.
  revert r. induction l as [|[id q] l IH]; intros r; cbn [fold_left].
  { split; [done|]. intros p. split; [by left|]. intros [?|(id & []%elem_of_nil & _)]. done. }
  destruct (IH (scan_payload metas r (id, q))) as [IH1 IH2]. rewrite IH1. clear IH IH1.
  unfold scan_payload in *. cbn [fst snd] in *. destruct (metas !! id) as [x|] eqn:Hq; cbn [Blocks OrphanPayloads] in *; (split; [done|]); intros p; rewrite IH2.
  - split; [intros [?|(i & ? & ?)]; [by left|right; exists i; split; [by right|done]]|].
    intros [?|(i & [[= -> ->]|?]%elem_of_cons & ?)]; [by left|congruence|right; by exists i].
  - rewrite elem_of_app, list_elem_of_singleton. split.
    + intros [[?| ->]|(i & ? & ?)]; [by left|right; exists id; split; [by left|done]|right; exists i; split; [by right|done]].
    + intros [?|(i & [[= -> ->]|?]%elem_of_cons & ?)]; [by left; left|by left; right|right; by exists i].
Qed.


End store.

(** ** A concrete store *)

(** a stand-in for zstd: the text itself *)
Definition demo_line (host msg : string) (ts : Time) : LogLine :=
  mkLogLine ts host "journald" "" "sshd.service" "Warning" 0 msg.

Definition demo_base : list string := ["var"; "lib"; "bitacora"; "logs"].
Lemma demo_base_plain : Forall plain demo_base.
Proof. repeat (apply Forall_cons; split; [done|]). by apply Forall_nil. Qed.

Definition demo_first : LogLine := demo_line "h1" "second" (unix_epoch + 5).
Definition demo_rest : list LogLine := [demo_line "h1" "first" (unix_epoch + 2)].

Lemma block_spec_witness :
  exists meta files', writeBlock id (fun _ => "") "01B" ok_io demo_base "h1" "journald" (demo_first :: demo_rest) ∅ = (Ok meta, files') /\
    DecompressBlock Some (demo_base ++ Path_ meta)%list files' = Some (raw_of (demo_first :: demo_rest)).
Proof.
  destruct (block_spec id Some (fun _ => "") (fun _ => None) (fun raw => eq_refl : Some (id raw) = Some raw) "01B" demo_base "h1" "journald" demo_first demo_rest ∅)
    as (meta & files' & Hw & Hd & _); [apply demo_base_plain|done|done|].
  exists meta, files'. by split.
Defined.

Example block_contents :
  raw_of (demo_first :: demo_rest) = ("second" ++ String newline ("first" ++ String newline ""))%string.
Proof. reflexivity. Qed.

Definition demo_store : Store := mkStore demo_base 10 DefaultMaxAge ∅ ∅.
Definition append_demo (line : LogLine) (io : IO) (s : Store) : result LogError (option BlockMeta) * Store :=
  Append id (fun _ => "") "01B" io unix_epoch unix_epoch line s.
Definition demo_store1 : Store := (append_demo (demo_line "h1" "one" unix_epoch) ok_io demo_store).2.
Definition demo_store2 : Store :=
  (Append id (fun _ => "") "01C" ok_io unix_epoch unix_epoch (demo_line "h1" "three" unix_epoch) demo_store1).2.

Lemma log_lines_conserved_witness :
  exists groups, concat groups.*1 = [demo_line "h1" "one" unix_epoch; demo_line "h1" "three" unix_epoch] /\
    length groups = 1%nat /\ Forall (holds_lines Some demo_base (fs demo_store2)) groups.
Proof.
  destruct (log_lines_conserved id Some (fun _ => "") (fun _ => None) (fun raw => eq_refl : Some (id raw) = Some raw) demo_base
    [mkCall (Some (demo_line "h1" "one" unix_epoch)) ("h1", "journald") "01B" (Ok None);
     mkCall (Some (demo_line "h1" "three" unix_epoch)) ("h1", "journald") "01C"
       (Append id (fun _ => "") "01C" ok_io unix_epoch unix_epoch (demo_line "h1" "three" unix_epoch) demo_store1).1]
    demo_store2 ("h1", "journald") demo_base_plain) as (groups & H1 & H2 & H3).
  - apply (hist_append id (fun _ => "") demo_base [mkCall (Some (demo_line "h1" "one" unix_epoch)) ("h1", "journald") "01B" (Ok None)]
             demo_store1 "01C" ok_io unix_epoch unix_epoch (demo_line "h1" "three" unix_epoch));
      [|by apply (bool_decide_eq_true_1 _)|done|done|apply surjective_pairing].
    apply (hist_append id (fun _ => "") demo_base [] demo_store "01B" ok_io unix_epoch unix_epoch (demo_line "h1" "one" unix_epoch));
      [apply hist_new|by apply (bool_decide_eq_true_1 _)|done|done|vm_compute; reflexivity].
  - exists groups. split_and!; [|apply (f_equal length) in H1; by rewrite length_fmap in H1|done].
    assert (lines_of demo_store2 ("h1", "journald") = []) as Hl by (vm_compute; reflexivity).
    rewrite Hl, app_nil_r in H2. rewrite <- H2. vm_compute. reflexivity.
Defined.

(** The accumulator is dropped before its block is written: when the write fails, the
    lines are in no block and no accumulator. *)
Example failed_flush_loses_lines :
  let '(r, s) := append_demo (demo_line "h1" "three" unix_epoch) (mkIO true false true) demo_store1 in
  r = Err ErrWrite /\ lines_of s ("h1", "journald") = [] /\ fs s = ∅.
Proof. vm_compute. done. Qed.

(** The host id of a line is used as a path element: one made of parent segments puts the
    block outside the store's directory. *)
Example block_escapes_base_dir :
  let '(r, s) := append_demo (demo_line "../../../../etc/cron.d" "a long enough line" unix_epoch) ok_io demo_store in
  is_ok r = true /\
  fst <$> map_to_list (fs s) ≡ₚ [["etc"; "cron.d"; "1970"; "01"; "01"; "01B.zst"];
                                 ["etc"; "cron.d"; "1970"; "01"; "01"; "01B.meta.json"]].
Proof. vm_compute. split; [done|]. first [reflexivity|by apply perm_swap]. Qed.

Definition demo_job : Job := mkJob "01B" "h1" "journald" demo_first demo_rest.
Definition demo_meta : BlockMeta := job_meta id demo_job.

Lemma scan_index_complete_witness :
  let files := written id (fun _ => "meta") demo_base [demo_job] in
  exists r, ScanIndex (fun _ => Some demo_meta) (Walked (fst <$> map_to_list files)) files = Ok r /\ Blocks r ≡ₚ [demo_meta].
Proof.
  destruct (scan_index_complete id (fun _ => "meta") (fun _ => Some demo_meta) demo_base demo_base_plain [demo_job]
           (fst <$> map_to_list (written id (fun _ => "meta") demo_base [demo_job]))) as (r & Hr & Hb & _).
  - by apply Forall_singleton.
  - apply NoDup_singleton.
  - by intros j ->%list_elem_of_singleton.
  - intros p. rewrite list_elem_of_fmap. split.
    + intros ([q c] & -> & Hq%elem_of_map_to_list). by exists c.
    + intros [c Hc]. exists (p, c). split; [done|]. by apply elem_of_map_to_list.
  - exists r. split; [exact Hr|exact Hb].
Defined.

End LogStore.
