(* ===== verification/BlockFiles.v ===== *)
(** * BlockFiles: the files of the log store on a disk that crashes

    Models writeAtomic and writeBlock of internal/logstore/logstore.go over the disk of
    AtomicFile, where LogStore takes each of its writes as done or not. Every system call
    can fail or be the last one before a crash. The disk names a file by its whole path; a
    block needs two files, its payload and its metadata, and the machine can stop between
    them. *)

From stdpp Require Import base gmap strings list.
From Stdlib Require Import ZArith Lia Ascii.
From S2P Require Import Prelude GoStd GoConv Schema AtomicFile LogStore.
Import GoString GoConv Schema Path LogStore AtomicFile.

Local Open Scope string_scope.
Local Open Scope Z_scope.

Module BlockFiles.

(** ** Names *)

Fixpoint name (p : list string) : string :=
  match p with [] => "" | e :: p => String slash (e ++ name p) end.

Definition segment (e : string) : Prop := lacks slash e = true.

Lemma name_head p : name p = "" \/ exists s, name p = String slash s.
Proof. destruct p as [|e p]; [by left|right; by eexists]. Qed.

Lemma segment_split e1 e2 r1 r2 :
  segment e1 -> segment e2 -> r1 = "" \/ (exists s, r1 = String slash s) -> r2 = "" \/ (exists s, r2 = String slash s) ->
  e1 ++ r1 = e2 ++ r2 -> e1 = e2 /\ r1 = r2.
Proof.
  unfold segment. revert e2. induction e1 as [|c e1 IH]; intros [|c' e2] H1 H2 Hr1 Hr2 E; [done|..].
  - destruct Hr1 as [->|[s ->]]; [done|]. injection E as <- _. done.
  - destruct Hr2 as [->|[s ->]]; [done|]. injection E as -> _. done.
  - rewrite !str_app_cons in E. injection E as <- E. cbn in H1, H2. apply andb_true_iff in H1 as [_ H1]. apply andb_true_iff in H2 as [_ H2].
    destruct (IH e2 H1 H2 Hr1 Hr2 E) as [-> ->]. done.
Qed.

Lemma name_inj p q : Forall segment p -> Forall segment q -> name p = name q -> p = q.
Proof.
  intros Hp. revert q. induction Hp as [|e p He _ IH]; intros q Hq E; destruct Hq as [|e' q He' Hq]; try done.
  cbn [name] in E. injection E as E. apply segment_split in E as [-> E]; [|done|done|apply name_head|apply name_head].
  f_equal. by apply IH.
Qed.

(** the files of blocks: what the index looks at *)
Definition block_file (p : list string) : Prop :=
  Forall segment p /\ (has_suffix ".meta.json" (base_name p) = true \/ has_suffix ".zst" (base_name p) = true).
Definition watch (n : string) : Prop := exists p, n = name p /\ block_file p.

(** os.CreateTemp: the star of the pattern becomes a random number *)
Definition temp_path (dir : list string) (rnd : Z) : list string := (dir ++ [(".tmp-" ++ show rnd)%string])%list.

Lemma last_of_suffix suf s c :
  last (String.list_ascii_of_string suf) = Some c -> has_suffix suf s = true -> last (String.list_ascii_of_string s) = Some c.
Proof.
  intros Hc. unfold has_suffix. destruct (strip_suffix suf s) as [b|] eqn:E; [|done]. intros _.
  apply strip_suffix_Some in E as ->. by rewrite list_ascii_app, last_app, Hc.
Qed.

Lemma temp_last rnd : 0 <= rnd -> exists c, last (String.list_ascii_of_string (".tmp-" ++ show rnd)) = Some c /\ is_digit c = true.
Proof.
  intros Hr. rewrite list_ascii_app, last_app. destruct (last (String.list_ascii_of_string (show rnd))) as [c|] eqn:E.
  - exists c. split; [done|]. apply (show_digits rnd); [done|]. apply last_Some_elem_of in E. done.
  - apply last_None in E. destruct (show_go_head (S (Z.to_nat (Z.log2 rnd))) rnd "" ltac:(lia) Hr) as (d & s & Hs & _).
    unfold show in E. by rewrite Hs in E.
Qed.

Lemma temp_segments dir rnd : 0 <= rnd -> Forall segment dir -> Forall segment (temp_path dir rnd).
Proof.
  intros Hr Hd. apply Forall_app. split; [done|]. apply Forall_singleton. unfold segment.
  rewrite lacks_app. apply andb_true_iff. split; [done|].
  pose proof (fun x => show_digits rnd x Hr) as H. induction (show rnd) as [|x s IH]; [done|].
  cbn in *. apply andb_true_iff. split; [|apply IH; intros y Hy; apply H; by right].
  specialize (H x ltac:(by left)). apply bool_decide_eq_true_2. by intros <-.
Qed.

Lemma temp_unwatched dir rnd : 0 <= rnd -> Forall segment dir -> ~ watch (name (temp_path dir rnd)).
Proof.
  intros Hr Hd (p & Hp & Hseg & Hsuf). destruct (temp_last rnd Hr) as (c & Hc & Hdig).
  apply name_inj in Hp; [|by apply temp_segments|done]. subst p. unfold base_name, temp_path in Hsuf. rewrite last_snoc in Hsuf.
  cbn [default from_option] in Hsuf. unfold id in Hsuf.
  destruct Hsuf as [H|H]; [apply (last_of_suffix _ _ "n"%char) in H|apply (last_of_suffix _ _ "t"%char) in H]; try done;
    rewrite Hc in H; by injection H as ->.
Qed.

(** ** The writes *)

(** the files of blocks on the disk, all of them durable *)
Definition shows (d : gmap string file) (files : gmap (list string) string) : Prop :=
  forall p, block_file p -> d !! name p = whole <$> files !! p.

(** the rename's error is returned without removing the temporary file *)
Definition writeAtomic (rnd : Z) (path : list string) (data : string) : M unit :=
  let tmp := name (temp_path (removelast path) rnd) in
  write_temp tmp data (Rename tmp (name path)).

Lemma removelast_segments p : Forall segment p -> Forall segment (removelast p).
Proof.
  intros Hp. destruct p as [|e p] using rev_ind; [done|]. rewrite removelast_last. by apply Forall_app in Hp as [? _].
Qed.

Lemma writeAtomic_spec rnd path data d fl files :
  0 <= rnd -> block_file path -> shows d files ->
  let '(o, (d', _)) := writeAtomic rnd path data (d, fl) in
  match o with
  | Ret _ => shows d' (<[path := data]> files)
  | Fail _ => shows d' files
  | Crashed => shows d' files \/ shows d' (<[path := data]> files)
  end.
Proof.
  intros Hr Hb Hd. pose proof (temp_unwatched (removelast path) rnd Hr (removelast_segments _ (proj1 Hb))) as Htmp.
  assert (forall n f, watch n -> d !! n = Some f -> is_whole f) as Hdur.
  { intros n f (p & -> & Hp). rewrite (Hd p Hp). destruct (files !! p); [|done]. by intros [= <-]. }
  unfold writeAtomic. set (tmp := name _) in *.
  pose proof (write_temp_spec watch tmp (name path) data d Htmp Hdur (Rename tmp (name path)) d fl) as Hw.
  destruct (write_temp _ _ _ (d, fl)) as [o [d' fl']].
  specialize (Hw ltac:(by apply rename_installs) ltac:(by intros ?)).
  assert (same watch d d' -> shows d' files) as Hsame by (intros Hs p Hp; rewrite Hs by (by exists p); by apply Hd).
  assert (replaced watch (name path) data d d' -> shows d' (<[path := data]> files)) as Hrep.
  { intros Hs p Hp. rewrite Hs by (by exists p). destruct (decide (p = path)) as [->|Hne]; [by rewrite !lookup_insert_eq|].
    rewrite !lookup_insert_ne; [by apply Hd|done|]. intros E. apply Hne. symmetry. by apply name_inj; [apply Hb|apply Hp|]. }
  destruct o; cbn in Hw; [by apply Hrep|by apply Hsame|]. destruct Hw; auto.
Qed.

Lemma mkdir_shows d fl files : shows d files -> let '(o, (d', _)) := MkdirAll (d, fl) in shows d' files.
Proof.
  intros Hd. destruct fl as [|[|k|did keep] fl]; cbn; [done..|]. intros p Hp. unfold id.
  replace (if did then d else d) with d by by destruct did. rewrite crash_lookup, Hd by done.
  destruct (files !! p); [|done]. cbn. f_equal. by apply lose_whole.
Qed.

Section blocks.
Context (compress : string -> string) (marshal_meta : BlockMeta -> string).

(** [rnd] and [rnd'] are the numbers CreateTemp draws *)
Definition writeBlock (id : string) (rnd rnd' : Z) (base : list string) (hostID source : string) (ls : list LogLine) : M BlockMeta :=
  match ls with
  | [] => fail "lines"                   (** not reached: Flush checks *)
  | first :: _ =>
      let a := scan_lines first ls in
      let dir := relDir hostID (sc_min a) in
      _ ← MkdirAll;
      let compressed := compress (sc_raw a) in
      let relPath := join false dir [(id ++ ".zst")%string] in
      _ ← writeAtomic rnd (clean true (base ++ relPath)%list) compressed;
      let meta := mkMeta id hostID source (sc_min a) (sc_max a) (l_UnitOrContainer first)
                    (Z.of_nat (length ls)) (sc_bitmap a) relPath
                    (Z.of_nat (String.length (sc_raw a))) (Z.of_nat (String.length compressed)) in
      _ ← writeAtomic rnd' (join true (base ++ dir)%list [(id ++ ".meta.json")%string]) (marshal_meta meta);
      mret meta
  end.

(** *** Clean keeps segments and the last one *)

Lemma clean_from_segments rooted st segs : Forall segment st -> Forall segment segs -> Forall segment (clean_from rooted st segs).
Proof.
  intros Hst Hs. revert st Hst. induction Hs as [|s segs H _ IH]; intros st Hst; cbn [clean_from].
  { by apply Forall_rev. }
  case_decide; [by apply IH|]. case_decide; [|apply IH; by apply Forall_cons].
  destruct st as [|t st]; [apply IH; destruct rooted; [done|by apply Forall_singleton]|].
  case_decide; apply IH; [by apply Forall_cons|by inversion Hst].
Qed.

Lemma clean_from_snoc rooted st segs s : plain s -> clean_from rooted st (segs ++ [s])%list = (clean_from rooted st segs ++ [s])%list.
Proof.
  intros (H1 & H2 & H3 & _). revert st. induction segs as [|x segs IH]; intros st.
  { cbn [app clean_from]. rewrite decide_False by naive_solver. rewrite decide_False by done. done. }
  cbn [app clean_from]. case_decide; [done|]. case_decide; [|done]. destruct st as [|t st]; [done|]. case_decide; done.
Qed.

Lemma split_byte_segments s : Forall segment (split_byte slash s).
Proof.
  induction s as [|c s IH]; cbn [split_byte]; [by apply Forall_singleton|].
  case_decide as Hc; [by apply Forall_cons|]. destruct IH as [|e l He Hl].
  - apply Forall_singleton. unfold segment. cbn. by rewrite bool_decide_eq_true_2.
  - apply Forall_cons. split; [|done]. unfold segment in *. cbn. by rewrite bool_decide_eq_true_2.
Qed.

Lemma join_segments rooted base elems : Forall segment base -> Forall segment (join rooted base elems).
Proof.
  intros Hb. unfold join, clean. apply clean_from_segments; [done|]. apply Forall_app. split; [done|].
  induction elems as [|e elems IH]; [done|]. rewrite fmap_cons. cbn [concat]. apply Forall_app. split; [apply split_byte_segments|done].
Qed.

Lemma join_last rooted base e : plain e -> exists l, join rooted base [e] = (l ++ [e])%list.
Proof.
  intros He. unfold join. cbn [fmap list_fmap concat]. rewrite split_byte_lacks by apply He. cbn [app].
  unfold clean. rewrite clean_from_snoc by done. by eexists.
Qed.

Lemma named_block_file l e :
  Forall segment (l ++ [e])%list -> has_suffix ".meta.json" e = true \/ has_suffix ".zst" e = true -> block_file (l ++ [e])%list.
Proof. intros H1 H2. split; [done|]. unfold base_name. by rewrite last_snoc. Qed.

Lemma payload_block_file base dir id :
  Forall segment base -> Forall segment dir -> plain id ->
  block_file (clean true (base ++ join false dir [(id ++ ".zst")%string])%list).
Proof.
  intros Hb Hd Hid. destruct (block_names_plain id Hid) as [Hz _]. pose proof (join_segments false dir [(id ++ ".zst")%string] Hd) as Hj.
  destruct (join_last false dir _ Hz) as [l Hl]. rewrite Hl in *. rewrite app_assoc. unfold clean. rewrite clean_from_snoc by done.
  apply named_block_file; [|right; apply has_suffix_app]. apply Forall_app in Hj as [Hl' He].
  apply Forall_app. split; [|done]. apply clean_from_segments; [done|]. by apply Forall_app.
Qed.

Lemma meta_block_file base dir id :
  Forall segment base -> Forall segment dir -> plain id -> block_file (join true (base ++ dir)%list [(id ++ ".meta.json")%string]).
Proof.
  intros Hb Hd Hid. destruct (block_names_plain id Hid) as [_ Hm].
  pose proof (join_segments true (base ++ dir)%list [(id ++ ".meta.json")%string] ltac:(by apply Forall_app)) as Hj.
  destruct (join_last true (base ++ dir)%list _ Hm) as [l Hl]. rewrite Hl in *. apply named_block_file; [done|left; apply has_suffix_app].
Qed.

(** the outcome of a write in the terms of LogStore *)
Definition settled (o : outcome BlockMeta) (r : result LogError BlockMeta) : Prop :=
  match o with Ret meta => r = Ok meta | Fail _ => is_ok r = false | Crashed => True end.

(** However the calls of writeBlock fail, and wherever the machine stops, what is on the
    disk afterwards is what LogStore's atomic writes leave for some outcome of theirs, the
    outcome that is returned if one is: no file of a block is ever partly written, and no
    other block is touched. *)
Theorem write_block_refines id rnd rnd' base hostID source ls d fl files :
  Forall segment base -> plain id -> 0 <= rnd -> 0 <= rnd' -> shows d files ->
  let '(o, (d', _)) := writeBlock id rnd rnd' base hostID source ls (d, fl) in
  exists io, let '(r, files') := LogStore.writeBlock compress marshal_meta id io base hostID source ls files in
    shows d' files' /\ settled o r.
Proof.
  intros Hb Hid Hr Hr' Hd. destruct ls as [|first rest]; [by exists ok_io|].
  unfold writeBlock, LogStore.writeBlock. set (ls := first :: rest). set (a := scan_lines first ls).
  assert (Forall segment (relDir hostID (sc_min a))) as Hdir by by apply join_segments.
  pose proof (payload_block_file base _ id Hb Hdir Hid) as Hz. pose proof (meta_block_file base _ id Hb Hdir Hid) as Hm.
  set (zst := clean true _) in *. set (mta := join true _ _) in *. set (meta := mkMeta _ _ _ _ _ _ _ _ _ _ _).
  pose proof (mkdir_shows d fl files Hd) as H1. unfold mbind, M_bind. destruct (MkdirAll (d, fl)) as [[[]|op|] [d1 fl1]].
  2,3: by exists (mkIO false true true).
  pose proof (writeAtomic_spec rnd zst (compress (sc_raw a)) d1 fl1 files Hr Hz H1) as H2.
  destruct (writeAtomic rnd zst _ (d1, fl1)) as [[[]|op|] [d2 fl2]].
  2: by exists (mkIO true false true).
  2: { destruct H2 as [H2|H2]; [by exists (mkIO true false true)|by exists (mkIO true true false)]. }
  pose proof (writeAtomic_spec rnd' mta (marshal_meta meta) d2 fl2 _ Hr' Hm H2) as H3.
  destruct (writeAtomic rnd' mta _ (d2, fl2)) as [[[]|op|] [d3 fl3]].
  - by exists ok_io.
  - by exists (mkIO true true false).
  - destruct H3 as [H3|H3]; [by exists (mkIO true true false)|by exists ok_io].
Qed.

(** ** Many blocks, and restarts *)

(** a block to write, the numbers drawn for it and what happens to its calls; after a crash
    the next one is written by the next process *)
Record attempt := mkAttempt { at_job : Job; at_rnd : Z; at_rnd' : Z; at_faults : list fault }.

Definition write_attempt (base : list string) (a : attempt) (d : gmap string file) : outcome BlockMeta * gmap string file :=
  let j := at_job a in
  let '(o, (d', _)) := writeBlock (j_id j) (at_rnd a) (at_rnd' a) base (j_host j) (j_source j) (j_first j :: j_rest j) (d, at_faults a) in (o, d').

Fixpoint run (base : list string) (atts : list attempt) (d : gmap string file) : list (outcome BlockMeta) * gmap string file :=
  match atts with
  | [] => ([], d)
  | a :: atts =>
      let '(o, d) := write_attempt base a d in
      let '(os, d) := run base atts d in (o :: os, d)
  end.

Section index.
Context (base : list string) (base_plain : Forall plain base).

Abbreviation meta_path := (LogStore.meta_path compress base).
Abbreviation zst_path := (LogStore.zst_path compress base).
Abbreviation job_meta := (LogStore.job_meta compress).

(** which files of a block the outcome of its writes leaves *)
Definition has_payload (io : IO) : bool := io_mkdir io && io_payload io.
Definition has_meta (io : IO) : bool := has_payload io && io_meta io.

Definition write_io (files : gmap (list string) string) (x : Job * IO) : gmap (list string) string :=
  let '(j, io) := x in (LogStore.writeBlock compress marshal_meta (j_id j) io base (j_host j) (j_source j) (j_first j :: j_rest j) files).2.

Lemma plain_segments p : Forall plain p -> Forall segment p.
Proof. intros Hp. eapply Forall_impl; [exact Hp|]. by intros e (_ & _ & _ & ?). Qed.

Lemma writeBlock_io j io files :
  job_ok j ->
  LogStore.writeBlock compress marshal_meta (j_id j) io base (j_host j) (j_source j) (j_first j :: j_rest j) files =
  (if negb (io_mkdir io) then Err ErrMkdir else if negb (io_payload io) then Err ErrWrite
   else if negb (io_meta io) then Err ErrWriteMeta else Ok (job_meta j),
   let files := if has_payload io then <[zst_path j := compress (raw_of (j_first j :: j_rest j))]> files else files in
   if has_meta io then <[meta_path j := marshal_meta (job_meta j)]> files else files).
Proof.
  intros [Hid Hh]. set (ls := j_first j :: j_rest j). set (dir := relDir (j_host j) (sc_min (scan_lines (j_first j) ls))).
  destruct (relDir_plain (j_host j) (sc_min (scan_lines (j_first j) ls)) Hh) as [Hd _]. fold dir in Hd.
  destruct (block_names_plain (j_id j) Hid) as [Hz Hm].
  assert (join false dir [(j_id j ++ ".zst")%string] = (dir ++ [(j_id j ++ ".zst")%string])%list) as Hrel
    by (apply join_plain; [done|by apply Forall_singleton]).
  assert (clean true (base ++ dir ++ [(j_id j ++ ".zst")%string])%list = zst_path j) as Hzp.
  { unfold clean. rewrite clean_from_plain; [unfold LogStore.zst_path, job_dir; by rewrite <- app_assoc|]. rewrite !Forall_app. split_and!; [done..|by apply Forall_singleton]. }
  assert (join true (base ++ dir)%list [(j_id j ++ ".meta.json")%string] = meta_path j) as Hmp
    by (apply join_plain; [by apply Forall_app|by apply Forall_singleton]).
  assert (raw_of ls = sc_raw (scan_lines (j_first j) ls)) as Hraw by (unfold scan_lines; by rewrite scan_raw).
  unfold LogStore.writeBlock. unfold ls at 1. cbv beta iota zeta. fold dir. rewrite Hrel, Hzp, Hmp, Hraw.
  unfold has_meta, has_payload. by destruct io as [[] [] []].
Qed.

Lemma meta_path_id j j' : meta_path j = meta_path j' -> j_id j = j_id j'.
Proof. intros E%(f_equal base_name). rewrite !base_name_meta in E. by eapply trim_inj. Qed.
Lemma zst_path_id j j' : zst_path j = zst_path j' -> j_id j = j_id j'.
Proof. intros E%(f_equal base_name). rewrite !base_name_zst in E. by eapply trim_inj. Qed.
Lemma meta_ne_zst j j' : meta_path j <> zst_path j'.
Proof. intros E%(f_equal base_name). rewrite base_name_meta, base_name_zst in E. by apply suffixes_differ in E. Qed.

(** the file a block has left under a path *)
Definition left_by (x : Job * IO) (p : list string) (c : string) : Prop :=
  has_meta x.2 = true /\ p = meta_path x.1 /\ c = marshal_meta (job_meta x.1) \/
  has_payload x.2 = true /\ p = zst_path x.1 /\ c = compress (raw_of (j_first x.1 :: j_rest x.1)).

Lemma left_by_id x y p c c' : left_by x p c -> left_by y p c' -> j_id x.1 = j_id y.1.
Proof.
  intros [(_ & -> & _)|(_ & -> & _)] [(_ & E & _)|(_ & E & _)];
    [by apply meta_path_id|by apply meta_ne_zst in E|symmetry in E; by apply meta_ne_zst in E|by apply zst_path_id].
Qed.

Lemma left_by_fun x p c c' : left_by x p c -> left_by x p c' -> c = c'.
Proof.
  intros [(_ & -> & ->)|(_ & -> & ->)] [(_ & E & ->)|(_ & E & ->)]; try done; [by apply meta_ne_zst in E|symmetry in E; by apply meta_ne_zst in E].
Qed.

Lemma write_io_lookup files x p c :
  job_ok x.1 -> (forall c, files !! p = Some c -> forall c', ~ left_by x p c') ->
  write_io files x !! p = Some c <-> files !! p = Some c \/ left_by x p c.
Proof.
  destruct x as [j io]. cbn [fst]. intros Hj Hnew. unfold write_io. rewrite writeBlock_io by done. cbn [snd].
  unfold left_by in *. cbn [fst snd] in *. destruct (has_meta io) eqn:Hm.
  - assert (has_payload io = true) as Hp by (unfold has_meta in Hm; by apply andb_true_iff in Hm as [? _]).
    rewrite Hp, !lookup_insert_Some. pose proof (meta_ne_zst j j). split.
    + naive_solver.
    + intros [Hf|Hl]; [|naive_solver]. right. split; [intros <-; eapply (Hnew c Hf); by left|]. right. split; [intros <-; eapply (Hnew c Hf); by right|done].
  - destruct (has_payload io) eqn:Hp; [|naive_solver]. rewrite lookup_insert_Some. split; [naive_solver|].
    intros [Hf|Hl]; [|naive_solver]. right. split; [intros <-; eapply (Hnew c Hf); by right|done].
Qed.

Definition files_of (hist : list (Job * IO)) : gmap (list string) string := fold_left write_io hist ∅.

Lemma files_lookup hist p c :
  Forall job_ok (fst <$> hist) -> NoDup (j_id <$> (fst <$> hist)) ->
  files_of hist !! p = Some c <-> exists x, x ∈ hist /\ left_by x p c.
Proof.
  unfold files_of. revert c. induction hist as [|x hist IH] using rev_ind; intros c Hok Hnd.
  { cbn [fold_left]. rewrite lookup_empty. split; [done|]. by intros (x & []%elem_of_nil & _). }
  rewrite fold_left_app. cbn [fold_left]. rewrite !fmap_app in Hnd. rewrite fmap_app in Hok.
  apply Forall_app in Hok as [Hok Hx]. apply Forall_cons in Hx as [Hx _]. apply NoDup_app in Hnd as (Hnd & Hdis & _).
  specialize (fun c => IH c Hok Hnd). rewrite write_io_lookup, IH; [|done|].
  - split; [|intros (y & [?| ->%list_elem_of_singleton]%elem_of_app & ?); eauto].
    intros [(y & ? & ?)|?]; [exists y; split; [apply elem_of_app; by left|done]|].
    exists x. split; [apply elem_of_app; right; by apply list_elem_of_singleton|done].
  - intros c' (y & Hy & Hl)%IH c'' Hl'. apply (Hdis (j_id y.1)).
    + apply list_elem_of_fmap_2, list_elem_of_fmap_2, Hy.
    + rewrite (left_by_id _ _ _ _ _ Hl Hl'). by left.
Qed.

(** the attempts as LogStore's writes, with the outcome of each *)
Lemma run_refines atts d files :
  Forall job_ok (at_job <$> atts) -> Forall (fun a => 0 <= at_rnd a /\ 0 <= at_rnd' a) atts -> shows d files ->
  let '(os, d') := run base atts d in
  exists ios, shows d' (fold_left write_io (zip (at_job <$> atts) ios) files) /\ length ios = length atts /\ length os = length atts /\
    forall k a o, atts !! k = Some a -> os !! k = Some o -> exists io, ios !! k = Some io /\
      match o with Ret meta => meta = job_meta (at_job a) /\ has_meta io = true | Fail _ => has_meta io = false | Crashed => True end.
Proof.
  intros Hok Hr. revert d files. induction atts as [|a atts IH]; intros d files Hd; cbn [run].
  { exists []. by split_and!. }
  rewrite fmap_cons in Hok. apply Forall_cons in Hok as [Ha Hok]. apply Forall_cons in Hr as [[Hr1 Hr2] Hr]. specialize (IH Hok Hr).
  pose proof (write_block_refines (j_id (at_job a)) (at_rnd a) (at_rnd' a) base (j_host (at_job a)) (j_source (at_job a))
                (j_first (at_job a) :: j_rest (at_job a)) d (at_faults a) files (plain_segments _ base_plain) (proj1 Ha) Hr1 Hr2 Hd) as Hw.
  unfold write_attempt. destruct (writeBlock _ _ _ _ _ _ _ _) as [o [d1 fl1]]. destruct Hw as [io Hw].
  pose proof (writeBlock_io (at_job a) io files Ha) as Hio.
  destruct (LogStore.writeBlock _ _ _ _ _ _ _ _ _) as [r files1] eqn:Ew. destruct Hw as [Hs Hset].
  specialize (IH d1 files1 Hs). destruct (run base atts d1) as [os d2]. destruct IH as (ios & Hs2 & Hl1 & Hl2 & Hk).
  exists (io :: ios). rewrite fmap_cons. cbn [zip zip_with fold_left length]. unfold write_io at 2. rewrite Ew. cbn [snd].
  split_and!; [done|lia|lia|]. intros [|k] a' o' Ha' Ho'; [|by apply (Hk k)].
  injection Ha' as <-. injection Ho' as <-. exists io. split; [done|]. apply (f_equal fst) in Hio. cbn [fst] in Hio.
  unfold has_meta, has_payload. revert Hset Hio. destruct io as [[] [] []]; cbn [io_mkdir io_payload io_meta negb andb]; intros Hset ->;
    destruct o; cbn [settled is_ok] in Hset; try done; by injection Hset as <-.
Qed.

(** what reading the paths of a walk gives *)
Definition read_files (d : gmap string file) (paths : list (list string)) : gmap (list string) string :=
  list_to_map (omap (fun p => (fun f => (p, bytes f)) <$> d !! name p) paths).

Lemma read_files_lookup d paths p c : read_files d paths !! p = Some c <-> p ∈ paths /\ bytes <$> d !! name p = Some c.
Proof.
  unfold read_files. induction paths as [|q paths IH]; cbn [omap list_omap].
  { split; [done|]. by intros [[]%elem_of_nil _]. }
  rewrite elem_of_cons. destruct (d !! name q) as [f|] eqn:Hq; cbn [fmap option_fmap option_map].
  - cbn [list_to_map foldr]. rewrite lookup_insert_Some. fold (list_to_map (M := gmap (list string) string)). rewrite IH. cbn [fst snd]. split.
    + intros [[<- <-]|[? [? ?]]]; [rewrite Hq; auto|auto].
    + intros [[->|?] Hc]; [rewrite Hq in Hc; injection Hc as <-; by left|]. destruct (decide (q = p)) as [->|]; [|auto].
      rewrite Hq in Hc. injection Hc as <-. by left.
  - rewrite IH. split; [intros [? ?]; auto|]. intros [[->|?] Hc]; [by rewrite Hq in Hc|done].
Qed.

Lemma fmap_elem_inj {A B} (f : A -> B) l x y : NoDup (f <$> l) -> x ∈ l -> y ∈ l -> f x = f y -> x = y.
Proof.
  intros Hnd [i Hi]%list_elem_of_lookup [k Hk]%list_elem_of_lookup E.
  assert (i = k) as ->; [|congruence]. eapply (NoDup_lookup _ i k (f x)); [done|..]; rewrite list_lookup_fmap; [by rewrite Hi|by rewrite Hk, E].
Qed.

Lemma job_block_files j : job_ok j -> block_file (meta_path j) /\ block_file (zst_path j).
Proof.
  intros [Hid Hh]. destruct (relDir_plain (j_host j) (TSMin (job_meta j)) Hh) as [Hd _]. destruct (block_names_plain _ Hid) as [Hz Hm].
  split; (apply named_block_file; [|rewrite has_suffix_app; auto]); apply plain_segments; unfold job_dir;
    rewrite !Forall_app; (split_and!; [done..|by apply Forall_singleton]).
Qed.

Lemma zip_attempts_elem atts (ios : list IO) x :
  x ∈ zip (at_job <$> atts) ios -> exists k a, atts !! k = Some a /\ ios !! k = Some x.2 /\ x.1 = at_job a.
Proof.
  intros [k Hk]%list_elem_of_lookup. apply lookup_zip_with_Some in Hk as (j & io & -> & Hj & Hio).
  rewrite list_lookup_fmap in Hj. destruct (atts !! k) as [a|] eqn:Ha; [|done]. injection Hj as <-. by exists k, a.
Qed.

Lemma zip_attempts_in atts (ios : list IO) k a io : atts !! k = Some a -> ios !! k = Some io -> (at_job a, io) ∈ zip (at_job <$> atts) ios.
Proof.
  intros Ha Hio. apply (list_elem_of_lookup_2 _ k), lookup_zip_with_Some. exists (at_job a), io. by rewrite list_lookup_fmap, Ha.
Qed.

Section scan.
Context (unmarshal_meta : string -> option BlockMeta) (hist : list (Job * IO)) (d : gmap string file) (paths : list (list string)).
Hypothesis hist_ok : Forall job_ok (fst <$> hist).
Hypothesis hist_ids : NoDup (j_id <$> (fst <$> hist)).
Hypothesis disk : shows d (files_of hist).
(** the walk visits the files there are *)
Hypothesis walked_names : Forall (Forall segment) paths.
Hypothesis walked : forall p, block_file p -> p ∈ paths <-> is_Some (d !! name p).
Hypothesis unmarshal_marshal : forall x, x ∈ hist -> unmarshal_meta (marshal_meta (job_meta x.1)) = Some (job_meta x.1).

Lemma hist_id x y : x ∈ hist -> y ∈ hist -> j_id x.1 = j_id y.1 -> x = y.
Proof.
  intros Hx Hy E. apply (fmap_elem_inj (fun x => j_id x.1) hist); [|done..].
  change (NoDup (j_id ∘ fst <$> hist)). by rewrite list_fmap_compose.
Qed.

Lemma hist_job x : x ∈ hist -> job_ok x.1.
Proof. intros Hx. rewrite Forall_forall in hist_ok. apply hist_ok, list_elem_of_fmap_2, Hx. Qed.

Lemma walked_left p : block_file p -> p ∈ paths <-> exists x c, x ∈ hist /\ left_by x p c.
Proof.
  intros Hp. rewrite (walked p Hp), (disk p Hp). rewrite fmap_is_Some. split.
  - intros [c (x & Hx & Hl)%files_lookup]; [eauto|done..].
  - intros (x & c & Hx & Hl). exists c. apply files_lookup; [done..|eauto].
Qed.

Lemma read_left p c : block_file p -> (exists x, x ∈ hist /\ left_by x p c) -> read_files d paths !! p = Some c.
Proof.
  intros Hp (x & Hx & Hl). apply read_files_lookup. split; [apply walked_left; eauto|].
  rewrite (disk p Hp), (proj2 (files_lookup hist p c hist_ok hist_ids)) by eauto. done.
Qed.

Lemma sel_meta_left p i : p ∈ paths -> sel_meta p = Some i -> exists x, x ∈ hist /\ has_meta x.2 = true /\ p = meta_path x.1 /\ i = j_id x.1.
Proof.
  intros Hp Hs. assert (block_file p) as Hb.
  { split; [rewrite Forall_forall in walked_names; by apply walked_names|]. left. unfold sel_meta in Hs. by destruct (has_suffix ".meta.json" _). }
  apply (walked_left p Hb) in Hp as (x & c & Hx & [(Hm & -> & _)|(_ & -> & _)]).
  - rewrite (proj1 (sel_meta_path _ _ _)) in Hs. injection Hs as <-. eauto.
  - by rewrite (proj1 (sel_zst_path _ _ _)) in Hs.
Qed.

Lemma sel_payload_left p i : p ∈ paths -> sel_payload p = Some i -> exists x, x ∈ hist /\ has_payload x.2 = true /\ p = zst_path x.1 /\ i = j_id x.1.
Proof.
  intros Hp Hs. assert (block_file p) as Hb.
  { split; [rewrite Forall_forall in walked_names; by apply walked_names|]. right. unfold sel_payload in Hs.
    destruct (has_suffix ".meta.json" _); [done|]. by destruct (has_suffix ".zst" _). }
  apply (walked_left p Hb) in Hp as (x & c & Hx & [(_ & -> & _)|(Hm & -> & _)]).
  - by rewrite (proj2 (sel_meta_path _ _ _)) in Hs.
  - rewrite (proj2 (sel_zst_path _ _ _)) in Hs. injection Hs as <-. eauto.
Qed.

Lemma metas_lookup id p :
  fold_left walk_meta paths ∅ !! id = Some p <-> exists x, x ∈ hist /\ has_meta x.2 = true /\ id = j_id x.1 /\ p = meta_path x.1.
Proof.
  rewrite (fold_left_ext walk_meta (fun m q => match sel_meta q with Some i => <[i := q]> m | None => m end)).
  2: { intros m q. unfold walk_meta, sel_meta. by destruct (has_suffix _ _). }
  rewrite fold_walk.
  - split.
    + intros [Hp Hs]. destruct (sel_meta_left _ _ Hp Hs) as (x & ? & ? & ? & ?). eauto.
    + intros (x & Hx & Hm & -> & ->). split; [|apply sel_meta_path]. apply walked_left; [by apply job_block_files, hist_job|].
      exists x, (marshal_meta (job_meta x.1)). split; [done|by left].
  - intros q q' i Hq Hq' H1 H2. destruct (sel_meta_left _ _ Hq H1) as (x & Hx & _ & -> & E).
    destruct (sel_meta_left _ _ Hq' H2) as (y & Hy & _ & -> & E'). by rewrite (hist_id x y) by congruence.
Qed.

Lemma payloads_lookup id p :
  fold_left walk_payload paths ∅ !! id = Some p <-> exists x, x ∈ hist /\ has_payload x.2 = true /\ id = j_id x.1 /\ p = zst_path x.1.
Proof.
  rewrite (fold_left_ext walk_payload (fun m q => match sel_payload q with Some i => <[i := q]> m | None => m end)).
  2: { intros m q. unfold walk_payload, sel_payload. destruct (has_suffix _ _); [done|]. by destruct (has_suffix _ _). }
  rewrite fold_walk.
  - split.
    + intros [Hp Hs]. destruct (sel_payload_left _ _ Hp Hs) as (x & ? & ? & ? & ?). eauto.
    + intros (x & Hx & Hm & -> & ->). split; [|apply sel_zst_path]. apply walked_left; [by apply job_block_files, hist_job|].
      exists x, (compress (raw_of (j_first x.1 :: j_rest x.1))). split; [done|by right].
  - intros q q' i Hq Hq' H1 H2. destruct (sel_payload_left _ _ Hq H1) as (x & Hx & _ & -> & E).
    destruct (sel_payload_left _ _ Hq' H2) as (y & Hy & _ & -> & E'). by rewrite (hist_id x y) by congruence.
Qed.

Lemma has_meta_payload io : has_meta io = true -> has_payload io = true.
Proof. unfold has_meta. by intros [? _]%andb_true_iff. Qed.

Lemma meta_read x : x ∈ hist -> has_meta x.2 = true -> read_files d paths !! meta_path x.1 ≫= unmarshal_meta = Some (job_meta x.1).
Proof.
  intros Hx Hm. rewrite (read_left _ (marshal_meta (job_meta x.1))); [by apply unmarshal_marshal|by apply job_block_files, hist_job|].
  exists x. split; [done|by left].
Qed.

Lemma scan_hist :
  let r := scan_files unmarshal_meta paths (read_files d paths) in
  OrphanMeta r = [] /\ Corrupt r = [] /\
  (forall m, m ∈ Blocks r <-> exists x, x ∈ hist /\ has_meta x.2 = true /\ m = job_meta x.1) /\
  (forall p, p ∈ OrphanPayloads r <-> exists x, x ∈ hist /\ has_payload x.2 = true /\ has_meta x.2 = false /\ p = zst_path x.1).
Proof.
  unfold scan_files. set (metas := fold_left walk_meta paths ∅). set (payloads := fold_left walk_payload paths ∅).
  set (files := read_files d paths). set (r1 := fold_left (scan_meta unmarshal_meta files payloads) _ no_blocks).
  destruct (scan_meta_problems unmarshal_meta files payloads (map_to_list metas) no_blocks) as [Hp Hm]. fold r1 in Hp, Hm.
  destruct (scan_payload_problems metas (map_to_list payloads) r1) as (Ho & Hc & _).
  destruct (scan_payload_orphans metas (map_to_list payloads) r1) as (Hb & Hop). rewrite Ho, Hc, Hb.
  assert (forall id p, metas !! id = Some p -> is_Some (payloads !! id) /\ exists x, x ∈ hist /\ has_meta x.2 = true /\ p = meta_path x.1 /\ id = j_id x.1) as Hmeta.
  { intros id p (x & Hx & Hhm & -> & ->)%metas_lookup. split; [|by exists x].
    exists (zst_path x.1). apply payloads_lookup. exists x. split_and!; [done|by apply has_meta_payload|done..]. }
  assert (OrphanMeta r1 = [] /\ Corrupt r1 = []) as [HO HC].
  { apply Hm. split_and!; [done..|]. intros id p [Hs (x & Hx & Hhm & -> & _)]%elem_of_map_to_list%Hmeta. split; [done|].
    unfold files. by rewrite meta_read. }
  split_and!; [done|done| |].
  - intros m. unfold r1. rewrite scan_meta_blocks. cbn [Blocks no_blocks app]. rewrite list_elem_of_omap. split.
    + intros ([id p] & Hin & E). apply elem_of_map_to_list, Hmeta in Hin as [[q Hq] (x & Hx & Hhm & -> & ->)]. cbn [fst snd] in E.
      rewrite Hq in E. unfold files in E. rewrite meta_read in E by done. injection E as <-. by exists x.
    + intros (x & Hx & Hhm & ->). exists (j_id x.1, meta_path x.1).
      assert (metas !! j_id x.1 = Some (meta_path x.1)) as Hl by (apply metas_lookup; by exists x).
      split; [by apply elem_of_map_to_list|]. cbn [fst snd]. destruct (Hmeta _ _ Hl) as [[q ->] _]. by apply meta_read.
  - intros p. rewrite Hop, Hp. cbn [no_blocks OrphanPayloads]. split.
    + intros [[]%elem_of_nil|(id & (x & Hx & Hhp & -> & ->)%elem_of_map_to_list%payloads_lookup & Hnone)].
      exists x. split_and!; [done..| |done]. destruct (has_meta x.2) eqn:Hhm; [|done].
      assert (metas !! j_id x.1 = Some (meta_path x.1)) as Hl by (apply metas_lookup; by exists x). congruence.
    + intros (x & Hx & Hhp & Hhm & ->). right. exists (j_id x.1). split; [apply elem_of_map_to_list, payloads_lookup; by exists x|].
      destruct (metas !! j_id x.1) as [q|] eqn:Hq; [|done]. apply metas_lookup in Hq as (y & Hy & Hym & E & _).
      rewrite (hist_id x y) in Hhm by done. congruence.
Qed.

End scan.

(** C9: whatever system call fails while blocks are written, and however often the
    machine crashes and the hub starts again, the index rebuilt from the directory holds
    every block whose write returned, and only blocks as they were meant, whose payload
    decompresses to all their lines; a write that reported an error left no metadata; no
    metadata file is orphaned or unreadable; and every payload without metadata that the
    scan reports is that of a write that did not return a block. Temporary files may
    stay behind, which no scan looks at ([temporary_file_stays]). A completed rename is
    taken to survive a crash: the code does not sync the directory. *)
Theorem block_index_survives unmarshal_meta decompress atts d0 paths :
  (forall raw, decompress (compress raw) = Some raw) ->
  (forall a, a ∈ atts -> unmarshal_meta (marshal_meta (job_meta (at_job a))) = Some (job_meta (at_job a))) ->
  Forall job_ok (at_job <$> atts) -> NoDup (j_id <$> (at_job <$> atts)) -> Forall (fun a => 0 <= at_rnd a /\ 0 <= at_rnd' a) atts ->
  (forall p, block_file p -> d0 !! name p = None) ->
  let '(os, d) := run base atts d0 in
  Forall (Forall segment) paths -> (forall p, block_file p -> p ∈ paths <-> is_Some (d !! name p)) ->
  exists r, ScanIndex unmarshal_meta (Walked paths) (read_files d paths) = Ok r /\ OrphanMeta r = [] /\ Corrupt r = [] /\
    (forall k a o, atts !! k = Some a -> os !! k = Some o ->
       match o with
       | Ret meta => meta = job_meta (at_job a) /\ meta ∈ Blocks r
       | Fail _ => job_meta (at_job a) ∉ Blocks r
       | Crashed => True
       end) /\
    (forall meta, meta ∈ Blocks r -> exists a, a ∈ atts /\ meta = job_meta (at_job a) /\
       DecompressBlock decompress (zst_path (at_job a)) (read_files d paths) = Some (raw_of (j_first (at_job a) :: j_rest (at_job a)))) /\
    (forall p, p ∈ OrphanPayloads r -> exists k a o, atts !! k = Some a /\ os !! k = Some o /\ p = zst_path (at_job a) /\ forall m, o <> Ret m).
Proof.
  intros Hdc Hum Hok Hnd Hr H0. assert (shows d0 ∅) as Hd0 by (intros p Hp; rewrite lookup_empty; by apply H0).
  pose proof (run_refines atts d0 ∅ Hok Hr Hd0) as Hrun. destruct (run base atts d0) as [os d].
  destruct Hrun as (ios & Hd & Hl1 & Hl2 & Hk). intros Hseg Hwalk. set (hist := zip (at_job <$> atts) ios) in *.
  assert (fst <$> hist = at_job <$> atts) as Hfst by (apply fst_zip; rewrite length_fmap; lia).
  assert (forall k a io, atts !! k = Some a -> ios !! k = Some io -> (at_job a, io) ∈ hist) as Hin by (intros; by eapply zip_attempts_in).
  assert (forall x, x ∈ hist -> x.1 ∈ at_job <$> atts) as Hjob by (intros x Hx; rewrite <- Hfst; by apply list_elem_of_fmap_2).
  assert (forall x, x ∈ hist -> unmarshal_meta (marshal_meta (job_meta x.1)) = Some (job_meta x.1)) as Hum'.
  { intros x (a & E & Ha)%Hjob%list_elem_of_fmap. rewrite E. by apply Hum. }
  rewrite <- Hfst in Hok, Hnd.
  destruct (scan_hist unmarshal_meta hist d paths Hok Hnd Hd Hseg Hwalk Hum') as (HO & HC & HB & HP).
  eexists. split; [reflexivity|]. split_and!; [done|done|..].
  - intros k a o Ha Ho. destruct (Hk k a o Ha Ho) as (io & Hio & Hres). specialize (Hin k a io Ha Hio).
    destruct o as [meta|op|]; [|intros (x & Hx & Hxm & E)%HB|done].
    + destruct Hres as [-> Hm]. split; [done|]. apply HB. by exists (at_job a, io).
    + apply (f_equal BlockID) in E. rewrite (hist_id hist Hnd x (at_job a, io)) in Hxm by done. cbn in Hxm. congruence.
  - intros meta (x & Hx & Hxm & ->)%HB. destruct (proj1 (list_elem_of_fmap _ _ _) (Hjob x Hx)) as (a & E & Ha). exists a. rewrite <- E. split_and!; [done..|].
    unfold DecompressBlock. rewrite (read_left hist d paths Hok Hnd Hd Hwalk (zst_path x.1) (compress (raw_of (j_first x.1 :: j_rest x.1)))); [apply Hdc| |].
    + apply job_block_files. by apply (hist_job hist).
    + exists x. split; [done|]. right. split_and!; [by apply has_meta_payload|done..].
  - intros p (x & Hx & _ & Hxm & ->)%HP. destruct (zip_attempts_elem atts ios x Hx) as (k & a & Ha & Hio & E).
    destruct (lookup_lt_is_Some_2 os k) as [o Ho]; [rewrite Hl2; by eapply lookup_lt_Some|].
    exists k, a, o. rewrite <- E. split_and!; [done..|]. intros m ->. destruct (Hk k a _ Ha Ho) as (io & Hio' & _ & Hm). congruence.
Qed.

End index.

End blocks.

(** ** Three blocks: written, interrupted between its files, refused *)

Definition demo_job (id : string) : Job := mkJob id "h1" "journald" LogStore.demo_first LogStore.demo_rest.
Definition demo_attempts : list attempt :=
  [mkAttempt (demo_job "01A") 7 8 []; mkAttempt (demo_job "01B") 9 10 (repeat IoOk 6 ++ [IoCrash false (fun _ => O)])%list;
   mkAttempt (demo_job "01C") 11 12 [IoOk; IoFail 0]].
Definition demo_unmarshal (s : string) : option BlockMeta :=
  if bool_decide (s ∈ ["01A"; "01B"; "01C"]) then Some (LogStore.job_meta id (demo_job s)) else None.
Definition demo_run : list (outcome BlockMeta) * gmap string file := run id BlockID demo_base demo_attempts ∅.
Definition demo_paths : list (list string) :=
  [LogStore.meta_path id demo_base (demo_job "01A"); LogStore.zst_path id demo_base (demo_job "01A"); LogStore.zst_path id demo_base (demo_job "01B")].

Lemma demo_paths_segments : Forall (Forall segment) demo_paths.
Proof. unfold segment. apply (bool_decide_eq_true_1 _). vm_compute. reflexivity. Qed.

Lemma demo_walked p : block_file p -> p ∈ demo_paths <-> is_Some (demo_run.2 !! name p).
Proof.
  intros Hp. assert (forall n, is_Some (demo_run.2 !! n) <-> n ∈ name <$> demo_paths) as Hn.
  { intros n. rewrite <- elem_of_dom, <- (elem_of_list_to_set (C := gset string)).
    assert (dom demo_run.2 = list_to_set (C := gset string) (name <$> demo_paths)) as ->; [|done].
    apply (bool_decide_eq_true_1 _). vm_compute. reflexivity. }
  rewrite Hn, list_elem_of_fmap. split; [by exists p|]. intros (q & E & Hq). assert (q = p) as ->; [|done].
  symmetry. apply name_inj; [apply Hp| |done]. pose proof demo_paths_segments as Hs. rewrite Forall_forall in Hs. by apply Hs.
Qed.

Lemma block_index_survives_witness :
  exists r, ScanIndex demo_unmarshal (Walked demo_paths) (read_files demo_run.2 demo_paths) = Ok r /\
    OrphanMeta r = [] /\ Corrupt r = [] /\ LogStore.job_meta id (demo_job "01A") ∈ Blocks r /\
    LogStore.job_meta id (demo_job "01C") ∉ Blocks r /\ demo_run.1 !! 1%nat = Some Crashed.
Proof.
  pose proof (block_index_survives id BlockID demo_base demo_base_plain demo_unmarshal Some demo_attempts ∅ demo_paths (fun raw => eq_refl)) as H.
  fold demo_run in H. rewrite (surjective_pairing demo_run) in H.
  destruct H as (r & Hr & HO & HC & Hout & _).
  - intros a Ha. repeat (apply elem_of_cons in Ha as [->|Ha]; [reflexivity|]). by apply elem_of_nil in Ha.
  - repeat (apply Forall_cons; split; [done|]). by apply Forall_nil.
  - apply (bool_decide_eq_true_1 _). vm_compute. reflexivity.
  - repeat (apply Forall_cons; split; [done|]). by apply Forall_nil.
  - done.
  - exact demo_paths_segments.
  - exact demo_walked.
  - exists r. split_and!; [exact Hr|exact HO|exact HC| | |reflexivity].
    + apply (Hout 0%nat (mkAttempt (demo_job "01A") 7 8 []) (Ret (LogStore.job_meta id (demo_job "01A")))); vm_compute; reflexivity.
    + apply (Hout 2%nat (mkAttempt (demo_job "01C") 11 12 [IoOk; IoFail 0]) (Fail "create")); vm_compute; reflexivity.
Defined.

Lemma write_block_refines_witness :
  let ls := LogStore.demo_first :: LogStore.demo_rest in
  let d' := (writeBlock id BlockID "01A" 7 8 demo_base "../h1" "journald" ls (∅, [IoOk; IoOk; IoFail 3])).2.1 in
  exists io, shows d' (LogStore.writeBlock id BlockID "01A" io demo_base "../h1" "journald" ls ∅).2.
Proof.
  intros ls d'. pose proof (write_block_refines id BlockID "01A" 7 8 demo_base "../h1" "journald" ls ∅ [IoOk; IoOk; IoFail 3] ∅
    (plain_segments demo_base demo_base_plain) ltac:(done) ltac:(done) ltac:(done) ltac:(by intros p Hp)) as H.
  unfold d'. destruct (writeBlock id BlockID "01A" 7 8 demo_base "../h1" "journald" ls (∅, [IoOk; IoOk; IoFail 3])) as [o [d1 fl1]].
  destruct H as [io H]. exists io.
  destruct (LogStore.writeBlock id BlockID "01A" io demo_base "../h1" "journald" ls ∅) as [r files']. apply H.
Defined.

(** A rename that fails leaves the temporary file behind, and nothing removes it later. *)
Example temporary_file_stays :
  let '(o, (d, _)) := writeAtomic 7 ["logs"; "01A.zst"] "payload" (∅, [IoOk; IoOk; IoOk; IoOk; IoFail 0]) in
  o = Fail "rename" /\ d !! "/logs/.tmp-7" = Some (whole "payload") /\ d !! "/logs/01A.zst" = None.
Proof. vm_compute. done. Qed.

End BlockFiles.
