(* ===== verification/Capabilities.v ===== *)
(** * Capabilities: what a host can do, and which collectors it can run

    Models internal/capabilities (capabilities.go, detect.go, client.go) and its use by the
    collector registry. The file system is what the probes see of it: whether a path
    exists, the names in a directory, the contents of a file. *)

From stdpp Require Import base gmap strings list.
From Stdlib Require Import ZArith Lia Ascii.
From S2P Require Import Prelude GoStd GoConv GoIO Collector Inventories LogStore AgentBuffer AgentBufferDemo Wire Token Transport AgentHub.
Import GoString GoConv GoIO GoTime.

Local Open Scope string_scope.
Local Open Scope Z_scope.

Module Capabilities.

(** ** capabilities.go *)

Abbreviation Capability := string (only parsing).

Definition InitSystemd : Capability := "init.systemd".
Definition LogsJournald : Capability := "logs.journald".
Definition LogsSyslogfile : Capability := "logs.syslogfile".
Definition PkgApt : Capability := "pkg.apt".
Definition PkgDnf : Capability := "pkg.dnf".
Definition StorageSmart : Capability := "storage.smart".
Definition StorageMdraid : Capability := "storage.mdraid".
Definition StorageSnapraid : Capability := "storage.snapraid".
Definition StorageMergerfs : Capability := "storage.mergerfs".
Definition StorageUnraidArray : Capability := "storage.unraid_array".
Definition HwHwmon : Capability := "hw.hwmon".
Definition HwEdac : Capability := "hw.edac".
Definition HwRasdaemon : Capability := "hw.rasdaemon".
Definition HwPstore : Capability := "hw.pstore".
Definition ContainerDocker : Capability := "container.docker".
Definition ContainerCgroupv2 : Capability := "container.cgroupv2".
Definition NetTailscale : Capability := "net.tailscale".
Definition SecSelinux : Capability := "sec.selinux".
Definition SecApparmor : Capability := "sec.apparmor".
Definition PublicExposed : Capability := "public.exposed".
Definition ShareSMB : Capability := "share.smb".
Definition ShareNFS : Capability := "share.nfs".
Definition VMLibvirt : Capability := "vm.libvirt".
Definition NetWireguard : Capability := "net.wireguard".
Definition PowerUPS : Capability := "power.ups".

Definition All : list Capability :=
  [InitSystemd; LogsJournald; LogsSyslogfile; PkgApt; PkgDnf; StorageSmart; StorageMdraid; StorageSnapraid; StorageMergerfs;
   StorageUnraidArray; HwHwmon; HwEdac; HwRasdaemon; HwPstore; ContainerDocker; ContainerCgroupv2; NetTailscale; SecSelinux;
   SecApparmor; PublicExposed; ShareSMB; ShareNFS; VMLibvirt; NetWireguard; PowerUPS].

Record Status := mkStatus { Available : bool; Detail : string; Reason : string }.
Record Degraded := mkDegraded { d_Capability : string; d_Impact : string; d_Remedy : string }.
Record OSInfo := mkOSInfo { os_Family : string; os_Distro : string; os_Version : string; os_Kernel : string; os_Arch : string }.
Record Manifest := mkManifest {
  m_HostID : string; m_Hostname : string; m_ReportedAt : Time; m_AgentVersion : string; m_OS : OSInfo;
  m_Capabilities : gmap Capability Status; m_Degraded : list Degraded;
}.

(** Manifest.Available *)
Definition manifest_Available (m : Manifest) : gmap Capability bool := Available <$> m_Capabilities m.

(** ** detect.go *)

Record Config := mkConfig {
  Root : string; SystemdDirs : list string; JournaldDirs : list string; SyslogFiles : list string; DpkgStatus : string; RPMDBDir : string;
  SmartctlPaths : list string; MdstatPath : string; SnapraidConf : string; ProcMounts : string; UnraidMdcmd : string; HwmonDir : string;
  EdacDir : string; RasdaemonPaths : list string; PstoreDir : string; DockerSocket : string; CgroupV2Marker : string;
  TailscaleSocket : string; SelinuxDir : string; SelinuxEnforce : string; ApparmorDir : string; OSReleasePath : string; KernelPath : string;
  SambaConf : string; ExportsFile : string; LibvirtSocket : string; WireguardDir : string; WireguardModule : string; NUTConf : string;
  ApcupsdConf : string; PubliclyExposed : bool;
}.

Definition DefaultConfig : Config := {|
  Root := "/"; SystemdDirs := ["/run/systemd/system"]; JournaldDirs := ["/run/systemd/journal"; "/var/log/journal"];
  SyslogFiles := ["/var/log/syslog"; "/var/log/messages"]; DpkgStatus := "/var/lib/dpkg/status"; RPMDBDir := "/var/lib/rpm";
  SmartctlPaths := ["/usr/sbin/smartctl"; "/sbin/smartctl"; "/usr/bin/smartctl"]; MdstatPath := "/proc/mdstat";
  SnapraidConf := "/etc/snapraid.conf"; ProcMounts := "/proc/mounts"; UnraidMdcmd := "/proc/mdcmd"; HwmonDir := "/sys/class/hwmon";
  EdacDir := "/sys/devices/system/edac"; RasdaemonPaths := ["/usr/sbin/rasdaemon"; "/sbin/rasdaemon"]; PstoreDir := "/sys/fs/pstore";
  DockerSocket := "/var/run/docker.sock"; CgroupV2Marker := "/sys/fs/cgroup/cgroup.controllers";
  TailscaleSocket := "/var/run/tailscale/tailscaled.sock"; SelinuxDir := "/sys/fs/selinux"; SelinuxEnforce := "/sys/fs/selinux/enforce";
  ApparmorDir := "/sys/kernel/security/apparmor"; OSReleasePath := "/etc/os-release"; KernelPath := "/proc/sys/kernel/osrelease";
  SambaConf := "/etc/samba/smb.conf"; ExportsFile := "/etc/exports"; LibvirtSocket := "/var/run/libvirt/libvirt-sock-ro";
  WireguardDir := "/etc/wireguard"; WireguardModule := "/sys/module/wireguard"; NUTConf := "/etc/nut/ups.conf";
  ApcupsdConf := "/etc/apcupsd/apcupsd.conf"; PubliclyExposed := false |}.

Definition degradedImpact : gmap Capability Degraded :=
  {[ HwPstore := mkDegraded "" "no se podrá diagnosticar un cuelgue duro" "docs/setup/ramoops.md";
     StorageSmart := mkDegraded "" "no se podrán leer métricas SMART de los discos" "";
     HwHwmon := mkDegraded "" "no se podrán leer temperaturas ni sensores del hardware" "" ]}.

(** filepath.Join *)
Definition Clean (path : string) : string :=
  let rooted := has_prefix "/" path in
  let segs := Path.clean rooted (split_byte Path.slash path) in
  if rooted then "/" ++ String.concat "/" segs else match segs with [] => "." | _ => String.concat "/" segs end.
Definition Join (elems : list string) : string :=
  match List.filter (fun e => negb (bool_decide (e = ""))) elems with
  | [] => ""
  | es => Clean (String.concat "/" es)
  end.

Definition join_sep (sep : string) (l : list string) : string := String.concat sep l.

(** the host: os.Stat succeeds, os.ReadDir, os.ReadFile *)
Record Host := mkHost { stat_ok : string -> bool; dir_names : string -> option (list string); file_text : string -> option string }.

Section detect.
Context (h : Host) (cfg : Config).

Definition path (p : string) : string :=
  if bool_decide (p = "") then "" else
  if bool_decide (Root cfg = "") || bool_decide (Root cfg = "/") then p else Join [Root cfg; p].

Definition exists_ (p : string) : bool := if bool_decide (p = "") then false else stat_ok h (path p).
Definition anyExists (paths : list string) : option string := List.find exists_ paths.
(** os.ReadDir has nothing to open for an empty path *)
Definition readDir (p : string) : option (list string) := if bool_decide (p = "") then None else dir_names h p.
Definition dirNonEmpty (p : string) : bool := match readDir (path p) with Some (_ :: _) => true | _ => false end.
Definition readFile (p : string) : option string := if bool_decide (p = "") then None else file_text h p.

Definition unquote (s : string) : string := Ups.trim_quotes s.

Definition os_release_line (acc : string * string) (line : string) : string * string :=
  let '(distro, version) := acc in
  if has_prefix "ID=" line then (unquote (trim_prefix line "ID="), version) else
  if has_prefix "VERSION_ID=" line then (distro, unquote (trim_prefix line "VERSION_ID=")) else acc.
Definition parseOSRelease (data : string) : string * string := fold_left os_release_line (scan_lines data) ("", "").

(** [GOOS] and [GOARCH] are runtime.GOOS and runtime.GOARCH *)
Definition detectOS (GOOS GOARCH : string) : OSInfo :=
  let kernel := match readFile (path (KernelPath cfg)) with Some data => TrimSpace data | None => "" end in
  let '(distro, version) := match readFile (path (OSReleasePath cfg)) with Some data => parseOSRelease data | None => ("", "") end in
  mkOSInfo GOOS distro version kernel GOARCH.

Definition md_line (line : string) : option string := if has_prefix "md" line then head (Fields line) else None.
Definition mdstatDevices : option (list string) :=
  match readFile (path (MdstatPath cfg)) with
  | None => None
  | Some data => match omap md_line (scan_lines data) with [] => None | devices => Some devices end
  end.

Definition hasMountFSType (fsType : string) : bool :=
  match readFile (path (ProcMounts cfg)) with
  | None => false
  | Some data => existsb (fun line => match Fields line with _ :: _ :: t :: _ => bool_decide (t = fsType) | _ => false end) (scan_lines data)
  end.

Definition hwmonNames : string :=
  match readDir (path (HwmonDir cfg)) with
  | None => ""
  | Some names => join_sep ", " (omap (fun n => TrimSpace <$> readFile (Join [path (HwmonDir cfg); n; "name"])) names)
  end.

Definition selinuxMode : string :=
  match readFile (path (SelinuxEnforce cfg)) with
  | None => ""
  | Some data => if bool_decide (TrimSpace data = "1") then "enforcing" else if bool_decide (TrimSpace data = "0") then "permissive" else ""
  end.

Definition yes (detail : string) : Status := mkStatus true detail "".
Definition no (reason : string) : Status := mkStatus false "" reason.
Definition when (b : bool) (detail reason : string) : Status := if b then yes detail else no reason.

(** a probe that reports the path it found *)
Definition found_at (o : option string) (reason : string) : Status := match o with Some p => yes p | None => no reason end.

(** the cases of the switch, each with its guard and its statuses *)
Definition probes : list (Capability * Status) :=
  [(InitSystemd, when (bool_decide (is_Some (anyExists (SystemdDirs cfg)))) "/run/systemd/system present" "no systemd runtime directory");
   (LogsJournald, when (bool_decide (is_Some (anyExists (JournaldDirs cfg)))) "persistent" "no journal directory found");
   (LogsSyslogfile, found_at (anyExists (SyslogFiles cfg)) "no syslog file found");
   (PkgApt, when (exists_ (DpkgStatus cfg)) "" "dpkg status file not found");
   (PkgDnf, when (exists_ (RPMDBDir cfg)) (RPMDBDir cfg) "rpm database not found");
   (StorageSmart, found_at (anyExists (SmartctlPaths cfg)) "smartctl not installed");
   (StorageMdraid, match mdstatDevices with Some devices => yes (join_sep ", " devices) | None => no "no active md arrays" end);
   (StorageSnapraid, when (exists_ (SnapraidConf cfg)) "" "snapraid.conf not found");
   (StorageMergerfs, when (hasMountFSType "fuse.mergerfs") "" "no mergerfs mount found");
   (StorageUnraidArray, when (exists_ (UnraidMdcmd cfg)) "" "not running on Unraid");
   (HwHwmon, when (dirNonEmpty (HwmonDir cfg)) hwmonNames "no hwmon devices (likely virtualized)");
   (HwEdac, when (exists_ (EdacDir cfg)) "" "no EDAC support");
   (HwRasdaemon, when (bool_decide (is_Some (anyExists (RasdaemonPaths cfg)))) "" "not installed");
   (HwPstore, when (dirNonEmpty (PstoreDir cfg)) "" "ramoops not configured");
   (ContainerDocker, when (exists_ (DockerSocket cfg)) "" "docker socket not found");
   (ContainerCgroupv2, when (exists_ (CgroupV2Marker cfg)) "" "cgroup v2 unified hierarchy not mounted");
   (NetTailscale, when (exists_ (TailscaleSocket cfg)) "" "tailscaled not running");
   (SecSelinux, when (exists_ (SelinuxDir cfg)) selinuxMode "no SELinux filesystem mounted");
   (SecApparmor, when (exists_ (ApparmorDir cfg)) "" "no AppArmor securityfs interface");
   (PublicExposed, when (PubliclyExposed cfg) "operator-declared" "not operator-declared");
   (ShareSMB, when (exists_ (SambaConf cfg)) "" "no smb.conf found");
   (ShareNFS, when (exists_ (ExportsFile cfg)) "" "no /etc/exports found");
   (VMLibvirt, when (exists_ (LibvirtSocket cfg)) "" "libvirt read-only socket not found");
   (NetWireguard, when (exists_ (WireguardModule cfg) || dirNonEmpty (WireguardDir cfg)) "" "no WireGuard module or configuration found");
   (PowerUPS, found_at (anyExists [NUTConf cfg; ApcupsdConf cfg]) "no UPS monitoring daemon configured")].

Definition detectOne (cap : Capability) : Status :=
  match List.find (fun p : Capability * Status => bool_decide (p.1 = cap)) probes with
  | Some (_, status) => status
  | None => no "unknown capability"
  end.

Definition detected : gmap Capability Status := fold_left (fun m cap => <[cap := detectOne cap]> m) All ∅.

Definition degraded_entry (p : Capability * Status) : option Degraded :=
  if Available p.2 then None else
  (fun d => mkDegraded p.1 (d_Impact d) (d_Remedy d)) <$> degradedImpact !! p.1.

Definition Detect (GOOS GOARCH hostID hostname agentVersion : string) (now : Time) : Manifest :=
  mkManifest hostID hostname now agentVersion (detectOS GOOS GOARCH) detected (omap degraded_entry (map_to_list detected)).

(** *** What a manifest holds *)

Lemma detected_lookup cap : detected !! cap = if bool_decide (cap ∈ All) then Some (detectOne cap) else None.
Proof.
  unfold detected. assert (forall l m, (fold_left (fun m cap => <[cap := detectOne cap]> m) l m : gmap Capability Status) !! cap =
    if bool_decide (cap ∈ l) then Some (detectOne cap) else m !! cap) as H.
  { induction l as [|c l IH]; intros m; cbn [fold_left]; [by rewrite bool_decide_false by apply not_elem_of_nil|].
    rewrite IH. destruct (decide (cap ∈ l)) as [Hl|Hl]; [by rewrite !bool_decide_true by (done || by right)|].
    rewrite (bool_decide_false (cap ∈ l)) by done. destruct (decide (cap = c)) as [->|Hc].
    - rewrite lookup_insert_eq, bool_decide_true by by left. done.
    - rewrite lookup_insert_ne by done. rewrite bool_decide_false; [done|]. by intros [?|?]%elem_of_cons. }
  by rewrite H, lookup_empty.
Qed.

(** a status says why when it says no, and nothing else *)
Definition status_ok (st : Status) : Prop :=
  if Available st then Reason st = "" else Detail st = "" /\ Reason st <> "" /\ Reason st <> "unknown capability".

Lemma when_ok b detail reason : reason <> "" -> reason <> "unknown capability" -> status_ok (when b detail reason).
Proof. destruct b; done. Qed.
Lemma found_at_ok o reason : reason <> "" -> reason <> "unknown capability" -> status_ok (found_at o reason).
Proof. destruct o; done. Qed.

Lemma probes_ok : probes.*1 = All /\ Forall (fun p => status_ok p.2) probes.
Proof.
  split; [done|]. unfold probes.
  repeat (apply Forall_cons; split; [cbn [snd]; try (by apply when_ok); try (by apply found_at_ok)|]); [|constructor].
  by destruct mdstatDevices.
Qed.

Lemma detectOne_ok cap : cap ∈ All -> status_ok (detectOne cap).
Proof.
  intros Hc. destruct probes_ok as [Hk Hs]. rewrite <- Hk in Hc. unfold detectOne.
  destruct (List.find _ probes) as [[c st]|] eqn:E.
  - apply List.find_some in E as [Hin _]. apply list_elem_of_In in Hin. by apply (proj1 (Forall_forall _ _) Hs (c, st)).
  - apply list_elem_of_fmap in Hc as ([c st] & -> & Hin). apply list_elem_of_In in Hin.
    pose proof (List.find_none _ _ E _ Hin) as H. cbn in H. by rewrite bool_decide_true in H.
Qed.

(** A manifest reports every capability the agent knows and no other; each is available, or
    unavailable with a reason of its own probe; and the list of degraded capabilities is
    exactly that of the unavailable ones with a known impact. *)
Theorem manifest_complete GOOS GOARCH hostID hostname agentVersion now :
  let m := Detect GOOS GOARCH hostID hostname agentVersion now in
  (forall cap, is_Some (m_Capabilities m !! cap) <-> cap ∈ All) /\
  (forall cap st, m_Capabilities m !! cap = Some st -> status_ok st) /\
  (forall d, d ∈ m_Degraded m <->
     exists cap st i, m_Capabilities m !! cap = Some st /\ Available st = false /\ degradedImpact !! cap = Some i /\
       d = mkDegraded cap (d_Impact i) (d_Remedy i)).
Proof.
  cbn [Detect m_Capabilities m_Degraded]. split_and!.
  - intros cap. rewrite detected_lookup. case_bool_decide; [by split|]. split; [by intros [? ?]|done].
  - intros cap st. rewrite detected_lookup. case_bool_decide; [|done]. intros [= <-]. by apply detectOne_ok.
  - intros d. rewrite list_elem_of_omap. split.
    + intros ([cap st] & Hin & Hd). apply elem_of_map_to_list in Hin. unfold degraded_entry in Hd. cbn [fst snd] in Hd.
      destruct (Available st) eqn:Ha; [done|]. destruct (degradedImpact !! cap) as [i|] eqn:Ei; [|done]. injection Hd as <-. by exists cap, st, i.
    + intros (cap & st & i & Hin & Ha & Hi & ->). exists (cap, st). rewrite elem_of_map_to_list. split; [done|].
      unfold degraded_entry. cbn [fst snd]. by rewrite Ha, Hi.
Qed.

(** *** Which collectors run *)
Import Registry.

(** the host has [cap]: the agent knows it and its probe succeeds *)
Definition has (cap : Capability) : Prop := cap ∈ All /\ Available (detectOne cap) = true.

Lemma supported_on_host m item :
  m_Capabilities m = detected -> supported (manifest_Available m) item = true <-> Forall has (Requires (collector item)).
Proof.
  intros Hm. unfold supported. rewrite forallb_forall, Forall_forall. apply forall_proper. intros cap. rewrite <- list_elem_of_In.
  unfold manifest_Available. rewrite lookup_fmap, Hm, detected_lookup. unfold has. case_bool_decide; cbn; naive_solver.
Qed.

(** Given the manifest its host's detection built, the registry runs exactly the collectors
    whose required capabilities the probes all found and whose Init succeeds, with the
    interval and the timeout they were registered with. *)
Theorem collectors_on_host GOOS GOARCH hostID hostname agentVersion now items reg :
  let m := Detect GOOS GOARCH hostID hostname agentVersion now in
  reg ∈ (Resolve items (manifest_Available m)).1.1 <->
  exists item, item ∈ items /\ Forall has (Requires (collector item)) /\ Init (collector item) = None /\
    reg = mkRegistration (collector item) (interval item) (timeout item).
Proof.
  intros m. pose proof (resolve_filter items (manifest_Available m)) as H.
  destruct (Resolve items (manifest_Available m)) as [[regs disabled] inits]. destruct H as (-> & _ & _). cbn [fst].
  rewrite list_elem_of_fmap. apply exist_proper. intros item. rewrite list_elem_of_In, List.filter_In, <- list_elem_of_In.
  rewrite andb_true_iff, (supported_on_host m item) by done. unfold starts. destruct (Init (collector item)); naive_solver.
Qed.

End detect.

(** *** What the probes miss *)

Definition only_files (files : list (string * string)) : Host :=
  mkHost (fun p => bool_decide (p ∈ files.*1)) (fun _ => None)
    (fun p => snd <$> List.find (fun f : string * string => bool_decide (f.1 = p)) files).

(** An array the kernel lists as inactive passes for an active one. *)
Example inactive_array_available :
  detectOne (only_files [("/proc/mdstat", "md0 : inactive sdb[0](S)")]) DefaultConfig StorageMdraid = mkStatus true "md0" "".
Proof. vm_compute. done. Qed.

(** The runtime directory of journald, which every host with systemd has, is reported as a
    persistent journal. *)
Example volatile_journal_called_persistent :
  detectOne (only_files [("/run/systemd/journal", "")]) DefaultConfig LogsJournald = mkStatus true "persistent" "".
Proof. vm_compute. done. Qed.

Example detect_demo :
  detectOne (only_files [("/proc/mounts", "a:b /mnt/pool fuse.mergerfs rw 0 0")]) DefaultConfig StorageMergerfs = mkStatus true "" "" /\
  detectOne (only_files [("/srv/etc/exports", "")]) (mkConfig "/srv/" [] [] [] "" "" [] "" "" "" "" "" "" [] "" "" "" "" "" "" "" "" "" "" "/etc/exports" "" "" "" "" "" false) ShareNFS = mkStatus true "" "" /\
  detectOne (only_files []) DefaultConfig HwPstore = mkStatus false "" "ramoops not configured" /\
  parseOSRelease (String.concat (String newline "") ["NAME=Debian"; "VERSION_ID=" ++ String Ups.quote ("12" ++ String Ups.quote ""); "ID=debian"]) = ("debian", "12").
Proof. vm_compute. done. Qed.

End Capabilities.

(** ** internal/capabilities/client.go *)
Module ManifestClient.
Import Capabilities AgentHub.Client.

Definition ManifestPath : string := "/v1/manifest".

Record HttpRequest := mkHttp { Method : string; URL : string; ContentType : string; Authorization : option string; Body : string }.

(** a response carries a status; [None]: the request failed *)
Abbreviation Net W := (W -> HttpRequest -> option Z * W).

Inductive SendError : Set := ErrEncoding | ErrBuilding | ErrSending | ErrRejected (code : Z).

Section client.
Context (json_Marshal : Manifest -> option string) (valid_url : string -> bool).

Definition prepare (c : Client) (m : Manifest) : result SendError HttpRequest :=
  match json_Marshal m with
  | None => Err ErrEncoding
  | Some body =>
      let url := BaseURL c ++ ManifestPath in
      if negb (valid_url url) then Err ErrBuilding
      else Ok (mkHttp "POST" url "application/json" (if bool_decide (c_Token c = "") then None else Some ("Bearer " ++ c_Token c)) body)
  end.

Definition Send {W} (net : Net W) (c : Client) (m : Manifest) (w : W) : result SendError unit * W :=
  match prepare c m with
  | Err e => (Err e, w)
  | Ok rq =>
      match net w rq with
      | (None, w) => (Err ErrSending, w)
      | (Some code, w) => (if (code <? 200) || (300 <=? code) then Err (ErrRejected code) else Ok tt, w)
      end
  end.

(** Send reports success exactly when the hub answered with a status of success. *)
Theorem manifest_sent {W} (net : Net W) c m w w' :
  Send net c m w = (Ok tt, w') <-> exists rq code, prepare c m = Ok rq /\ net w rq = (Some code, w') /\ 200 <= code < 300.
Proof.
  unfold Send. destruct (prepare c m) as [rq|e]; [|split; [done|by intros (? & ? & ? & _)]]. destruct (net w rq) as [[code|] w1] eqn:E.
  - destruct (Z.ltb_spec code 200), (Z.leb_spec 300 code); cbn [orb]; split; try done; try (intros (? & ? & [= <-] & Hn & ?); rewrite E in Hn; injection Hn as <- <-; done || lia).
    intros [= <-]. by exists rq, code.
  - split; [done|]. intros (? & ? & [= <-] & Hn & _). by rewrite E in Hn.
Qed.

End client.

(** The manifest is sent wherever the hub's URL points, with the ingest token: over cleartext
    to a public address, for which the telemetry client refuses to send anything. *)
Example token_sent_in_clear :
  let c := mkClient "http://203.0.113.5:8081" "secret1" in
  let m := mkManifest "h1" "nas" 0 "dev" (mkOSInfo "linux" "" "" "" "") ∅ [] in
  let net (log : list HttpRequest) rq := (Some 404, rq :: log) in
  (Send (fun _ => Some "{}") (fun _ => true) net c m []).2 =
    [mkHttp "POST" "http://203.0.113.5:8081/v1/manifest" "application/json" (Some "Bearer secret1") "{}"] /\
  exists e, AgentHub.Client.Send (fun _ => Some ("http", "203.0.113.5")) demo_marshal Some (fun _ => true) demo_response_of (demo_hub Answered) c Transport.Server.forged
    (Transport.Server.demo_server []) = (Err (ErrSecurity e), Transport.Server.demo_server []).
Proof. split; [vm_compute; done|]. eexists. vm_compute. reflexivity. Qed.

End ManifestClient.
