(* ===== verification/Journal.v ===== *)
(** * Journal: the systemd journal collector

    Models internal/collector/journald (journald.go, reader_linux.go). The journal is the
    list of its entries, which grows; a reader is the number of entries it has passed. Next
    may fail, and the context may end before any entry: both are part of what happens to a
    Collect. The cursor file lives on the disk of AtomicFile. The sdjournal binding is a
    parameter with the documented behaviour of its seek and read calls as laws. *)

From stdpp Require Import base gmap strings list.
From Stdlib Require Import ZArith Lia Ascii.
From S2P Require Import Prelude GoStd GoConv GoIO Schema AtomicFile Spool LogStore.
Import GoString GoConv GoIO GoTime Schema AtomicFile.

Local Open Scope string_scope.
Local Open Scope Z_scope.

Module Journal.

Record Entry := mkEntry { e_Fields : gmap string string; RealtimeUsec : Z; Cursor : string }.

Definition maxEntriesPerCollect : nat := 500.

(** the collector's memory; [position] is that of its open reader *)
Record Collector := mkCollector { hostID : string; position : nat; cursor : string }.

Definition field (e : Entry) (k : string) : string := default "" (e_Fields e !! k).

Definition logLineSource (transport : string) : string := if bool_decide (transport = "") then "journald" else transport.

Definition syslogLevels : list (string * string) :=
  [("0", "emerg"); ("1", "alert"); ("2", "critical"); ("3", "error"); ("4", "warning"); ("5", "notice"); ("6", "info"); ("7", "debug")].

Definition priorityToLevel (priority : string) : string :=
  match List.filter (fun p : string * string => bool_decide (p.1 = priority)) syslogLevels with
  | (_, level) :: _ => level
  | [] => "info"
  end.

Definition entryToLogLine (host : string) (e : Entry) : LogLine :=
  let pid := default 0 (Atoi (field e "_PID")) in
  let unit := field e "_SYSTEMD_UNIT" in
  let unit := if bool_decide (unit = "") then field e "SYSLOG_IDENTIFIER" else unit in
  mkLogLine (unix_epoch + int64 (RealtimeUsec e) * microsecond) host (logLineSource (field e "_TRANSPORT")) "" unit
    (priorityToLevel (field e "PRIORITY")) pid (field e "MESSAGE").

(** what the loop meets before its i-th step: nothing, an ended context, an error of Next *)
Inductive trouble := NoTrouble | CtxDone (err : string) | NextFails (err : string).

(** the loop of Collect: the entries read, the last cursor and the position, or the error it
    returns with, which leaves the reader where it is *)
Fixpoint read_loop (fuel : nat) (journal : list Entry) (script : nat -> trouble) (i pos : nat) (entries : list Entry) (last : string) :
  result (string * nat) (list Entry * string * nat) :=
  match fuel with
  | O => Ok (entries, last, pos)
  | S fuel =>
      match script i with
      | CtxDone err => Err (err, pos)
      | NextFails err => Err (("reading journal entry: " ++ err)%string, pos)
      | NoTrouble =>
          match journal !! pos with
          | None => Ok (entries, last, pos)
          | Some e => read_loop fuel journal script (S i) (S pos) (entries ++ [e])%list (Cursor e)
          end
      end
  end.

(** a rename that fails leaves the temporary file behind *)
Definition persistCursor (path tmp cur : string) : M unit := write_then tmp cur (Rename tmp path).

(** a Collect: the lines handed to the sink, the collector, the result and the disk *)
Record collected := mkCollected { sunk : list LogLine; collector : Collector; res : outcome unit; disk : gmap string file }.

Definition Collect (path tmp : string) (c : Collector) (journal : list Entry) (script : nat -> trouble)
    (st : gmap string file * list fault) : collected :=
  match read_loop maxEntriesPerCollect journal script 0 (position c) [] (cursor c) with
  | Err (err, pos) => mkCollected [] (mkCollector (hostID c) pos (cursor c)) (Fail err) st.1
  | Ok (entries, last, pos) =>
      let lines := entryToLogLine (hostID c) <$> entries in
      if negb (bool_decide (last = "")) && negb (bool_decide (last = cursor c)) then
        match persistCursor path tmp last st with
        | (Ret _, (d, _)) => mkCollected lines (mkCollector (hostID c) pos last) (Ret tt) d
        | (Fail op, (d, _)) => mkCollected lines (mkCollector (hostID c) pos (cursor c)) (Fail ("persisting cursor: " ++ op)) d
        | (Crashed, (d, _)) => mkCollected lines (mkCollector (hostID c) pos (cursor c)) Crashed d
        end
      else mkCollected lines (mkCollector (hostID c) pos (cursor c)) (Ret tt) st.1
  end.

(** [open] is the OpenFunc: the position of the reader it opens, or an error *)
Definition Init (open : string -> option nat) (path host : string) : M Collector :=
  raw ← ReadFile path;
  let cur := default "" raw in
  match open cur with
  | Some pos => mret (mkCollector host pos cur)
  | None => fail "opening journal"
  end.

(** ** reader_linux.go *)

(** the calls of sdjournal, on a handle [J] and the journal as it is at the call *)
Class Sdjournal (J : Type) := mkSdjournal {
  NewJournal : option J;
  SeekCursor : list Entry -> string -> J -> option J;
  SeekTail : list Entry -> J -> option J;
  Next : list Entry -> J -> option (bool * J);
  GetEntry : list Entry -> J -> option Entry;
}.

Section reader.
Context {J : Type} `{!Sdjournal J}.

Definition openSystemdJournal (journal : list Entry) (cur : string) : option J :=
  j ← NewJournal;
  if negb (bool_decide (cur = "")) then
    j ← SeekCursor journal cur j;
    r ← Next journal j;
    Some r.2
  else SeekTail journal j.

(** the reader's Next: an error, nothing new, or an entry *)
Definition reader_Next (journal : list Entry) (r : J) : result string (option Entry) * option J :=
  match Next journal r with
  | None => (Err "next", None)
  | Some (false, r') => (Ok None, Some r')
  | Some (true, r') =>
      match GetEntry journal r' with
      | None => (Err "reading entry", Some r')
      | Some e => (Ok (Some e), Some r')
      end
  end.
End reader.

(** where a reader opened at a cursor starts: after its entry *)
Fixpoint position_after (journal : list Entry) (cur : string) : option nat :=
  match journal with
  | [] => None
  | e :: rest => if bool_decide (Cursor e = cur) then Some 1%nat else S <$> position_after rest cur
  end.

(** The laws of the read pointer, as sd_journal_seek_cursor and sd_journal_next document
    them: [passed] entries lie before the one the next call of Next moves to; a seek to a
    cursor stops before its entry, and Next returns false at the end. *)
Class SdjournalLaws (J : Type) `{!Sdjournal J} := mkSdjournalLaws {
  passed : J -> nat;
  seek_cursor_law journal cur j j' p :
    position_after journal cur = Some p -> SeekCursor journal cur j = Some j' -> S (passed j') = p;
  next_law journal j b j' :
    Next journal j = Some (b, j') ->
    (b = true /\ (passed j < length journal)%nat /\ passed j' = S (passed j)) \/
    (b = false /\ (length journal <= passed j)%nat /\ passed j' = passed j);
  get_entry_law journal j e : GetEntry journal j = Some e -> (0 < passed j)%nat /\ journal !! pred (passed j) = Some e;
}.

Section laws.
Context {J : Type} `{!Sdjournal J} `{!SdjournalLaws J}.

Lemma position_after_le journal cur p : position_after journal cur = Some p -> (0 < p <= length journal)%nat.
Proof.
  revert p. induction journal as [|x journal IH]; intros p; [done|]. cbn. case_bool_decide; [intros [= <-]; lia|].
  destruct (position_after journal cur) as [q|]; [|done]. intros [= <-]. specialize (IH q eq_refl). lia.
Qed.

(** openSystemdJournal keeps the contract of OpenFunc: the reader starts just after the cursor *)
Lemma open_after_cursor journal cur p j :
  cur <> "" -> position_after journal cur = Some p -> openSystemdJournal journal cur = Some j -> passed j = p.
Proof.
  intros Hc Hp. unfold openSystemdJournal. rewrite bool_decide_false by done. cbn [negb].
  destruct NewJournal as [j0|]; [|done]. cbn. destruct (SeekCursor journal cur j0) as [j1|] eqn:E1; [|done]. cbn.
  destruct (Next journal j1) as [[b j2]|] eqn:E2; [|done]. intros [= <-]. cbn.
  pose proof (seek_cursor_law _ _ _ _ _ Hp E1). pose proof (position_after_le _ _ _ Hp).
  destruct (next_law _ _ _ _ E2) as [(_ & _ & Hn)|(_ & Hn & _)]; lia.
Qed.

(** and its Next is the step of the position that [read_loop] takes *)
Lemma reader_next_step journal r o r' :
  reader_Next journal r = (Ok o, Some r') -> o = journal !! passed r /\ passed r' = (passed r + (match o with Some _ => 1 | None => 0 end))%nat.
Proof.
  unfold reader_Next. destruct (Next journal r) as [[[|] r1]|] eqn:E; [| |done].
  - destruct (GetEntry journal r1) as [e|] eqn:Eg; [|done]. intros [= <- <-].
    destruct (next_law _ _ _ _ E) as [(_ & _ & H)|(? & _)]; [|done]. pose proof (get_entry_law _ _ _ Eg) as [_ Hg].
    rewrite H in Hg |- *. cbn in Hg. split; [done|lia].
  - intros [= <- <-]. destruct (next_law _ _ _ _ E) as [(? & _)|(_ & H & ->)]; [done|]. split; [|lia].
    symmetry. by apply lookup_ge_None.
Qed.
End laws.

(** a read pointer that is its count satisfies the laws *)
Definition nat_sdjournal : Sdjournal nat :=
  mkSdjournal nat (Some O) (fun journal cur _ => pred <$> position_after journal cur) (fun journal _ => Some (length journal))
    (fun journal j => Some (if (j <? length journal)%nat then (true, S j) else (false, j)))
    (fun journal j => match j with O => None | S i => journal !! i end).

Lemma nat_sdjournal_laws : @SdjournalLaws nat nat_sdjournal.
Proof.
  refine (@mkSdjournalLaws nat nat_sdjournal id _ _ _); cbn [Next SeekCursor GetEntry nat_sdjournal].
  - intros journal cur _ j' p Hp. rewrite Hp. cbn. intros [= <-]. apply position_after_le in Hp. unfold id. lia.
  - intros journal j b j'. destruct (Nat.ltb_spec j (length journal)); intros E; injection E as <- <-; [left|right]; done.
  - intros journal [|i] e; [done|]. intros H. split; [unfold id; lia|done].
Qed.

(** ** Runs *)

Definition quiet : nat -> trouble := fun _ => NoTrouble.

(** What happens to the agent: entries arrive, a collection runs under whatever its loop
    meets and the faults of the system, or the agent is started again, possibly failing to
    read its cursor or to open the journal. A crash of the machine in a collection leaves no
    collector. *)
Inductive step :=
| Arrive (es : list Entry)
| Collection (tmp : string) (script : nat -> trouble) (faults : list fault)
| Restart (opens : bool) (faults : list fault).

Record state := mkState { st_journal : list Entry; st_collector : option Collector; st_disk : gmap string file; st_sunk : list LogLine; st_dropped : list Entry }.

(** the entries a collection read and handed to nobody: the reader moved past them, and the
    collection returned without calling the sink *)
Definition dropped_by (journal : list Entry) (c : Collector) (o : collected) : list Entry :=
  match sunk o with
  | [] => take (position (collector o) - position c) (drop (position c) journal)
  | _ => []
  end.

Section runs.
Context (path host : string).

(** the OpenFunc by its contract: after the cursor; where it starts without one, or at a
    cursor the journal no longer has, is [elsewhere] *)
Context (elsewhere : list Entry -> string -> nat).
Definition open_at (opens : bool) (journal : list Entry) (cur : string) : option nat :=
  if opens then Some (default (elsewhere journal cur) (position_after journal cur)) else None.

Definition apply (s : state) (x : step) : state :=
  match x with
  | Arrive es => mkState (st_journal s ++ es)%list (st_collector s) (st_disk s) (st_sunk s) (st_dropped s)
  | Collection tmp script faults =>
      match st_collector s with
      | None => s
      | Some c =>
          let o := Collect path tmp c (st_journal s) script (st_disk s, faults) in
          mkState (st_journal s) (match res o with Crashed => None | _ => Some (collector o) end) (disk o) (st_sunk s ++ sunk o)%list
            (st_dropped s ++ dropped_by (st_journal s) c o)%list
      end
  | Restart opens faults =>
      match Init (open_at opens (st_journal s)) path host (st_disk s, faults) with
      | (Ret c, (d, _)) => mkState (st_journal s) (Some c) d (st_sunk s) (st_dropped s)
      | (_, (d, _)) => mkState (st_journal s) None d (st_sunk s) (st_dropped s)
      end
  end.


(** ** Reading without trouble *)







(** ** The invariant *)


























(** ** Delivery *)





End runs.

Definition entry (n : Z) : Entry := mkEntry {[ "MESSAGE" := show n; "PRIORITY" := "4" ]} n (show n).
Definition demo_path : string := "journald.cursor".



(** ** Lines lost *)

(** An error of Next, or the end of the context, throws away the entries already read in
    the same collection: the reader is past them, and the next collection saves a cursor
    beyond them. *)
Example read_error_loses_lines :
  let journal := [entry 1; entry 2; entry 3] in
  let d := {[ demo_path := whole "1" ]} in
  let c := mkCollector "h1" 1 "1" in
  let o1 := Collect demo_path ".cursor-1" c journal (fun i => if decide (i = 1%nat) then CtxDone "deadline exceeded" else NoTrouble) (d, []) in
  let o2 := Collect demo_path ".cursor-2" (collector o1) journal quiet (disk o1, []) in
  sunk o1 = [] /\ l_Message <$> sunk o2 = ["3"] /\ disk o2 !! demo_path = Some (whole "3").
Proof. vm_compute. done. Qed.

(** The two most severe priorities of the journal have no bit in the level bitmap of a log
    block. *)
Example severe_levels_unindexed :
  LogStore.LogStore.levelBit (ToLower (priorityToLevel "0")) = None /\ LogStore.LogStore.levelBit (ToLower (priorityToLevel "1")) = None /\
  LogStore.LogStore.levelBit (ToLower (priorityToLevel "2")) = Some 32.
Proof. vm_compute. done. Qed.

End Journal.
