(* ===== verification/HostSurvey.v ===== *)
(** * HostSurvey: hardware identity, public surface and share usage

    Models internal/collector/hwidentity, publicsurface and shareusage, over the contents of
    the files they read (an argument; [None] when reading fails) and, for share usage, over
    the directory tree below a share. JSON decoding is a parameter. Go iterates over maps in
    any order; items that come from a map are listed here in the order of its keys. *)

From stdpp Require Import base gmap strings list sorting.
From Stdlib Require Import ZArith Lia Ascii SpecFloat.
From S2P Require Import Prelude GoStd GoConv GoIO Schema AtomicFile Spool Samplers Inventories Wire HostMetrics FaultCluster.
Import GoString GoConv GoIO GoFloat GoTime Schema.

Local Open Scope string_scope.
Local Open Scope Z_scope.

(** ** internal/collector/hwidentity *)
Module HwIdentity.

Record Collector := mkCollector { prevEnergyUJ : Z; prevAt : Time; haveRAPL : bool }.

Definition New : Collector := mkCollector 0 zero false.

Definition setIfPresent (key value : string) (attrs : gmap string string) : gmap string string :=
  if bool_decide (value = "") then attrs else <[key := value]> attrs.

Definition readTrimmed (contents : option string) : string := match contents with None => "" | Some raw => TrimSpace raw end.

Definition model_line (line : string) : option string :=
  match cut_byte ":" line with
  | Some (key, value) => if bool_decide (TrimSpace key = "model name") then Some (TrimSpace value) else None
  | None => None
  end.

(** the value of the first line that has one *)
Definition readCPUModel (contents : option string) : option string :=
  raw ← contents; head (omap model_line (split_byte newline raw)).

Definition one_million : float64 := f_of_Z 1000000.

Definition readRAPLWatts (c : Collector) (contents : option string) (now : Time) : option float64 * Collector :=
  match (raw ← contents; ParseUint (TrimSpace raw) 64) with
  | None => (None, c)
  | Some energy =>
      let c' := mkCollector energy now true in
      if negb (haveRAPL c) || (energy <? prevEnergyUJ c) then (None, c') else
      let elapsed := Seconds (sub now (prevAt c)) in
      if fle elapsed f_zero then (None, c') else
      let deltaJoules := fdiv (f_of_Z (uint64 (energy - prevEnergyUJ c))) one_million in
      (Some (fdiv deltaJoules elapsed), c')
  end.

Definition dmi_keys : list string := ["board_vendor"; "board_name"; "board_version"; "bios_vendor"; "bios_version"; "bios_date"].

Definition energyPath : list string := ["class"; "powercap"; "intel-rapl:0"; "energy_uj"].

(** [sys]: the files under sysRoot; [cpuinfo]: /proc/cpuinfo *)
Definition hardwareIdentityItems (c : Collector) (sys : list string -> option string) (cpuinfo : option string) (now : Time) :
    list InventoryItem * Collector :=
  let attrs := fold_left (fun a key => setIfPresent key (readTrimmed (sys ["class"; "dmi"; "id"; key])) a) dmi_keys ∅ in
  let attrs := match readCPUModel cpuinfo with Some model => <["cpu_model" := model]> attrs | None => attrs end in
  let '(watts, c') := readRAPLWatts c (sys energyPath) now in
  let attrs := match watts with Some w => <["cpu_power_watts" := FormatFixed 2 w]> attrs | None => attrs end in
  (if decide (attrs = ∅) then [] else [mkInventoryItem "system" "system" attrs], c').

Definition cpu_item (topo : Topology.Topology) (cc : Z * Z) : InventoryItem :=
  let '(cpu, coreID) := cc in
  mkInventoryItem ("cpu" ++ Itoa cpu) ("cpu" ++ Itoa cpu)
    {[ "core_id" := Itoa coreID; "online" := FormatBool (default false (Topology.Online topo !! cpu));
       "core_type" := default "" (Topology.CoreType topo !! cpu) ]}.

Definition cpuTopologyItems (sys : list string -> option string) (cpus : option (list string)) : list InventoryItem :=
  match Topology.ReadTopology sys cpus with
  | None => []
  | Some topo => cpu_item topo <$> map_to_list (Topology.LogicalToCore topo)
  end.

Definition Collect (ctxErr : option string) (hostID : string) (c : Collector) (sys : list string -> option string) (cpus : option (list string))
    (cpuinfo : option string) (now : Time) : result string (list Inventory) * Collector :=
  match ctxErr with
  | Some err => (Err err, c)
  | None =>
      let '(items, c') := hardwareIdentityItems c sys cpuinfo now in
      (Ok [mkInventory hostID "hardware_identity" now CurrentSchemaVersion items;
           mkInventory hostID "cpu_topology" now CurrentSchemaVersion (cpuTopologyItems sys cpus)], c')
  end.

(** *** The power reading *)

(** the samples of one collector: when, and what the counter file held *)
Abbreviation sample := (Z * option string)%type (only parsing).

Definition reading (s : sample) : option (Z * Time) :=
  energy ← (raw ← s.2; ParseUint (TrimSpace raw) 64); Some (energy, s.1).

Definition run (samples : list sample) : Collector := fold_left (fun c s => (readRAPLWatts c s.2 s.1).2) samples New.

Lemma run_last samples :
  run samples = match last (omap reading samples) with None => New | Some (energy, at_) => mkCollector energy at_ true end.
Proof.
  unfold run. induction samples as [|s samples IH] using rev_ind; [done|]. rewrite fold_left_app, omap_app. cbn [fold_left].
  rewrite IH. cbn [omap list_omap]. unfold readRAPLWatts.
  assert (reading s = energy ← (raw ← s.2; ParseUint (TrimSpace raw) 64); Some (energy, s.1)) as -> by done.
  destruct (s.2 ≫= fun raw => ParseUint (TrimSpace raw) 64) as [energy|]; cbn [mbind option_bind]; [|by rewrite app_nil_r].
  rewrite last_snoc. destruct (_ || _); [done|]. by destruct (fle _ _).
Qed.

(** The power reported at a sample is the energy used since the last sample that could be
    read, over the time since then, whatever failed in between; none is reported for the
    first sample, when the counter went back, or when the clock did not advance. *)
Theorem rapl_spec samples at_ contents :
  (readRAPLWatts (run samples) contents at_).1 =
    '(energy, _) ← reading (at_, contents);
    '(energy0, at0) ← last (omap reading samples);
    if (energy0 <=? energy) && negb (fle (Seconds (sub at_ at0)) f_zero)
    then Some (fdiv (fdiv (f_of_Z (energy - energy0)) one_million) (Seconds (sub at_ at0))) else None.
Proof.
  rewrite run_last. unfold readRAPLWatts.
  assert (reading (at_, contents) = energy ← (raw ← contents; ParseUint (TrimSpace raw) 64); Some (energy, at_)) as -> by done.
  destruct (contents ≫= fun raw => ParseUint (TrimSpace raw) 64) as [energy|] eqn:E; [|done].
  apply bind_Some in E as (raw & _ & Hp%ParseUint_range). cbn [mbind option_bind].
  destruct (last (omap reading samples)) as [[energy0 at0]|] eqn:El; [|done]. cbn [haveRAPL prevEnergyUJ prevAt negb orb mbind option_bind].
  assert (0 <= energy0) as H0.
  { apply last_Some in El as (l & El). assert ((energy0, at0) ∈ omap reading samples) as Hin by (rewrite El; apply elem_of_app; right; by left).
    apply list_elem_of_omap in Hin as (s & _ & Hs). unfold reading in Hs. destruct (s.2 ≫= _) as [e|] eqn:Es; [|done]. injection Hs as <- <-.
    apply bind_Some in Es as (? & _ & Hr%ParseUint_range). lia. }
  destruct (Z.ltb_spec energy energy0), (Z.leb_spec energy0 energy); try lia; [done|]. cbn [andb].
  destruct (fle _ f_zero); [done|]. cbn [negb]. unfold uint64. rewrite wrap_u_small by lia. done.
Qed.

(** *** Valid inventories *)

Lemma cpu_items_valid sys cpus : Forall (fun it => ii_ID it <> "") (cpuTopologyItems sys cpus).
Proof.
  unfold cpuTopologyItems. destruct (Topology.ReadTopology sys cpus) as [topo|]; [|constructor].
  apply Forall_fmap, Forall_forall. intros [cpu core] _. done.
Qed.

(** Whatever the files hold, and in whatever state, both snapshots pass the validation of the
    schema, and the identity is left out entirely when nothing about it is known. *)
Theorem hardware_inventories_valid hostID c sys cpus cpuinfo now invs c' :
  hostID <> "" -> is_zero now = false -> Collect None hostID c sys cpus cpuinfo now = (Ok invs, c') ->
  length invs = 2%nat /\ Forall (fun inv => Inventory_Validate inv = Ok tt) invs.
Proof.
  intros Hh Hn. unfold Collect. destruct (hardwareIdentityItems c sys cpuinfo now) as [items c1] eqn:E. intros [= <- _]. split; [done|].
  assert (Forall (fun it => ii_ID it <> "") items) as Hi.
  { revert E. unfold hardwareIdentityItems. destruct (readRAPLWatts c (sys energyPath) now) as [w c2]. case_decide; intros [= <- _]; repeat constructor. done. }
  repeat apply Forall_cons_2; [| |constructor].
  - by apply (Valid.snapshot_valid hostID "hardware_identity" now items).
  - apply (Valid.snapshot_valid hostID "cpu_topology" now (cpuTopologyItems sys cpus)); [done..|apply cpu_items_valid|done].
Qed.

Definition demo_sys (path : list string) : option string :=
  if decide (path = ["class"; "dmi"; "id"; "board_name"]) then Some ("X570" ++ String newline "")
  else if decide (path = energyPath) then Some "45000000" else None.

Lemma hardware_inventories_valid_witness :
  match Collect None "h1" New demo_sys (Some ["cpu0"; "cpufreq"]) None 5 with
  | (Ok invs, _) => Forall (fun inv => Inventory_Validate inv = Ok tt) invs
  | (Err _, _) => False
  end.
Proof.
  destruct (Collect None "h1" New demo_sys (Some ["cpu0"; "cpufreq"]) None 5) as [[invs|err] c'] eqn:E.
  - by apply (hardware_inventories_valid "h1" New demo_sys (Some ["cpu0"; "cpufreq"]) None 5 invs c').
  - unfold Collect in E. by destruct (hardwareIdentityItems New demo_sys None 5).
Defined.

(** 45 J in two seconds, with an unreadable sample between *)
Example power_reading :
  FormatFixed 2 <$> (readRAPLWatts (run [(second, Some "1000000"); (2 * second, None)]) (Some "46000000") (3 * second)).1 = Some "22.50".
Proof. vm_compute. done. Qed.

End HwIdentity.

(** ** internal/collector/publicsurface *)
Module PublicSurface.

(** [exists_]: whether os.Stat finds a path *)
Definition firstConfiguredPath (exists_ : string -> bool) (cfg : gmap string string) (key : string) (fallbacks : list string) : string :=
  match cfg !! key with
  | Some v => if bool_decide (v = "") then default (default "" (head fallbacks)) (List.find exists_ fallbacks) else v
  | None => default (default "" (head fallbacks)) (List.find exists_ fallbacks)
  end.

Record Collector := mkCollector { authLogPath : string; fail2banStatusPath : string; firewallRulesPath : string; ovhTrafficPath : string }.

Definition Init (exists_ : string -> bool) (cfg : gmap string string) : Collector :=
  mkCollector (firstConfiguredPath exists_ cfg "auth_log_path" ["/var/log/auth.log"; "/var/log/secure"])
    (configuredPath cfg "fail2ban_status_path" "/var/lib/bitacora/public-surface/fail2ban.json")
    (configuredPath cfg "firewall_rules_path" "/var/lib/bitacora/public-surface/firewall.rules")
    (configuredPath cfg "ovh_traffic_path" "/var/lib/bitacora/public-surface/ovh-traffic.json").

(** what reading a file gives *)
Inductive contents := NotExist | Unreadable | Contents (raw : string).

(** a source: its value, an error, or the error of a file that does not exist *)
Inductive source (A : Type) := Missing | Failed | Read (a : A).
Arguments Missing {A}.
Arguments Failed {A}.
Arguments Read {A} a.

Definition of_contents {A} (f : string -> source A) (c : contents) : source A :=
  match c with NotExist => Missing | Unreadable => Failed | Contents raw => f raw end.

Definition is_failure (line : string) : bool := contains "Failed password" line || contains "Invalid user" line.

Definition countSSHFailures : contents -> source Z :=
  of_contents (fun raw => if scan_failed raw then Failed else Read (Z.of_nat (length (List.filter is_failure (scan_lines raw))))).

(** of the snapshot, the banned count of every jail *)
Definition fail2banSnapshot : Type := list Z.
Record fail2banStatus := mkStatus { Jails : Z; Banned : Z }.

Definition add_banned (total banned : Z) : Z := if 0 <? banned then int64 (total + banned) else total.

Section decode.
(** json.Unmarshal of the two snapshots *)
Context (decode_fail2ban : string -> option fail2banSnapshot) (decode_ovh : string -> option (float64 * float64)).

Definition readFail2BanStatus : contents -> source fail2banStatus :=
  of_contents (fun raw =>
    match decode_fail2ban raw with
    | None => Failed
    | Some jails => Read (mkStatus (Z.of_nat (length jails)) (fold_left add_banned jails 0))
    end).

Definition is_rule (line : string) : bool :=
  let line := TrimSpace line in negb (bool_decide (line = "") || has_prefix "#" line).

Definition countFirewallRules : contents -> source Z :=
  of_contents (fun raw => if scan_failed raw then Failed else Read (Z.of_nat (length (List.filter is_rule (scan_lines raw))))).

(** [Read None]: no quota is known *)
Definition readOVHTrafficRatio : contents -> source (option float64) :=
  of_contents (fun raw =>
    match decode_ovh raw with
    | None => Failed
    | Some (used, quota) =>
        if fle quota f_zero then Read None else
        let ratio := fdiv used quota in
        Read (Some (if flt ratio f_zero then f_zero else if fgt ratio (f_of_Z 1) then f_of_Z 1 else ratio))
    end).

Definition gauge (name : string) (v : float64) : emission := mkEmission name v ∅.

(** the gauges of a source and whether it counts as an error *)
Definition report {A} (missing_ok : bool) (gauges : A -> list emission) (s : source A) : list emission * bool :=
  match s with Read a => (gauges a, false) | Failed => ([], true) | Missing => ([], negb missing_ok) end.

Definition ssh_gauges (n : Z) : list emission := [gauge "bitacora_public_ssh_failed_logins_total" (f_of_Z n)].
Definition fail2ban_gauges (s : fail2banStatus) : list emission :=
  [gauge "bitacora_public_fail2ban_jails_total" (f_of_Z (Jails s)); gauge "bitacora_public_fail2ban_banned_total" (f_of_Z (Banned s))].
Definition firewall_gauges (n : Z) : list emission := [gauge "bitacora_public_firewall_rules_total" (f_of_Z n)].
Definition ovh_gauges (r : option float64) : list emission :=
  match r with Some ratio => [gauge "bitacora_public_ovh_traffic_used_ratio" ratio] | None => [] end.

(** the gauges, and how many errors are joined in the result *)
Definition Collect (ctxErr : option string) (auth fail2ban firewall ovh : contents) : result string (list emission * nat) :=
  match ctxErr with
  | Some err => Err err
  | None =>
      let '(g1, e1) := report false ssh_gauges (countSSHFailures auth) in
      let '(g2, e2) := report true fail2ban_gauges (readFail2BanStatus fail2ban) in
      let '(g3, e3) := report true firewall_gauges (countFirewallRules firewall) in
      let '(g4, e4) := report true ovh_gauges (readOVHTrafficRatio ovh) in
      Ok (g1 ++ g2 ++ g3 ++ g4, length (List.filter id [e1; e2; e3; e4]))%list
  end.

Lemma report_gauges {A} missing_ok (gauges : A -> list emission) s e : e ∈ (report missing_ok gauges s).1 -> exists a, s = Read a /\ e ∈ gauges a.
Proof. destruct s as [| |a]; cbn; intros He; [by apply elem_of_nil in He..|]. by exists a. Qed.

Lemma gauge_valid hostID ts name v :
  hostID <> "" -> is_zero ts = false -> has_prefix requiredPrefix name = true -> metric_suffix name <> "" ->
  (metric_suffix name = "_ratio" -> flt v f_zero = false /\ fgt v (f_of_Z 1) = false) ->
  Metric_Validate (metric_of hostID ts (gauge name v)) = Ok tt.
Proof.
  intros Hh Ht Hp Hs Hr. unfold Metric_Validate, metric_of, gauge. cbn [m_HostID m_Name m_Value m_Timestamp m_Labels e_name e_value e_labels].
  rewrite bool_decide_false, Hp by done. cbn [negb]. rewrite (bool_decide_false (_ = "")) by done. rewrite Ht.
  case_bool_decide as E; [|done]. destruct (Hr E) as [-> ->]. done.
Qed.

(** Whatever the log and the snapshots hold, and whichever of them fail, every gauge is a
    metric the store accepts. *)
Theorem public_gauges_valid auth fail2ban firewall ovh hostID ts gauges errs e :
  hostID <> "" -> is_zero ts = false -> Collect None auth fail2ban firewall ovh = Ok (gauges, errs) -> e ∈ gauges ->
  Metric_Validate (metric_of hostID ts e) = Ok tt.
Proof.
  intros Hh Ht Hc He. unfold Collect in Hc.
  destruct (report false _ _) as [g1 e1] eqn:E1, (report true fail2ban_gauges _) as [g2 e2] eqn:E2,
    (report true firewall_gauges _) as [g3 e3] eqn:E3, (report true ovh_gauges _) as [g4 e4] eqn:E4. injection Hc as <- _.
  apply (f_equal fst) in E1, E2, E3, E4. cbn in E1, E2, E3, E4. subst g1 g2 g3 g4.
  rewrite !elem_of_app in He. destruct He as [He|[He|[He|He]]]; apply report_gauges in He as (a & Ha & He).
  - apply list_elem_of_singleton in He as ->. by apply gauge_valid.
  - apply elem_of_cons in He as [->|He%list_elem_of_singleton]; [by apply gauge_valid|]. subst e. by apply gauge_valid.
  - apply list_elem_of_singleton in He as ->. by apply gauge_valid.
  - destruct a as [ratio|]; [|by apply elem_of_nil in He]. apply list_elem_of_singleton in He as ->. apply gauge_valid; [done|done|done|done|]. intros _.
    destruct ovh as [| |raw]; try done. cbn in Ha. destruct (decode_ovh raw) as [[used quota]|]; [|done]. destruct (fle quota f_zero); [done|].
    injection Ha as <-. apply clamped.
Qed.

End decode.

Definition demo_auth : string := "sshd: Failed password for root" ++ String newline ("sshd: Accepted" ++ String newline "sshd: Invalid user bob").

Lemma public_gauges_valid_witness :
  Metric_Validate (metric_of "h1" 5 (gauge "bitacora_public_ovh_traffic_used_ratio" (f_of_Z 1))) = Ok tt.
Proof.
  apply (public_gauges_valid (fun _ => None) (fun _ => Some (f_of_Z 3, f_of_Z 2)) (Contents demo_auth) NotExist Unreadable (Contents "{}") "h1" 5
    [gauge "bitacora_public_ssh_failed_logins_total" (f_of_Z 2); gauge "bitacora_public_ovh_traffic_used_ratio" (f_of_Z 1)] 1%nat);
    [done..| |by right; left]. vm_compute. done.
Defined.

End PublicSurface.

(** ** internal/collector/shareusage *)
Module ShareUsage.

(** what is below a path: a file with the size that Info reports (or an error), or a
    directory, whose listing may fail after some entries; entries are in name order *)
Inductive node : Type :=
| File (size : option Z)
| Dir (read_fails : bool) (entries : list node).

(** the callback's variables *)
Record walk := mkWalk { total : Z; checked : nat }.

Section walk.
(** ctx.Err() when so many entries have been checked *)
Context (cancelled : nat -> bool).

(** the callback; [d] is what the entry adds, [None] for a directory or an error *)
Definition visit (d : option Z) (w : walk) : option walk :=
  let checked := S (checked w) in
  if (checked mod 100 =? 0)%nat && cancelled checked then None
  else Some (mkWalk (match d with Some size => uint64 (total w + uint64 size) | None => total w end) checked).

(** filepath.WalkDir with this callback; [None] when it stops the walk *)
Fixpoint walkDir (n : node) (w : walk) : option walk :=
  match n with
  | File size => visit size w
  | Dir read_fails entries =>
      w ← visit None w;
      w ← (if read_fails then visit None w else Some w);
      (fix entries_loop (l : list node) (w : walk) : option walk :=
         match l with [] => Some w | x :: l => w ← walkDir x w; entries_loop l w end) entries w
  end.

(** [root]: what is at the path, if Lstat finds anything *)
Definition dirSize (root : option node) : option Z :=
  n ← root; total <$> walkDir n (mkWalk 0 0).

End walk.

Section collect.
Context (rfc3339 : Z -> string). (* t.Format(time.RFC3339) *)

Definition usage_item (now : Time) (id : string) (usedBytes : Z) : InventoryItem :=
  mkInventoryItem id id {[ "used_bytes" := show usedBytes; "calculated_at" := rfc3339 now ]}.

(** [tree] is what is at each path; the context may end during the walk of each share *)
Definition Collect (ctxErr : option string) (hostID : string) (now : Time) (sambaConf exportsFile : option string) (tree : string -> option node)
    (cancelled : string -> nat -> bool) : result string Inventory :=
  snapshot ctxErr hostID "share_usage" now
    (omap (fun ip => usage_item now ip.1 <$> dirSize (cancelled ip.2) (tree ip.2)) (map_to_list (Shares.Paths sambaConf exportsFile))).

(** *** Sizes are whole or absent *)

(** the sizes of the files of a tree that can be seen *)
Fixpoint sizes (n : node) : list Z :=
  match n with
  | File size => option_list size
  | Dir _ entries => (fix go (l : list node) : list Z := match l with [] => [] | x :: l => sizes x ++ go l end)%list entries
  end.

(** how often the callback is called *)
Fixpoint visits (n : node) : nat :=
  match n with
  | File _ => 1
  | Dir read_fails entries =>
      (if read_fails then 2 else 1) + (fix go (l : list node) : nat := match l with [] => 0 | x :: l => visits x + go l end) entries
  end%nat.

Definition sum (l : list Z) : Z := foldr Z.add 0 l.

Lemma sum_app a b : sum (a ++ b)%list = sum a + sum b.
Proof. unfold sum. induction a as [|x a IH]; cbn [app foldr]; [lia|]. rewrite IH. lia. Qed.

Lemma uint64_add a b : uint64 (a + uint64 b) = uint64 (a + b).
Proof. unfold uint64, wrap_u. by rewrite Zplus_mod_idemp_r. Qed.
Lemma uint64_add_l a b : uint64 (uint64 a + b) = uint64 (a + b).
Proof. unfold uint64, wrap_u. by rewrite Zplus_mod_idemp_l. Qed.

(** the context is not done at any check of the callback up to the [n]-th *)
Definition running (cancelled : nat -> bool) (from upto : nat) : Prop :=
  forall k, (from < k <= upto)%nat -> (k mod 100 = 0)%nat -> cancelled k = false.

Definition node_ind' (P : node -> Prop) (Hf : forall size, P (File size)) (Hd : forall b l, Forall P l -> P (Dir b l)) : forall n, P n :=
  fix go n := match n with
  | File size => Hf size
  | Dir b l => Hd b l ((fix all l : Forall P l := match l with [] => List.Forall_nil P | x :: l => List.Forall_cons P x l (go x) (all l) end) l)
  end.

Lemma visit_some cancelled d w w' :
  total w = uint64 (total w) -> visit cancelled d w = Some w' -> total w' = uint64 (total w + sum (option_list d)) /\ checked w' = S (checked w).
Proof.
  unfold visit. intros Hw. destruct (_ && _); [done|]. intros [= <-]. split; [|done]. cbn [total]. unfold sum. destruct d as [size|].
  - change (foldr Z.add 0 (option_list (Some size))) with (size + 0). by rewrite uint64_add, Z.add_0_r.
  - change (foldr Z.add 0 (option_list None)) with 0. by rewrite Z.add_0_r.
Qed.

Lemma visit_running cancelled d w : running cancelled (checked w) (S (checked w)) -> is_Some (visit cancelled d w).
Proof.
  intros Hr. unfold visit. destruct (Nat.eqb_spec (S (checked w) mod 100) 0) as [E|E]; cbn [andb]; [|by eexists].
  rewrite Hr by (done || lia). by eexists.
Qed.

Lemma uint64_sum a b c : uint64 (uint64 (a + b) + c) = uint64 (a + (b + c)).
Proof. rewrite uint64_add_l. f_equal. lia. Qed.

Lemma uint64_idem a : uint64 a = uint64 (uint64 a).
Proof. unfold uint64, wrap_u. by rewrite Z.mod_mod. Qed.

Lemma walk_some cancelled n w w' :
  total w = uint64 (total w) -> walkDir cancelled n w = Some w' -> total w' = uint64 (total w + sum (sizes n)) /\ checked w' = (checked w + visits n)%nat.
Proof.
  revert w w'. induction n as [size|b l IH] using node_ind'; intros w w' Hw H; cbn [walkDir sizes visits] in *.
  { destruct (visit_some _ _ _ _ Hw H) as [-> ->]. split; [done|lia]. }
  apply bind_Some in H as (w1 & H1 & H). destruct (visit_some _ _ _ _ Hw H1) as [T1 C1]. cbn in T1. rewrite Z.add_0_r in T1.
  apply bind_Some in H as (w2 & H2 & H).
  assert (total w2 = total w /\ checked w2 = (checked w + if b then 2 else 1)%nat) as [T2 C2].
  { destruct b; [|injection H2 as <-; split; [congruence|lia]]. apply visit_some in H2 as [T2 C2]; [|congruence].
    cbn in T2. rewrite Z.add_0_r in T2. split; [congruence|lia]. }
  clear w1 H1 T1 C1 H2. rewrite <- T2 in *. clear T2. revert w2 Hw H C2. generalize (if b then 2 else 1)%nat as k. intros k. revert k.
  induction IH as [|x l Hx _ IH]; intros k w2 Hw H C2.
  { injection H as <-. split; [|lia]. cbn. by rewrite Z.add_0_r. }
  apply bind_Some in H as (w3 & H3 & H). destruct (Hx _ _ Hw H3) as [T3 C3].
  destruct (IH (k + visits x)%nat w3) as [T C]; [rewrite T3; apply uint64_idem|done|lia|].
  rewrite T, C, T3, uint64_sum, sum_app. split; [done|lia].
Qed.

Lemma running_sub cancelled a b a' b' : running cancelled a b -> (a <= a')%nat -> (b' <= b)%nat -> running cancelled a' b'.
Proof. intros Hr Ha Hb k Hk. apply Hr. lia. Qed.

Lemma walk_running cancelled n w :
  total w = uint64 (total w) -> running cancelled (checked w) (checked w + visits n) -> is_Some (walkDir cancelled n w).
Proof.
  revert w. induction n as [size|b l IH] using node_ind'; intros w Hw Hr; cbn [walkDir visits] in *.
  { apply visit_running. eapply running_sub; [exact Hr|lia..]. }
  destruct (visit_running cancelled None w) as [w1 H1]; [eapply running_sub; [exact Hr|lia|destruct b; lia]|].
  destruct (visit_some _ _ _ _ Hw H1) as [T1 C1]. cbn in T1. rewrite Z.add_0_r in T1. rewrite H1. cbn [mbind option_bind].
  assert (exists w2, (if b then visit cancelled None w1 else Some w1) = Some w2 /\ total w2 = uint64 (total w2) /\ checked w2 = (checked w + if b then 2 else 1)%nat)
    as (w2 & -> & T2 & C2).
  { destruct b; [|exists w1; split_and!; [done|congruence|lia]].
    destruct (visit_running cancelled None w1) as [w2 H2]; [eapply running_sub; [exact Hr|lia..]|]. exists w2.
    apply visit_some in H2 as Hs; [|congruence]. destruct Hs as [T2 C2]. cbn in T2. rewrite Z.add_0_r in T2. split_and!; [done|congruence|lia]. }
  cbn [mbind option_bind]. clear Hw H1 T1 C1 w1. revert w2 T2 C2. revert Hr. generalize (if b then 2 else 1)%nat as k. intros k Hr.
  revert k Hr. induction IH as [|x l Hx _ IH]; intros k Hr w2 T2 C2; [by eexists|].
  destruct (Hx w2 T2) as [w3 H3]; [eapply running_sub; [exact Hr|lia..]|]. rewrite H3. cbn [mbind option_bind].
  destruct (walk_some _ _ _ _ T2 H3) as [T3 C3]. apply (IH (k + visits x)%nat); [|rewrite T3; apply uint64_idem|lia].
  eapply running_sub; [exact Hr|lia..].
Qed.

(** A share's size is the whole of its files or missing: whenever the walk returns a size it
    is the sum over every file below the path that can be seen (modulo 2^64), however many
    entries or directories are unreadable and whenever the context ends; and it does return
    one unless the context is done at one of the checks, every hundred entries. *)
Theorem dir_size_spec cancelled n :
  (forall s, dirSize cancelled (Some n) = Some s -> s = uint64 (sum (sizes n))) /\
  (running cancelled 0 (visits n) -> dirSize cancelled (Some n) = Some (uint64 (sum (sizes n)))).
Proof.
  assert (forall s, dirSize cancelled (Some n) = Some s -> s = uint64 (sum (sizes n))) as Hs.
  { intros s Hs. unfold dirSize in Hs. cbn [mbind option_bind] in Hs. apply fmap_Some in Hs as (w & Hw & ->).
    apply walk_some in Hw as [-> _]; done. }
  split; [done|]. intros Hr. destruct (walk_running cancelled n (mkWalk 0 0)) as [w Hw]; [done|done|].
  destruct (dirSize cancelled (Some n)) as [s|] eqn:E; [by rewrite (Hs s)|].
  unfold dirSize in E. cbn [mbind option_bind] in E. by rewrite Hw in E.
Qed.

Lemma paths_named smb exports : map_Forall (fun id _ => id <> "") (Shares.Paths smb exports).
Proof.
  assert (forall items m, Forall (fun it => ii_ID it <> "") items -> map_Forall (fun id _ => id <> "") m ->
    map_Forall (fun id _ => id <> "") (fold_left Shares.add_path items m)) as Hf.
  { induction items as [|it items IH]; intros m Hi Hm; [done|]. apply Forall_cons in Hi as [Hit Hi]. cbn [fold_left]. apply IH; [done|].
    unfold Shares.add_path. destruct (ii_Attrs it !! "path"); [|done]. by apply map_Forall_insert_2. }
  unfold Shares.Paths. repeat apply Hf; try apply Valid.unless_failed_ids; [apply Shares.exports_ids|apply Shares.samba_ids|apply map_Forall_empty].
Qed.

(** The share usage inventory has one entry per share whose walk succeeds, with that size,
    and is valid whatever the configuration files hold. *)
Theorem share_usage_spec hostID now smb exports tree cancelled inv :
  hostID <> "" -> is_zero now = false -> Collect None hostID now smb exports tree cancelled = Ok inv ->
  Inventory_Validate inv = Ok tt /\
  forall it, it ∈ inv_Items inv <-> exists id path size, Shares.Paths smb exports !! id = Some path /\
    dirSize (cancelled path) (tree path) = Some size /\ it = usage_item now id size.
Proof.
  intros Hh Hn Hc. assert (forall it, it ∈ inv_Items inv <-> exists id path size, Shares.Paths smb exports !! id = Some path /\
    dirSize (cancelled path) (tree path) = Some size /\ it = usage_item now id size) as Hm.
  { intros it. injection Hc as <-. cbn [inv_Items]. rewrite list_elem_of_omap. split.
    - intros ([id path] & Hin%elem_of_map_to_list & He). apply fmap_Some in He as (size & Hs & ->). by exists id, path, size.
    - intros (id & path & size & Hp & Hs & ->). exists (id, path). split; [by apply elem_of_map_to_list|]. cbn. by rewrite Hs. }
  split; [|done]. eapply Valid.snapshot_valid; [exact Hh| |exact Hn| |exact Hc]; [done|].
  injection Hc as <-. apply Forall_forall. intros it (id & path & size & Hp & _ & ->)%Hm. apply (paths_named _ _ _ _ Hp).
Qed.

End collect.

Definition never (_ : nat) : bool := false.
Definition demo_share : node := Dir false [File (Some 100); Dir true [File (Some 20)]; File None].

Lemma dir_size_spec_witness : dirSize never (Some demo_share) = Some (uint64 120).
Proof. by apply (dir_size_spec never demo_share). Defined.

Definition demo_rfc3339 (_ : Z) : string := "2026-07-01T00:00:00Z".
Definition demo_smb : string := "[media]" ++ String newline "path = /mnt/media".

Lemma share_usage_spec_witness :
  match Collect demo_rfc3339 None "h1" 5 (Some demo_smb) None (fun _ => Some demo_share) (fun _ => never) with
  | Ok inv => Inventory_Validate inv = Ok tt
  | Err _ => False
  end.
Proof.
  destruct (Collect demo_rfc3339 None "h1" 5 (Some demo_smb) None (fun _ => Some demo_share) (fun _ => never)) as [inv|] eqn:E; [|done].
  by apply (share_usage_spec demo_rfc3339 "h1" 5 (Some demo_smb) None (fun _ => Some demo_share) (fun _ => never)).
Defined.

Example usage_demo :
  (fun it => (ii_ID it, ii_Attrs it !! "used_bytes")) <$>
    match Collect demo_rfc3339 None "h1" 5 (Some demo_smb) None (fun _ => Some demo_share) (fun _ => never) with Ok inv => inv_Items inv | Err _ => [] end
  = [("media", Some "120")].
Proof. vm_compute. done. Qed.

(** The context is looked at every hundredth entry only: a share with fewer is measured even
    after the collector's time is up. *)
Example short_walk_ignores_cancellation : dirSize (fun _ => true) (Some demo_share) = Some 120.
Proof. vm_compute. done. Qed.

(** A path that is a symbolic link is walked as the link it is: the share's size is the length
    of the link's target. *)
Definition link (target : string) : node := File (Some (Z.of_nat (String.length target))).
Example symlinked_share : dirSize never (Some (link "/mnt/disk1/media")) = Some 16.
Proof. vm_compute. done. Qed.

End ShareUsage.
