(* ===== verification/CollectorInit.v ===== *)
(** * CollectorInit: the collectors as the registry sees them

    Models the part of the Collector interface (internal/collector/collector.go) each
    collector under internal/collector implements before its first collection: its name,
    the capabilities it requires, and what Init makes of the configuration. The interface
    is a class, with an instance for each collector of the agent. A configuration is its
    string entries; an entry of another type counts as absent, as the type assertions of
    the collectors treat it. *)

From stdpp Require Import base gmap strings list.
From Stdlib Require Import ZArith Lia Ascii.
From S2P Require Import Prelude GoStd GoConv GoIO Schema AtomicFile Collector Inventories LogStore AgentBuffer Wire Transport AgentHub Capabilities Journal HostSurvey.
Import GoString GoConv GoTime.

Local Open Scope string_scope.
Local Open Scope Z_scope.

Module CollectorInit.

Record HostInfo := mkHostInfo { hi_ID : string; hi_Hostname : string }.
Abbreviation Config := (gmap string string) (only parsing).

(** what Init finds on the host: whether procfs.NewFS accepts a mount point, whether a path
    exists, and the disk and journal the journald collector opens *)
Record World := mkWorld {
  w_procfs : string -> bool; w_exists : string -> bool;
  w_disk : gmap string AtomicFile.file * list AtomicFile.fault; w_journal : string -> option nat }.

Class Collects (C : Type) := mkCollects {
  c_Name : string;
  c_Requires : list string;
  c_New : C;
  c_Init : World -> Config -> option HostInfo -> C -> result string C;
}.

(** c.hostID, kept when there is no host *)
Definition host_or (host : option HostInfo) (old : string) : string := from_option hi_ID old host.

(** cfg[key].(string) when it is not empty *)
Definition nonempty (cfg : Config) (key : string) : option string :=
  match cfg !! key with Some v => if bool_decide (v = "") then None else Some v | None => None end.

Module Cpu.
Record Collector := mkCollector { fs : option string }.
Definition Init (w : World) (cfg : Config) (host : option HostInfo) (c : Collector) : result string Collector :=
  let mountPoint := default "/proc" (nonempty cfg "procfs_path") in
  if w_procfs w mountPoint then Ok (mkCollector (Some mountPoint)) else Err ("opening procfs at " ++ mountPoint).
#[global] Instance collects : Collects Collector := mkCollects _ "cpu" [] (mkCollector None) Init.
End Cpu.

Module Memory.
Record Collector := mkCollector { fs : option string }.
Definition Init (w : World) (cfg : Config) (host : option HostInfo) (c : Collector) : result string Collector :=
  let mountPoint := default "/proc" (nonempty cfg "procfs_path") in
  if w_procfs w mountPoint then Ok (mkCollector (Some mountPoint)) else Err ("opening procfs at " ++ mountPoint).
#[global] Instance collects : Collects Collector := mkCollects _ "memory" [] (mkCollector None) Init.
End Memory.

Module Network.
Definition defaultProcNetDev : string := "/proc/net/dev".
Definition defaultSpoolDir : string := "/var/lib/bitacora/spool".
Record Collector := mkCollector { procNetDev : string; spoolDir : string; hostID : string }.
Definition configuredPath : Config -> string -> string -> string := Inventories.configuredPath.
Definition Init (w : World) (cfg : Config) (host : option HostInfo) (c : Collector) : result string Collector :=
  Ok (mkCollector (configuredPath cfg "proc_net_dev" defaultProcNetDev) (configuredPath cfg "spool_dir" defaultSpoolDir)
        (host_or host (hostID c))).
#[global] Instance collects : Collects Collector := mkCollects _ "network" [] (mkCollector "" "" "") Init.
End Network.

Module Docker.
Definition DefaultCgroupRoot : string := "/sys/fs/cgroup/system.slice".
(** a metadata client is its base URL *)
Definition NewMetadataClient (baseURL : string) : string := trim_suffix baseURL "/".
Record Collector := mkCollector { cgroupRoot : string; metadata : option string }.
Definition Init (w : World) (cfg : Config) (host : option HostInfo) (c : Collector) : result string Collector :=
  Ok (mkCollector (default DefaultCgroupRoot (nonempty cfg "cgroup_root"))
        (match nonempty cfg "docker_socket_proxy_url" with Some v => Some (NewMetadataClient v) | None => metadata c end)).
#[global] Instance collects : Collects Collector :=
  mkCollects _ "docker" [Capabilities.ContainerCgroupv2] (mkCollector "" None) Init.
End Docker.

Module Journald.
Definition DefaultCursorPath : string := "/var/lib/bitacora/journald.cursor".
Record Collector := mkCollector { reader : option Journal.Collector; hostID : string }.
Definition Init (w : World) (cfg : Config) (host : option HostInfo) (c : Collector) : result string Collector :=
  let id := host_or host (hostID c) in
  match (Journal.Init (w_journal w) (default DefaultCursorPath (nonempty cfg "cursor_path")) id (w_disk w)).1 with
  | AtomicFile.Ret r => Ok (mkCollector (Some r) id)
  | AtomicFile.Fail op => Err op
  | AtomicFile.Crashed => Err ""
  end.
(** Close, [close_ok] being the reader's; whether it returns without an error *)
Definition Close (close_ok : bool) (c : Collector) : bool :=
  match reader c with None => true | Some _ => close_ok end.
#[global] Instance collects : Collects Collector :=
  mkCollects _ "journald" [Capabilities.LogsJournald] (mkCollector None "") Init.
End Journald.

Module PublicSurface.
#[global] Instance collects : Collects HostSurvey.PublicSurface.Collector :=
  mkCollects _ "public_surface" [Capabilities.PublicExposed] (HostSurvey.PublicSurface.mkCollector "" "" "" "")
    (fun w cfg _ _ => Ok (HostSurvey.PublicSurface.Init (w_exists w) cfg)).
End PublicSurface.

Module Shares.
Definition defaultSambaConf : string := "/etc/samba/smb.conf".
Definition defaultExportsFile : string := "/etc/exports".
Record Collector := mkCollector { sambaConf : string; exportsFile : string; hostID : string }.
Definition Init (w : World) (cfg : Config) (host : option HostInfo) (c : Collector) : result string Collector :=
  Ok (mkCollector (default defaultSambaConf (nonempty cfg "samba_conf")) (default defaultExportsFile (nonempty cfg "exports_file"))
        (host_or host (hostID c))).
#[global] Instance collects : Collects Collector := mkCollects _ "shares" [] (mkCollector "" "" "") Init.
End Shares.

Module Users.
Definition defaultPasswdFile : string := "/etc/passwd".
Definition defaultLoginDefs : string := "/etc/login.defs".
Definition defaultSambaConf : string := "/etc/samba/smb.conf".
Record Collector := mkCollector { passwdFile : string; loginDefs : string; sambaConf : string; hostID : string }.
Definition configuredPath : Config -> string -> string -> string := Inventories.configuredPath.
Definition Init (w : World) (cfg : Config) (host : option HostInfo) (c : Collector) : result string Collector :=
  Ok (mkCollector (configuredPath cfg "passwd_file" defaultPasswdFile) (configuredPath cfg "login_defs" defaultLoginDefs)
        (configuredPath cfg "samba_conf" defaultSambaConf) (host_or host (hostID c))).
#[global] Instance collects : Collects Collector := mkCollects _ "users" [] (mkCollector "" "" "" "") Init.
End Users.

Module Ups.
Definition defaultAddr : string := "127.0.0.1:3493".
Definition dialTimeout : Duration := 3 * second.
Definition requestTimeout : Duration := 5 * second.
Record Collector := mkCollector { addr : string; hostID : string; dial : Duration }.
Definition New : Collector := mkCollector "" "" dialTimeout.
Definition Init (w : World) (cfg : Config) (host : option HostInfo) (c : Collector) : result string Collector :=
  Ok (mkCollector (default defaultAddr (nonempty cfg "nut_addr")) (host_or host (hostID c)) (dial c)).
#[global] Instance collects : Collects Collector := mkCollects _ "ups" [Capabilities.PowerUPS] New Init.
End Ups.

Module HwIdentity.
Definition defaultSysRoot : string := "/sys".
Definition defaultProcRoot : string := "/proc".
Record Collector := mkCollector { sysRoot : string; procRoot : string; hostID : string }.
Definition configuredPath : Config -> string -> string -> string := Inventories.configuredPath.
Definition Init (w : World) (cfg : Config) (host : option HostInfo) (c : Collector) : result string Collector :=
  Ok (mkCollector (configuredPath cfg "sys_root" defaultSysRoot) (configuredPath cfg "proc_root" defaultProcRoot)
        (host_or host (hostID c))).
#[global] Instance collects : Collects Collector := mkCollects _ "hwidentity" [] (mkCollector "" "" "") Init.
End HwIdentity.

Module DiskArray.
Definition defaultMountsFile : string := "/proc/mounts".
Definition defaultSpoolDir : string := "/var/lib/bitacora/spool".
Record Collector := mkCollector { mountsFile : string; spoolDir : string; hostID : string }.
Definition configuredPath : Config -> string -> string -> string := Inventories.configuredPath.
Definition Init (w : World) (cfg : Config) (host : option HostInfo) (c : Collector) : result string Collector :=
  Ok (mkCollector (configuredPath cfg "mounts_file" defaultMountsFile) (configuredPath cfg "spool_dir" defaultSpoolDir)
        (host_or host (hostID c))).
#[global] Instance collects : Collects Collector := mkCollects _ "diskarray" [] (mkCollector "" "" "") Init.
End DiskArray.

Module ShareUsage.
Definition defaultSambaConf : string := "/etc/samba/smb.conf".
Definition defaultExportsFile : string := "/etc/exports".
Record Collector := mkCollector { sambaConf : string; exportsFile : string; hostID : string }.
Definition configuredPath : Config -> string -> string -> string := Inventories.configuredPath.
Definition Init (w : World) (cfg : Config) (host : option HostInfo) (c : Collector) : result string Collector :=
  Ok (mkCollector (configuredPath cfg "samba_conf" defaultSambaConf) (configuredPath cfg "exports_file" defaultExportsFile)
        (host_or host (hostID c))).
#[global] Instance collects : Collects Collector := mkCollects _ "shareusage" [] (mkCollector "" "" "") Init.
End ShareUsage.

Module PkgUpdates.
Definition defaultDpkgStatus : string := "/var/lib/dpkg/status".
Definition defaultAptListsDir : string := "/var/lib/apt/lists".
Definition defaultSpoolDir : string := "/var/lib/bitacora/spool".
Definition defaultUnraidPluginsDir : string := "/boot/config/plugins".
Record Collector := mkCollector {
  dpkgStatus : string; aptListsDir : string; spoolDir : string; unraidPluginsDir : string; dockerMetadataURL : string;
  httpTimeout : Duration; hostID : string }.
Definition New : Collector := mkCollector "" "" "" "" "" (10 * second) "".
Definition configuredPath : Config -> string -> string -> string := Inventories.configuredPath.
Definition Init (w : World) (cfg : Config) (host : option HostInfo) (c : Collector) : result string Collector :=
  Ok (mkCollector (configuredPath cfg "dpkg_status" defaultDpkgStatus) (configuredPath cfg "apt_lists_dir" defaultAptListsDir)
        (configuredPath cfg "spool_dir" defaultSpoolDir) (configuredPath cfg "unraid_plugins_dir" defaultUnraidPluginsDir)
        (default (dockerMetadataURL c) (cfg !! "docker_socket_proxy_url")) (httpTimeout c) (host_or host (hostID c))).
#[global] Instance collects : Collects Collector := mkCollects _ "pkgupdates" [] New Init.
End PkgUpdates.

(** internal/collector/example, the reference implementation; the agent does not register it *)
Module ExampleCollector.
Record Collector := mkCollector { hostID : string; ticks : Z }.
Definition New : Collector := mkCollector "" 0.
Definition Init (w : World) (cfg : Config) (host : option HostInfo) (c : Collector) : result string Collector :=
  Ok (mkCollector (host_or host (hostID c)) (ticks c)).
#[global] Instance collects : Collects Collector := mkCollects _ "example" [] New Init.

Definition tick_event (hostID : string) (ticks : Z) (now : Time) : Schema.Event :=
  Schema.mkEvent ("example-" ++ GoIO.Itoa ticks) now 0 hostID "example" "example.tick" Schema.SeverityInfo "example collector ticked"
    Schema.no_subject ∅ "" [] Schema.CurrentSchemaVersion.

(** what the sink receives, and the collector afterwards; [ctx_err] is the error of a
    context that is done *)
Definition Collect (ctx_err : option string) (now : Time) (c : Collector) : result string (list Sink.report) * Collector :=
  match ctx_err with
  | Some e => (Err e, c)
  | None =>
      let ticks := int64 (ticks c + 1) in
      (Ok [Sink.RCounter "bitacora_example_ticks_total" (GoFloat.f_of_Z ticks) {["collector" := c_Name (C := Collector)]};
           Sink.REvent (tick_event (hostID c) ticks now)],
       mkCollector (hostID c) ticks)
  end.

(** Every collection gives a valid event, as long as the collector knows its host. *)
Lemma tick_valid now c reports c' e :
  Collect None now c = (Ok reports, c') -> Sink.REvent e ∈ reports -> hostID c <> "" -> GoTime.is_zero now = false ->
  Schema.Event_Validate e = Ok tt.
Proof.
  intros [= <- <-] Hin Hh Hn. apply elem_of_cons in Hin as [[=]|Hin]. apply list_elem_of_singleton in Hin as [= ->].
  unfold Schema.Event_Validate, tick_event. cbn [Schema.e_ID Schema.e_HostID Schema.e_TS].
  rewrite bool_decide_eq_false_2 by done. by rewrite (bool_decide_eq_false_2 (hostID c = "")), Hn by done.
Qed.

(** The count, and with it the ids, starts again with the process: the first event after a
    restart has the id of the first event ever, and the store keeps only one of them. *)
Example ids_repeat_after_restart w host now now' :
  let started := match Init w ∅ (Some host) New with Ok c => c | Err _ => New end in
  Collect None now started = (Ok [Sink.RCounter "bitacora_example_ticks_total" (GoFloat.f_of_Z 1) {["collector" := "example"]};
                                  Sink.REvent (tick_event (hi_ID host) 1 now)], mkCollector (hi_ID host) 1) /\
  Schema.e_ID (tick_event (hi_ID host) 1 now) = Schema.e_ID (tick_event (hi_ID host) 1 now') /\
  Schema.e_ID (tick_event (hi_ID host) 1 now) = "example-1".
Proof. done. Qed.
End ExampleCollector.

(** ** Registering a collector *)

(** what the registry does with a collector: its Init with the agent's configuration *)
Definition as_registered {C : Type} `{Collects C} (w : World) (cfg : Config) (host : option HostInfo) : Registry.Collector :=
  Registry.mkCollector (c_Name (C := C)) (c_Requires (C := C))
    (match c_Init (C := C) w cfg host c_New with Ok _ => None | Err e => Some e end).

End CollectorInit.
