(* ===== verification/Agent.v ===== *)
(** * Agent: the agent program

    Models cmd/bitacora-agent/main.go (its configuration, the collectors it registers, its
    start-up) and EmitDisabledEvents of internal/collector/registry.go. main is the
    composition of the components: the host id of Spool, Detect of Capabilities, Open of
    AgentBuffer, the sink and client of AgentHub, Resolve of Collector with the collectors
    of CollectorInit. *)

From stdpp Require Import base gmap strings list.
From Stdlib Require Import ZArith Lia Ascii.
From S2P Require Import Prelude GoStd GoConv GoIO GoFlag Schema AgentBuffer AgentBufferSpec AgentBufferDemo AtomicFile Spool Collector CollectRun Wire Transport AgentHub Inventories LogStore Capabilities Journal HostSurvey CollectorInit.
Import GoString GoConv GoTime Schema CollectorInit.

Local Open Scope string_scope.
Local Open Scope Z_scope.

(** ** %q of fmt, on ASCII *)
Module Quote.

Definition dquote : ascii := "034"%char.
Definition backslash : ascii := "092"%char.

Definition hex_digit (z : Z) : ascii := ascii_of_nat (Z.to_nat (if z <? 10 then 48 + z else 87 + z)).

Definition escape (c : ascii) : string :=
  let z := byte_of c in
  if bool_decide (c = dquote) || bool_decide (c = backslash) then String backslash (String c "")
  else if z =? 7 then String backslash "a" else if z =? 8 then String backslash "b"
  else if z =? 9 then String backslash "t" else if z =? 10 then String backslash "n"
  else if z =? 11 then String backslash "v" else if z =? 12 then String backslash "f"
  else if z =? 13 then String backslash "r"
  else if (z <? 32) || (z =? 127) then String backslash (String "x" (String (hex_digit (z / 16)) (String (hex_digit (z mod 16)) "")))
  else String c "".

Fixpoint escape_all (s : string) : string :=
  match s with "" => "" | String c rest => escape c ++ escape_all rest end.

Definition quote (s : string) : string := String dquote (escape_all s ++ String dquote "").

End Quote.

Module Agent.
Import Registry.

(** ** Configuration *)

Record config := mkConfig { hubURL : string; token : string; tokenFile : string; spoolDir : string }.

(** the command line: [None] when a flag is not given *)
Record flags := mkFlags { f_hub_url : option string; f_token_file : option string; f_spool_dir : option string }.

Definition DefaultOutboundDir : string := "/var/lib/bitacora/spool/outbound".

Definition flag_set : GoFlag.FlagSet flags :=
  GoFlag.mkFlagSet (fun name => bool_decide (name ∈ ["hub-url"; "token-file"; "spool-dir"]))
    (fun name v f => Some (if bool_decide (name = "hub-url") then mkFlags (Some v) (f_token_file f) (f_spool_dir f)
                           else if bool_decide (name = "token-file") then mkFlags (f_hub_url f) (Some v) (f_spool_dir f)
                           else mkFlags (f_hub_url f) (f_token_file f) (Some v))).

(** flag.Parse: it exits with 2 on an error and with 0 after printing help *)
Definition parseFlags (args : list string) : Z + flags :=
  match GoFlag.Parse flag_set args (mkFlags None None None) with
  | Ok (f, _) => inr f
  | Err GoFlag.ErrHelp => inl 0
  | Err _ => inl 2
  end.

Inductive ConfigError := ErrReadingToken (path : string) | ErrTokenRequired.

Section config.
Context (getenv : string -> string) (read_file : string -> option string).

Definition readToken (path fallback : string) : result ConfigError string :=
  if bool_decide (path = "") then Ok (TrimSpace fallback)
  else match read_file path with
       | None => Err (ErrReadingToken path)
       | Some data => Ok (TrimSpace data)
       end.

Definition parseConfig (f : flags) : result ConfigError config :=
  let hubURL := default (getenv "BITACORA_HUB_URL") (f_hub_url f) in
  let tokenFile := default (getenv "BITACORA_TOKEN_FILE") (f_token_file f) in
  let spoolDir := default DefaultOutboundDir (f_spool_dir f) in
  match readToken tokenFile (getenv "BITACORA_TOKEN") with
  | Err e => Err e
  | Ok token =>
      if negb (bool_decide (hubURL = "")) && bool_decide (token = "") then Err ErrTokenRequired
      else Ok (mkConfig hubURL token tokenFile spoolDir)
  end.

End config.

(** ** The registry *)

Definition buildRegistry (w : World) (cfg : gmap string string) (host : option HostInfo) : list registryItem :=
  let reg := Register [] (as_registered (C := Cpu.Collector) w cfg host) (10 * second) (5 * second) in
  let reg := Register reg (as_registered (C := Memory.Collector) w cfg host) (10 * second) (5 * second) in
  let reg := Register reg (as_registered (C := Network.Collector) w cfg host) (30 * second) (10 * second) in
  let reg := Register reg (as_registered (C := Docker.Collector) w cfg host) (30 * second) (10 * second) in
  let reg := Register reg (as_registered (C := Journald.Collector) w cfg host) (10 * second) (5 * second) in
  let reg := Register reg (as_registered (C := HostSurvey.PublicSurface.Collector) w cfg host) (5 * minute) (30 * second) in
  let reg := Register reg (as_registered (C := Shares.Collector) w cfg host) (5 * minute) (10 * second) in
  let reg := Register reg (as_registered (C := Users.Collector) w cfg host) (5 * minute) (10 * second) in
  let reg := Register reg (as_registered (C := Ups.Collector) w cfg host) minute (10 * second) in
  let reg := Register reg (as_registered (C := HwIdentity.Collector) w cfg host) (5 * minute) (10 * second) in
  let reg := Register reg (as_registered (C := DiskArray.Collector) w cfg host) (5 * minute) (10 * second) in
  let reg := Register reg (as_registered (C := ShareUsage.Collector) w cfg host) (24 * hour) minute in
  Register reg (as_registered (C := PkgUpdates.Collector) w cfg host) (6 * hour) (2 * minute).

(** ** EmitDisabledEvents *)

Definition disabledEventType : string := "agent.collector_disabled".

Definition reason_text (r : Reason) : string :=
  match r with
  | MissingCapability c => "missing capability " ++ Quote.quote c
  | InitFailed err => "init failed: " ++ err
  end.

(** [ulid k] is the k-th id drawn *)
Definition disabled_event (ulid : string) (hostID : string) (now : Time) (d : Disabled) : Event :=
  mkEvent ulid now 0 hostID "agent" disabledEventType SeverityInfo
    ("collector " ++ Quote.quote (d_Name d) ++ " disabled: " ++ reason_text (d_Reason d))
    no_subject (<["collector" := d_Name d]> {["reason" := reason_text (d_Reason d)]}) "" [] CurrentSchemaVersion.

(** what the sink is given, in order *)
Definition EmitDisabledEvents (ulid : nat -> string) (hostID : string) (disabled : list Disabled) (now : Time) : list Sink.report :=
  imap (fun k d => Sink.REvent (disabled_event (ulid k) hostID now d)) disabled.

(** ** main *)

(** Start: one scheduler per registration, each on a ticker of its own interval *)
Definition Start (regs : list Registration) : list (Registration * CollectRun.sched) :=
  (fun reg => (reg, CollectRun.begin (rg_Interval reg))) <$> regs.

(** what the system gives the program *)
Record Boot := mkBoot {
  bt_getenv : string -> string; bt_args : list string; bt_read_file : string -> option string;
  bt_hostname : option string; bt_GOOS : string; bt_GOARCH : string; bt_now : Time; bt_now' : Time;
  bt_host : Capabilities.Host; bt_world : World; bt_ulid : nat -> string;
  bt_hostid_tmp : string; bt_hostid_ulid : option string; bt_disk : gmap string AtomicFile.file * list AtomicFile.fault }.

Definition agentVersion : string := "dev".

(** the running agent: where it sends, which manifest it reported, what it runs, and the
    sink's items made at start-up *)
Record Running := mkRunning {
  ag_config : config; ag_host : HostInfo; ag_manifest : Capabilities.Manifest; ag_reported : bool;
  ag_client : option Client.Client; ag_schedulers : list (Registration * CollectRun.sched);
  ag_disabled : list Disabled; ag_items : list AgentBuffer.Item }.

(** reportManifest sends only when a hub is configured; a failure is printed *)
Definition reportManifest (m : Capabilities.Manifest) (cfg : config) : option (Client.Client * Capabilities.Manifest) :=
  if bool_decide (hubURL cfg = "") then None else Some (Client.mkClient (hubURL cfg) (token cfg), m).

(** detectCfg.PubliclyExposed = exposed *)
Definition with_exposed (c : Capabilities.Config) (exposed : bool) : Capabilities.Config :=
  Capabilities.mkConfig
    (Capabilities.Root c) (Capabilities.SystemdDirs c) (Capabilities.JournaldDirs c) (Capabilities.SyslogFiles c) (Capabilities.DpkgStatus c)
    (Capabilities.RPMDBDir c) (Capabilities.SmartctlPaths c) (Capabilities.MdstatPath c) (Capabilities.SnapraidConf c) (Capabilities.ProcMounts c)
    (Capabilities.UnraidMdcmd c) (Capabilities.HwmonDir c) (Capabilities.EdacDir c) (Capabilities.RasdaemonPaths c) (Capabilities.PstoreDir c)
    (Capabilities.DockerSocket c) (Capabilities.CgroupV2Marker c) (Capabilities.TailscaleSocket c) (Capabilities.SelinuxDir c) (Capabilities.SelinuxEnforce c)
    (Capabilities.ApparmorDir c) (Capabilities.OSReleasePath c) (Capabilities.KernelPath c) (Capabilities.SambaConf c) (Capabilities.ExportsFile c)
    (Capabilities.LibvirtSocket c) (Capabilities.WireguardDir c) (Capabilities.WireguardModule c) (Capabilities.NUTConf c) (Capabilities.ApcupsdConf c) exposed.

(** main up to the wait for a signal: the exit code, or the running agent; [buffer_ok] is
    whether the outbound buffer opens *)
Definition main (b : Boot) (buffer_ok : bool) : Z + Running :=
  match parseFlags (bt_args b) with
  | inl code => inl code
  | inr f =>
  match parseConfig (bt_getenv b) (bt_read_file b) f with
  | Err _ => inl 2
  | Ok cfg =>
      match (HostId.LoadOrCreateHostID HostId.DefaultHostIDPath (bt_hostid_tmp b) (bt_hostid_ulid b) (bt_disk b)).1 with
      | AtomicFile.Fail _ | AtomicFile.Crashed => inl 1
      | AtomicFile.Ret hostID =>
          let hostname := default "unknown" (bt_hostname b) in
          let host := mkHostInfo hostID hostname in
          let detectCfg := with_exposed Capabilities.DefaultConfig (bool_decide (bt_getenv b "BITACORA_PUBLIC_EXPOSED" = "1")) in
          let manifest := Capabilities.Detect (bt_host b) detectCfg (bt_GOOS b) (bt_GOARCH b) hostID hostname agentVersion (bt_now b) in
          let reported := match reportManifest manifest cfg with Some _ => true | None => false end in
          if negb buffer_ok then inl 1
          else
            let client := if bool_decide (hubURL cfg = "") then None else Some (Client.mkClient (hubURL cfg) (token cfg)) in
            let '(regs, disabled, _) := Resolve (buildRegistry (bt_world b) ∅ (Some host)) (Capabilities.manifest_Available manifest) in
            let items := concat (Sink.sink_items hostID (bt_now' b) <$> EmitDisabledEvents (bt_ulid b) hostID disabled (bt_now' b)) in
            inr (mkRunning cfg host manifest reported client (Start regs) disabled items)
      end
  end
  end.

(** ** Properties *)

(** The agent sends only with a token: a configuration with a hub URL has one, without
    white space around it; a token file, when it is given, is used instead of the
    environment, and one that cannot be read is an error. *)
Theorem parse_config_spec getenv read_file f :
  let path := default (getenv "BITACORA_TOKEN_FILE") (f_token_file f) in
  let url := default (getenv "BITACORA_HUB_URL") (f_hub_url f) in
  let raw := if bool_decide (path = "") then Some (getenv "BITACORA_TOKEN") else read_file path in
  parseConfig getenv read_file f =
  match raw with
  | None => Err (ErrReadingToken path)
  | Some raw =>
      if bool_decide (url <> "" /\ TrimSpace raw = "") then Err ErrTokenRequired
      else Ok (mkConfig url (TrimSpace raw) path (default DefaultOutboundDir (f_spool_dir f)))
  end.
Proof.
  intros path url raw. unfold parseConfig, readToken. fold path url. subst raw.
  assert (forall t, negb (bool_decide (url = "")) && bool_decide (t = "") = bool_decide (url <> "" /\ t = "")) as Hb.
  { intros t. repeat case_bool_decide; naive_solver. }
  destruct (bool_decide (path = "")); [by rewrite Hb|]. destruct (read_file path); [by rewrite Hb|done].
Qed.

(** the registry: names, intervals and timeouts, in the order of registration *)
Definition schedule : list (string * Duration * Duration) :=
  [("cpu", 10 * second, 5 * second); ("memory", 10 * second, 5 * second); ("network", 30 * second, 10 * second);
   ("docker", 30 * second, 10 * second); ("journald", 10 * second, 5 * second); ("public_surface", 5 * minute, 30 * second);
   ("shares", 5 * minute, 10 * second); ("users", 5 * minute, 10 * second); ("ups", minute, 10 * second);
   ("hwidentity", 5 * minute, 10 * second); ("diskarray", 5 * minute, 10 * second); ("shareusage", 24 * hour, minute);
   ("pkgupdates", 6 * hour, 2 * minute)].

Lemma registry_schedule w cfg host :
  (fun it => (Name (collector it), interval it, timeout it)) <$> buildRegistry w cfg host = schedule.
Proof. reflexivity. Qed.

(** Every collector of the agent has a name of its own, and the timeout it is registered
    with: the limit of 80 per cent of the interval is never the smaller one, so a
    collection always ends before its next tick is due. *)
Theorem agent_timeouts_effective w cfg host :
  NoDup ((fun it => Name (collector it)) <$> buildRegistry w cfg host) /\
  Forall (fun it => Runtime.effectiveTimeout (interval it) (timeout it) = timeout it /\ 0 < timeout it < interval it)
    (buildRegistry w cfg host).
Proof.
  split.
  - change ((fun it => Name (collector it)) <$> buildRegistry w cfg host) with ((fun x => x.1.1) <$> schedule).
    apply (bool_decide_eq_true_1 _). vm_compute. done.
  - assert (Forall (fun x => Runtime.effectiveTimeout x.1.2 x.2 = x.2 /\ 0 < x.2 < x.1.2) schedule) as Hs.
    { repeat (apply Forall_cons; split; [by vm_compute|]). by apply Forall_nil. }
    rewrite <- (registry_schedule w cfg host), Forall_fmap in Hs. exact Hs.
Qed.

(** With the empty configuration the agent passes, a collector can fail to start only
    because /proc cannot be opened or because of the journal. *)
Theorem agent_init_failures w host it :
  it ∈ buildRegistry w ∅ host -> is_Some (Init (collector it)) ->
  (Name (collector it) = "cpu" \/ Name (collector it) = "memory") /\ w_procfs w "/proc" = false \/
  Name (collector it) = "journald".
Proof.
  unfold buildRegistry, Register. cbn [app]. rewrite !elem_of_cons, elem_of_nil.
  intros Hit [e He].
  repeat (destruct Hit as [->|Hit]; [try done|]); try done; cbn in He; [left|left|by right];
    (split; [tauto|]); revert He; unfold Cpu.Init, Memory.Init, nonempty; rewrite lookup_empty; cbn; by destruct (w_procfs w "/proc").
Qed.

(** the docker metadata of the docker and pkgupdates collectors needs a proxy URL, which
    the empty configuration does not have *)
Example docker_metadata_off w host :
  Docker.Init w ∅ host c_New = Ok (Docker.mkCollector Docker.DefaultCgroupRoot None) /\
  exists c, PkgUpdates.Init w ∅ host PkgUpdates.New = Ok c /\ PkgUpdates.dockerMetadataURL c = "".
Proof. split; [done|]. eexists. by split. Qed.

Lemma disabled_event_valid ulid hostID now d :
  ulid <> "" -> hostID <> "" -> is_zero now = false -> Event_Validate (disabled_event ulid hostID now d) = Ok tt.
Proof.
  intros Hu Hh Hn. unfold Event_Validate, disabled_event. cbn [e_ID e_HostID e_TS e_Source e_Type e_Severity e_Title e_Schema].
  rewrite (bool_decide_eq_false_2 (ulid = "")), (bool_decide_eq_false_2 (hostID = "")), Hn by done. done.
Qed.

(** C23: When the agent starts, every one of its collectors either has a scheduler, on its
    registered interval, because the host has what it requires and its Init succeeded, or
    is disabled, in registration order; for each disabled collector the sink receives one
    event that names it and that the hub will accept; and the agent sends anything, its
    manifest included, only to a configured hub with a non-empty token. *)
Theorem agent_startup b a :
  main b true = inr a ->
  (forall k, bt_ulid b k <> "") -> hi_ID (ag_host a) <> "" -> is_zero (bt_now' b) = false ->
  let reg := buildRegistry (bt_world b) ∅ (Some (ag_host a)) in
  let runs it := supported (Capabilities.manifest_Available (ag_manifest a)) it && starts it in
  ag_schedulers a = (fun it => (mkRegistration (collector it) (interval it) (timeout it), CollectRun.begin (interval it))) <$> List.filter runs reg /\
  d_Name <$> ag_disabled a = (fun it => Name (collector it)) <$> List.filter (fun it => negb (runs it)) reg /\
  length (ag_items a) = length (ag_disabled a) /\
  (forall k d, ag_disabled a !! k = Some d -> exists it e, ag_items a !! k = Some it /\ AgentBuffer.it_Event it = Some e /\
     Event_Validate e = Ok tt /\ e_HostID e = hi_ID (ag_host a) /\ e_Type e = disabledEventType /\ e_Attrs e !! "collector" = Some (d_Name d)) /\
  (ag_reported a = true <-> hubURL (ag_config a) <> "") /\
  (ag_client a <> None -> hubURL (ag_config a) <> "" /\ token (ag_config a) <> "").
Proof.
  unfold main. destruct (parseFlags _) as [|f]; [done|]. destruct (parseConfig _ _ _) as [cfg|] eqn:Hcfg; [|done].
  destruct (HostId.LoadOrCreateHostID _ _ _ _).1 as [hostID| |]; [|done|done]. cbn [negb].
  set (manifest := Capabilities.Detect _ _ _ _ _ _ _ _). clearbody manifest. set (host := mkHostInfo hostID _).
  pose proof (resolve_filter (buildRegistry (bt_world b) ∅ (Some host)) (Capabilities.manifest_Available manifest)) as Hres.
  destruct (Resolve _ _) as [[regs disabled] inits]. destruct Hres as (-> & Hdis & _).
  intros Ha Hul Hid Hnow. apply (inj inr) in Ha as <-.
  cbn [ag_host ag_manifest ag_schedulers ag_disabled ag_items ag_reported ag_config ag_client hi_ID host] in *. fold host.
  assert (concat (Sink.sink_items hostID (bt_now' b) <$> EmitDisabledEvents (bt_ulid b) hostID disabled (bt_now' b)) =
          imap (fun k d => Sink.Event_ hostID (bt_now' b) (disabled_event (bt_ulid b k) hostID (bt_now' b) d)) disabled) as ->.
  { unfold EmitDisabledEvents. generalize (bt_ulid b). induction disabled as [|d disabled IH] in Hdis |- *; intros u; [done|].
    cbn [imap]. rewrite fmap_cons. cbn [concat Sink.sink_items app]. f_equal. clear. revert u.
    induction disabled as [|d disabled IH]; intros u; [done|]. cbn [imap]. rewrite fmap_cons. cbn [concat Sink.sink_items app]. f_equal.
    apply (IH (fun k => u (S k))). }
  split_and!.
  - unfold Start. by rewrite <- list_fmap_compose.
  - done.
  - apply length_imap.
  - intros k d Hk. exists (Sink.Event_ hostID (bt_now' b) (disabled_event (bt_ulid b k) hostID (bt_now' b) d)).
    eexists. split; [by rewrite list_lookup_imap, Hk|]. cbn [Sink.Event_ AgentBuffer.it_Event]. split; [done|].
    assert (Sink.fill_event hostID (bt_now' b) (disabled_event (bt_ulid b k) hostID (bt_now' b) d) =
            disabled_event (bt_ulid b k) hostID (bt_now' b) d) as ->.
    { unfold Sink.fill_event, Sink.or_now, Sink.or_host, disabled_event. cbn. rewrite Hnow, decide_False by done. done. }
    split_and!; [by apply disabled_event_valid|done..|]. cbn [disabled_event e_Attrs]. apply lookup_insert_eq.
  - unfold reportManifest. case_bool_decide; naive_solver.
  - intros Hc. case_bool_decide as Hu; [done|]. split; [done|].
    unfold parseConfig in Hcfg. destruct (readToken _ _ _) as [tok|]; [|done].
    destruct (negb _ && bool_decide (tok = "")) eqn:Hb; [done|]. injection Hcfg as <-. cbn [hubURL token] in *.
    rewrite bool_decide_eq_false_2 in Hb by done. cbn in Hb. by apply bool_decide_eq_false in Hb.
Qed.

(** *** A start on a bare host with a hub *)

Definition demo_env (name : string) : string :=
  if bool_decide (name = "BITACORA_HUB_URL") then "https://hub.example:8443"
  else if bool_decide (name = "BITACORA_TOKEN") then " btk_secret " else "".

Definition demo_boot : Boot :=
  mkBoot demo_env ["-spool-dir"; "/tmp/outbound"] (fun _ => None) (Some "nas") "linux" "amd64" 1 2
    (Capabilities.mkHost (fun _ => false) (fun _ => None) (fun _ => None))
    (mkWorld (fun _ => true) (fun _ => false) (∅, []) (fun _ => None)) (fun k => "01J8X0D" ++ GoIO.Itoa (Z.of_nat k)) ".host_id-1" None
    ({[HostId.DefaultHostIDPath := AtomicFile.whole ("01HOST" ++ String (ascii_of_nat 10) "")]}, []).

Definition demo_running : Running :=
  match main demo_boot true with inr a => a | inl _ => mkRunning (mkConfig "" "" "" "") (mkHostInfo "" "") (Capabilities.mkManifest "" "" 0 "" (Capabilities.mkOSInfo "" "" "" "" "") ∅ []) false None [] [] [] end.

Lemma agent_startup_witness :
  main demo_boot true = inr demo_running /\
  d_Name <$> ag_disabled demo_running = ["docker"; "journald"; "public_surface"; "ups"] /\
  length (ag_schedulers demo_running) = 9%nat /\ length (ag_items demo_running) = 4%nat /\
  token (ag_config demo_running) = "btk_secret" /\
  exists it e, ag_items demo_running !! 1%nat = Some it /\ AgentBuffer.it_Event it = Some e /\
    Event_Validate e = Ok tt /\ e_HostID e = "01HOST" /\ e_Attrs e !! "collector" = Some "journald".
Proof.
  assert (main demo_boot true = inr demo_running) as Hm by (vm_compute; reflexivity).
  assert (d_Name <$> ag_disabled demo_running = ["docker"; "journald"; "public_surface"; "ups"]) as Hd by (vm_compute; reflexivity).
  assert (hi_ID (ag_host demo_running) = "01HOST") as Hh by (vm_compute; reflexivity).
  assert (length (ag_schedulers demo_running) = 9%nat) as Hs by (vm_compute; reflexivity).
  assert (token (ag_config demo_running) = "btk_secret") as Ht by (vm_compute; reflexivity).
  destruct (agent_startup demo_boot demo_running Hm) as (_ & _ & Hlen & Hev & _ & _);
    [intros k; discriminate|by rewrite Hh|reflexivity|].
  split_and!; [exact Hm|exact Hd|exact Hs| |exact Ht|].
  - by rewrite Hlen, <- (length_fmap d_Name), Hd.
  - revert Hd Hev. generalize (ag_disabled demo_running). intros dl Hd Hev. apply (f_equal (fun l => l !! 1%nat)) in Hd. rewrite list_lookup_fmap in Hd.
    destruct (dl !! 1%nat) as [d|] eqn:Hd1; [|discriminate].
    destruct (Hev 1%nat d Hd1) as (it & e & H1 & H2 & H3 & H4 & _ & H6).
    exists it, e. rewrite <- Hh. injection Hd as Hd. rewrite <- Hd. by split_and!.
Defined.

(** on a system without /proc *)
Lemma agent_init_failures_witness :
  let w := mkWorld (fun _ => false) (fun _ => false) (∅, []) (fun _ => None) in
  exists it, it ∈ buildRegistry w ∅ None /\ is_Some (Init (collector it)) /\
    ((Name (collector it) = "cpu" \/ Name (collector it) = "memory") /\ w_procfs w "/proc" = false \/ Name (collector it) = "journald").
Proof.
  intros w. assert (exists it, head (buildRegistry w ∅ None) = Some it) as [it Hit] by (eexists; reflexivity).
  assert (it ∈ buildRegistry w ∅ None) as Hin by (cbn in Hit; injection Hit as <-; by left).
  assert (is_Some (Init (collector it))) as Hinit by (cbn in Hit; injection Hit as <-; by eexists).
  exists it. split; [exact Hin|]. split; [exact Hinit|]. exact (agent_init_failures w None it Hin Hinit).
Defined.

End Agent.
