(* ===== verification/Doctor.v ===== *)
(** * Doctor: the privileged helpers and the installation check

    Models internal/smarthelper and internal/vpnhelper with their commands (cmd/bitacora-smart,
    cmd/bitacora-vpn), the command of internal/dnfhelper (cmd/bitacora-dnf), internal/doctor
    and `bita doctor`. What commands print, what /sys/block
    lists, user lookups and stat are arguments; encoding/json is a parameter. The texts of
    failed checks are values of an enumerated type. *)

From stdpp Require Import base gmap strings list sorting.
From Stdlib Require Import ZArith Lia Ascii.
From S2P Require Import Prelude GoStd GoConv GoIO Schema AtomicFile Spool Samplers Inventories Packages Wire HostMetrics.
Import GoString GoConv GoIO GoTime AtomicFile.

Local Open Scope string_scope.
Local Open Scope Z_scope.

(** ** cmd/bitacora-smart and internal/smarthelper *)
Module Smart.
Import Spool.Spool.

Definition virtualDevicePrefixes : list string := ["loop"; "ram"; "sr"; "dm-"; "md"; "zram"].

Definition isVirtualDevice (name : string) : bool := existsb (fun prefix => has_prefix prefix name) virtualDevicePrefixes.

(** [entries]: the names in /sys/block *)
Definition listSysBlockDevices (entries : option (list string)) : option (list string) :=
  List.filter (fun name => negb (isVirtualDevice name)) <$> entries.

(** what `smartctl --json -a /dev/<device>` printed, and its error, if any *)
Record command := mkCommand { Output : string; Error : option string }.

Definition runSmartctl (smartctl : string -> command) (device : string) : result string string :=
  let c := smartctl device in
  match Error c with
  | None => Ok (Output c)
  | Some err => if (0 <? String.length (Output c))%nat then Ok (Output c) else Err err
  end.

Section run.
Context (json_Valid : string -> bool).

Definition query (run : string -> result string string) (acc : gmap string string * list string) (device : string) : gmap string string * list string :=
  let '(devices, errs) := acc in
  match run device with
  | Err err => (devices, errs ++ [(device ++ ": " ++ err)%string])%list
  | Ok out =>
      if negb (json_Valid out) then (devices, errs ++ [(device ++ ": smartctl did not return valid JSON")%string])%list
      else (<[device := out]> devices, errs)
  end.

(** the devices of the result, and the errors *)
Definition Run (list_ : option (list string)) (run : string -> result string string) : gmap string string * list string :=
  match list_ with
  | None => (∅, ["listing devices"])
  | Some devices => fold_left (query run) devices (∅, [])
  end.

(** *** The command: one spool entry *)

Context `{Json} (marshalResult : gmap string string -> option string).

Definition main (block : option (list string)) (smartctl : string -> command) (tmp : string) (now : Time) : M unit :=
  let '(devices, errs) := Run (listSysBlockDevices block) (runSmartctl smartctl) in
  WriteAtomic tmp "smart" 1 (marshalResult devices) now errs.



Context (decodeDevices : string -> option (gmap string string)) (decodeDevice : string -> option DiskArray.smartIdentity).

(** encoding/json: the text it made of the devices, indented in any way, decodes to documents
    of the same meaning *)
Hypothesis result_roundtrip : forall devices payload raw,
  map_Forall (fun dev _ => ascii_only dev) devices -> marshalResult devices = Some payload -> same_json payload raw ->
  exists devices', decodeDevices raw = Some devices' /\ forall k, devices' !! k ≫= decodeDevice = devices !! k ≫= decodeDevice.
Hypothesis entry_roundtrip : entry_laws.


End run.
End Smart.

Module SmartDemo.
Import Spool.Spool Smart.



(** encodings that know the values at hand *)
Global Instance Entry_eq_dec : EqDecision Entry.
Proof. solve_decision. Defined.


End SmartDemo.

(** ** cmd/bitacora-vpn and internal/vpnhelper *)
Module Vpn.
Import Spool.Spool.

(** one of the two commands: its output or its error *)
Definition captured (name : string) (out : result string string) : string * list string :=
  match out with Ok s => (s, []) | Err err => ("", [name ++ ": " ++ err]) end.

(** [run] is the command runner *)
Definition Run (run : list string -> result string string) : Network.vpnResult * list string :=
  let '(wg, errs1) := captured "wg show all dump" (run ["wg"; "show"; "all"; "dump"]) in
  let '(ts, errs2) := captured "tailscale status --json" (run ["tailscale"; "status"; "--json"]) in
  (Network.mkVpnResult wg ts, (errs1 ++ errs2)%list).

Definition main `{Json} (marshalResult : Network.vpnResult -> option string) (run : list string -> result string string) (tmp : string) (now : Time) : M unit :=
  let '(result, errs) := Run run in WriteAtomic tmp "vpn" 1 (marshalResult result) now errs.

(** what a command printed, nothing when it failed *)
Definition printed (out : result string string) : string := match out with Ok s => s | Err _ => "" end.

(** From the two commands to the inventory: the network collector lists, from a helper's run
    that is recent enough, exactly the tunnels of what the commands printed, and a command
    that failed costs the other one nothing. *)
Theorem vpn_pipeline `{Json} marshalResult decodeResult decodeStatus rfc3339 (d : gmap string file) fl run tmp now later d' fl' names' :
  entry_laws -> (forall r payload raw, marshalResult r = Some payload -> same_json payload raw -> decodeResult raw = Some r) ->
  ~ json_name tmp -> sound d -> main marshalResult run tmp now (d, fl) = (Ret tt, (d', fl')) -> lists d' names' ->
  sub later now <= Network.staleAfter ->
  Network.readVPNTunnels rfc3339 decodeStatus decodeResult (ReadDir d' no_dirs (DirNames names')) later =
    (Network.parseWireguardDump rfc3339 later (printed (run ["wg"; "show"; "all"; "dump"])) ++
     option_list (Network.parseTailscaleStatus decodeStatus (printed (run ["tailscale"; "status"; "--json"]))))%list.
Proof.
  intros Hlaws Hrt Htmp Hd Hm Hl Hage. unfold main, Run in Hm.
  destruct (captured "wg show all dump" _) as [wg errs1] eqn:E1. destruct (captured "tailscale status --json" _) as [ts errs2] eqn:E2.
  assert (forall name out s errs, captured name out = (s, errs) -> s = printed out) as Hc by (intros name [s0|err] s errs [= <- _]; done).
  destruct (written_entry _ _ _ _ _ _ _ _ _ _ _ Hlaws (ascii_only_check "vpn" eq_refl) Hd Htmp Hm Hl)
    as (payload & entries & e & Ep & -> & He & _ & Hts & _ & Hj).
  unfold Network.readVPNTunnels. cbn [mbind option_bind]. rewrite He. unfold Age. cbn [TS Data] in Hts, Hj. rewrite Hts.
  destruct (Z.ltb_spec Network.staleAfter (sub later now)); [lia|]. rewrite (Hrt _ _ _ Ep Hj). cbn [Network.WireguardDump Network.TailscaleStatusJSON].
  by rewrite (Hc _ _ _ _ E1), (Hc _ _ _ _ E2).
Qed.

End Vpn.

(** ** cmd/bitacora-dnf *)
Module DnfCommand.
Import Spool.Spool Packages.Dnf.

(** [out] is what dnf check-update printed, and [e] how it ended *)
Definition main `{Json} (marshalUpdates : list Update -> option string) (out : string) (e : exec) (tmp : string) (now : Time) : M unit :=
  let '(updatesAvailable, err) := runCheckUpdate e in
  let '(result, errs) := Run out updatesAvailable err in
  WriteAtomic tmp "dnfupdates" 1 (marshalUpdates result) now errs.

(** dnf's way of saying that it worked *)
Definition succeeded (e : exec) : bool := match e with ExecOk => true | ExecExit code _ => code =? 100 | ExecFailed _ => false end.

(** From dnf to the inventory: after a run of the helper that returned, the package
    collector lists exactly the updates of the table dnf printed, also when dnf reported
    them by its exit code 100, and none after a dnf that failed. *)
Theorem dnf_pipeline `{Json} marshalUpdates decode (d : gmap string file) fl out e tmp now d' fl' names' :
  entry_laws -> (forall us payload raw, marshalUpdates us = Some payload -> same_json payload raw -> decode raw = Some us) ->
  ~ json_name tmp -> sound d -> main marshalUpdates out e tmp now (d, fl) = (Ret tt, (d', fl')) -> lists d' names' ->
  dnfItems decode (ReadDir d' no_dirs (DirNames names')) = if succeeded e then omap dnf_item (parseCheckUpdate out) else [].
Proof.
  intros Hlaws Hrt Htmp Hd Hm Hl. unfold main in Hm.
  assert (exists errs, (let '(a, err) := runCheckUpdate e in Run out a err) = (if succeeded e then parseCheckUpdate out else [], errs)) as [errs Hr].
  { destruct e as [|code err|err]; cbn; [by eexists| |by eexists]. destruct (code =? 100); by eexists. }
  destruct (runCheckUpdate e) as [a err]. rewrite Hr in Hm.
  destruct (written_entry _ _ _ _ _ _ _ _ _ _ _ Hlaws (ascii_only_check "dnfupdates" eq_refl) Hd Htmp Hm Hl)
    as (payload & entries & e' & Ep & -> & He & _ & _ & _ & Hj).
  unfold dnfItems. rewrite He. cbn [Data] in Hj. rewrite (Hrt _ _ _ Ep Hj). by destruct (succeeded e).
Qed.

End DnfCommand.

(** ** internal/doctor *)
Module Doctor.
Import Spool.Spool.

Record Config := mkConfig {
  SystemUser : string;
  RequiredGroup : string;
  SpoolDir : string;
  SpoolOwnerUser : string;
  SpoolOwnerGroup : string;
  SpoolMode : Z;
  TimerUnitPaths : list string;
  HelperIntervals : gmap string Duration;
}.

Definition DefaultConfig : Config :=
  mkConfig "bitacora" "systemd-journal" "/var/lib/bitacora/spool" "root" "bitacora" 488 (* 0o750 *)
    ["/etc/systemd/system/bitacora-smart.timer"; "/usr/lib/systemd/system/bitacora-smart.timer"] {[ "smart" := 15 * minute ]}.

Inductive CheckName := SystemUserCheck (user : string) | SpoolDirCheck (dir : string) | TimerCheck | FreshnessCheck.

Inductive Detail :=
| UserNotFound | GroupNotFound (group : string) | GroupsNotListed | NotMember (group : string) | Member (group : string)
| StatError | NotADirectory | WrongMode (got expected : Z) | OwnerUnknown | OwnerNotFound (user : string) | OwnerGroupNotFound (group : string)
| WrongOwner (uid gid wantUid wantGid : string) | SpoolGood
| TimerFound (path : string) | TimerNotFound (paths : list string)
| SpoolUnreadable | NoIntervals | AllFresh | NotFresh (stale missing : list string).

Record Check := mkCheck { Name : CheckName; OK : bool; detail : Detail }.

(** os/user and os.Stat *)
Record User := mkUser { Uid : string; GroupIds : option (list string) }.
Record FileInfo := mkInfo { IsDir : bool; Perm : Z; Owner : option (Z * Z) (* Stat_t: Uid and Gid *) }.
Record Host := mkHost {
  user_Lookup : string -> option User;
  user_LookupGroup : string -> option string; (* the Gid *)
  Stat : string -> option FileInfo;
  spool_ReadDir : option (gmap string Entry); (* spool.ReadDir(cfg.SpoolDir) *)
  clock : Time;
}.

Section checks.
Context (h : Host) (cfg : Config).

Definition checkSystemUser : Check :=
  let name := SystemUserCheck (SystemUser cfg) in
  match user_Lookup h (SystemUser cfg) with
  | None => mkCheck name false UserNotFound
  | Some u =>
      match user_LookupGroup h (RequiredGroup cfg) with
      | None => mkCheck name false (GroupNotFound (RequiredGroup cfg))
      | Some gid =>
          match GroupIds u with
          | None => mkCheck name false GroupsNotListed
          | Some gids =>
              if existsb (fun g => bool_decide (g = gid)) gids then mkCheck name true (Member (RequiredGroup cfg))
              else mkCheck name false (NotMember (RequiredGroup cfg))
          end
      end
  end.

Definition is_timer (path : string) : bool := match Stat h path with Some info => negb (IsDir info) | None => false end.

Definition checkTimerPresence : Check :=
  match List.find is_timer (TimerUnitPaths cfg) with
  | Some path => mkCheck TimerCheck true (TimerFound path)
  | None => mkCheck TimerCheck false (TimerNotFound (TimerUnitPaths cfg))
  end.

Definition checkSpoolPermissions : Check :=
  let name := SpoolDirCheck (SpoolDir cfg) in
  match Stat h (SpoolDir cfg) with
  | None => mkCheck name false StatError
  | Some info =>
      if negb (IsDir info) then mkCheck name false NotADirectory
      else if negb (Perm info =? SpoolMode cfg) then mkCheck name false (WrongMode (Perm info) (SpoolMode cfg))
      else match Owner info with
      | None => mkCheck name false OwnerUnknown
      | Some (uid, gid) =>
          match user_Lookup h (SpoolOwnerUser cfg) with
          | None => mkCheck name false (OwnerNotFound (SpoolOwnerUser cfg))
          | Some wantUser =>
              match user_LookupGroup h (SpoolOwnerGroup cfg) with
              | None => mkCheck name false (OwnerGroupNotFound (SpoolOwnerGroup cfg))
              | Some wantGid =>
                  let gotUID := Itoa uid in
                  let gotGID := Itoa gid in
                  if negb (bool_decide (gotUID = Uid wantUser)) || negb (bool_decide (gotGID = wantGid))
                  then mkCheck name false (WrongOwner gotUID gotGID (Uid wantUser) wantGid)
                  else mkCheck name true SpoolGood
              end
          end
      end
  end.

(** the helpers that are missing and those that are stale; Go goes through the map in any
    order, here it is the order of the keys *)
Definition is_missing (entries : gmap string Entry) (ci : string * Duration) : bool :=
  match entries !! ci.1 with None => true | Some _ => false end.
Definition is_stale (entries : gmap string Entry) (ci : string * Duration) : bool :=
  match entries !! ci.1 with None => false | Some e => Stale e (clock h) ci.2 end.

Definition checkSpoolFreshness : Check :=
  match spool_ReadDir h with
  | None => mkCheck FreshnessCheck false SpoolUnreadable
  | Some entries =>
      let intervals := map_to_list (HelperIntervals cfg) in
      if (length intervals =? 0)%nat then mkCheck FreshnessCheck true NoIntervals else
      let stale := (List.filter (is_stale entries) intervals).*1 in
      let missing := (List.filter (is_missing entries) intervals).*1 in
      if (length stale =? 0)%nat && (length missing =? 0)%nat then mkCheck FreshnessCheck true AllFresh
      else mkCheck FreshnessCheck false (NotFresh stale missing)
  end.

Definition Run : list Check := [checkSystemUser; checkSpoolPermissions; checkTimerPresence; checkSpoolFreshness].

(** cmd/bita: the exit code of `bita doctor` *)
Definition runDoctor : Z := if (0 <? length (List.filter (fun c => negb (OK c)) Run))%nat then 1 else 0.

(** *** What a clean report means *)

Record healthy : Prop := mkHealthy {
  h_user : exists u gid gids, user_Lookup h (SystemUser cfg) = Some u /\ user_LookupGroup h (RequiredGroup cfg) = Some gid /\
    GroupIds u = Some gids /\ gid ∈ gids;
  h_spool : exists uid gid u, Stat h (SpoolDir cfg) = Some (mkInfo true (SpoolMode cfg) (Some (uid, gid))) /\
    user_Lookup h (SpoolOwnerUser cfg) = Some u /\ Uid u = Itoa uid /\ user_LookupGroup h (SpoolOwnerGroup cfg) = Some (Itoa gid);
  h_timer : exists path info, path ∈ TimerUnitPaths cfg /\ Stat h path = Some info /\ IsDir info = false;
  h_fresh : exists entries, spool_ReadDir h = Some entries /\
    map_Forall (fun helper interval => exists e, entries !! helper = Some e /\ Stale e (clock h) interval = false) (HelperIntervals cfg);
}.

Ltac refuted := split; [done|]; intros (? & ? & ? & ?); destruct_and?; simplify_eq/=; try congruence.

Lemma user_ok : OK checkSystemUser = true <-> exists u gid gids, user_Lookup h (SystemUser cfg) = Some u /\
  user_LookupGroup h (RequiredGroup cfg) = Some gid /\ GroupIds u = Some gids /\ gid ∈ gids.
Proof.
  unfold checkSystemUser. destruct (user_Lookup h _) as [u|]; [|refuted]. destruct (user_LookupGroup h _) as [gid|]; [|refuted].
  destruct (GroupIds u) as [gids|] eqn:Eg; [|refuted].
  assert (existsb (fun g => bool_decide (g = gid)) gids = true <-> gid ∈ gids) as Hin.
  { rewrite existsb_exists. setoid_rewrite bool_decide_eq_true. setoid_rewrite <- list_elem_of_In. split; [by intros (x & Hx & ->)|]. intros Hx. by exists gid. }
  destruct (existsb _ gids); cbn; split; try done; [intros _; exists u, gid, gids; split_and!; [done..|]; by apply Hin|]. intros (? & ? & ? & [= <-] & [= <-] & Eg' & Hi).
  rewrite Eg in Eg'. injection Eg' as <-. by apply Hin in Hi.
Qed.

Lemma spool_ok : OK checkSpoolPermissions = true <-> exists uid gid u, Stat h (SpoolDir cfg) = Some (mkInfo true (SpoolMode cfg) (Some (uid, gid))) /\
  user_Lookup h (SpoolOwnerUser cfg) = Some u /\ Uid u = Itoa uid /\ user_LookupGroup h (SpoolOwnerGroup cfg) = Some (Itoa gid).
Proof.
  unfold checkSpoolPermissions. destruct (Stat h _) as [[dir perm owner]|]; cbn [IsDir Perm Owner]; [|refuted].
  destruct dir; cbn [negb]; [|refuted]. destruct (Z.eqb_spec perm (SpoolMode cfg)) as [->|Hp]; cbn [negb]; [|refuted].
  destruct owner as [[uid gid]|]; [|refuted]. destruct (user_Lookup h _) as [u|]; [|refuted].
  destruct (user_LookupGroup h _) as [wg|]; [|refuted]. repeat case_bool_decide; cbn [negb orb OK]; [|refuted..]. split; [|done]. intros _. exists uid, gid, u. by subst wg.
Qed.

Lemma timer_ok : OK checkTimerPresence = true <-> exists path info, path ∈ TimerUnitPaths cfg /\ Stat h path = Some info /\ IsDir info = false.
Proof.
  unfold checkTimerPresence. destruct (List.find is_timer _) as [path|] eqn:E; cbn; split; try done.
  - intros _. apply List.find_some in E as [Hin Ht]. unfold is_timer in Ht. destruct (Stat h path) as [info|] eqn:Es; [|done].
    exists path, info. rewrite list_elem_of_In. by apply negb_true_iff in Ht.
  - intros (path & info & Hin%list_elem_of_In & Hs & Hd). eapply List.find_none in E; [|exact Hin]. unfold is_timer in E. by rewrite Hs, Hd in E.
Qed.

Lemma fresh_ok : OK checkSpoolFreshness = true <-> exists entries, spool_ReadDir h = Some entries /\
  map_Forall (fun helper interval => exists e, entries !! helper = Some e /\ Stale e (clock h) interval = false) (HelperIntervals cfg).
Proof.
  unfold checkSpoolFreshness. destruct (spool_ReadDir h) as [entries|]; [|split; [done|by intros (? & ? & _)]].
  assert (map_Forall (fun helper interval => exists e, entries !! helper = Some e /\ Stale e (clock h) interval = false) (HelperIntervals cfg) <->
    forall ci, ci ∈ map_to_list (HelperIntervals cfg) -> is_stale entries ci = false /\ is_missing entries ci = false) as Hm.
  { rewrite map_Forall_to_list, Forall_forall. split; intros Hf [c i] Hc; specialize (Hf _ Hc); unfold is_stale, is_missing in *; cbn [fst snd] in *.
    - destruct Hf as (e & -> & ->). done.
    - destruct (entries !! c) as [e|] eqn:Ee; [|by destruct Hf]. exists e. split; [done|apply Hf]. }
  assert (forall (f : string * Duration -> bool) l, ((length (List.filter f l).*1 =? 0)%nat = true) <-> forall x, x ∈ l -> f x = false) as Hlen.
  { intros f l. rewrite Nat.eqb_eq, length_fmap. split.
    - intros E x Hx. destruct (f x) eqn:Ef; [|done]. apply length_zero_iff_nil in E. assert (In x (List.filter f l)) as Hi by (apply List.filter_In; by rewrite <- list_elem_of_In).
      by rewrite E in Hi.
    - intros Hf. induction l as [|x l IH]; [done|]. cbn. rewrite Hf by (by left). apply IH. intros y Hy. apply Hf. by right. }
  assert ((length (List.filter (is_stale entries) (map_to_list (HelperIntervals cfg))).*1 =? 0)%nat &&
    (length (List.filter (is_missing entries) (map_to_list (HelperIntervals cfg))).*1 =? 0)%nat = true <->
    forall ci, ci ∈ map_to_list (HelperIntervals cfg) -> is_stale entries ci = false /\ is_missing entries ci = false) as Hb.
  { rewrite andb_true_iff, !Hlen. split; [intros [Ha Hc] ci Hci; auto|]. intros Ha. split; intros ci Hci; by apply Ha. }
  assert ((exists es, Some entries = Some es /\ map_Forall (fun helper interval => exists e, es !! helper = Some e /\ Stale e (clock h) interval = false) (HelperIntervals cfg)) <->
    map_Forall (fun helper interval => exists e, entries !! helper = Some e /\ Stale e (clock h) interval = false) (HelperIntervals cfg)) as ->.
  { split; [by intros (es & [= <-] & Hf)|]. intros Hf. by exists entries. }
  rewrite Hm. destruct (Nat.eqb_spec (length (map_to_list (HelperIntervals cfg))) 0) as [E|E].
  - apply length_zero_iff_nil in E. rewrite E. cbn. split; [|done]. intros _ ci Hci. by apply elem_of_nil in Hci.
  - rewrite <- Hb. by destruct (_ && _).
Qed.

(** bita doctor reports success exactly for a sound installation: the service user exists and
    is in the required group, the spool has the expected mode and owner, a timer unit is
    installed, and every helper reported within three of its intervals. *)
Theorem doctor_spec : runDoctor = 0 <-> healthy.
Proof.
  assert (runDoctor = 0 <-> OK checkSystemUser = true /\ OK checkSpoolPermissions = true /\ OK checkTimerPresence = true /\ OK checkSpoolFreshness = true) as Hr.
  { unfold runDoctor, Run. cbn [List.filter]. destruct (OK checkSystemUser), (OK checkSpoolPermissions), (OK checkTimerPresence), (OK checkSpoolFreshness);
      (split; [done|by intros (? & ? & ? & ?)]). }
  rewrite Hr, user_ok, spool_ok, timer_ok, fresh_ok. split; [intros (H1 & H2 & H3 & H4); by split|by intros []].
Qed.

End checks.

Definition demo_host (smart_at now : Time) : Host :=
  mkHost (fun u => if decide (u = "bitacora") then Some (mkUser "990" (Some ["990"; "190"])) else if decide (u = "root") then Some (mkUser "0" (Some ["0"])) else None)
    (fun g => if decide (g = "systemd-journal") then Some "190" else if decide (g = "bitacora") then Some "990" else None)
    (fun p => if decide (p = "/var/lib/bitacora/spool") then Some (mkInfo true 488 (Some (0, 990)))
              else if decide (p = "/etc/systemd/system/bitacora-smart.timer") then Some (mkInfo false 420 None) else None)
    (Some {[ "smart" := mkEntry "smart" smart_at 1 "" [] ]}) now.

Example doctor_demo :
  runDoctor (demo_host 0 (45 * minute)) DefaultConfig = 0 /\ runDoctor (demo_host 0 (45 * minute + 1)) DefaultConfig = 1 /\
  detail (checkSpoolFreshness (demo_host 0 (45 * minute + 1)) DefaultConfig) = NotFresh ["smart"] [].
Proof. vm_compute. done. Qed.

(** An entry dated in the future, after the clock was set back, passes as fresh. *)
Example future_entry_fresh : runDoctor (demo_host (10 * hour) 0) DefaultConfig = 0.
Proof. vm_compute. done. Qed.

End Doctor.
