(* ===== verification/CrashSources.v ===== *)
(** * CrashSources: what is left of a host that crashed

    Models internal/pstore (kernel dumps kept in RAM over a reboot) and internal/netconsole
    (kernel messages sent over UDP to the hub). The directory of pstore is a map from paths
    to contents, with the reads and removals that fail as an argument; UDP reads are a list. *)

From stdpp Require Import base gmap strings list sorting.
From Stdlib Require Import ZArith Lia Ascii.
From S2P Require Import Prelude GoStd GoConv GoIO GoNet Schema.
Import GoString GoConv GoIO GoTime Schema.

Local Open Scope string_scope.
Local Open Scope Z_scope.

(** ** internal/pstore *)
Module Pstore.

Definition MaxExcerptBytes : nat := Z.to_nat 4000.

Record Entry := mkEntry { Name : string; Path : string; Content : string }.

Definition isDmesgEntry (name : string) : bool := has_prefix "dmesg-" name.

(** filepath.Join of a clean root and a file name *)
Definition Join (root name : string) : string := root ++ String "/" name.

(** the files under the root by path, and which reads and removals fail *)
Abbreviation Files := (gmap string string) (only parsing).
Record IO := mkIO { read_fails : string -> bool; remove_fails : string -> bool }.

(** os.ReadDir: the names in the directory and whether each is a directory *)
Inductive listing := RootMissing | RootError | RootNames (names : list (string * bool)).

Definition dmesg_name (f : string * bool) : option string :=
  if f.2 || negb (isDmesgEntry f.1) then None else Some f.1.

Definition read_entry (io : IO) (fs : Files) (root name : string) : option Entry :=
  let path := Join root name in
  if read_fails io path then None else mkEntry name path <$> fs !! path.

Definition List (io : IO) (fs : Files) (root : string) (l : listing) : option (list Entry) :=
  match l with
  | RootMissing => Some []
  | RootError => None
  | RootNames files => Some (omap (read_entry io fs root) (sort_strings (omap dmesg_name files)))
  end.

Definition ToEvent (ulid hostID : string) (e : Entry) (now : Time) : Event :=
  let truncated := (MaxExcerptBytes <? String.length (Content e))%nat in
  let excerpt := if truncated then str_take MaxExcerptBytes (Content e) else Content e in
  let attrs := {[ "pstore_file" := Name e; "size_bytes" := show (Z.of_nat (String.length (Content e))); "excerpt" := excerpt ]} in
  let attrs := if truncated then <["excerpt_truncated" := "true"]> attrs else attrs in
  mkEvent ulid now zero hostID "pstore" "kernel.crash_dump" SeverityCritical
    ("kernel crash dump recovered from pstore (" ++ Name e ++ ")") (mkSubject "kernel" "pstore" 0) attrs "" [] CurrentSchemaVersion.

(** os.Remove: the removal, or an error that leaves the file *)
Definition Remove (io : IO) (path : string) (fs : Files) : bool * Files :=
  if remove_fails io path then (false, fs)
  else match fs !! path with Some _ => (true, delete path fs) | None => (false, fs) end.

Fixpoint consume_loop (io : IO) (ulid : string -> string) (hostID : string) (now : Time) (entries : list Entry) (fs : Files) :
    list Event * list string * Files :=
  match entries with
  | [] => ([], [], fs)
  | e :: rest =>
      let ev := ToEvent (ulid (Name e)) hostID e now in
      let '(removed, fs) := Remove io (Path e) fs in
      let '(evs, errs, fs) := consume_loop io ulid hostID now rest fs in
      (ev :: evs, (if removed then errs else Path e :: errs), fs)
  end.

(** the events, the paths that were not removed (or the error of the listing) and the files;
    [ulid] is the id drawn for each entry *)
Definition Consume (io : IO) (ulid : string -> string) (root hostID : string) (now : Time) (l : listing) (fs : Files) :
    list Event * list string * Files :=
  match List io fs root l with
  | None => ([], [root], fs)
  | Some entries => consume_loop io ulid hostID now entries fs
  end.

(** *** What a run of Consume does *)

(** the listing of a directory: each file once, and the files are there *)
Definition lists_dir (fs : Files) (root : string) (files : list (string * bool)) : Prop :=
  NoDup files.*1 /\ forall name, (name, false) ∈ files -> is_Some (fs !! Join root name).

Lemma Join_inj root a b : Join root a = Join root b -> a = b.
Proof. unfold Join. induction root as [|c root IH]; cbn; [by intros [= ->]|]. intros [= H]. by apply IH. Qed.

Lemma dmesg_names_spec files name :
  name ∈ sort_strings (omap dmesg_name files) <-> (name, false) ∈ files /\ isDmesgEntry name = true.
Proof.
  rewrite sort_strings_Permutation, list_elem_of_omap. unfold dmesg_name. split.
  - intros ([n []] & Hin & Hn); [done|]. cbn [fst snd orb] in Hn. destruct (isDmesgEntry n) eqn:E; [|done]. by injection Hn as <-.
  - intros [Hin Hd]. exists (name, false). cbn [fst snd orb]. by rewrite Hd.
Qed.

Lemma NoDup_dmesg files : NoDup files.*1 -> NoDup (sort_strings (omap dmesg_name files)).
Proof.
  rewrite sort_strings_Permutation. induction files as [|[n d] files IH]; [done|]. rewrite fmap_cons, NoDup_cons. intros [Hn Hd].
  cbn [omap list_omap]. unfold dmesg_name at 1. cbn [fst snd]. destruct (d || negb (isDmesgEntry n)); [by apply IH|].
  apply NoDup_cons. split; [|by apply IH]. intros Hin. apply Hn. rewrite <- sort_strings_Permutation in Hin.
  apply dmesg_names_spec in Hin as [Hin _]. by apply (list_elem_of_fmap_2 fst) in Hin.
Qed.

Lemma consume_loop_spec io ulid hostID now entries fs :
  NoDup (Path <$> entries) -> Forall (fun e => is_Some (fs !! Path e)) entries ->
  consume_loop io ulid hostID now entries fs =
    ((fun e => ToEvent (ulid (Name e)) hostID e now) <$> entries,
     List.filter (remove_fails io) (Path <$> entries),
     filter (fun kv => remove_fails io kv.1 = true \/ kv.1 ∉ Path <$> entries) fs).
Proof.
  revert fs. induction entries as [|e entries IH]; intros fs Hd Hf; cbn [consume_loop].
  { cbn [fmap list_fmap]. f_equal. symmetry. apply map_filter_id. intros k v _. right. apply not_elem_of_nil. }
  rewrite fmap_cons in Hd. rewrite !fmap_cons. apply NoDup_cons in Hd as [He Hd]. apply Forall_cons in Hf as [[c Hc] Hf]. unfold Remove.
  destruct (remove_fails io (Path e)) eqn:E.
  - rewrite IH by done. cbn [List.filter]. rewrite E. f_equal. apply map_filter_ext. cbn [fst]. intros k v _. rewrite not_elem_of_cons.
    destruct (decide (k = Path e)) as [->|Hk]; naive_solver.
  - rewrite Hc. rewrite IH; [|done|].
    + cbn [List.filter]. rewrite E. f_equal. apply map_eq. intros k. apply option_eq. intros v. rewrite !map_lookup_filter_Some, lookup_delete_Some.
      cbn [fst]. rewrite not_elem_of_cons. destruct (decide (k = Path e)) as [->|Hk]; [|assert (Path e <> k) by congruence; tauto].
      split; [by intros [[? _] _]|]. intros [_ [Hr|[? _]]]; congruence.
    + rewrite Forall_forall in *. intros e' He'. destruct (Hf e' He') as [c' Hc']. exists c'. rewrite lookup_delete_ne; [done|].
      intros Heq. apply He. rewrite Heq. by apply list_elem_of_fmap_2.
Qed.

(** a dump of the directory that can be read *)
Definition dump (io : IO) (fs : Files) (root : string) (files : list (string * bool)) (e : Entry) : Prop :=
  (Name e, false) ∈ files /\ isDmesgEntry (Name e) = true /\ Path e = Join root (Name e) /\
  read_fails io (Path e) = false /\ fs !! Path e = Some (Content e).

Lemma List_spec io fs root files entries :
  lists_dir fs root files -> List io fs root (RootNames files) = Some entries ->
  (forall e, e ∈ entries <-> dump io fs root files e) /\ NoDup (Path <$> entries) /\ StronglySorted String.le (Name <$> entries).
Proof.
  intros [Hnd Hin] [= <-]. split; [|split].
  - intros e. rewrite list_elem_of_omap. unfold read_entry, dump. split.
    + intros (name & [Hf Hd]%dmesg_names_spec & He). destruct (read_fails io _) eqn:Er; [done|].
      destruct (fs !! Join root name) as [c|] eqn:Ec; [|done]. injection He as <-. done.
    + intros (Hf & Hd & Hp & Hr & Hc). exists (Name e). split; [by apply dmesg_names_spec|]. rewrite <- Hp, Hr, Hc. by destruct e.
  - generalize (NoDup_dmesg files Hnd). generalize (sort_strings (omap dmesg_name files)). intros names. induction names as [|n names IH]; [constructor|].
    intros [Hn Hd]%NoDup_cons. cbn [omap list_omap]. unfold read_entry at 1. destruct (read_fails io _); [auto|].
    destruct (fs !! Join root n) as [c|]; [|auto]. cbn. apply NoDup_cons. split; [|auto]. intros (e & He & Hi)%list_elem_of_fmap.
    apply list_elem_of_omap in Hi as (n' & Hn' & Hr). unfold read_entry in Hr. destruct (read_fails io _); [done|].
    destruct (fs !! Join root n'); [|done]. injection Hr as <-. cbn in He. apply Join_inj in He. by subst.
  - eapply sorted_sublist; [|apply (sort_strings_Sorted (omap dmesg_name files))]. induction (sort_strings (omap dmesg_name files)) as [|n names IH]; [done|].
    cbn [omap list_omap]. unfold read_entry at 1. destruct (read_fails io _); [by constructor|].
    destruct (fs !! Join root n); cbn; by constructor.
Qed.

(** Consume loses no dump and touches nothing else: every kernel dump of the directory that
    can be read becomes one event, oldest name first, and is removed from the region unless
    the removal fails, which is reported; every other file stays. *)
Theorem consume_spec io ulid root hostID now files fs :
  lists_dir fs root files ->
  exists entries, (forall e, e ∈ entries <-> dump io fs root files e) /\ NoDup (Path <$> entries) /\ StronglySorted String.le (Name <$> entries) /\
    Consume io ulid root hostID now (RootNames files) fs =
      ((fun e => ToEvent (ulid (Name e)) hostID e now) <$> entries,
       List.filter (remove_fails io) (Path <$> entries),
       filter (fun kv => remove_fails io kv.1 = true \/ kv.1 ∉ Path <$> entries) fs).
Proof.
  intros Hl. destruct (List io fs root (RootNames files)) as [entries|] eqn:E; [|done]. exists entries.
  destruct (List_spec _ _ _ _ _ Hl E) as (Hm & Hd & Hs). split_and!; [done..|]. unfold Consume. rewrite E.
  apply consume_loop_spec; [done|]. apply Forall_forall. intros e He%Hm. destruct He as (_ & _ & _ & _ & ->). by eexists.
Qed.

Lemma excerpt_of ulid hostID e now : exists x, e_Attrs (ToEvent ulid hostID e now) !! "excerpt" = Some x /\
  x = str_take MaxExcerptBytes (Content e) /\ (String.length x <= MaxExcerptBytes)%nat.
Proof.
  exists (str_take MaxExcerptBytes (Content e)). split; [|split; [done|apply str_take_length]]. unfold ToEvent. cbn [e_Attrs].
  generalize MaxExcerptBytes. intros n. destruct (Nat.ltb_spec n (String.length (Content e))) as [Hl|Hl].
  - rewrite lookup_insert_ne by done. by simplify_map_eq.
  - rewrite str_take_all by done. by simplify_map_eq.
Qed.

(** A dump makes a valid event of bounded size: whatever the kernel wrote, at most its first
    4000 bytes ride along. *)
Theorem dump_event_valid ulid hostID e now :
  ulid <> "" -> hostID <> "" -> is_zero now = false ->
  Event_Validate (ToEvent ulid hostID e now) = Ok tt /\
  exists x, e_Attrs (ToEvent ulid hostID e now) !! "excerpt" = Some x /\
    x = str_take MaxExcerptBytes (Content e) /\ (String.length x <= MaxExcerptBytes)%nat.
Proof.
  intros Hu Hh Ht. split; [|apply excerpt_of]. unfold Event_Validate, ToEvent. cbn [e_ID e_HostID e_TS e_Source e_Type e_Severity e_Title e_Schema].
  by rewrite !bool_decide_false, Ht by done.
Qed.

Definition demo_root : string := "/sys/fs/pstore".
Definition demo_listing : list (string * bool) := [("dmesg-efi-2", false); ("console-ramoops-0", false); ("dmesg-efi-1", false); ("dmesg-dir", true)].
Definition demo_files : gmap string string :=
  {[ Join demo_root "dmesg-efi-1" := "Oops: 0000"; Join demo_root "dmesg-efi-2" := "Panic"; Join demo_root "console-ramoops-0" := "[ 0.0]" ]}.
Definition stuck (path : string) : bool := bool_decide (path = Join demo_root "dmesg-efi-2").
Definition demo_io : IO := mkIO (fun _ => false) stuck.

Lemma consume_spec_witness :
  exists entries, (forall e, e ∈ entries <-> dump demo_io demo_files demo_root demo_listing e) /\
    Consume demo_io id demo_root "h1" 1 (RootNames demo_listing) demo_files =
      ((fun e => ToEvent (id (Name e)) "h1" e 1) <$> entries, List.filter (remove_fails demo_io) (Path <$> entries),
       filter (fun kv => remove_fails demo_io kv.1 = true \/ kv.1 ∉ Path <$> entries) demo_files).
Proof.
  destruct (consume_spec demo_io id demo_root "h1" 1 demo_listing demo_files) as (entries & H1 & _ & _ & H2);
    [|exists entries; split; [exact H1|exact H2]].
  split; [apply (bool_decide_unpack _); vm_compute; done|]. intros name Hn. unfold demo_listing in Hn.
  repeat (apply elem_of_cons in Hn as [Hn|Hn]; [try done; injection Hn as ->; vm_compute; by eexists|]). by apply elem_of_nil in Hn.
Defined.

Lemma dump_event_valid_witness : Event_Validate (ToEvent "01J" "h1" (mkEntry "dmesg-1" "/dmesg-1" "Oops") 1) = Ok tt.
Proof. by apply (dump_event_valid "01J" "h1" (mkEntry "dmesg-1" "/dmesg-1" "Oops") 1). Defined.

(** A dump whose removal fails is reported again by the next run, under another id. *)
Example unremoved_dump_repeats :
  let '(evs1, errs, fs) := Consume demo_io (fun n => "A" ++ n) demo_root "h1" 1 (RootNames demo_listing) demo_files in
  let '(evs2, _, _) := Consume demo_io (fun n => "B" ++ n) demo_root "h1" 2 (RootNames [("dmesg-efi-2", false)]) fs in
  (e_ID <$> evs1, e_ID <$> evs2) = (["Admesg-efi-1"; "Admesg-efi-2"], ["Bdmesg-efi-2"]) /\ errs = [Join demo_root "dmesg-efi-2"].
Proof. vm_compute. done. Qed.

End Pstore.

(** ** internal/netconsole *)
Module Netconsole.

Definition nul : ascii := "000"%char.

(** strings.TrimRight(s, "\n\x00") *)
Fixpoint trim_end (s : string) : string :=
  match s with
  | "" => ""
  | String c rest =>
      match trim_end rest with
      | "" => if bool_decide (c = newline) || bool_decide (c = nul) then "" else String c ""
      | t => String c t
      end
  end.

(** ([\d]+) and the byte after it *)
Definition number_then (c : ascii) (s : string) : option (string * string) :=
  let '(digits, rest) := span is_digit s in
  match digits, rest with
  | String _ _, String d rest => if bool_decide (d = c) then Some (digits, rest) else None
  | _, _ => None
  end.

(** (.* )$: everything, if there is no newline in it *)
Definition to_end (s : string) : option string := if lacks newline s then Some s else None.

(** the first and last group of extendedFormat *)
Definition extendedFormat (s : string) : option (string * string) :=
  '(pri, s) ← number_then "," s;
  '(_, s) ← number_then "," s;
  '(_, s) ← number_then "," s;
  '(_, s) ← cut_byte ";" s;
  msg ← to_end s;
  Some (pri, msg).

Definition basicFormat (s : string) : option (string * string) :=
  match s with
  | String lt (String d (String gt s)) =>
      if bool_decide (lt = "<"%char) && is_digit d && bool_decide (gt = ">"%char)
      then pair (String d "") <$> to_end s else None
  | _ => None
  end.

Definition syslogLevels : gmap Z string :=
  {[ 0 := "emerg"; 1 := "alert"; 2 := "critical"; 3 := "error"; 4 := "warning"; 5 := "notice"; 6 := "info"; 7 := "debug" ]}.

Definition syslogLevel (n : Z) : string := default "" (syslogLevels !! n).

(** the extended reading of a text, unless its priority is no int or its message is blank *)
Definition extended (text : string) : option (string * string) :=
  '(pri, m) ← extendedFormat text;
  pri ← Atoi pri;
  let msg := TrimSpace m in
  if bool_decide (msg = "") then None else Some (msg, syslogLevel (Z.rem pri 8)).

Definition basic (text : string) : option (string * string) :=
  '(lvl, m) ← basicFormat text;
  lvl ← Atoi lvl;
  let msg := TrimSpace m in
  if bool_decide (msg = "") then None else Some (msg, syslogLevel lvl).

Definition parseNetconsoleMessage (packet : string) : string * string :=
  let text := trim_end packet in
  if bool_decide (text = "") then ("", "") else
  match extended text with
  | Some r => r
  | None => match basic text with Some r => r | None => (text, "") end
  end.

(** a source address, as addr.IP.String() prints it *)
Record UDPAddr := mkAddr { IP_String : string }.

(** [resolver]: the Resolver, if one is set *)
Definition decode (resolver : option (UDPAddr -> string)) (packet : string) (addr : UDPAddr) (now : Time) : option LogLine :=
  let '(msg, level) := parseNetconsoleMessage packet in
  if bool_decide (msg = "") then None else
  let hostID := match resolver with Some f => f addr | None => "" end in
  let hostID := if bool_decide (hostID = "") then IP_String addr else hostID in
  Some (mkLogLine now hostID "kernel_remote" "" "" level 0 msg).

(** one ReadFromUDP: a datagram and when it was read, or an error *)
Inductive read := Datagram (packet : string) (addr : UDPAddr) (now : Time) | ReadError.

Inductive served := CtxDone | ReadFailed | StillReading.

Section serve.
Context {W : Type} (resolver : option (UDPAddr -> string)) (ReceiveLogLine : LogLine -> W -> bool * W).

(** [ctx_done]: whether the context is done when a read fails *)
Fixpoint Serve (ctx_done : bool) (reads : list read) (w : W) : served * W :=
  match reads with
  | [] => (StillReading, w)
  | ReadError :: _ => (if ctx_done then CtxDone else ReadFailed, w)
  | Datagram packet addr now :: rest =>
      match decode resolver packet addr now with
      | None => Serve ctx_done rest w
      | Some line => let '(_, w) := ReceiveLogLine line w in Serve ctx_done rest w
      end
  end.

End serve.

(** *** What arrives is kept *)

Definition line_of (resolver : option (UDPAddr -> string)) (r : read) : option LogLine :=
  match r with Datagram packet addr now => decode resolver packet addr now | ReadError => None end.

Fixpoint before_error (reads : list read) : list read :=
  match reads with Datagram p a n :: rest => Datagram p a n :: before_error rest | _ => [] end.

Lemma parsed_empty packet : (parseNetconsoleMessage packet).1 = "" <-> trim_end packet = "".
Proof.
  unfold parseNetconsoleMessage. case_bool_decide as E; [done|]. split; [|done].
  assert (forall o : option (string * string), (forall r, o = Some r -> r.1 <> "") -> forall d : string * string, d.1 <> "" -> (match o with Some r => r | None => d end).1 <> "") as Hm.
  { intros [r|] Hr d Hd; [by apply Hr|done]. }
  intros Hn. exfalso. revert Hn. apply Hm; [|apply Hm; [|done]].
  - unfold extended. intros r. destruct (extendedFormat _) as [[pri m]|]; [|done]. cbn. destruct (Atoi pri); [|done]. cbn.
    case_bool_decide; [done|]. by intros [= <-].
  - unfold basic. intros r. destruct (basicFormat _) as [[lvl m]|]; [|done]. cbn. destruct (Atoi lvl); [|done]. cbn.
    case_bool_decide; [done|]. by intros [= <-].
Qed.

(** No kernel message is dropped: whatever a datagram holds besides line ends and zero bytes,
    in any of the formats, truncated or garbled, one log line that the store accepts comes of
    it; the lines reach the receiver in the order of the datagrams, whether or not it takes
    them, until reading fails. *)
Theorem netconsole_keeps_messages {W} resolver (receive : LogLine -> W -> bool * W) ctx_done reads w :
  (forall packet addr now, trim_end packet <> "" -> is_zero now = false -> IP_String addr <> "" ->
    exists line, decode resolver packet addr now = Some line /\ LogLine_Validate line = Ok tt /\ l_Message line <> "") /\
  (Serve resolver receive ctx_done reads w).2 = fold_left (fun w l => (receive l w).2) (omap (line_of resolver) (before_error reads)) w.
Proof.
  split.
  - intros packet addr now Hp Ht Ha. unfold decode. pose proof (parsed_empty packet) as He. destruct (parseNetconsoleMessage packet) as [msg level].
    cbn in He. rewrite bool_decide_false by tauto. eexists. split; [done|]. unfold LogLine_Validate. cbn [l_HostID l_Source l_TS l_Message].
    rewrite Ht. split; [|tauto]. case_bool_decide as E; [|done]. case_bool_decide as E2; done.
  - revert w. induction reads as [|[p a n|] reads IH]; intros w; [done| |by destruct ctx_done]. cbn [Serve before_error omap list_omap line_of].
    destruct (decode resolver p a n) as [line|]; [|apply IH]. cbn [fold_left]. destruct (receive line w) as [ok w']. apply IH.
Qed.

(** *** Reading the kernel's own format *)

(** the extended packet of netconsole, with its line end *)
Definition extended_packet (pri seq ts : Z) (flags msg : string) : string :=
  show pri ++ "," ++ show seq ++ "," ++ show ts ++ "," ++ flags ++ ";" ++ msg ++ String newline "".

Lemma span_digits z c s : 0 <= z -> is_digit c = false -> span is_digit (show z ++ String c s) = (show z, String c s).
Proof.
  intros Hz Hc. assert (forall d, d ∈ String.list_ascii_of_string (show z) -> is_digit d = true) as Hd by (intros d; by apply show_digits).
  revert Hd. generalize (show z). intros t. induction t as [|d t IH]; intros Hd; [rewrite str_app_nil_l; cbn [span]; by rewrite Hc|].
  rewrite str_app_cons. cbn [span]. rewrite Hd by (cbn; by left). rewrite IH; [done|]. intros e He. apply Hd. cbn. by right.
Qed.

Lemma number_then_show c z s : 0 <= z -> is_digit c = false -> number_then c (show z ++ String c s) = Some (show z, s).
Proof.
  intros Hz Hc. unfold number_then. rewrite span_digits by done. destruct (show_go_head (S (Z.to_nat (Z.log2 z))) z "" ltac:(lia) Hz) as (d & t & Hs & _).
  fold (show z) in Hs. rewrite Hs. by rewrite bool_decide_true.
Qed.

(** a text that ends in neither of the bytes TrimRight cuts *)
Lemma trim_end_snoc a c : c <> newline -> c <> nul -> trim_end ((a ++ String c "") ++ String newline "") = a ++ String c "".
Proof.
  intros H1 H2. rewrite <- str_app_assoc. change (String c "" ++ String newline "") with (String c (String newline "")). induction a as [|d a IH].
  { rewrite !str_app_nil_l. cbn [trim_end]. change (bool_decide (newline = newline)) with true. cbn [orb].
    by rewrite !(bool_decide_false (c = _)). }
  rewrite !str_app_cons. cbn [trim_end]. rewrite IH. by destruct a.
Qed.

(** A message in the kernel's extended format reads back exactly, with its syslog level. *)
Theorem extended_roundtrip facility level seq ts flags msg c :
  0 <= facility -> 0 <= level < 8 -> facility * 8 + level <= max_int64 -> 0 <= seq -> 0 <= ts -> lacks ";" flags = true ->
  lacks newline msg = true -> is_space c = false -> c <> nul -> TrimSpace (msg ++ String c "") = msg ++ String c "" ->
  parseNetconsoleMessage (extended_packet (facility * 8 + level) seq ts flags (msg ++ String c "")) = (msg ++ String c "", syslogLevel level) /\
  syslogLevel level <> "".
Proof.
  intros Hf Hl Hm Hs Ht Hfl Hn Hc Hc0 Htr. assert (c <> newline) as Hcn by (by intros ->).
  set (text := show (facility * 8 + level) ++ "," ++ show seq ++ "," ++ show ts ++ "," ++ flags ++ ";" ++ msg ++ String c "").
  assert (trim_end (extended_packet (facility * 8 + level) seq ts flags (msg ++ String c "")) = text) as Et.
  { unfold extended_packet, text. rewrite !str_app_assoc. apply trim_end_snoc; done. }
  split.
  - unfold parseNetconsoleMessage. rewrite Et. rewrite bool_decide_false.
    2:{ unfold text. destruct (show (facility * 8 + level)); done. }
    assert (extendedFormat text = Some (show (facility * 8 + level), msg ++ String c "")) as Ee.
    { unfold extendedFormat, text. assert (forall s, "," ++ s = String "," s) as Hcomma by done. rewrite !Hcomma.
      rewrite (number_then_show "," (facility * 8 + level)) by (lia || done). cbn [mbind option_bind].
      rewrite (number_then_show "," seq) by (lia || done). cbn [mbind option_bind].
      rewrite (number_then_show "," ts) by (lia || done). cbn [mbind option_bind].
      change (";" ++ msg ++ String c "") with (String ";" (msg ++ String c "")). rewrite cut_byte_lacks_app by done. cbn [mbind option_bind].
      unfold to_end. rewrite lacks_app, Hn. cbn [lacks]. by rewrite bool_decide_true. }
    unfold extended. rewrite Ee. cbn [mbind option_bind]. rewrite Atoi_show by lia. cbn [mbind option_bind]. rewrite Htr.
    rewrite bool_decide_false by (by destruct msg). rewrite Z.rem_mod_nonneg, Z.add_comm, Z.mod_add, Z.mod_small by lia. done.
  - assert (level = 0 \/ level = 1 \/ level = 2 \/ level = 3 \/ level = 4 \/ level = 5 \/ level = 6 \/ level = 7) as Hcase by lia.
    repeat (destruct Hcase as [->|Hcase]; [by vm_compute|]). subst. by vm_compute.
Qed.

Lemma extended_roundtrip_witness :
  parseNetconsoleMessage (extended_packet (0 * 8 + 3) 1027 8112313 "-" ("Oops: 000" ++ "0")) = ("Oops: 0000", "error") /\ "error" <> "".
Proof. apply (extended_roundtrip 0 3 1027 8112313 "-" "Oops: 000" "0"%char); vm_compute; done. Defined.

Lemma netconsole_keeps_messages_witness :
  exists line, decode None (String newline "<" ++ "x") (mkAddr "192.0.2.7") 1 = Some line /\ LogLine_Validate line = Ok tt /\ l_Message line <> "".
Proof.
  apply (proj1 (netconsole_keeps_messages None (fun _ (w : unit) => (true, w)) false [] tt)); vm_compute; done.
Defined.

Example packets :
  parseNetconsoleMessage "<4>low memory" = ("low memory", "warning") /\
  parseNetconsoleMessage "30,1,2,-;init: x" = ("init: x", "info") /\
  parseNetconsoleMessage "<4> " = ("<4> ", "") /\
  parseNetconsoleMessage ("99999999999999999999,1,2,-;x") = ("99999999999999999999,1,2,-;x", "").
Proof. vm_compute. done. Qed.

(** A record that carries a dictionary, as the kernel adds for device messages, is on several
    lines and matches neither format: it is kept raw, header included and without a level. *)
Example dictionary_not_decoded :
  let packet := "3,1,2,-;usb fault" ++ String newline (" SUBSYSTEM=usb" ++ String newline "") in
  parseNetconsoleMessage packet = ("3,1,2,-;usb fault" ++ String newline " SUBSYSTEM=usb", "").
Proof. vm_compute. done. Qed.

End Netconsole.
