(* ===== verification/Cli.v ===== *)
(** * Cli: the administration command and the resource budget

    Models cmd/bita/main.go ([Bita]: the subcommands logs verify, blackbox dump and doctor,
    with their exit codes) and internal/resourcebudget ([ResourceBudget]: the agent's
    ceiling and the readers of /proc that measure against it). *)

From stdpp Require Import base gmap strings list.
From Stdlib Require Import ZArith Lia Ascii.
From Stdlib Require Import SpecFloat.
From S2P Require Import Prelude GoStd GoConv GoIO Schema Blackbox LogStore Doctor.
Import GoString GoConv GoIO GoFloat GoTime.

Local Open Scope string_scope.
Local Open Scope Z_scope.

Module Bita.
Import LogStore.

Definition DefaultLogsDir : string := "/var/lib/bitacora/logs".

(** ** blackbox dump *)

(** math.Float32frombits, as a float64 *)
Definition float32_of_bits (b : Z) : float64 :=
  let s := Z.testbit b 31 in
  let e := Z.land (Z.shiftr b 23) 255 in
  let m := Z.land b (2 ^ 23 - 1) in
  if e =? 255 then (if m =? 0 then S754_infinity s else S754_nan)
  else if e =? 0 then (match m with Z.pos p => S754_finite s p (-149) | _ => S754_zero s end)
  else match m + 2 ^ 23 with Z.pos p => S754_finite s p (e - 150) | _ => S754_zero s end.

Definition nl : string := String newline "".

Definition format_sample (s : Blackbox.Sample) : string :=
  "t=" ++ Itoa (Blackbox.TimestampUnixMilli s) ++ " cpus=" ++ Itoa (Blackbox.NumCPUs s) ++
  " load1=" ++ FormatFixed 2 (float32_of_bits (Blackbox.LoadAvg1 s)) ++
  " mem_avail_kb=" ++ Itoa (Blackbox.MemAvailableKB s) ++ " procs_blocked_d=" ++ Itoa (Blackbox.ProcsBlockedD s) ++
  " psi_cpu_some10=" ++ FormatFixed 2 (float32_of_bits (Blackbox.PSICPUSome10 s)) ++ nl.

Definition formatBlackboxSamples (samples : list Blackbox.Sample) : string :=
  fold_left (fun out s => out ++ format_sample s) samples (Itoa (Z.of_nat (length samples)) ++ " sample(s)" ++ nl).

(** an exit code and what was printed on standard output *)
Record Outcome := mkOutcome { code : Z; stdout : string }.

(** [read]: the file as a list of bytes, or None; an exit code of 2 stands for the panic of
    a Dump that divides by zero *)
Definition runBlackbox (read : string -> option (list Z)) (args : list string) : Outcome :=
  match args with
  | cmd :: file :: _ =>
      if negb (bool_decide (cmd = "dump")) then mkOutcome 1 ""
      else match read file with
           | None => mkOutcome 1 ""
           | Some raw =>
               match Blackbox.Dump raw with
               | (_, Some Blackbox.PanicDivideByZero) => mkOutcome 2 ""
               | (_, Some _) => mkOutcome 1 ""
               | (samples, None) => mkOutcome 0 (formatBlackboxSamples samples)
               end
           end
  | _ => mkOutcome 1 ""
  end.

(** ** logs verify *)

Section logs.
Context (unmarshal_meta : string -> option BlockMeta).

(** [walk_dir] is what filepath.Walk makes of a directory, a file in it being its path
    elements below the directory; [reason] is the text of the error that reading or parsing
    a metadata file gave. The corrupt files are printed in the order of a Go map: the one
    here is one of the possible orders. *)
Context (reason : list string -> string).

Definition path_text (dir : string) (p : list string) : string := String.concat "/" (dir :: p).

Definition scan_summary (dir : string) (result : VerifyResult) : string :=
  Itoa (Z.of_nat (length (Blocks result))) ++ " blocks reconstructed from " ++ dir ++ nl ++
  "  raw:        " ++ Itoa (TotalRawBytes result) ++ " bytes" ++ nl ++
  "  compressed: " ++ Itoa (TotalCompBytes result) ++ " bytes" ++ nl.

Definition fail_lines (dir : string) (result : VerifyResult) : list string :=
  (((fun p => ("[FAIL] orphan payload (no .meta.json): " ++ path_text dir p ++ nl)%string) <$> OrphanPayloads result) ++
  ((fun p => ("[FAIL] orphan metadata (no .zst payload): " ++ path_text dir p ++ nl)%string) <$> OrphanMeta result) ++
  ((fun p => ("[FAIL] corrupt metadata: " ++ path_text dir p ++ " (" ++ reason p ++ ")" ++ nl)%string) <$> Corrupt result))%list.

Definition runLogs (walk_dir : string -> walk) (files : gmap (list string) string) (args : list string) : Outcome :=
  match args with
  | cmd :: rest =>
      if negb (bool_decide (cmd = "verify")) then mkOutcome 1 ""
      else
        let dir := default DefaultLogsDir (head rest) in
        match ScanIndex unmarshal_meta (walk_dir dir) files with
        | Err _ => mkOutcome 1 ""
        | Ok result =>
            let problems := (length (OrphanPayloads result) + length (OrphanMeta result) + length (Corrupt result))%nat in
            if (problems =? 0)%nat
            then mkOutcome 0 (scan_summary dir result ++ "no orphans, no corrupt metadata" ++ nl)
            else mkOutcome 1 (scan_summary dir result ++ String.concat "" (fail_lines dir result))
        end
  | [] => mkOutcome 1 ""
  end.

(** *** What exit code 0 means *)

(** the last of [paths] that [P] holds of *)
Definition last_such (P : list string -> Prop) (paths : list (list string)) (p : list string) : Prop :=
  exists before after, paths = (before ++ p :: after)%list /\ P p /\ forall q, q ∈ after -> ~ P q.

Definition named (name : string) (p : list string) : Prop := base_name p = name.
#[global] Instance named_dec name p : Decision (named name p).
Proof. unfold named. apply _. Defined.

Lemma fold_last (sel : list string -> option string) (paths : list (list string)) id p :
  fold_left (fun m q => match sel q with Some i => <[i := q]> m | None => m end) paths (∅ : gmap string (list string)) !! id =
    Some p <-> last_such (fun q => sel q = Some id) paths p.
Proof.
  unfold last_such. induction paths as [|q paths IH] using rev_ind.
  { cbn [fold_left]. rewrite lookup_empty. split; [done|]. by intros ([] & after & E & _). }
  rewrite fold_left_app. cbn [fold_left].
  assert ((exists before after, (paths ++ [q])%list = (before ++ p :: after)%list /\ sel p = Some id /\ forall x, x ∈ after -> sel x <> Some id) <->
    (q = p /\ sel p = Some id) \/ (sel q <> Some id /\
      exists before after, paths = (before ++ p :: after)%list /\ sel p = Some id /\ forall x, x ∈ after -> sel x <> Some id)) as ->.
  { split.
    - intros (before & after & E & Hs & Hn). destruct after as [|x after _] using rev_ind.
      + apply app_inj_tail in E as [_ ->]. by left.
      + rewrite app_comm_cons, app_assoc in E. apply app_inj_tail in E as [-> ->]. right.
        split; [apply Hn; apply elem_of_app; right; by apply list_elem_of_singleton|].
        exists before, after. split_and!; [done..|]. intros y Hy. apply Hn, elem_of_app. by left.
    - intros [[-> Hs]|(Hq & before & after & -> & Hs & Hn)].
      + exists paths, []. split_and!; [done..|]. by intros x Hx%elem_of_nil.
      + exists before, (after ++ [q])%list. split_and!; [by rewrite <- app_assoc|done|].
        intros x [Hx|Hx%list_elem_of_singleton]%elem_of_app; [by apply Hn|by subst x]. }
  destruct (sel q) as [i|] eqn:Hi; [destruct (decide (i = id)) as [->|Hne]|].
  - rewrite lookup_insert_eq. split; [intros [= <-]; by left|]. intros [[-> _]|[Hn _]]; [done|by destruct Hn].
  - rewrite lookup_insert_ne, IH by done. split; [intros Hb; right; split; [congruence|done]|].
    intros [[-> Hs]|[_ Hb]]; [|done]. congruence.
  - rewrite IH. split; [intros Hb; by right|]. intros [[-> Hs]|[_ Hb]]; [congruence|done].
Qed.

Lemma sel_meta_named p id : sel_meta p = Some id <-> named (id ++ ".meta.json") p.
Proof.
  unfold sel_meta, named, has_suffix, trim_suffix. split.
  - destruct (strip_suffix _ _) as [b|] eqn:E; [|done]. intros [= <-]. by apply strip_suffix_Some in E.
  - intros ->. by rewrite strip_suffix_app.
Qed.

Lemma sel_payload_named p id : sel_payload p = Some id <-> named (id ++ ".zst") p.
Proof.
  unfold sel_payload, named. split.
  - destruct (has_suffix ".meta.json" _); [done|]. unfold has_suffix, trim_suffix.
    destruct (strip_suffix _ _) as [b|] eqn:E; [|done]. intros [= <-]. by apply strip_suffix_Some in E.
  - intros ->. by rewrite zst_not_meta, has_suffix_app, trim_suffix_app.
Qed.

Lemma last_such_ext P Q paths p : (forall q, P q <-> Q q) -> last_such P paths p <-> last_such Q paths p.
Proof. intros HPQ. unfold last_such. by setoid_rewrite HPQ. Qed.

Lemma metas_last paths id p :
  fold_left walk_meta paths ∅ !! id = Some p <-> last_such (named (id ++ ".meta.json")) paths p.
Proof.
  rewrite (fold_left_ext walk_meta (fun m q => match sel_meta q with Some i => <[i := q]> m | None => m end)).
  2: { intros m q. unfold walk_meta, sel_meta. by destruct (has_suffix _ _). }
  rewrite fold_last. apply last_such_ext. intros q. apply sel_meta_named.
Qed.

Lemma payloads_last paths id p :
  fold_left walk_payload paths ∅ !! id = Some p <-> last_such (named (id ++ ".zst")) paths p.
Proof.
  rewrite (fold_left_ext walk_payload (fun m q => match sel_payload q with Some i => <[i := q]> m | None => m end)).
  2: { intros m q. unfold walk_payload, sel_payload. destruct (has_suffix _ _); [done|]. by destruct (has_suffix _ _). }
  rewrite fold_last. apply last_such_ext. intros q. apply sel_payload_named.
Qed.

Lemma last_such_exists name paths : (exists p, last_such (named name) paths p) <-> Exists (named name) paths.
Proof.
  split.
  - intros (p & before & after & -> & Hp & _). apply Exists_app. right. by constructor.
  - induction paths as [|q paths IH]; [by intros ?%Exists_nil|].
    destruct (decide (Exists (named name) paths)) as [He|He].
    + intros _. destruct (IH He) as (p & before & after & -> & Hp & Hn). exists p, (q :: before), after. done.
    + intros [Hq|?]%Exists_cons; [|done]. exists q, [], paths. split_and!; [done..|].
      intros x Hx Hnx. apply He, Exists_exists. by exists x.
Qed.

(** C30: bita logs verify exits with 0 exactly when it could walk the directory (or there is
    none), a block id has a file <id>.meta.json somewhere below it exactly when it has a
    file <id>.zst, and the metadata that counts for each id, the last <id>.meta.json in the
    order of the walk, can be read and parsed. An earlier file of the same name in another
    directory is not looked at. *)
Theorem logs_verify_spec walk_dir files dir :
  code (runLogs walk_dir files ["verify"; dir]) = 0 <->
  match walk_dir dir with
  | WalkFailed => False
  | WalkNotExist => True
  | Walked paths =>
      (forall id, Exists (named (id ++ ".meta.json")) paths <-> Exists (named (id ++ ".zst")) paths) /\
      (forall id p, last_such (named (id ++ ".meta.json")) paths p -> is_Some (files !! p ≫= unmarshal_meta))
  end.
Proof.
  unfold runLogs. rewrite bool_decide_eq_true_2 by done. cbn [negb].
  change (default DefaultLogsDir (head [dir])) with dir. unfold ScanIndex. destruct (walk_dir dir) as [paths| |]; [|by split|by split].
  unfold scan_files. set (metas := fold_left walk_meta paths ∅). set (payloads := fold_left walk_payload paths ∅).
  pose proof (scan_meta_problems unmarshal_meta files payloads (map_to_list metas) no_blocks) as [Hp Hm].
  pose proof (scan_payload_problems metas (map_to_list payloads)
                (fold_left (scan_meta unmarshal_meta files payloads) (map_to_list metas) no_blocks)) as (Ho & Hc & Hop).
  set (r := fold_left (scan_payload metas) _ _) in *. rewrite <- Ho, <- Hc in Hm. rewrite Hp in Hop.
  transitivity (OrphanPayloads r = [] /\ OrphanMeta r = [] /\ Corrupt r = []).
  { destruct (Nat.eqb_spec (length (OrphanPayloads r) + length (OrphanMeta r) + length (Corrupt r)) 0) as [Hz|Hz].
    - destruct (OrphanPayloads r), (OrphanMeta r), (Corrupt r); cbn in Hz; try lia. done.
    - split; [done|]. intros (E1 & E2 & E3). rewrite E1, E2, E3 in Hz. done. }
  rewrite Hop, Hm. cbn [no_blocks OrphanPayloads OrphanMeta Corrupt].
  assert (forall (P : string -> list string -> Prop) (m : gmap string (list string)),
    (forall id p, (id, p) ∈ map_to_list m -> P id p) <-> (forall id p, m !! id = Some p -> P id p)) as Hl.
  { intros P m. split; intros H id p Hin; apply H; by apply elem_of_map_to_list. }
  rewrite !Hl. subst metas payloads.
  setoid_rewrite <- last_such_exists. setoid_rewrite <- metas_last. setoid_rewrite <- payloads_last. split.
  - intros ((_ & H2) & _ & _ & H1). split; [|intros id p Hid; by apply (H1 id p)].
    intros id. split; intros [p Hid]; [by apply (H1 id p)|by eapply H2].
  - intros [H1 H2]. split_and!; [done| |done|done|].
    + intros id p Hid. apply H1. by exists p.
    + intros id p Hid. split; [apply H1; by exists p|by apply (H2 id)].
Qed.

End logs.

(** ** main *)

(** the exit code, the subcommands being given *)
Definition main (doctor : Z) (logs blackbox : list string -> Outcome) (args : list string) : Z :=
  match args with
  | [] => 0
  | cmd :: rest =>
      if bool_decide (cmd = "doctor") then doctor
      else if bool_decide (cmd = "logs") then code (logs rest)
      else if bool_decide (cmd = "blackbox") then code (blackbox rest)
      else 1
  end.

(** Two metadata files of one id: the unreadable one is walked first and not looked at. *)
Example shadowed_metadata_passes :
  code (runLogs (fun raw => if bool_decide (raw = "ok") then Some (mkMeta "b" "" "" 0 0 "" 0 0 [] 0 0) else None)
    (fun _ => "") (fun _ => Walked [["2026"; "b.meta.json"]; ["2027"; "b.meta.json"]; ["2027"; "b.zst"]])
    (<[["2026"; "b.meta.json"] := "garbage"]> (<[["2027"; "b.meta.json"] := "ok"]> (<[["2027"; "b.zst"] := ""]> ∅)))
    ["verify"; "logs"]) = 0.
Proof. vm_compute. reflexivity. Qed.

Example dump_output :
  formatBlackboxSamples [] = "0 sample(s)" ++ nl /\
  FormatFixed 2 (float32_of_bits 1069547520) = "1.50" /\ FormatFixed 2 (float32_of_bits 0) = "0.00".
Proof. vm_compute. done. Qed.

End Bita.

(** ** internal/resourcebudget *)
Module ResourceBudget.

Definition MaxRSSBytes : Z := 60 * 1024 * 1024.
Definition MaxCPUFraction : float64 := fdiv (f_of_Z 2) (f_of_Z 100).
Definition clockTicksPerSecond : float64 := f_of_Z 100.

Inductive BudgetError : Set := ErrRSS | ErrCPU.

Definition CheckBudget (rssBytes : Z) (cpuFraction : float64) : result BudgetError unit :=
  if MaxRSSBytes <? rssBytes then Err ErrRSS
  else if flt MaxCPUFraction cpuFraction then Err ErrCPU
  else Ok tt.

(** the lines of /proc/[pid]/status up to the first VmRSS *)
Fixpoint rss_lines (lines : list string) : option Z :=
  match lines with
  | [] => None
  | line :: rest =>
      if negb (has_prefix "VmRSS:" line) then rss_lines rest
      else match Fields line with
           | _ :: kb :: _ => (fun kb => uint64 (kb * 1024)) <$> ParseUint kb 64
           | _ => None
           end
  end.

Definition readRSS (status : option string) : option Z := raw ← status; rss_lines (scan_lines raw).

Definition readCPUSeconds (stat : option string) : option float64 :=
  raw ← stat;
  after ← snd <$> cut_last_byte ")"%char raw;
  let fields := Fields after in
  if (length fields <? 13)%nat then None
  else
    utime ← (fields !! 11%nat ≫= ParseFloat prec emax);
    stime ← (fields !! 12%nat ≫= ParseFloat prec emax);
    Some (fdiv (fadd utime stime) clockTicksPerSecond).

Definition Sample (status stat : option string) : option (Z * float64) :=
  rssBytes ← readRSS status;
  cpuSeconds ← readCPUSeconds stat;
  Some (rssBytes, cpuSeconds).

(** A process passes exactly when its memory is at most 60 MiB and its CPU fraction is not
    above 0.02; a fraction that is not a number passes. *)
Theorem check_budget_spec rss cpu :
  CheckBudget rss cpu = Ok tt <-> rss <= MaxRSSBytes /\ flt MaxCPUFraction cpu = false.
Proof.
  unfold CheckBudget. destruct (Z.ltb_spec MaxRSSBytes rss); [split; [done|lia]|].
  destruct (flt MaxCPUFraction cpu); naive_solver.
Qed.

(** the command name may hold spaces and parentheses *)
Example sample_demo :
  let status := "Name:" ++ String (ascii_of_nat 9) "a b" ++ Bita.nl ++ "VmRSS:" ++ String (ascii_of_nat 9) "   61440 kB" ++ Bita.nl in
  let stat := "42 (a) b) S 1 2 3 4 5 6 7 8 9 10 150 50 0 0" in
  readRSS (Some status) = Some MaxRSSBytes /\ readCPUSeconds (Some stat) = Some (f_of_Z 2) /\
  readRSS (Some "VmSize: 1 kB") = None /\ readCPUSeconds (Some "42 a S 1") = None /\
  CheckBudget MaxRSSBytes S754_nan = Ok tt.
Proof. vm_compute. done. Qed.

End ResourceBudget.
