(* ===== verification/HubApi.v ===== *)
(** * HubApi: the hub's read API, device pairing and host enrollment

    Models internal/hubapi: devicetoken.go ([Devices]: device tokens and pairing codes),
    hosts.go and summary.go ([Api]: the HTTP handlers and the router).

    Random bytes are inputs (what crypto/rand returned, or [None] when it failed), the
    clock is an input of each call, and argon2.IDKey is the parameter it is in [Token]. A
    request carries what net/http, net/url and encoding/json made of it. *)

From stdpp Require Import base gmap strings list.
From Stdlib Require Import ZArith Lia Ascii.
From Stdlib Require SpecFloat.
From S2P Require Import Prelude GoStd GoFlag Schema Token Transport MetricStore.
Import GoString GoTime GoFloat Schema.

Local Open Scope string_scope.
Local Open Scope Z_scope.

(** ** Device tokens *)
Module Devices.

Definition pairingTTL : Duration := 5 * minute.

Record pairing := mkPairing { p_token : string; expiresAt : Time; claimed : bool }.

Record DeviceTokenStore := mkDevices { hashes : list string; pairings : gmap string pairing }.

Definition NewDeviceTokenStore : DeviceTokenStore := mkDevices [] ∅.

Definition hex_digit (z : Z) : ascii :=
  if z <? 10 then Base64.of_byte (48 + z) else Base64.of_byte (97 + (z - 10)).

(** hex.EncodeToString *)
Fixpoint hex (s : string) : string :=
  match s with
  | "" => ""
  | String c rest => String (hex_digit (byte_of c / 16)) (String (hex_digit (byte_of c mod 16)) (hex rest))
  end.

(** base64.RawURLEncoding: the standard alphabet with - and _ for + and / *)
Fixpoint url_alphabet (s : string) : string :=
  match s with
  | "" => ""
  | String c rest =>
      String (if decide (c = "+"%char) then "-"%char else if decide (c = "/"%char) then "_"%char else c)
             (url_alphabet rest)
  end.
Definition RawURLEncoding (s : string) : string := url_alphabet (Base64.EncodeToString s).

Section devices.
Variable IDKey : string -> string -> Z -> Z -> Z -> Z -> string.

Fixpoint Lookup_hashes (ctx_done : bool) (token : string) (hs : list string) : result unit bool :=
  match hs with
  | [] => Ok false
  | h :: rest =>
      if ctx_done then Err tt
      else match Token.VerifyToken IDKey token h with
           | Err _ => Lookup_hashes ctx_done token rest
           | Ok true => Ok true
           | Ok false => Lookup_hashes ctx_done token rest
           end
  end.

Definition Lookup (ctx_done : bool) (token : string) (s : DeviceTokenStore) : result unit bool :=
  Lookup_hashes ctx_done token (hashes s).

Definition HasAnyToken (s : DeviceTokenStore) : bool := (0 <? length (hashes s))%nat.

Definition addToken (salt : option string) (token : string) (s : DeviceTokenStore) :
    result Token.HashError DeviceTokenStore :=
  match Token.HashToken IDKey salt token with
  | Err err => Err err
  | Ok hash => Ok (mkDevices (hashes s ++ [hash])%list (pairings s))
  end.

Definition live (now : Time) (p : pairing) : bool := negb (claimed p || after now (expiresAt p)).

Definition gcLocked (now : Time) (s : DeviceTokenStore) : DeviceTokenStore :=
  mkDevices (hashes s) (filter (fun kp => live now (snd kp) = true) (pairings s)).

(** the random draws of one Start *)
Record Draws := mkDraws { codeBytes : option string; tokenBytes : option string; saltBytes : option string }.

(** Start: [now] is the clock when the expiry is computed, [gc_now] when gcLocked reads it *)
Definition Start (d : Draws) (now gc_now : Time) (s : DeviceTokenStore) :
    result unit (string * string * Time) * DeviceTokenStore :=
  match codeBytes d, tokenBytes d with
  | None, _ | _, None => (Err tt, s)
  | Some cb, Some tb =>
      let code := hex cb in
      let token := RawURLEncoding tb in
      match addToken (saltBytes d) token s with
      | Err _ => (Err tt, s)
      | Ok s =>
          let expires := add now pairingTTL in
          let s := gcLocked gc_now s in
          (Ok (code, token, expires),
           mkDevices (hashes s) (<[code := mkPairing token expires false]> (pairings s)))
      end
  end.

Definition Claim (gc_now now : Time) (code : string) (s : DeviceTokenStore) : option string * DeviceTokenStore :=
  let s := gcLocked gc_now s in
  match pairings s !! code with
  | None => (None, s)
  | Some p =>
      if claimed p || after now (expiresAt p) then (None, s)
      else (Some (p_token p),
            mkDevices (hashes s) (<[code := mkPairing (p_token p) (expiresAt p) true]> (pairings s)))
  end.

(** *** Pairing codes are single use *)

Inductive op : Type := OpStart (d : Draws) (now gc_now : Time) | OpClaim (gc_now now : Time) (code : string).

(** what happened: a pairing was started, or a code was exchanged for a token *)
Inductive event : Type :=
| Started (code token : string) (expires : Time)
| Claimed (code token : string) (now : Time).

Definition step (s : DeviceTokenStore) (o : op) : list event * DeviceTokenStore :=
  match o with
  | OpStart d now gc_now =>
      match Start d now gc_now s with
      | (Ok (code, token, expires), s) => ([Started code token expires], s)
      | (Err _, s) => ([], s)
      end
  | OpClaim gc_now now code =>
      match Claim gc_now now code s with
      | (Some token, s) => ([Claimed code token now], s)
      | (None, s) => ([], s)
      end
  end.

(** the events of a run, latest first *)
Fixpoint run (s : DeviceTokenStore) (tr : list event) (ops : list op) : list event * DeviceTokenStore :=
  match ops with
  | [] => (tr, s)
  | o :: rest => let '(evs, s) := step s o in run s (evs ++ tr)%list rest
  end.

(** The last event about [code] in a trace, latest first: what the code stands for. *)
Fixpoint standing (code : string) (tr : list event) : option (string * Time) :=
  match tr with
  | [] => None
  | Started c token expires :: rest => if decide (c = code) then Some (token, expires) else standing code rest
  | Claimed c _ _ :: rest => if decide (c = code) then None else standing code rest
  end.

(** every exchange of the trace is justified: the last thing that happened to its code
    before was the start of a pairing, whose token it gives and which had not expired *)
Fixpoint justified (tr : list event) : Prop :=
  match tr with
  | [] => True
  | Started _ _ _ :: rest => justified rest
  | Claimed code token now :: rest =>
      (exists expires, standing code rest = Some (token, expires) /\ now <= expires) /\ justified rest
  end.

(** the pairings of the store are among those the trace leaves standing *)
Definition agrees (s : DeviceTokenStore) (tr : list event) : Prop :=
  forall code p, pairings s !! code = Some p -> claimed p = false ->
    standing code tr = Some (p_token p, expiresAt p).

Lemma gc_agrees now s tr : agrees s tr -> agrees (gcLocked now s) tr.
Proof. intros Ha code p [Hp _]%map_lookup_filter_Some. by apply Ha. Qed.

Lemma step_justified s tr o :
  agrees s tr -> justified tr ->
  let '(evs, s') := step s o in agrees s' (evs ++ tr)%list /\ justified (evs ++ tr)%list.
Proof.
  intros Ha Hj. destruct o as [d now gc_now|gc_now now code]; cbn [step].
  - unfold Start, addToken. destruct (codeBytes d) as [cb|]; [|done]. destruct (tokenBytes d) as [tb|]; [|done].
    destruct (Token.HashToken _ _ _) as [h|]; [|done]. split; [|done].
    intros code p. cbn [pairings app standing].
    destruct (decide (hex cb = code)) as [->|Hne].
    + rewrite lookup_insert_eq. by intros [= <-].
    + rewrite lookup_insert_ne by done. intros Hp Hc.
      by apply (gc_agrees gc_now (mkDevices (hashes s ++ [h])%list (pairings s)) tr Ha).
  - unfold Claim. pose proof (gc_agrees gc_now s tr Ha) as Hg.
    destruct (pairings (gcLocked gc_now s) !! code) as [p|] eqn:Hp; [|done].
    destruct (claimed p) eqn:Hc; [done|]. unfold after.
    destruct (Z.ltb_spec (expiresAt p) now); [done|]. cbn [orb]. split.
    + intros code' p'. cbn [pairings app standing]. destruct (decide (code = code')) as [->|Hne].
      * rewrite lookup_insert_eq. by intros [= <-].
      * rewrite lookup_insert_ne by done. apply Hg.
    + cbn [app justified]. split; [|done]. exists (expiresAt p). split; [by apply Hg|lia].
Qed.

(** Whatever pairings are started and codes presented, in any order and at any times, a
    code is exchanged for a token only when the last thing that happened to it was the
    start of a pairing, it gives that pairing's token, and not after the pairing expired:
    a code works once. *)
Theorem pairing_code_single_use ops :
  justified (run NewDeviceTokenStore [] ops).1.
Proof.
  assert (forall s tr, agrees s tr -> justified tr -> justified (run s tr ops).1) as Hr.
  { induction ops as [|o ops IH]; intros s tr Ha Hj; [done|]. cbn [run].
    pose proof (step_justified s tr o Ha Hj) as Hs. destruct (step s o) as [evs s'].
    apply IH; apply Hs. }
  apply Hr; [|done]. intros code p. cbn [pairings NewDeviceTokenStore]. by rewrite lookup_empty.
Qed.

End devices.
End Devices.

(** ** The handlers *)

(** the write side of the ingest token store: whether AddToken succeeded *)
Class HostRegistrar (H : Type) := AddToken : H -> string -> string -> bool * H.

Lemma find_app_or {A} (p : A -> bool) (l1 l2 : list A) :
  List.find p (l1 ++ l2)%list = match List.find p l1 with Some x => Some x | None => List.find p l2 end.
Proof. induction l1 as [|x l1 IH]; [done|]. cbn [app List.find]. by destruct (p x). Qed.

Module Api.
Import Devices.
Import MetricStore(Sample, mkSample, sm_Labels, sm_Timestamp, sm_Value).

Definition DefaultWindow : Duration := 15 * minute.
Definition hostIDMaxLen : Z := 64.
Definition agentHostIDPath : string := "/var/lib/bitacora/host_id".
Definition agentTokenPath : string := "/etc/bitacora/token".

Record SeriesPoint := mkPoint { sp_TS : Time; sp_Value : float64 }.

Record Summary := mkSummary {
  s_HostID : string; s_GeneratedAt : Time; s_WindowSecs : float64;
  s_CPU : list SeriesPoint; s_Memory : list SeriesPoint; s_MemoryTotalBytes : list SeriesPoint;
  s_MemoryAvailableBytes : list SeriesPoint; s_MemoryUsedBytes : list SeriesPoint;
  s_MemorySwapTotalBytes : list SeriesPoint; s_MemorySwapFreeBytes : list SeriesPoint;
  s_Events : list Event }.

(** decoding the body of POST /v1/hosts: a JSON object, an empty body, or neither *)
Inductive host_body : Set := BodyEmpty | BodyMalformed | BodyHost (host_id : string).

Record Request := mkRequest {
  rq_Path : string;
  rq_Method : string;
  rq_Authorization : string;
  rq_ctx_done : bool;
  rq_host_id : string;              (** query parameters *)
  rq_kind : string;
  rq_window : string; (** the window parameter of the query *)
  rq_code : option string;          (** the body of POST /v1/devices/claim *)
  rq_body : host_body;
}.

(** the clock and the random draws of one request *)
Record Env := mkEnv {
  env_now : Time; env_gc_now : Time; env_draws : Draws; env_ulid : string;
  env_tokenBytes : option string;
}.

Inductive Response : Type :=
| HttpError (status : Z)
| PairOK (code : string) (expires : Time)
| ClaimOK (token : string)
| HostCreated (hostID token : string)
| SummaryOK (s : Summary)
| InventoryOK (inv : Inventory)
| StaticFile.

Definition bearerToken (r : Request) : option string :=
  if negb (has_prefix "Bearer " (rq_Authorization r)) then None
  else let token := trim_prefix (rq_Authorization r) "Bearer " in
       if bool_decide (token = "") then None else Some token.

Definition host_char (c : ascii) : bool :=
  let z := byte_of c in
  ((97 <=? z) && (z <=? 122)) || ((65 <=? z) && (z <=? 90)) || ((48 <=? z) && (z <=? 57)) ||
  (z =? 45) || (z =? 95) || (z =? 46).

Fixpoint host_chars (s : string) : bool :=
  match s with "" => true | String c rest => host_char c && host_chars rest end.

(** the runes of a string outside ASCII are bytes of at least 128, refused like them *)
Definition validateHostID (id : string) : bool :=
  negb (hostIDMaxLen <? Z.of_nat (String.length id)) && host_chars id.

Definition toSeries (samples : list Sample) : list SeriesPoint :=
  (fun s => mkPoint (sm_Timestamp s) (sm_Value s)) <$> samples.

Definition fsub (x y : float64) : float64 := SpecFloat.SFsub prec emax x y.

Definition totals_by_ts (total : list Sample) : gmap Z float64 :=
  fold_left (fun m s => <[sm_Timestamp s := sm_Value s]> m) total ∅.

Definition used_point (totalByTS : gmap Z float64) (latestTotal : float64) (s : Sample) : SeriesPoint :=
  let totalValue := default latestTotal (totalByTS !! sm_Timestamp s) in
  let used := fsub totalValue (sm_Value s) in
  mkPoint (sm_Timestamp s) (if flt used f_zero then f_zero else used).

Definition memoryUsedSeries (total available : list Sample) : list SeriesPoint :=
  match last total, available with
  | None, _ | _, [] => []
  | Some latest, _ => used_point (totals_by_ts total) (sm_Value latest) <$> available
  end.

(** d.Seconds() *)
Definition seconds (d : Duration) : float64 :=
  SpecFloat.SFadd prec emax (f_of_Z (Z.quot d second))
    (SpecFloat.SFdiv prec emax (f_of_Z (Z.rem d second)) (f_of_Z second)).

Section api.
Context {H : Type} `{HostRegistrar H}.
Variable IDKey : string -> string -> Z -> Z -> Z -> Z -> string.

(** The read backends: [Query name from to matchers], with [None] for an error *)
Variable Query : string -> Time -> Time -> list (string * string) -> option (list Sample).
Variable ListEvents : Time -> Time -> string -> option (list Event).
Variable Inventories : option (string -> string -> result unit (option Inventory)).
Variable has_webui : bool.

Record Server := mkServer { Devices_ : option DeviceTokenStore; Hosts : option H }.

Definition handleDevicePair (env : Env) (r : Request) (s : Server) : Response * Server :=
  if negb (bool_decide (rq_Method r = "POST")) then (HttpError 405, s)
  else match Devices_ s with
  | None => (HttpError 503, s)
  | Some d =>
      let start :=
        match Start IDKey (env_draws env) (env_now env) (env_gc_now env) d with
        | (Err _, d) => (HttpError 500, mkServer (Some d) (Hosts s))
        | (Ok (code, _, expires), d) => (PairOK code expires, mkServer (Some d) (Hosts s))
        end in
      if HasAnyToken d
      then match bearerToken r with
           | None => (HttpError 401, s)
           | Some token =>
               match Lookup IDKey (rq_ctx_done r) token d with
               | Err _ => (HttpError 500, s)
               | Ok false => (HttpError 401, s)
               | Ok true => start
               end
           end
      else start
  end.

Definition handleDeviceClaim (env : Env) (r : Request) (s : Server) : Response * Server :=
  if negb (bool_decide (rq_Method r = "POST")) then (HttpError 405, s)
  else match Devices_ s with
  | None => (HttpError 503, s)
  | Some d =>
      match rq_code r with
      | None => (HttpError 400, s)
      | Some code =>
          match Claim (env_gc_now env) (env_now env) code d with
          | (None, d) => (HttpError 404, mkServer (Some d) (Hosts s))
          | (Some token, d) => (ClaimOK token, mkServer (Some d) (Hosts s))
          end
      end
  end.

Definition newIngestToken (env : Env) : option string := RawURLEncoding <$> env_tokenBytes env.

Definition handleCreateHost (env : Env) (r : Request) (s : Server) : Response * Server :=
  if negb (bool_decide (rq_Method r = "POST")) then (HttpError 405, s)
  else match Devices_ s with
  | None => (HttpError 503, s)
  | Some d =>
  match Hosts s with
  | None => (HttpError 503, s)
  | Some hosts =>
  match bearerToken r with
  | None => (HttpError 401, s)
  | Some token =>
  match Lookup IDKey (rq_ctx_done r) token d with
  | Err _ => (HttpError 500, s)
  | Ok false => (HttpError 401, s)
  | Ok true =>
      let enroll (hostID : string) :=
        match newIngestToken env with
        | None => (HttpError 500, s)
        | Some ingestToken =>
            match AddToken hosts hostID ingestToken with
            | (false, hosts) => (HttpError 500, mkServer (Devices_ s) (Some hosts))
            | (true, hosts) => (HostCreated hostID ingestToken, mkServer (Devices_ s) (Some hosts))
            end
        end in
      match rq_body r with
      | BodyMalformed => (HttpError 400, s)
      | BodyEmpty => enroll (env_ulid env)
      | BodyHost id =>
          if bool_decide (id = "") then enroll (env_ulid env)
          else if negb (validateHostID id) then (HttpError 400, s)
          else enroll id
      end
  end end end end.

Definition handleSummary (env : Env) (r : Request) (s : Server) : Response * Server :=
  if negb (bool_decide (rq_Method r = "GET")) then (HttpError 405, s)
  else
  let hostID := rq_host_id r in
  if bool_decide (hostID = "") then (HttpError 400, s)
  else match (if bool_decide (rq_window r = "") then Some DefaultWindow else GoFlag.ParseDuration (rq_window r)) with
  | None => (HttpError 400, s)
  | Some window =>
  let now := env_now env in
  let from := add now (- window) in
  let host := ("host_id", hostID) in
  let answer :=
    cpu ← Query "bitacora_cpu_usage_ratio" from now [host; ("cpu", "total")];
    mem ← Query "bitacora_memory_used_ratio" from now [host];
    memTotal ← Query "bitacora_memory_total_bytes" from now [host];
    memAvailable ← Query "bitacora_memory_available_bytes" from now [host];
    swapTotal ← Query "bitacora_memory_swap_total_bytes" from now [host];
    swapFree ← Query "bitacora_memory_swap_free_bytes" from now [host];
    events ← ListEvents from now hostID;
    Some (mkSummary hostID now (seconds window) (toSeries cpu) (toSeries mem) (toSeries memTotal)
            (toSeries memAvailable) (memoryUsedSeries memTotal memAvailable) (toSeries swapTotal)
            (toSeries swapFree) events) in
  match answer with
  | None => (HttpError 500, s)
  | Some summary => (SummaryOK summary, s)
  end end.

Definition handleInventory (env : Env) (r : Request) (s : Server) : Response * Server :=
  if negb (bool_decide (rq_Method r = "GET")) then (HttpError 405, s)
  else match Inventories with
  | None => (HttpError 404, s)
  | Some get =>
      if bool_decide (rq_host_id r = "") then (HttpError 400, s)
      else if bool_decide (rq_kind r = "") then (HttpError 400, s)
      else match get (rq_host_id r) (rq_kind r) with
           | Err _ => (HttpError 500, s)
           | Ok None => (HttpError 404, s)
           | Ok (Some inv) => (InventoryOK inv, s)
           end
  end.

Definition requireDeviceToken (next : Env -> Request -> Server -> Response * Server)
    (env : Env) (r : Request) (s : Server) : Response * Server :=
  match Devices_ s with
  | None => next env r s
  | Some d =>
      match bearerToken r with
      | None => (HttpError 401, s)
      | Some token =>
          match Lookup IDKey (rq_ctx_done r) token d with
          | Ok true => next env r s
          | _ => (HttpError 401, s)
          end
      end
  end.

Definition Handler (env : Env) (r : Request) (s : Server) : Response * Server :=
  if bool_decide (rq_Path r = "/v1/summary") then requireDeviceToken handleSummary env r s
  else if bool_decide (rq_Path r = "/v1/inventory") then requireDeviceToken handleInventory env r s
  else if bool_decide (rq_Path r = "/v1/hosts") then handleCreateHost env r s
  else if bool_decide (rq_Path r = "/v1/devices/pair") then handleDevicePair env r s
  else if bool_decide (rq_Path r = "/v1/devices/claim") then handleDeviceClaim env r s
  else if has_webui then (StaticFile, s) else (HttpError 404, s).

(** what an enrolment did *)
Lemma create_host_registers env r d hosts hostID token s' :
  handleCreateHost env r (mkServer (Some d) (Some hosts)) = (HostCreated hostID token, s') ->
  exists hosts', AddToken hosts hostID token = (true, hosts') /\ s' = mkServer (Some d) (Some hosts').
Proof.
  unfold handleCreateHost. cbn [Devices_ Hosts].
  destruct (negb _); [done|]. destruct (bearerToken r) as [tok|]; [|done].
  destruct (Lookup IDKey _ tok d) as [[]|]; [|done|done]. intros Hc.
  assert (exists id, match newIngestToken env with
    | None => (HttpError 500, mkServer (Some d) (Some hosts))
    | Some ingestToken =>
        match AddToken hosts id ingestToken with
        | (false, hosts) => (HttpError 500, mkServer (Some d) (Some hosts))
        | (true, hosts) => (HostCreated id ingestToken, mkServer (Some d) (Some hosts))
        end
    end = (HostCreated hostID token, s')) as [id He].
  { destruct (rq_body r) as [| |id]; [by eexists|done|]. destruct (bool_decide _); [by eexists|].
    destruct (negb _); [done|by eexists]. }
  destruct (newIngestToken env) as [it|]; [|done]. destruct (AddToken hosts id it) as [[] hosts'] eqn:Ha; [|done].
  injection He as <- <- <-. by exists hosts'.
Qed.

(** *** Access control *)

(** the request carries a token the device store accepts *)
Definition authenticated (d : DeviceTokenStore) (r : Request) : Prop :=
  exists token, bearerToken r = Some token /\ Lookup IDKey (rq_ctx_done r) token d = Ok true.

(** what a request may do without a device token: nothing but be refused, fetch the web
    UI, start the first pairing of an empty store, or claim a code *)
Definition harmless (d : DeviceTokenStore) (hosts : option H) (resp : Response) (s' : Server) : Prop :=
  Hosts s' = hosts /\
  match resp with
  | SummaryOK _ | InventoryOK _ | HostCreated _ _ => False
  | PairOK _ _ => hashes d = []
  | HttpError _ => (exists d', Devices_ s' = Some d' /\ hashes d' = hashes d)
  | ClaimOK _ => (exists d', Devices_ s' = Some d' /\ hashes d' = hashes d)
  | StaticFile => s' = mkServer (Some d) hosts
  end.

Lemma harmless_error d hosts st : harmless d hosts (HttpError st) (mkServer (Some d) hosts).
Proof. split; [done|]. by exists d. Qed.

Lemma requireDeviceToken_harmless next env r d hosts :
  ~ authenticated d r ->
  let '(resp, s') := requireDeviceToken next env r (mkServer (Some d) hosts) in harmless d hosts resp s'.
Proof.
  intros Hna. unfold requireDeviceToken. cbn [Devices_].
  destruct (bearerToken r) as [token|] eqn:Hb; [|apply harmless_error].
  destruct (Lookup IDKey _ token d) as [[]|] eqn:Hl; [|apply harmless_error..].
  destruct Hna. by exists token.
Qed.

Lemma create_harmless env r d hosts :
  ~ authenticated d r ->
  let '(resp, s') := handleCreateHost env r (mkServer (Some d) hosts) in harmless d hosts resp s'.
Proof.
  intros Hna. unfold handleCreateHost. cbn [Devices_ Hosts].
  destruct (negb _); [apply harmless_error|]. destruct hosts as [hosts|]; [|apply harmless_error].
  destruct (bearerToken r) as [token|] eqn:Hb; [|apply harmless_error].
  destruct (Lookup IDKey _ token d) as [[]|] eqn:Hl; [|apply harmless_error..].
  destruct Hna. by exists token.
Qed.

Lemma Start_failed dr now gc_now d err d' : Start IDKey dr now gc_now d = (Err err, d') -> d' = d.
Proof.
  unfold Start. destruct (codeBytes dr); [|by intros [= _ <-]]. destruct (tokenBytes dr); [|by intros [= _ <-]].
  destruct (addToken _ _ _ _); [done|]. by intros [= _ <-].
Qed.

Lemma pair_harmless env r d hosts :
  ~ authenticated d r ->
  let '(resp, s') := handleDevicePair env r (mkServer (Some d) hosts) in harmless d hosts resp s'.
Proof.
  intros Hna. unfold handleDevicePair. cbn [Devices_ Hosts].
  destruct (negb _); [apply harmless_error|].
  destruct (HasAnyToken d) eqn:Hany.
  - destruct (bearerToken r) as [token|] eqn:Hb; [|apply harmless_error].
    destruct (Lookup IDKey _ token d) as [[]|] eqn:Hl; [|apply harmless_error..].
    destruct Hna. by exists token.
  - destruct (Start _ _ _ _ _) as [[[[code tok] expires]|err] d'] eqn:Hs.
    + split; [done|]. unfold HasAnyToken in Hany. by destruct (hashes d).
    + apply Start_failed in Hs as ->. apply harmless_error.
Qed.

Lemma claim_harmless env r d hosts :
  let '(resp, s') := handleDeviceClaim env r (mkServer (Some d) hosts) in harmless d hosts resp s'.
Proof.
  unfold handleDeviceClaim, Claim. cbn [Devices_ Hosts]. destruct (negb _); [apply harmless_error|].
  destruct (rq_code r) as [code|]; [|apply harmless_error].
  destruct (pairings (gcLocked _ d) !! code) as [p|]; [|split; [done|]; by eexists].
  destruct (claimed p || _); (split; [done|]; by eexists).
Qed.

(** C17: With device authentication configured, a request without an accepted device token
    never reads metrics, events or inventories and never enrolls a host, on any route: it
    can only be refused, fetch the web UI, claim a pairing code, or start a pairing while
    the store has no device token at all; the enrolled hosts and the device tokens stay as
    they are. *)
Theorem api_requires_device_token env r d hosts :
  ~ authenticated d r ->
  let '(resp, s') := Handler env r (mkServer (Some d) hosts) in harmless d hosts resp s'.
Proof.
  intros Hna. unfold Handler. repeat (destruct (bool_decide _); [|]).
  - by apply requireDeviceToken_harmless.
  - by apply requireDeviceToken_harmless.
  - by apply create_harmless.
  - by apply pair_harmless.
  - apply claim_harmless.
  - destruct has_webui; [done|apply harmless_error].
Qed.

(** *** The memory series *)

Lemma totals_by_ts_lookup total t :
  totals_by_ts total !! t = sm_Value <$> last (List.filter (fun s => sm_Timestamp s =? t) total).
Proof.
  unfold totals_by_ts. induction total as [|s total IH] using rev_ind; [done|].
  rewrite fold_left_app, List.filter_app. cbn [fold_left List.filter].
  destruct (Z.eqb_spec (sm_Timestamp s) t) as [->|Hne].
  - by rewrite lookup_insert_eq, last_snoc.
  - by rewrite lookup_insert_ne, app_nil_r.
Qed.

(** The used-memory series has one point per available-memory sample, at its time and
    in its order; each is the total of the same time (the last one, or else the latest
    total of the window) minus the available memory, and never below zero. Without totals
    or without samples it is empty. *)
Theorem memory_used_spec total available :
  match last total with
  | None => memoryUsedSeries total available = []
  | Some latest =>
      memoryUsedSeries total available =
        (fun s =>
           let same := List.filter (fun x => sm_Timestamp x =? sm_Timestamp s) total in
           let used := fsub (sm_Value (default latest (last same))) (sm_Value s) in
           mkPoint (sm_Timestamp s) (if flt used f_zero then f_zero else used)) <$> available /\
      Forall (fun p => flt (sp_Value p) f_zero = false) (memoryUsedSeries total available)
  end.
Proof.
  unfold memoryUsedSeries. destruct (last total) as [latest|] eqn:Hl; [|done].
  assert (match available with [] => [] | _ => used_point (totals_by_ts total) (sm_Value latest) <$> available end =
          used_point (totals_by_ts total) (sm_Value latest) <$> available) as -> by by destruct available.
  split.
  - apply list_fmap_ext. intros i s _. unfold used_point. rewrite totals_by_ts_lookup. cbv beta zeta.
    by destruct (last (List.filter _ total)).
  - apply Forall_fmap, Forall_forall. intros s _. unfold used_point, compose. cbn [sp_Value].
    destruct (flt (fsub _ _) f_zero) eqn:Hlt; [done|exact Hlt].
Qed.

End api.

(** *** Enrolled hosts can ingest *)
Section enroll.
Variable IDKey : string -> string -> Z -> Z -> Z -> Z -> string.
Hypothesis IDKey_length : Token.key_length_law IDKey.

(** the ingest token store of the hub, drawing [salt] for the new record *)
Definition token_registrar (salt : option string) : HostRegistrar (list Stores.tokenRecord) :=
  fun s hostID token =>
    match Stores.AddToken IDKey salt hostID token s with Ok s' => (true, s') | Err _ => (false, s) end.

(** When POST /v1/hosts answers that a host was enrolled, the token it returns is
    accepted by the ingest endpoint as that host's (or as the host of an older record that
    the same token already opened), and the token of every host enrolled before still
    opens what it opened. *)
Theorem enrolled_token_accepted salt env r d hosts hostID token s' other h :
  @handleCreateHost _ (token_registrar salt) IDKey env r (mkServer (Some d) (Some hosts)) =
    (HostCreated hostID token, s') ->
  Stores.Lookup_loop IDKey false other hosts = Ok (Some h) ->
  exists hosts', Hosts s' = Some hosts' /\
    Stores.Lookup_loop IDKey false token hosts' =
      Ok (Some (default hostID (Stores.tr_hostID <$> List.find (Stores.verifies IDKey token) hosts))) /\
    Stores.Lookup_loop IDKey false other hosts' = Ok (Some h).
Proof.
  intros Hc Ho. apply create_host_registers in Hc as (hosts' & He & ->). cbn [Hosts].
  unfold AddToken, token_registrar, Stores.AddToken in He.
  destruct (Token.HashToken IDKey salt token) as [hash|] eqn:Hh; [|done]. injection He as <-.
  exists (hosts ++ [Stores.mkToken hostID hash])%list. split; [done|].
  rewrite !Stores.Lookup_find in *. injection Ho as Ho. rewrite !find_app_or.
  assert (Stores.verifies IDKey token (Stores.mkToken hostID hash) = true) as Hv.
  { unfold Stores.verifies. cbn [Stores.tr_hash]. destruct salt as [salt|]; [|done].
    rewrite (Token.verify_hashed IDKey token salt hash token IDKey_length Hh). by apply bool_decide_eq_true_2. }
  split.
  - destruct (List.find (Stores.verifies IDKey token) hosts); [done|]. cbn [List.find]. by rewrite Hv.
  - destruct (List.find (Stores.verifies IDKey other) hosts); [|done]. by rewrite Ho.
Qed.

End enroll.

(** *** A concrete hub *)

Definition no_registrar : HostRegistrar unit := fun u _ _ => (true, u).
Definition draws : Draws := mkDraws (Some "abcd") (Some "device-token-bytes") (Some "salt").
Definition demo_env (now : Time) : Env := mkEnv now now draws "01HOST" (Some "ingest-bytes").
Definition request (path auth : string) (code : option string) : Request :=
  mkRequest path "POST" auth false "" "" "" code BodyEmpty.
Definition handle := @Handler unit no_registrar Token.demo_key (fun _ _ _ _ => None) (fun _ _ _ => None) None false.
Definition fresh : Server (H := unit) := mkServer (Some NewDeviceTokenStore) (Some tt).

Lemma api_requires_device_token_witness :
  let '(resp, s') := handle (demo_env 0) (request "/v1/hosts" "Bearer guess" None) fresh in
  harmless NewDeviceTokenStore (Some tt) resp s'.
Proof.
  apply (@api_requires_device_token unit no_registrar Token.demo_key (fun _ _ _ _ => None) (fun _ _ _ => None) None
           false (demo_env 0) (request "/v1/hosts" "Bearer guess" None) NewDeviceTokenStore (Some tt)).
  intros (token & _ & Hl). discriminate Hl.
Defined.

(** the code is exchanged once *)
Example pairing_flow :
  let '(r1, s1) := handle (demo_env 1000) (request "/v1/devices/pair" "" None) fresh in
  let '(r2, s2) := handle (demo_env 2000) (request "/v1/devices/claim" "" (Some "61626364")) s1 in
  let '(r3, s3) := handle (demo_env 3000) (request "/v1/devices/claim" "" (Some "61626364")) s2 in
  r1 = PairOK "61626364" (1000 + pairingTTL) /\ r2 = ClaimOK "ZGV2aWNlLXRva2VuLWJ5dGVz" /\ r3 = HttpError 404.
Proof. vm_compute. done. Qed.

(** The token of a pairing counts as soon as the pairing starts: when the first code is
    not claimed in time, nobody holds a device token, and every later pairing is refused
    for want of one. *)
Example unclaimed_first_pairing_locks_out :
  let '(r1, s1) := handle (demo_env 0) (request "/v1/devices/pair" "" None) fresh in
  let '(r2, s2) := handle (demo_env (pairingTTL + 1)) (request "/v1/devices/claim" "" (Some "61626364")) s1 in
  let '(r3, s3) := handle (demo_env (pairingTTL + 2)) (request "/v1/devices/pair" "" None) s2 in
  r1 = PairOK "61626364" pairingTTL /\ r2 = HttpError 404 /\ r3 = HttpError 401.
Proof. vm_compute. done. Qed.

Definition demo_hosts : list Stores.tokenRecord := Server.demo_tokens.
Definition demo_devices : DeviceTokenStore := (Start Token.demo_key draws 0 0 NewDeviceTokenStore).2.
Definition demo_create : Response * Server (H := list Stores.tokenRecord) :=
  @handleCreateHost _ (token_registrar Token.demo_key (Some "salt2")) Token.demo_key (demo_env 0)
    (request "/v1/hosts" "Bearer ZGV2aWNlLXRva2VuLWJ5dGVz" None) (mkServer (Some demo_devices) (Some demo_hosts)).

Lemma enrolled_token_accepted_witness :
  exists hosts', Hosts demo_create.2 = Some hosts' /\
    Stores.Lookup_loop Token.demo_key false "aW5nZXN0LWJ5dGVz" hosts' = Ok (Some "01HOST") /\
    Stores.Lookup_loop Token.demo_key false "othersecret" hosts' = Ok (Some "h2").
Proof.
  apply (enrolled_token_accepted Token.demo_key Token.demo_key_length (Some "salt2") (demo_env 0)
    (request "/v1/hosts" "Bearer ZGV2aWNlLXRva2VuLWJ5dGVz" None) demo_devices demo_hosts "01HOST" "aW5nZXN0LWJ5dGVz"
    demo_create.2 "othersecret" "h2"); vm_compute; reflexivity.
Defined.

End Api.
