(* ===== verification/HubPairing.v ===== *)
(** * HubPairing: pairing requests that run at the same time

    Models the concurrency of the device pairing of internal/hubapi: net/http serves every
    request in a goroutine of its own, and handleDevicePair (summary.go) takes the locks of
    DeviceTokenStore (devicetoken.go) one after the other: for HasAnyToken, for the copy that
    Lookup works on, for the token that Start adds and for the pairing it publishes. [HubApi]
    runs a request from end to end; here the steps of any number of them interleave, with
    the claims of codes in between. *)

From stdpp Require Import base gmap strings list.
From Stdlib Require Import ZArith Lia Ascii.
From S2P Require Import Prelude GoStd Schema Token Transport HubApi.
Import GoString GoTime Devices.

Local Open Scope string_scope.
Local Open Scope Z_scope.

Module HubPairing.

(** Where a request to pair stands; [authorized] tells whether it showed a token or came
    through because the store was empty. *)
Inductive phase : Type :=
| Arrived
| Looking (token : string)
| Cleared (authorized : bool)
| Stored (authorized : bool) (code token : string)
| Paired (authorized : bool) (code : string) (expires : Time)
| Refused (status : Z).

Record hub := mkHub {
  devices : DeviceTokenStore;
  requests : gmap nat (Api.Request * phase);
  trace : list event;       (** pairings published and codes claimed, latest first *)
}.

Section pairing.
Variable IDKey : string -> string -> Z -> Z -> Z -> Z -> string.

(** s.Devices.HasAnyToken() and the bearer token it then asks for *)
Definition check (r : Api.Request) (d : DeviceTokenStore) : phase :=
  if HasAnyToken d then
    match Api.bearerToken r with None => Refused 401 | Some token => Looking token end
  else Cleared false.

Definition look (r : Api.Request) (token : string) (d : DeviceTokenStore) : phase :=
  match Lookup IDKey (Api.rq_ctx_done r) token d with
  | Err _ => Refused 500
  | Ok false => Refused 401
  | Ok true => Cleared true
  end.

(** Start up to the return of addToken *)
Definition store (authorized : bool) (dr : Draws) (d : DeviceTokenStore) : phase * DeviceTokenStore :=
  match codeBytes dr, tokenBytes dr with
  | None, _ | _, None => (Refused 500, d)
  | Some cb, Some tb =>
      match addToken IDKey (saltBytes dr) (RawURLEncoding tb) d with
      | Err _ => (Refused 500, d)
      | Ok d => (Stored authorized (hex cb) (RawURLEncoding tb), d)
      end
  end.

(** the rest of Start: the expiry is computed before the lock is taken *)
Definition publish (now gc_now : Time) (code token : string) (d : DeviceTokenStore) : Time * DeviceTokenStore :=
  let expires := add now pairingTTL in
  let d := gcLocked gc_now d in
  (expires, mkDevices (hashes d) (<[code := mkPairing token expires false]> (pairings d))).

Inductive step : hub -> hub -> Prop :=
| step_arrive t r d rs tr :
    rs !! t = None -> Api.rq_Method r = "POST" -> step (mkHub d rs tr) (mkHub d (<[t := (r, Arrived)]> rs) tr)
| step_check t r d rs tr :
    rs !! t = Some (r, Arrived) -> step (mkHub d rs tr) (mkHub d (<[t := (r, check r d)]> rs) tr)
| step_look t r token d rs tr :
    rs !! t = Some (r, Looking token) -> step (mkHub d rs tr) (mkHub d (<[t := (r, look r token d)]> rs) tr)
| step_store t r auth dr ph d d' rs tr :
    rs !! t = Some (r, Cleared auth) -> store auth dr d = (ph, d') ->
    step (mkHub d rs tr) (mkHub d' (<[t := (r, ph)]> rs) tr)
| step_publish t r auth code token now gc_now expires d d' rs tr :
    rs !! t = Some (r, Stored auth code token) -> publish now gc_now code token d = (expires, d') ->
    step (mkHub d rs tr) (mkHub d' (<[t := (r, Paired auth code expires)]> rs) (Started code token expires :: tr))
| step_claim gc_now now code answer d d' rs tr :
    Claim gc_now now code d = (answer, d') ->
    step (mkHub d rs tr)
      (mkHub d' rs (match answer with Some token => Claimed code token now :: tr | None => tr end)).

Inductive steps : hub -> hub -> Prop :=
| steps_refl s : steps s s
| steps_snoc s s1 s2 : steps s s1 -> step s1 s2 -> steps s s2.

Definition fresh : hub := mkHub NewDeviceTokenStore ∅ [].

(** ** One request alone *)

(** the response to a request that has come to an end *)
Definition answer_of (ph : phase) : Api.Response :=
  match ph with
  | Paired _ code expires => Api.PairOK code expires
  | Refused st => Api.HttpError st
  | _ => Api.HttpError 0
  end.

(** the steps of a request with nothing in between *)
Definition start_alone (env : Api.Env) (authorized : bool) (d : DeviceTokenStore) : phase * DeviceTokenStore :=
  match store authorized (Api.env_draws env) d with
  | (Stored a code token, d) =>
      let '(expires, d) := publish (Api.env_now env) (Api.env_gc_now env) code token d in (Paired a code expires, d)
  | (ph, d) => (ph, d)
  end.

Definition alone (env : Api.Env) (r : Api.Request) (d : DeviceTokenStore) : phase * DeviceTokenStore :=
  match check r d with
  | Looking token => match look r token d with Cleared a => start_alone env a d | ph => (ph, d) end
  | Cleared a => start_alone env a d
  | ph => (ph, d)
  end.

(** Without interleaving, the steps are the handler of [HubApi]. *)
Lemma alone_is_pair {H} `{HostRegistrar H} (hosts : option H) env r d :
  Api.rq_Method r = "POST" ->
  Api.handleDevicePair IDKey env r (Api.mkServer (Some d) hosts) =
    (answer_of (alone env r d).1, Api.mkServer (Some (alone env r d).2) hosts).
Proof.
  intros Hm. unfold Api.handleDevicePair. rewrite Hm. cbn [bool_decide negb Api.Devices_ Api.Hosts].
  assert (forall a, match Start IDKey (Api.env_draws env) (Api.env_now env) (Api.env_gc_now env) d with
    | (Err _, d) => (Api.HttpError 500, Api.mkServer (Some d) hosts)
    | (Ok (code, _, expires), d) => (Api.PairOK code expires, Api.mkServer (Some d) hosts)
    end = (answer_of (start_alone env a d).1, Api.mkServer (Some (start_alone env a d).2) hosts)) as Hs.
  { intros a. unfold Start, start_alone, store. destruct (codeBytes _) as [cb|]; [|done]. destruct (tokenBytes _) as [tb|]; [|done].
    by destruct (addToken _ _ _ _). }
  unfold alone, check. destruct (HasAnyToken d); [|apply Hs]. destruct (Api.bearerToken r) as [token|]; [|done].
  unfold look. destruct (Lookup IDKey _ token d) as [[]|]; [apply Hs|done|done].
Qed.

(** ** Tokens that were handed out are accepted *)

Hypothesis IDKey_length : Token.key_length_law IDKey.

Definition accepted (token : string) (d : DeviceTokenStore) : Prop := Lookup IDKey false token d = Ok true.

Lemma lookup_accepts token hs :
  Lookup_hashes IDKey false token hs = Ok true <-> exists h, h ∈ hs /\ Token.VerifyToken IDKey token h = Ok true.
Proof.
  induction hs as [|h hs IH]; cbn [Lookup_hashes].
  - split; [done|]. intros (h & Hh & _). by apply elem_of_nil in Hh.
  - destruct (Token.VerifyToken IDKey token h) as [[]|] eqn:E.
    + split; [|done]. intros _. exists h. split; [by left|done].
    + rewrite IH. split; intros (h' & Hh & Hv); exists h'; (split; [|done]); [by right|].
      apply elem_of_cons in Hh as [->|?]; [congruence|done].
    + rewrite IH. split; intros (h' & Hh & Hv); exists h'; (split; [|done]); [by right|].
      apply elem_of_cons in Hh as [->|?]; [congruence|done].
Qed.

(** an accepted token was accepted whatever became of the context *)
Lemma lookup_ctx ctx_done token d : Lookup IDKey ctx_done token d = Ok true -> accepted token d.
Proof. destruct ctx_done; [|done]. unfold Lookup. by destruct (hashes d). Qed.

Lemma accepted_grows token d d' more : hashes d' = (hashes d ++ more)%list -> accepted token d -> accepted token d'.
Proof.
  intros E. unfold accepted, Lookup. rewrite !lookup_accepts, E. intros (h & Hh & Hv). exists h. split; [|done].
  apply elem_of_app. by left.
Qed.

Lemma added_accepted salt token d d' :
  addToken IDKey salt token d = Ok d' -> accepted token d' /\ pairings d' = pairings d /\ exists h, hashes d' = (hashes d ++ [h])%list.
Proof.
  unfold addToken. destruct (Token.HashToken IDKey salt token) as [h|] eqn:Hh; [|done]. intros [= <-].
  split; [|split; [done|by exists h]]. unfold accepted, Lookup. cbn [hashes]. rewrite lookup_accepts. exists h.
  split; [apply elem_of_app; right; by left|]. destruct salt as [salt|]; [|done].
  rewrite (Token.verify_hashed IDKey token salt h token IDKey_length Hh). by rewrite bool_decide_eq_true_2.
Qed.

(** ** The invariant *)

(** the request showed a token that the store accepts *)
Definition authenticated_by (r : Api.Request) (d : DeviceTokenStore) : Prop :=
  exists token, Api.bearerToken r = Some token /\ accepted token d.

Definition authorized (ph : phase) : bool :=
  match ph with Cleared true | Stored true _ _ | Paired true _ _ => true | _ => false end.

Definition request_ok (r : Api.Request) (ph : phase) (d : DeviceTokenStore) : Prop :=
  match ph with Looking token => Api.bearerToken r = Some token | Stored _ _ token => accepted token d | _ => True end /\
  (authorized ph = true -> authenticated_by r d).

Lemma request_ok_grows r ph d d' more : hashes d' = (hashes d ++ more)%list -> request_ok r ph d -> request_ok r ph d'.
Proof.
  intros E [H1 H2]. split; [destruct ph; try done; by eapply accepted_grows|]. intros Ha.
  destruct (H2 Ha) as (token & Ht & Hacc). exists token. split; [done|by eapply accepted_grows].
Qed.

Record hinv (s : hub) : Prop := mkHinv {
  hi_agrees : agrees (devices s) (trace s);
  hi_justified : justified (trace s);
  hi_requests : forall t r ph, requests s !! t = Some (r, ph) -> request_ok r ph (devices s);
  hi_pairings : forall code p, pairings (devices s) !! code = Some p -> accepted (p_token p) (devices s);
  hi_claimed : forall code token now, Claimed code token now ∈ trace s -> accepted token (devices s);
}.

Lemma fresh_inv : hinv fresh.
Proof.
  constructor; cbn [devices requests trace fresh]; [..|intros code token now Hc; by apply elem_of_nil in Hc].
  - intros code p. unfold NewDeviceTokenStore. cbn [pairings]. by rewrite lookup_empty.
  - done.
  - intros t r ph. by rewrite lookup_empty.
  - intros code p. unfold NewDeviceTokenStore. cbn [pairings]. by rewrite lookup_empty.
Qed.

(** a step of a request that leaves the store and the trace alone *)
Lemma request_pairing_inv d rs tr t r ph :
  hinv (mkHub d rs tr) -> request_ok r ph d -> hinv (mkHub d (<[t := (r, ph)]> rs) tr).
Proof.
  intros [H1 H2 H3 H4 H5] Hph. constructor; cbn in *; try done. intros t' r' ph' Ht.
  apply lookup_insert_Some in Ht as [[-> [= -> ->]]|[_ Ht]]; [done|by eapply H3].
Qed.

Lemma store_inv t r a dr ph d d' rs tr :
  hinv (mkHub d rs tr) -> rs !! t = Some (r, Cleared a) -> store a dr d = (ph, d') -> hinv (mkHub d' (<[t := (r, ph)]> rs) tr).
Proof.
  intros Hi Hadm. pose proof (hi_requests _ Hi t r _ Hadm) as [_ Hauth]. cbn [devices] in Hauth. unfold store. destruct (codeBytes dr) as [cb|]; [|intros [= <- <-]; by apply request_pairing_inv].
  destruct (tokenBytes dr) as [tb|]; [|intros [= <- <-]; by apply request_pairing_inv].
  destruct (addToken IDKey _ _ d) as [d1|] eqn:Ha; intros [= <- <-]; [|by apply request_pairing_inv].
  apply added_accepted in Ha as (Hacc & Hp & h & Hh). destruct Hi as [H1 H2 H3 H4 H5].
  constructor; cbn in *; rewrite ?Hp; try done; [intros code p; rewrite Hp; apply H1|..].
  - intros t' r' ph' Ht. apply lookup_insert_Some in Ht as [[_ [= <- <-]]|[_ Ht]].
    + split; [done|]. intros Ha. eapply (request_ok_grows r (Cleared a)); [exact Hh|by split|by destruct a].
    + eapply request_ok_grows; [exact Hh|by eapply H3].
  - intros code p Hc. eapply accepted_grows; [exact Hh|by eapply H4].
  - intros code token now Hc. eapply accepted_grows; [exact Hh|by eapply H5].
Qed.

Lemma publish_inv t r a code token now gc_now expires d d' rs tr :
  hinv (mkHub d rs tr) -> rs !! t = Some (r, Stored a code token) -> publish now gc_now code token d = (expires, d') ->
  hinv (mkHub d' (<[t := (r, Paired a code expires)]> rs) (Started code token expires :: tr)).
Proof.
  intros [H1 H2 H3 H4 H5] Ht [= <- <-]. pose proof (H3 t r _ Ht) as [Hacc Hauth]. cbn [devices] in Hacc, Hauth.
  constructor; cbn [devices trace requests] in *.
  - intros code' p. cbn [pairings standing]. destruct (decide (code = code')) as [->|Hne].
    + rewrite lookup_insert_eq. by intros [= <-].
    + rewrite lookup_insert_ne by done. by apply gc_agrees.
  - done.
  - intros t' r' ph' Ht'. apply lookup_insert_Some in Ht' as [[_ [= <- <-]]|[_ Ht']]; [|by eapply (H3 t')].
    split; [done|]. intros Ha. apply Hauth. by destruct a.
  - intros code' p Hp. cbn [pairings] in Hp. apply lookup_insert_Some in Hp as [[_ <-]|[_ [Hp _]%map_lookup_filter_Some]]; [done|by eapply H4].
  - intros code' token' now' [[=]|Hc]%elem_of_cons. by eapply H5.
Qed.

Lemma claim_inv gc_now now code answer d d' rs tr :
  hinv (mkHub d rs tr) -> Claim gc_now now code d = (answer, d') ->
  hinv (mkHub d' rs (match answer with Some token => Claimed code token now :: tr | None => tr end)).
Proof.
  intros [H1 H2 H3 H4 H5] E. cbn [devices trace requests] in *.
  pose proof (step_justified IDKey d tr (OpClaim gc_now now code) H1 H2) as Hs. cbn [Devices.step] in Hs. rewrite E in Hs.
  assert (hashes d' = (hashes d ++ [])%list /\ (forall token, answer = Some token -> accepted token d) /\
    forall code p, pairings d' !! code = Some p -> accepted (p_token p) d) as (Hh & Hans & Hp).
  { rewrite app_nil_r. revert E. unfold Claim. destruct (pairings (gcLocked gc_now d) !! code) as [p|] eqn:Hc.
    - pose proof Hc as [Hc' _]%map_lookup_filter_Some. destruct (claimed p || after now (expiresAt p)); intros [= <- <-]; (split_and!; [done|..]).
      + done.
      + intros code' p' [Hp _]%map_lookup_filter_Some. by eapply H4.
      + intros token [= <-]. by eapply H4.
      + intros code' p' Hp. cbn [pairings] in Hp. apply lookup_insert_Some in Hp as [[_ <-]|[_ [Hp _]%map_lookup_filter_Some]]; [exact (H4 _ _ Hc')|by eapply H4].
    - intros [= <- <-]. split_and!; [done|done|]. intros code' p' [Hp _]%map_lookup_filter_Some. by eapply H4. }
  assert (forall token, accepted token d -> accepted token d') as Hgrow by (intros token; by apply accepted_grows with []).
  constructor; cbn [devices trace requests].
  - by destruct answer; apply Hs.
  - by destruct answer; apply Hs.
  - intros t r ph Ht. by eapply request_ok_grows, H3.
  - intros c p Hc. by eapply Hgrow, Hp.
  - destruct answer as [token|]; intros c token' now' Hc.
    + apply elem_of_cons in Hc as [[= _ -> _]|Hc]; [by eapply Hgrow, Hans|by eapply Hgrow, H5].
    + by eapply Hgrow, H5.
Qed.

Lemma pairing_step_inv s s' : hinv s -> step s s' -> hinv s'.
Proof.
  intros Hi Hs. destruct Hs as [t r d rs tr|t r d rs tr|t r token d rs tr Ht|t r a dr ph d d' rs tr Ht E
    |t r a code token now gc_now expires d d' rs tr Ht E|gc_now now code answer d d' rs tr E].
  - by apply request_pairing_inv.
  - apply request_pairing_inv; [done|]. unfold check, request_ok. destruct (HasAnyToken d); [|done]. by destruct (Api.bearerToken r) eqn:Hb; rewrite ?Hb.
  - apply request_pairing_inv; [done|]. pose proof (hi_requests _ Hi t r _ Ht) as [Hb _]. unfold look, request_ok.
    destruct (Lookup IDKey (Api.rq_ctx_done r) token d) as [[]|] eqn:El; (split; [done|]); try done.
    intros _. exists token. split; [done|by eapply lookup_ctx].
  - by eapply store_inv.
  - by eapply publish_inv.
  - by eapply claim_inv.
Qed.

(** ** Pairing without a token *)

(** the request came through because it found the store empty *)
Definition unauthenticated (ph : phase) : bool :=
  match ph with Cleared false | Stored false _ _ | Paired false _ _ => true | _ => false end.

(** the request is past the checks *)
Definition came_through (ph : phase) : bool :=
  match ph with Cleared _ | Stored _ _ _ | Paired _ _ _ => true | _ => false end.

Definition unauthenticated_in (s : hub) (t : nat) : Prop :=
  exists r ph, requests s !! t = Some (r, ph) /\ unauthenticated ph = true.

Lemma in_insert t t' r ph d rs tr :
  unauthenticated_in (mkHub d (<[t := (r, ph)]> rs) tr) t' ->
  t' = t /\ unauthenticated ph = true \/ exists r' ph', rs !! t' = Some (r', ph') /\ unauthenticated ph' = true.
Proof. intros (r' & ph' & Ht & Hu). cbn [requests] in Ht. apply lookup_insert_Some in Ht as [[-> [= -> ->]]|[_ Ht]]; eauto. Qed.

Lemma window_step s s' :
  hashes (devices s) <> [] -> step s s' ->
  hashes (devices s') <> [] /\ forall t, unauthenticated_in s' t -> unauthenticated_in s t.
Proof.
  intros Hne Hs. destruct Hs as [t r d rs tr Ht _|t r d rs tr Ht|t r token d rs tr Ht|t r a dr ph d d' rs tr Ht E
    |t r a code token now gc_now expires d d' rs tr Ht E|gc_now now code answer d d' rs tr E]; cbn [devices] in *.
  - split; [done|]. by intros t' [[_ ?]|?]%in_insert.
  - split; [done|]. intros t' [[-> Hu]|?]%in_insert; [|done]. unfold check, HasAnyToken in Hu.
    destruct (hashes d) as [|h hs]; [done|]. by destruct (Api.bearerToken r).
  - split; [done|]. intros t' [[-> Hu]|?]%in_insert; [|done]. unfold look in Hu. by destruct (Lookup _ _ _ _) as [[]|].
  - assert (hashes d' <> [] /\ (unauthenticated ph = true -> a = false)) as [Hd' Hph].
    { revert E. unfold store. destruct (codeBytes dr); [|by intros [= <- <-]]. destruct (tokenBytes dr); [|by intros [= <- <-]].
      destruct (addToken IDKey _ _ d) as [d1|] eqn:Ha; intros [= <- <-]; [|done].
      apply added_accepted in Ha as (_ & _ & h & ->). split; [by destruct (hashes d)|]. by destruct a. }
    split; [done|]. intros t' [[-> Hu]|?]%in_insert; [|done]. exists r, (Cleared a). split; [done|]. by rewrite (Hph Hu).
  - injection E as <- <-. split; [done|]. intros t' [[-> Hu]|?]%in_insert; [|done]. exists r, (Stored a code token).
    split; [done|]. by destruct a.
  - split; [|done]. revert E. unfold Claim. destruct (pairings _ !! code) as [p|]; [destruct (claimed p || _)|]; by intros [= _ <-].
Qed.

(** C18: Pairing requests and claims that run at the same time, however their steps interleave:
    a code is exchanged once, for the token of its own pairing and not after it expired;
    every token handed out is accepted from then on; a request comes through only with a
    token the store accepts or because it found the store empty; and once the store holds a
    token, none does so for the second reason but those that had found it empty before. *)
Theorem pairings_interleaved s s' :
  steps fresh s -> steps s s' ->
  justified (trace s') /\
  (forall code token now, Claimed code token now ∈ trace s' -> Lookup IDKey false token (devices s') = Ok true) /\
  (forall t r ph, requests s' !! t = Some (r, ph) -> came_through ph = true -> unauthenticated ph = true \/ authenticated_by r (devices s')) /\
  (hashes (devices s) <> [] -> forall t, unauthenticated_in s' t -> unauthenticated_in s t).
Proof.
  intros H1 H2. assert (forall a b, steps a b -> hinv a -> hinv b) as Hsteps.
  { intros a b Hab Ha. induction Hab as [|a b c _ IH Hs]; [done|]. by apply (pairing_step_inv b); [apply IH|]. }
  pose proof (Hsteps _ _ H2 (Hsteps _ _ H1 fresh_inv)) as [_ Hj Hr _ Hc]. split_and!; [done|done| |].
  { intros t r ph Ht Hp. destruct (Hr t r ph Ht) as [_ Ha]. by destruct ph as [| |[]|[]|[]|]; auto. }
  intros Hne. assert (hashes (devices s') <> [] /\ forall t, unauthenticated_in s' t -> unauthenticated_in s t) as [_ ?]; [|done].
  clear H1 Hj Hr Hc. induction H2 as [|a b c _ IH Hs]; [done|]. destruct (IH Hne) as [Hb Hw].
  destruct (window_step b c Hb Hs) as [Hc Hw']. split; [done|]. auto.
Qed.

End pairing.
(** ** Two first pairings *)

(** a request to pair without a token; the draws of two Starts *)
Definition ask : Api.Request := Api.request "/v1/devices/pair" "" None.
Definition draws (code : string) : Draws := mkDraws (Some code) (Some ("token-of-" ++ code)) (Some "salt").

(** the steps of request [t] once it is admitted *)
Definition pair_up (t : nat) (code : string) (now : Time) (s : hub) : hub :=
  let '(ph, d) := store Token.demo_key false (draws code) (devices s) in
  match ph with
  | Stored a c token =>
      let '(expires, d') := publish now now c token d in
      mkHub d' (<[t := (ask, Paired a c expires)]> (<[t := (ask, ph)]> (requests s))) (Started c token expires :: trace s)
  | _ => mkHub d (<[t := (ask, ph)]> (requests s)) (trace s)
  end.

Lemma pair_up_steps t code now s0 s :
  steps Token.demo_key s0 s -> requests s !! t = Some (ask, Cleared false) -> steps Token.demo_key s0 (pair_up t code now s).
Proof.
  intros Hs Ht. destruct s as [d rs tr]. unfold pair_up. cbn [devices requests trace] in *.
  destruct (store Token.demo_key false (draws code) d) as [ph d1] eqn:E1.
  pose proof (steps_snoc _ _ _ _ Hs (step_store _ t ask false (draws code) ph d d1 rs tr Ht E1)) as H1.
  destruct ph as [| | |a c token| |]; try exact H1. destruct (publish now now c token d1) as [expires d2] eqn:E2.
  eapply steps_snoc; [exact H1|]. eapply step_publish; [apply lookup_insert_eq|exact E2].
Qed.

(** Both requests look at the store before either has added its token. *)
Definition both_checked : hub :=
  mkHub NewDeviceTokenStore
    (<[1%nat := (ask, Cleared false)]> (<[0%nat := (ask, Cleared false)]> (<[1%nat := (ask, Arrived)]> (<[0%nat := (ask, Arrived)]> ∅)))) [].

Lemma both_checked_steps : steps Token.demo_key fresh both_checked.
Proof.
  repeat (eapply steps_snoc; [|first [by apply (step_check _ 1%nat ask) | by apply (step_check _ 0%nat ask)]]).
  eapply steps_snoc; [|by apply (step_arrive _ 1%nat ask)]. eapply steps_snoc; [|by apply (step_arrive _ 0%nat ask)]. apply steps_refl.
Qed.

Definition first_paired : hub := pair_up 0 "aaaa" 1000 both_checked.
Definition both_paired : hub := pair_up 1 "bbbb" 2000 first_paired.

(** Both are paired without a token, and both codes can be claimed, although the comment of
    handleDevicePair allows only the very first pairing to come through unauthenticated. One
    after the other, the second request would have been refused. *)
Example two_first_pairings :
  (exists s, steps Token.demo_key fresh s /\
    requests s !! 0%nat = Some (ask, Paired false "61616161" (1000 + pairingTTL)) /\
    requests s !! 1%nat = Some (ask, Paired false "62626262" (2000 + pairingTTL))) /\
  (Claim 3000 3000 "61616161" (devices both_paired)).1 = Some (RawURLEncoding "token-of-aaaa") /\
  (Claim 3000 3000 "62626262" (devices both_paired)).1 = Some (RawURLEncoding "token-of-bbbb") /\
  check ask (devices first_paired) = Refused 401.
Proof.
  split; [exists both_paired; split_and!|split_and!]; [|vm_compute; reflexivity..].
  apply pair_up_steps; [apply pair_up_steps; [apply both_checked_steps|done]|vm_compute; reflexivity].
Qed.

Lemma pairings_interleaved_witness :
  justified (trace both_paired) /\ unauthenticated_in first_paired 1 /\
  forall t, unauthenticated_in both_paired t -> unauthenticated_in first_paired t.
Proof.
  destruct (pairings_interleaved Token.demo_key Token.demo_key_length first_paired both_paired) as (Hj & _ & _ & Hw).
  - apply pair_up_steps; [apply both_checked_steps|done].
  - apply pair_up_steps; [apply steps_refl|vm_compute; reflexivity].
  - split; [done|]. split; [eexists _, _; split; [vm_compute; reflexivity|done]|]. apply Hw. by vm_compute.
Defined.

End HubPairing.
