(* ===== verification/Hub.v ===== *)
(** * Hub: the hub program, and events from the agent's buffer to its listings

    Models cmd/bitacora-hub/main.go: registering a token from the command line, the wiring
    of newHub (the relational, metric, log and token stores behind the ingest endpoint and
    the read API, on one mux) and its Close.

    The theorems compose the components: AgentBuffer's Backfill through TransportSender and
    the ingest handler into the stores, and from there to ListEvents; and enrolment of a
    host through the read API to its first accepted batch. *)

From stdpp Require Import base gmap strings list sorting.
From Stdlib Require Import ZArith Lia Ascii.
From S2P Require Import Prelude GoStd GoFlag GoConv Schema AgentBuffer AgentBufferSpec AgentBufferDemo AgentBufferProps Wire Token Transport AgentHub Calendar MetricStore Storage LogStore HubApi.
Import GoString GoTime Schema Calendar.

Local Open Scope string_scope.
Local Open Scope Z_scope.

Module Hub.
Import Receiver EndToEnd Transport.Server.

(** ** The stores as the receiver uses them *)

(** what each InsertEvent of a run meets, in order; past the end of the list all goes well *)
Record EventStore := mkEventStore {
  es_db : Sqlite.SQLiteStore; es_script : list (Sqlite.ctx * Sqlite.IO) }.

(** what each Append of the log store meets: the id and the outcome of a block it writes,
    and the two readings of the clock *)
Record LogCall := mkLogCall { lc_id : string; lc_io : LogStore.IO; lc_now : Time; lc_now' : Time }.
Record LogFiles := mkLogFiles { lf_store : LogStore.Store; lf_script : list LogCall }.

Section hub.
Context {J : StoreJson}.
Context (IDKey : string -> string -> Z -> Z -> Z -> Z -> string).

(** the time series database, zstd and JSON of the log blocks *)
Context {D : Type} (tsdb_append : D -> list (string * string) -> Z -> GoFloat.float64 -> bool * D).
Context (compress : string -> string) (marshal_meta : LogStore.BlockMeta -> string).

Definition insert_into (s : EventStore) (e : Event) : bool * EventStore :=
  let '(c, io) := default (Sqlite.CtxLive, Sqlite.all_ok) (head (es_script s)) in
  let '(r, db) := Sqlite.InsertEvent c io e (es_db s) in (is_ok r, mkEventStore db (tail (es_script s))).

Global Instance metrics_backend : MetricAppender D :=
  fun d m => let '(r, d) := MetricStore.Append tsdb_append m d in (is_ok r, d).
Global Instance events_backend : EventInserter EventStore := insert_into.
Global Instance logs_backend : LogAppender LogFiles :=
  fun s l =>
    let call := default (mkLogCall "" (LogStore.mkIO true true true) 0 0) (head (lf_script s)) in
    let '(r, st) := LogStore.Append compress marshal_meta (lc_id call) (lc_io call) (lc_now call) (lc_now' call) l (lf_store s) in
    (is_ok r, mkLogFiles st (tail (lf_script s))).

(** the receiver's backends and what it has logged as dropped *)
Record Data := mkData { backends : Backends D EventStore LogFiles; dropped : list Dropped }.

Definition receive (ctx_done : bool) (hostID : string) (batch : Pb.Batch) (d : Data) : bool * Data :=
  match ReceiveBatch ctx_done batch (backends d) with
  | (None, b) => (false, mkData b (dropped d))
  | (Some drops, b) => (true, mkData b (dropped d ++ drops)%list)
  end.

(** the token store as the ingest endpoint reads it, its query answered *)
Global Instance hub_tokens : TokenStore SqliteTokens.Store :=
  fun s token => SqliteTokens.Lookup IDKey false true None token s.

Definition event_db (d : Data) : Sqlite.SQLiteStore := es_db (bk_events (backends d)).

(** ** What a batch does to the events *)

(** [evs'] is [evs] with some of [more], those that are not in [drops] at least *)
Definition grows (evs evs' : list Event) (more : list Event) (drops : list Dropped) : Prop :=
  (forall e, e ∈ evs -> e ∈ evs') /\ (forall e, e ∈ evs' -> e ∈ evs \/ e ∈ event_wire <$> more) /\
  (forall e, e ∈ more -> DropEvent (e_ID e) ∈ drops \/ event_wire e ∈ evs').

Lemma insert_into_holds s e evs :
  Sqlite.holds evs (es_db s) ->
  let '(ok, s') := insert_into s e in
  (Sqlite.holds evs (es_db s') /\ ok = false) \/ Sqlite.holds (evs ++ [e])%list (es_db s').
Proof.
  intros Hh. unfold insert_into. destruct (default _ _) as [c io].
  destruct (Sqlite.InsertEvent c io e (es_db s)) as [r db] eqn:Hi. by apply (Sqlite.holds_insert_any c io e evs (es_db s)).
Qed.

Lemma write_events_grows l s evs acc :
  Sqlite.holds evs (es_db s) ->
  let '(drops, s') := fold_left (fun acc e =>
    let '(ok, s) := insert_into acc.2 (protoToEvent e) in
    ((if ok : bool then acc.1 else acc.1 ++ [DropEvent (Pb.pe_Id e)])%list, s)) (Sender.eventToProto <$> l) (acc, s) in
  (forall d, d ∈ acc -> d ∈ drops) /\ exists evs', Sqlite.holds evs' (es_db s') /\ grows evs evs' l drops.
Proof.
  revert s evs acc. induction l as [|e l IH]; intros s evs acc Hh.
  { cbn. split; [done|]. exists evs. split; [done|]. split_and!; [done|by left|]. by intros e ?%elem_of_nil. }
  rewrite fmap_cons. cbn [fold_left fst snd]. rewrite event_wire_spec.
  pose proof (insert_into_holds s (event_wire e) evs Hh) as Hi.
  destruct (insert_into s (event_wire e)) as [ok s1]. destruct Hi as [[Hi ->]|Hi].
  - specialize (IH s1 evs (acc ++ [DropEvent (Pb.pe_Id (Sender.eventToProto e))])%list Hi). destruct (fold_left _ _ _) as [drops s'].
    destruct IH as (Hacc & evs' & Hh' & H1 & H2 & H3). split; [intros d Hd; apply Hacc, elem_of_app; by left|].
    exists evs'. split; [done|]. split_and!; [done|set_solver|].
    intros x [->|Hx]%elem_of_cons; [|by apply H3]. left. apply Hacc, elem_of_app. right. by apply list_elem_of_singleton.
  - specialize (IH s1 (evs ++ [event_wire e])%list (if ok then acc else acc ++ [DropEvent (Pb.pe_Id (Sender.eventToProto e))])%list Hi).
    destruct (fold_left _ _ _) as [drops s'].
    destruct IH as (Hacc & evs' & Hh' & H1 & H2 & H3). split.
    { intros d Hd. apply Hacc. destruct ok; [done|]. apply elem_of_app. by left. }
    exists evs'. split; [done|]. split_and!; [set_solver|set_solver|].
    intros x [->|Hx]%elem_of_cons; [right; apply H1; set_solver|by apply H3].
Qed.

(** what the receiver has logged is never taken back *)
Definition logs_more (drops drops' : list Dropped) : Prop := forall d, d ∈ drops -> d ∈ drops'.

Lemma receive_grows ctx_done host ulid items d evs :
  Sqlite.holds evs (event_db d) ->
  let '(ok, d') := receive ctx_done host (Sender.ItemsToBatch ulid host items) d in
  logs_more (dropped d) (dropped d') /\ exists evs', Sqlite.holds evs' (event_db d') /\
    (forall e, e ∈ evs -> e ∈ evs') /\ (forall e, e ∈ evs' -> e ∈ evs \/ e ∈ event_wire <$> events_of items) /\
    (ok = true -> grows evs evs' (events_of items) (dropped d')).
Proof.
  intros Hh. unfold receive, ReceiveBatch. destruct ctx_done.
  { split; [by intros x|]. exists evs. split_and!; [done..|by left|done]. }
  destruct (batch_fields items (Pb.mkBatch ulid host [] [] [] [])) as (_ & _ & _ & Ee & _).
  unfold Sender.ItemsToBatch. rewrite Ee. cbn [Pb.Events app].
  pose proof (write_events_grows (events_of items) (bk_events (backends d)) evs [] Hh) as Hw.
  unfold write_events, insert_event, events_backend.
  destruct (write_metrics _ _) as [d1 ms], (fold_left _ _ ([], bk_events (backends d))) as [d2 es], (write_lines _ _) as [d3 ls].
  destruct Hw as (_ & evs' & Hh' & H1 & H2 & H3). unfold event_db. cbn [backends dropped bk_events].
  split; [intros x Hx; apply elem_of_app; by left|]. exists evs'. split_and!; [done..|].
  intros _. split_and!; [done..|]. intros e [?|?]%H3; [left|by right]. rewrite !elem_of_app. tauto.
Qed.

(** ** The agent's sends against the hub *)

Section delivery.
Import AgentBuffer Client.
Context (url_Parse : string -> option (string * string)) (proto_Marshal : Pb.Batch -> option string) (compressZstd : string -> option string)
  (valid_url : string -> bool) (unmarshal_response : string -> option Pb.IngestResponse).
Context {L : Type} (allow : L -> string -> bool * L).
Context (zstd_dec : string -> option string) (proto_Unmarshal : string -> option Pb.Batch) (marshal_response : Pb.IngestResponse -> string)
  (error_text : Z -> string).
Hypothesis zstd_roundtrip : forall raw z, compressZstd raw = Some z -> zstd_dec z = Some raw.
Hypothesis proto_roundtrip : forall batch raw, proto_Marshal batch = Some raw -> proto_Unmarshal raw = Some batch.
Hypothesis response_roundtrip : forall out, unmarshal_response (marshal_response out) = Some out.

Abbreviation Ingest := (Server.Server (T := SqliteTokens.Store) (I := gset string) (R := Data) (L := L)) (only parsing).

(** one send of the agent: the batch, the id drawn for it and what the network does *)
Record attempt := mkAttempt { at_items : list Item; at_ulid : string; at_fate : fate }.

Definition send (c : Client) (hostID : string) (a : attempt) (s : Ingest) : bool * Ingest :=
  TransportSender url_Parse proto_Marshal compressZstd valid_url unmarshal_response
    (hub allow receive zstd_dec proto_Unmarshal marshal_response error_text (at_fate a)) c hostID (at_ulid a) (at_items a) s.

Fixpoint sends (c : Client) (hostID : string) (atts : list attempt) (s : Ingest) : list bool * Ingest :=
  match atts with
  | [] => ([], s)
  | a :: rest => let '(ok, s) := send c hostID a s in let '(oks, s) := sends c hostID rest s in (ok :: oks, s)
  end.

(** an id drawn anew has not been seen for this host *)
Definition fresh (hostID : string) (s : Ingest) (ulid : string) : Prop :=
  Stores.seen_key hostID ulid ∉ Idempotency s.

Definition the_events (s : Ingest) : Sqlite.SQLiteStore := event_db (Receiver s).
Definition the_drops (s : Ingest) : list Dropped := dropped (Receiver s).

Lemma send_grows c hostID a s evs :
  0 <= MaxBodyBytes s -> Sqlite.holds evs (the_events s) -> fresh hostID s (at_ulid a) ->
  let '(ok, s') := send c hostID a s in
  MaxBodyBytes s' = MaxBodyBytes s /\ logs_more (the_drops s) (the_drops s') /\
  Idempotency s' ⊆ {[Stores.seen_key hostID (at_ulid a)]} ∪ Idempotency s /\
  exists evs', Sqlite.holds evs' (the_events s') /\
    (forall e, e ∈ evs -> e ∈ evs') /\ (forall e, e ∈ evs' -> e ∈ evs \/ e ∈ event_wire <$> events_of (at_items a)) /\
    (ok = true -> grows evs evs' (events_of (at_items a)) (the_drops s')).
Proof using zstd_roundtrip proto_roundtrip response_roundtrip.
  intros Hmax Hh Hf. unfold send, TransportSender.
  set (batch := Sender.ItemsToBatch (at_ulid a) hostID (at_items a)).
  assert (Pb.BatchId batch = at_ulid a /\ Pb.HostId batch = hostID) as [Hbid Hbhost].
  { destruct (batch_fields (at_items a) (Pb.mkBatch (at_ulid a) hostID [] [] [] [])) as (E1 & E2 & _). by split. }
  destruct (Send _ _ _ _ _ _ c batch s) as [r s'] eqn:Hs.
  destruct (exchange_cases _ _ _ _ _ _ _ _ _ _ _ zstd_roundtrip proto_roundtrip response_roundtrip _ _ _ _ _ _ Hmax Hs)
    as (Hm & _ & [(Hr & Hi & Hrc)|(_ & _ & Hx)]).
  - destruct r as [out|]; [done|]. split_and!; [done|unfold the_drops; by rewrite Hrc|set_solver|].
    exists evs. unfold the_events. rewrite Hrc. split_and!; [done..|by left|done].
  - rewrite Hbid, Hbhost in Hx. unfold MarkSeen, Stores.MemoryIdempotencyStore, Stores.memory_MarkSeen in Hx.
    rewrite decide_False in Hx by done. destruct Hx as (Hi & Hrc & Hr).
    pose proof (receive_grows false hostID (at_ulid a) (at_items a) (Receiver s) evs Hh) as Hg. fold batch in Hg.
    destruct (receive false hostID batch (Receiver s)) as [ok d']. cbn [fst snd] in Hrc, Hr.
    destruct Hg as (Hlog & evs' & Hh' & H1 & H2 & H3).
    destruct r as [out|err]; cbn [is_ok] in *; (split_and!; [done|unfold the_drops; by rewrite Hrc|by rewrite Hi|]);
      exists evs'; unfold the_events, the_drops; rewrite Hrc; (split_and!; [done..|]); [|done].
    intros _. apply H3. by destruct Hr as [?|[_ ?]].
Qed.

Lemma sends_grow c hostID atts s evs :
  0 <= MaxBodyBytes s -> Sqlite.holds evs (the_events s) ->
  NoDup (at_ulid <$> atts) -> Forall (fresh hostID s) (at_ulid <$> atts) ->
  let '(oks, s') := sends c hostID atts s in
  logs_more (the_drops s) (the_drops s') /\ exists evs', Sqlite.holds evs' (the_events s') /\
    (forall e, e ∈ evs -> e ∈ evs') /\
    (forall e, e ∈ evs' -> e ∈ evs \/ e ∈ event_wire <$> events_of (concat (at_items <$> atts))) /\
    (forall i a, atts !! i = Some a -> oks !! i = Some true -> forall e, e ∈ events_of (at_items a) ->
       DropEvent (e_ID e) ∈ the_drops s' \/ event_wire e ∈ evs').
Proof using zstd_roundtrip proto_roundtrip response_roundtrip.
  revert s evs. induction atts as [|a atts IH]; intros s evs Hmax Hh Hnd Hf; cbn [sends].
  { split; [by intros d|]. exists evs. split_and!; [done..|by left|]. done. }
  rewrite fmap_cons in Hnd, Hf. apply NoDup_cons in Hnd as [Hna Hnd]. apply Forall_cons in Hf as [Hfa Hf].
  pose proof (send_grows c hostID a s evs Hmax Hh Hfa) as Hs. destruct (send c hostID a s) as [ok s1].
  destruct Hs as (Hm & Hlog1 & Hi & evs1 & Hh1 & Ha1 & Ha2 & Ha3).
  specialize (IH s1 evs1 ltac:(by rewrite Hm) Hh1 Hnd). destruct (sends c hostID atts s1) as [oks s'].
  destruct IH as (Hlog2 & evs' & Hh' & Hb1 & Hb2 & Hb3).
  { rewrite Forall_forall in Hf. apply Forall_forall. intros u Hu Hin. specialize (Hf u Hu). apply Hi in Hin.
    apply elem_of_union in Hin as [Hin%elem_of_singleton|Hin]; [|by apply Hf].
    apply Stores.seen_key_suffix in Hin as ->. done. }
  split; [intros d Hd; by apply Hlog2, Hlog1|]. exists evs'. split_and!; [done|auto| |].
  - assert (forall e, e ∈ event_wire <$> events_of (at_items a) \/ e ∈ event_wire <$> events_of (concat (at_items <$> atts)) ->
              e ∈ event_wire <$> events_of (concat (at_items <$> a :: atts))) as Hsplit.
    { intros e. rewrite fmap_cons. cbn [concat]. unfold events_of. by rewrite omap_app, fmap_app, elem_of_app. }
    intros e [[?|He]%Ha2|He]%Hb2; [by left|right; apply Hsplit; by left|right; apply Hsplit; by right].
  - intros [|i] b Hib Hok e He; [|by eapply Hb3]. injection Hib as <-. injection Hok as ->.
    destruct (Ha3 eq_refl) as (_ & _ & Hg). destruct (Hg e He) as [?|?]; [left; by apply Hlog2|right; auto].
Qed.

(** what the hub lists after a run of sends *)
Lemma sends_listed c hostID atts s evs0 max_attached open_ok from to host :
  0 <= MaxBodyBytes s -> Sqlite.holds evs0 (the_events s) ->
  NoDup (at_ulid <$> atts) -> Forall (fresh hostID s) (at_ulid <$> atts) ->
  Sqlite.ids_identify (evs0 ++ (event_wire <$> events_of (concat (at_items <$> atts))))%list ->
  Forall Sqlite.json_faithful (evs0 ++ (event_wire <$> events_of (concat (at_items <$> atts))))%list ->
  from <= to -> mday from < 28 -> (length (Sqlite.monthsBetween from to) <= max_attached)%nat -> (forall m, open_ok m = true) ->
  let '(oks, s') := sends c hostID atts s in
  exists listed db', Sqlite.ListEvents max_attached open_ok true from to host (the_events s') = (Ok listed, db') /\
    (forall i a e, atts !! i = Some a -> oks !! i = Some true -> e ∈ events_of (at_items a) ->
       DropEvent (e_ID e) ∈ the_drops s' \/
       (Sqlite.in_range from to host (event_wire e) = true ->
        List.filter (Sqlite.has_id (e_ID e)) listed = [Sqlite.listed_as (event_wire e)])) /\
    (forall x, x ∈ listed -> exists y, y ∈ (evs0 ++ (event_wire <$> events_of (concat (at_items <$> atts))))%list /\ x = Sqlite.listed_as y).
Proof using zstd_roundtrip proto_roundtrip response_roundtrip.
  intros Hmax Hh Hnd Hf Hid Hj Hft Hd Hlen Hok. rewrite Forall_forall in Hj.
  pose proof (sends_grow c hostID atts s evs0 Hmax Hh Hnd Hf) as Hg. destruct (sends c hostID atts s) as [oks s'].
  destruct Hg as (_ & evs' & Hh' & _ & Hsub & Hacc).
  assert (forall e, e ∈ evs' -> e ∈ (evs0 ++ (event_wire <$> events_of (concat (at_items <$> atts))))%list) as Hin.
  { intros e He. apply elem_of_app. by apply Hsub. }
  destruct (Sqlite.list_events_lists max_attached open_ok from to host evs' (the_events s') Hh' Hft Hd Hlen Hok)
    as (rows & db' & Hl & _ & Hp & _).
  exists (Sqlite.scanEvent <$> rows), db'. split_and!; [done| |].
  - intros i a e Ha Hoki He. destruct (Hacc i a Ha Hoki e He) as [?|Hev]; [by left|right]. intros Hr.
    rewrite <- Sqlite.readback_listed by (by apply Hj, Hin).
    eapply (Sqlite.listed_once evs' from to host _ (event_wire e)); [exact Hp| |done|done].
    intros e1 e2 H1 H2. apply Hid; by apply Hin.
  - intros x Hx. rewrite Hp in Hx. apply list_elem_of_fmap in Hx as (y & -> & Hy).
    apply list_elem_of_In, filter_In in Hy as [Hy _].
    apply list_elem_of_In, Sqlite.first_of_each_incl, Hin in Hy.
    exists y. split; [done|]. by apply Sqlite.readback_listed, Hj.
Qed.

Context `{AgentBufferSpec.EnvLaws}.

(** C3: from the agent's buffer to the hub's listing, whatever the network does to each
    request and whatever each of the hub's inserts reports. The agent's disk has no I/O
    errors, batch ids are drawn fresh, ids identify events, subjects and attributes
    survive encoding/json, and the listing is of a range that starts on or before the
    28th, spans no more months than SQLite attaches, and has its files opened and its
    query answered. Then, after any Backfill whose batches TransportSender sent to the
    hub, every buffered event is still in the agent's buffer, or was reported dropped by
    the receiver, or is in the hub's listing of its time exactly once, with the fields the
    wire carries ([event_wire]) and the fingerprint and log references exchanged as the
    store lists them ([Sqlite.listed_as]); and the listing holds nothing that was not
    stored before or sent. *)
Theorem buffered_events_listed st items batchSize rounds c hostID atts s evs0 max_attached open_ok from to host :
  AgentBufferSpec.wf st items -> AgentBufferSpec.fault_free st ->
  0 <= MaxBodyBytes s -> Sqlite.holds evs0 (the_events s) ->
  NoDup (at_ulid <$> atts) -> Forall (fresh hostID s) (at_ulid <$> atts) ->
  Sqlite.ids_identify (evs0 ++ (event_wire <$> events_of (concat (at_items <$> atts))))%list ->
  Forall Sqlite.json_faithful (evs0 ++ (event_wire <$> events_of (concat (at_items <$> atts))))%list ->
  from <= to -> mday from < 28 -> (length (Sqlite.monthsBetween from to) <= max_attached)%nat -> (forall m, open_ok m = true) ->
  let '(o, st') := Backfill batchSize rounds st in
  let '(oks, s') := sends c hostID atts s in
  net (world st') = (net (world st) ++ zip (at_items <$> atts) oks)%list ->
  exists remaining listed db', AgentBufferSpec.wf st' remaining /\
    Sqlite.ListEvents max_attached open_ok true from to host (the_events s') = (Ok listed, db') /\
    (forall e, e ∈ events_of items ->
       e ∈ events_of remaining \/ DropEvent (e_ID e) ∈ the_drops s' \/
       (Sqlite.in_range from to host (event_wire e) = true ->
        List.filter (Sqlite.has_id (e_ID e)) listed = [Sqlite.listed_as (event_wire e)])) /\
    (forall x, x ∈ listed -> exists y, y ∈ (evs0 ++ (event_wire <$> events_of (concat (at_items <$> atts))))%list /\ x = Sqlite.listed_as y).
Proof using zstd_roundtrip proto_roundtrip response_roundtrip H0.
  intros Hwf Hff Hmax Hh Hnd Hf Hid Hj Hft Hd Hlen Hok.
  destruct (AgentBufferProps.backfill_full st items batchSize rounds Hwf Hff)
    as (o & st' & log & remaining & -> & Hnet & Hwf' & _ & _ & Hi & _).
  pose proof (sends_listed c hostID atts s evs0 max_attached open_ok from to host Hmax Hh Hnd Hf Hid Hj Hft Hd Hlen Hok) as Hl.
  destruct (sends c hostID atts s) as [oks s']. destruct Hl as (listed & db' & Hl & Hev & Hsound).
  rewrite Hnet. intros Hlog%app_inv_head. exists remaining, listed, db'. split_and!; [done..| |done].
  intros e He. subst items. unfold events_of in He. rewrite omap_app, elem_of_app in He. destruct He as [He|He]; [right|by left].
  apply list_elem_of_omap in He as (it & Hit & He). unfold AgentBufferProps.accepted in Hit.
  apply list_elem_of_In, in_concat in Hit as (batch & Hb & Hit).
  apply list_elem_of_In, list_elem_of_fmap in Hb as ([b ok] & -> & Hb).
  apply list_elem_of_In, filter_In in Hb as [Hb Hok1]. apply list_elem_of_In in Hb. cbn [snd fst] in *. subst ok log.
  apply list_elem_of_lookup in Hb as (i & Hbi). apply lookup_zip_Some in Hbi as [Ha Hoki].
  rewrite list_lookup_fmap in Ha. destruct (atts !! i) as [a|] eqn:Eai; [|done]. injection Ha as <-.
  apply (Hev i a e Eai Hoki). apply list_elem_of_omap. exists it. split; [by apply list_elem_of_In|done].
Qed.

End delivery.

(** ** The program *)

Section program.
Import Devices.
Context (zstd_dec : string -> option string) (proto_Unmarshal : string -> option Pb.Batch).
Context (tsdb_open : list string -> Z -> option D)
  (tsdb_select : D -> string -> Z -> Z -> list (string * string) -> option (list (gmap string string * list (Z * GoFloat.float64)))).

(** *** -add-token *)

Definition tokenStorePath (dataDir : list string) : list string := Path.join true dataDir ["tokens.db"].

Inductive AddTokenError := ErrSpec | ErrOpening | ErrAdding (e : SqliteTokens.AddError).

(** what the database, the random source and the clock do in one run; [ti_opens]: the
    directory, the open, the pragmas and the migration *)
Record TokenIO := mkTokenIO { ti_opens : bool * bool * bool * bool; ti_salt : option string; ti_exec : bool; ti_now : Z }.

Definition open_tokens (io : TokenIO) (disk : option SqliteTokens.Store) : option SqliteTokens.Store :=
  let '(mkdir_ok, open_ok, pragmas_ok, migrate_ok) := ti_opens io in
  SqliteTokens.New mkdir_ok open_ok pragmas_ok migrate_ok disk.

(** the outcome, and the database file afterwards *)
Definition runAddToken (io : TokenIO) (spec : string) (disk : option SqliteTokens.Store) :
    result AddTokenError unit * option SqliteTokens.Store :=
  match cut_byte ":"%char spec with
  | None => (Err ErrSpec, disk)
  | Some (hostID, token) =>
      if bool_decide (hostID = "") || bool_decide (token = "") then (Err ErrSpec, disk)
      else
        match open_tokens io disk with
        | None => (Err ErrOpening, disk)
        | Some store =>
            match SqliteTokens.AddToken IDKey (ti_salt io) (ti_exec io) (ti_now io) hostID token store with
            | (Err e, store) => (Err (ErrAdding e), Some store)
            | (Ok _, store) => (Ok tt, Some store)
            end
        end
  end.

(** *** newHub *)

(** the part of the data directory that outlives the process *)
Record Disk := mkDisk {
  dk_months : gmap string Sqlite.MonthDB; dk_inventories : gmap (string * string) Sqlite.InvRow;
  dk_tokens : option SqliteTokens.Store; dk_blocks : gmap (list string) string }.

(** the limiter of transport.Server is nil and MaxBodyBytes is left at zero *)
Record hub := mkHub { h_ingest : Server.Server (T := SqliteTokens.Store) (I := gset string) (R := Data) (L := unit);
                      h_devices : DeviceTokenStore }.

Inductive opened_store := RelStore | MetricsStore | TokensStore.
Inductive action := Opened (s : opened_store) | Closed (s : opened_store).
Inductive HubError := ErrRelational | ErrMetrics | ErrTokens.

Record HubIO := mkHubIO { hi_mkdir : bool; hi_tokens : TokenIO }.

(** newHub, with the stores it opens and closes on the way *)
Definition newHub (io : HubIO) (dataDir : list string) (disk : Disk) : result HubError hub * list action :=
  match Sqlite.NewSQLiteStore (hi_mkdir io) (dk_months disk) (dk_inventories disk) with
  | None => (Err ErrRelational, [])
  | Some relStore =>
      match MetricStore.Open tsdb_open (Path.join true dataDir ["metrics"; MetricStore.ResolutionRaw])
              (default 0 (MetricStore.DefaultRetention MetricStore.ResolutionRaw)) with
      | None => (Err ErrMetrics, [Opened RelStore; Closed RelStore])
      | Some metricsStore =>
          let logStore := LogStore.mkStore (Path.join true dataDir ["logs"]) LogStore.DefaultMaxBytes LogStore.DefaultMaxAge ∅ (dk_blocks disk) in
          match open_tokens (hi_tokens io) (dk_tokens disk) with
          | None => (Err ErrTokens, [Opened RelStore; Opened MetricsStore; Closed RelStore; Closed MetricsStore])
          | Some tokenStore =>
              (Ok (mkHub (mkServer tokenStore ∅
                            (mkData (mkBackends metricsStore (mkEventStore relStore []) (mkLogFiles logStore [])) [])
                            None 0)
                         NewDeviceTokenStore),
               [Opened RelStore; Opened MetricsStore; Opened TokensStore])
          end
      end
  end.

Definition closers : list opened_store := [RelStore; MetricsStore; TokensStore].

(** hub.Close and the end of the process: what is left on disk. The log store is not among
    the closers. *)
Definition Close (h : hub) : Disk :=
  let b := backends (Receiver (h_ingest h)) in
  let db := Sqlite.Close (es_db (bk_events b)) in
  mkDisk (Sqlite.files db) (Sqlite.inventories db) (Some (Tokens (h_ingest h))) (LogStore.fs (lf_store (bk_logs b))).

(** main, up to the end of the process: its exit code, the data directory it leaves, and
    whether h.Close ran. ListenAndServe returns only with an error, and log.Fatal exits
    without running the deferred Close; [serving] is the hub at that moment. *)
Record Exit := mkExit { exit_code : Z; exit_tokens : option SqliteTokens.Store; exit_served : option hub; close_ran : bool }.

(** the flags; flag.Parse exits with 2 on an error and with 0 after printing help *)
Record HubFlags := mkHubFlags { hf_addr : string; hf_dataDir : string; hf_addToken : string }.

Definition hub_defaults : HubFlags := mkHubFlags "127.0.0.1:8081" "/var/lib/bitacora" "".

Definition hub_flags : GoFlag.FlagSet HubFlags :=
  GoFlag.mkFlagSet (fun name => bool_decide (name ∈ ["addr"; "data-dir"; "add-token"]))
    (fun name v f => Some (if bool_decide (name = "addr") then mkHubFlags v (hf_dataDir f) (hf_addToken f)
                           else if bool_decide (name = "data-dir") then mkHubFlags (hf_addr f) v (hf_addToken f)
                           else mkHubFlags (hf_addr f) (hf_dataDir f) v)).

Definition main (tio : TokenIO) (io : HubIO) (args : list string) (disk : Disk) (serving : hub -> hub) : Exit :=
  match GoFlag.Parse hub_flags args hub_defaults with
  | Err GoFlag.ErrHelp => mkExit 0 (dk_tokens disk) None false
  | Err _ => mkExit 2 (dk_tokens disk) None false
  | Ok (f, _) =>
      if negb (bool_decide (hf_addToken f = "")) then
        match runAddToken tio (hf_addToken f) (dk_tokens disk) with
        | (Err _, tokens) => mkExit 1 tokens None false
        | (Ok _, tokens) => mkExit 0 tokens None false
        end
      else
        match newHub io (split_byte Path.slash (hf_dataDir f)) disk with
        | (Err _, _) => mkExit 1 (dk_tokens disk) None false
        | (Ok h, _) => let h := serving h in mkExit 1 (Some (Tokens (h_ingest h))) (Some h) false
        end
  end.

(** *** Requests *)

(** one request, as each of the two handlers reads it *)
Record http := mkHttp { ht_ingest : Server.Request; ht_env : Api.Env; ht_api : Api.Request }.
Inductive reply := FromIngest (r : Server.Response) | FromApi (r : Api.Response).

(** what the stores do while the read API answers: the token store when it registers a
    host, and the databases it queries *)
Record ReadIO := mkReadIO { rd_tokens : TokenIO; rd_attached : nat; rd_open : string -> bool; rd_query : bool; rd_inventory : bool * bool }.

Definition registrar (io : TokenIO) : HostRegistrar SqliteTokens.Store :=
  fun s hostID token =>
    let '(r, s) := SqliteTokens.AddToken IDKey (ti_salt io) (ti_exec io) (ti_now io) hostID token s in (is_ok r, s).

Definition read_api (io : ReadIO) (env : Api.Env) (r : Api.Request) (h : hub) : Api.Response * Api.Server (H := SqliteTokens.Store) :=
  let b := backends (Receiver (h_ingest h)) in
  @Api.Handler _ (registrar (rd_tokens io)) IDKey
    (fun name from to extra => match MetricStore.Query tsdb_select (bk_metrics b) name from to extra with Ok l => Some l | Err _ => None end)
    (fun from to host => match (Sqlite.ListEvents (rd_attached io) (rd_open io) (rd_query io) from to host (es_db (bk_events b))).1 with
                         | Ok l => Some l | Err _ => None end)
    (Some (fun host kind => match (Sqlite.GetInventory (rd_inventory io).1 (rd_inventory io).2 host kind (es_db (bk_events b))).1 with
                            | Ok inv => Ok inv | Err _ => Err tt end))
    true env r (Api.mkServer (Some (h_devices h)) (Some (Tokens (h_ingest h)))).

(** the handler of the hub: the mux gives /v1/ingest to the ingest server and every other
    path to the read API; both work on the one token store *)
Definition ServeHTTP (io : ReadIO) (rq : http) (h : hub) : reply * hub :=
  if bool_decide (Api.rq_Path (ht_api rq) = "/v1/ingest")
  then let '(resp, s) := handleIngest (fun l _ => (true, l)) receive zstd_dec proto_Unmarshal (h_ingest h) (ht_ingest rq) in
       (FromIngest resp, mkHub s (h_devices h))
  else let '(resp, s) := read_api io (ht_env rq) (ht_api rq) h in
       let ing := h_ingest h in
       (FromApi resp,
        mkHub (mkServer (default (Tokens ing) (Api.Hosts s)) (Idempotency ing) (Receiver ing) (Limiter ing) (MaxBodyBytes ing))
              (default (h_devices h) (Api.Devices_ s))).

(** *** Properties of the program *)

(** newHub leaves no store open behind an error, and on success opens exactly the stores
    that Close will close. *)
Theorem new_hub_leaks_nothing io dataDir disk :
  let '(r, acts) := newHub io dataDir disk in
  forall s, Opened s ∈ acts <-> if is_ok r then s ∈ closers else Closed s ∈ acts.
Proof.
  unfold newHub, closers. destruct (Sqlite.NewSQLiteStore _ _ _); cbn [is_ok].
  2: { intros s. split; by intros ?%elem_of_nil. }
  destruct (MetricStore.Open _ _ _); [destruct (open_tokens _ _)|]; cbn [is_ok]; intros [];
    rewrite !elem_of_cons, !elem_of_nil; naive_solver.
Qed.

(** what a restart keeps and loses *)
Lemma restarted io dataDir h h' acts evs :
  newHub io dataDir (Close h) = (Ok h', acts) -> Sqlite.holds evs (event_db (Receiver (h_ingest h))) ->
  Tokens (h_ingest h') = Tokens (h_ingest h) /\ Idempotency (h_ingest h') = ∅ /\ h_devices h' = NewDeviceTokenStore /\
  Limiter (h_ingest h') = None /\ MaxBodyBytes (h_ingest h') = 0 /\
  Sqlite.holds evs (event_db (Receiver (h_ingest h'))).
Proof.
  unfold newHub. destruct (Sqlite.NewSQLiteStore _ _ _) as [rel|] eqn:Hrel; [|done].
  destruct (MetricStore.Open _ _ _) as [ms|]; [|done]. destruct (open_tokens _ _) as [ts|] eqn:Ht; [|done].
  intros [= <- _] Hh. cbn [h_ingest h_devices Tokens Idempotency Limiter MaxBodyBytes Receiver].
  split_and!; try done.
  - unfold open_tokens in Ht. destruct (ti_opens (hi_tokens io)) as [[[??]?]?]. unfold SqliteTokens.New in Ht.
    destruct (_ && _); [|done]. by injection Ht as <-.
  - unfold Sqlite.NewSQLiteStore in Hrel. destruct (hi_mkdir io); [|done]. injection Hrel as <-.
    intros m. apply (Hh m).
Qed.

(** the hub as it is, or started again on the same data directory *)
Definition later (h h' : hub) : Prop :=
  h' = h \/ exists io dataDir acts, newHub io dataDir (Close h) = (Ok h', acts).

(** C19: A host enrolled through the read API can ingest: with the token POST /v1/hosts
    answered, a well-formed batch of that host is accepted by /v1/ingest and handed to the
    receiver, also when the hub was restarted in between; a token an older record already
    opened excepted. *)
Theorem enrolled_host_ingests io io' rq1 rq2 h h1 h1' hostID token body raw batch :
  Token.key_length_law IDKey -> SqliteTokens.ordered (Tokens (h_ingest h)) ->
  Limiter (h_ingest h) = None -> MaxBodyBytes (h_ingest h) = 0 ->
  Api.rq_Path (ht_api rq1) = "/v1/hosts" ->
  ServeHTTP io rq1 h = (FromApi (Api.HostCreated hostID token), h1) ->
  List.find (Stores.verifies IDKey token) (SqliteTokens.selected (Tokens (h_ingest h))) = None ->
  later h1 h1' ->
  Api.rq_Path (ht_api rq2) = "/v1/ingest" -> ht_ingest rq2 = mkRequest "POST" ("Bearer " ++ token) (Some body) false ->
  Z.of_nat (String.length body) <= DefaultMaxBodyBytes -> zstd_dec body = Some raw -> proto_Unmarshal raw = Some batch ->
  Pb.HostId batch = hostID -> Pb.BatchId batch <> "" -> Stores.seen_key hostID (Pb.BatchId batch) ∉ Idempotency (h_ingest h) ->
  exists h2, ServeHTTP io' rq2 h1' = (FromIngest (HttpOK (Pb.mkResponse (Pb.BatchId batch) false)), h2) /\
    Receiver (h_ingest h2) = (receive false hostID batch (Receiver (h_ingest h1'))).2.
Proof.
  intros Hlen Ho Hlim Hmax Hp1 Hs1 Hnew Hlater Hp2 Hrq Hbody Hz Hpb Hhost Hid Hseen.
  unfold ServeHTTP in Hs1. rewrite Hp1 in Hs1. cbn [bool_decide] in Hs1. rewrite bool_decide_eq_false_2 in Hs1 by done.
  unfold read_api, Api.Handler in Hs1. rewrite Hp1 in Hs1.
  rewrite !(bool_decide_eq_false_2 (_ = _)) in Hs1 by done. rewrite bool_decide_eq_true_2 in Hs1 by done.
  destruct (Api.handleCreateHost _ _ _ _) as [resp s1] eqn:Hc. injection Hs1 as -> <-.
  apply Api.create_host_registers in Hc as (hosts' & Hadd & ->). cbn [Api.Hosts Api.Devices_ default] in Hlater.
  unfold AddToken, registrar in Hadd. destruct (ti_exec (rd_tokens io)); cycle 1.
  { unfold SqliteTokens.AddToken in Hadd. by destruct (Token.HashToken _ _ _). }
  destruct (SqliteTokens.AddToken _ _ _ _ _ _ _) as [r ts] eqn:Ha. injection Hadd as Hr <-.
  destruct r as [[]|]; [|done].
  destruct (SqliteTokens.lookup_after_add IDKey _ _ _ _ _ _ Hlen Ho Ha) as (_ & Hlook & _).
  rewrite Hnew in Hlook. cbn in Hlook.
  assert (Transport.Lookup (Tokens (h_ingest h1')) token = Ok (Some hostID) /\ Limiter (h_ingest h1') = None /\
          MaxBodyBytes (h_ingest h1') = 0 /\ Stores.seen_key hostID (Pb.BatchId batch) ∉ Idempotency (h_ingest h1'))
    as (Hl & Hlim' & Hmax' & Hseen').
  { destruct Hlater as [->|(nio & dir & acts & Hnh)]; [done|].
    unfold newHub in Hnh. destruct (Sqlite.NewSQLiteStore _ _ _); [|done]. destruct (MetricStore.Open _ _ _); [|done].
    destruct (open_tokens _ _) as [ts'|] eqn:Ht; [|done]. injection Hnh as <- _. cbn [h_ingest Tokens Limiter MaxBodyBytes Idempotency].
    split_and!; [|done|done|set_solver]. unfold open_tokens in Ht. destruct (ti_opens (hi_tokens nio)) as [[[??]?]?].
    unfold SqliteTokens.New in Ht. destruct (_ && _); [|done]. by injection Ht as <-. }
  unfold ServeHTTP. rewrite Hp2, bool_decide_eq_true_2, Hrq by done. unfold handleIngest.
  cbn [rq_Method rq_body rq_ctx_done]. rewrite bool_decide_eq_true_2 by done. cbn [negb].
  unfold bearerToken. cbn [rq_Authorization]. rewrite has_prefix_app, trim_prefix_app, Hl, Hlim'. cbn [negb].
  rewrite Hmax'. cbn [MaxBodyBytes]. rewrite Z.eqb_refl.
  assert (limited (DefaultMaxBodyBytes + 1) body = body) as -> by (apply str_take_all; lia).
  rewrite (proj2 (Z.ltb_ge _ _) Hbody), Hz, Hpb, bool_decide_eq_true_2, bool_decide_eq_false_2 by done. cbn [negb Idempotency].
  unfold MarkSeen, Stores.MemoryIdempotencyStore, Stores.memory_MarkSeen. rewrite decide_False by done.
  cbn [Receiver Tokens Idempotency Limiter MaxBodyBytes]. rewrite <- Hhost.
  assert (forall d, (receive false (Pb.HostId batch) batch d).1 = true) as Hok.
  { intros d. unfold receive, ReceiveBatch. by destruct (write_metrics _ _), (write_events _ _), (write_lines _ _). }
  specialize (Hok (Receiver (h_ingest h1'))). destruct (receive false _ batch _) as [ok d]. cbn [fst] in Hok. subst ok.
  eexists. split; [done|]. done.
Qed.

(** -add-token registers like the web UI: a spec that is a non-empty host id without a
    colon, a colon and a non-empty token (which may hold more colons) makes the token open
    that host, and changes nothing for other tokens; every other spec is refused and
    leaves the database file as it was. *)
Theorem add_token_spec io hostID token disk :
  Token.key_length_law IDKey -> (forall s, disk = Some s -> SqliteTokens.ordered s) ->
  ti_opens io = (true, true, true, true) -> ti_exec io = true -> is_Some (ti_salt io) ->
  hostID <> "" -> token <> "" -> lacks ":"%char hostID = true ->
  (exists s', runAddToken io (hostID ++ ":" ++ token) disk = (Ok tt, Some s') /\
     Transport.Lookup s' token =
       Ok (Some (default hostID (Stores.tr_hostID <$>
         List.find (Stores.verifies IDKey token) (SqliteTokens.selected (SqliteTokens.migrate disk))))) /\
     forall other h, Transport.Lookup (SqliteTokens.migrate disk) other = Ok (Some h) -> Transport.Lookup s' other = Ok (Some h)) /\
  runAddToken io hostID disk = (Err ErrSpec, disk) /\ runAddToken io (":" ++ token) disk = (Err ErrSpec, disk) /\
  runAddToken io (hostID ++ ":") disk = (Err ErrSpec, disk).
Proof.
  intros Hlen Hord Hopens Hexec [salt Hsalt] Hh Ht Hl. unfold runAddToken, open_tokens. rewrite Hopens, Hexec, Hsalt.
  change (":" ++ token) with (String ":" token). rewrite !cut_byte_lacks_app by done.
  assert (forall s, lacks ":"%char s = true -> cut_byte ":"%char s = None) as Hnone.
  { induction s as [|c s IH]; [done|]. cbn [lacks cut_byte]. intros [Hc%bool_decide_eq_true Hs]%andb_true_iff.
    by rewrite decide_False, IH. }
  rewrite (Hnone hostID Hl). cbn [cut_byte]. rewrite decide_True by done.
  rewrite (bool_decide_eq_false_2 (hostID = "")), (bool_decide_eq_false_2 (token = "")) by done.
  rewrite !bool_decide_eq_true_2 by done. cbn [orb]. split_and!; [|done..].
  cbn [SqliteTokens.New andb].
  assert (SqliteTokens.ordered (SqliteTokens.migrate disk)) as Hom.
  { destruct disk as [s|]; [by apply Hord|]. split; constructor. }
  destruct (SqliteTokens.AddToken IDKey (Some salt) true (ti_now io) hostID token (SqliteTokens.migrate disk)) as [r s'] eqn:Ha.
  assert (r = Ok tt) as -> by (unfold SqliteTokens.AddToken in Ha; cbn in Ha; by injection Ha).
  exists s'. split; [done|].
  by destruct (SqliteTokens.lookup_after_add IDKey _ _ _ _ _ _ Hlen Hom Ha) as (_ & ? & ?).
Qed.

End program.
End hub.
End Hub.
