(* ===== verification/HubDemo.v ===== *)
(** * HubDemo: a concrete agent and hub

    Two events in the buffer of an agent, a hub that knows its token, and the exchanges
    between them. They show that the hypotheses of the theorems of Hub can hold, and what
    the hub loses when it stops. *)

From stdpp Require Import base gmap strings list sorting.
From Stdlib Require Import ZArith Lia Ascii.
From S2P Require Import Prelude GoStd GoConv Schema AgentBuffer AgentBufferSpec AgentBufferDemo AgentBufferProps Wire Token Transport AgentHub Calendar MetricStore Storage LogStore HubApi Hub.
Import GoString GoTime Schema Calendar AgentBuffer AgentBufferSpec.

Local Open Scope string_scope.
Local Open Scope Z_scope.

Module HubDemo.
Import Receiver EndToEnd Hub.

Local Existing Instance Sqlite.demo_json.

(** ** The agent *)

Definition event_of (id : string) (d : Z) : Event := Sqlite.demo_event id (Sqlite.date 2026 2 d).
Definition item_of (seq : Z) (e : Event) : Item := mkItem seq PriorityEvent 0 None (Some e) None None.

Definition e1 : Event := event_of "01E1" 10.
Definition e2 : Event := event_of "01E2" 11.
Definition agent_items : list Item := [item_of 1 e1; item_of 2 e2].

(** the codec of the segment files, for these records *)
Definition agent_marshal (it : Item) : option string := Some (if it_Seq it =? 1 then "{1}" else "{2}").
Definition agent_unmarshal (s : string) : option Item :=
  if decide (s = "{1}") then Some (item_of 1 e1) else if decide (s = "{2}") then Some (item_of 2 e2) else None.

Definition agent_env : Env := mkEnv agent_marshal agent_unmarshal (fun s => s) Some AgentBufferDemo.demo_ulid.
Local Existing Instance agent_env.

Local Instance agent_laws : EnvLaws.
Proof. constructor; [done|apply AgentBufferDemo.demo_ulid_order]. Defined.

Definition agent_buffer : Buffer := mkBuffer 100 hour 4 2 (Some (writer_of (0%nat, agent_items))) [] 2.
Definition agent_state : State := clean agent_buffer {[aname 0 := text agent_items]} 1 10 [].

Lemma agent_storable it : it ∈ agent_items -> storable it.
Proof.
  intros [->|[->|[]%elem_of_nil]%elem_of_cons]%elem_of_cons; AgentBufferDemo.solve_storable.
Qed.

Lemma agent_wf : wf agent_state agent_items.
Proof.
  exists [], (Some (0%nat, agent_items)). split; [|done]. constructor; simpl; try done.
  - repeat constructor.
  - repeat constructor; simpl; lia.
  - apply Forall_forall. intros it Hit. apply agent_storable. exact Hit.
  - repeat constructor.
  - repeat constructor.
  - by intros k items ?%elem_of_nil.
  - intros k items [= <- <-]. by rewrite lookup_singleton_eq.
  - intros p raw Hp. apply lookup_singleton_Some in Hp as [<- <-]. right. left. by exists 0%nat.
Qed.

(** ** The hub *)

Definition token_io : TokenIO := mkTokenIO (true, true, true, true) (Some "salt") true 0.
Definition no_samples (d : unit) (labels : list (string * string)) (ms : Z) (v : GoFloat.float64) : bool * unit := (true, d).
Definition no_tsdb (dir : list string) (retention : Z) : option unit := Some tt.
Definition empty_disk : Disk := mkDisk ∅ ∅ None ∅.
Definition no_blob (s : string) : string := s.
Definition no_meta (m : LogStore.BlockMeta) : string := LogStore.BlockID m.

(** a host registered from the command line, and the hub started afterwards *)
Definition disk_with_token : Disk :=
  mkDisk ∅ ∅ (runAddToken Token.demo_key token_io "h1:secret1" None).2 ∅.

Definition started (disk : Disk) : result HubError (hub (D := unit)) * list action :=
  newHub no_tsdb (mkHubIO true token_io) ["var"; "lib"; "bitacora"] disk.

Definition blank : hub (D := unit) :=
  mkHub (Server.mkServer (SqliteTokens.mkStore [] 0) ∅
           (mkData (mkBackends tt (mkEventStore Sqlite.empty_store []) (mkLogFiles (LogStore.NewStore []) [])) []) None 0)
        Devices.NewDeviceTokenStore.

Definition the_hub (disk : Disk) : hub (D := unit) := match (started disk).1 with Ok h => h | Err _ => blank end.

(** ** Delivery *)

Definition batch1 : Pb.Batch := Sender.ItemsToBatch "01B1" "h1" [item_of 1 e1].
Definition batch2 : Pb.Batch := Sender.ItemsToBatch "01B2" "h1" [item_of 2 e2].
Definition pb_marshal (b : Pb.Batch) : option string :=
  if decide (b = batch1) then Some "1" else if decide (b = batch2) then Some "2" else None.
Definition pb_unmarshal (raw : string) : option Pb.Batch :=
  if decide (raw = "1") then Some batch1 else if decide (raw = "2") then Some batch2 else None.

Lemma pb_roundtrip b raw : pb_marshal b = Some raw -> pb_unmarshal raw = Some b.
Proof.
  unfold pb_marshal, pb_unmarshal. case_decide as H1; [intros [= <-]; by subst b|].
  case_decide as H2; [intros [= <-]; by subst b|done].
Qed.

Lemma response_demo out : Client.demo_response_of (Client.demo_response out) = Some out.
Proof. by destruct out as [id []]. Qed.

(** the first batch is answered; the answer to the second is lost *)
Definition demo_attempts : list attempt :=
  [mkAttempt [item_of 1 e1] "01B1" Client.Answered; mkAttempt [item_of 2 e2] "01B2" Client.AnswerLost].

Lemma wire_ids :
  Sqlite.ids_identify ([] ++ (event_wire <$> events_of (concat (at_items <$> demo_attempts))))%list.
Proof.
  change ([] ++ (event_wire <$> events_of (concat (at_items <$> demo_attempts))))%list with [event_wire e1; event_wire e2].
  intros x y Hx Hy Hid.
  apply elem_of_cons in Hx as [->|Hx]; [|apply elem_of_cons in Hx as [->|[]%elem_of_nil]];
    (apply elem_of_cons in Hy as [->|Hy]; [|apply elem_of_cons in Hy as [->|[]%elem_of_nil]]);
    first [reflexivity|vm_compute in Hid; discriminate Hid].
Qed.

Lemma buffered_events_listed_witness :
  exists remaining listed,
    wf (Backfill 1 [RoundSendOk; RoundSendErr] agent_state).2 remaining /\
    (e1 ∈ events_of remaining \/ List.filter (Sqlite.has_id "01E1") listed = [Sqlite.listed_as (event_wire e1)]).
Proof.
  assert (sends Token.demo_key no_samples no_blob no_meta Client.demo_parse pb_marshal Some (fun _ => true) Client.demo_response_of
            (fun (l : unit) _ => (true, l)) Some pb_unmarshal Client.demo_response (fun _ => "") Client.demo_client "h1" demo_attempts
            (h_ingest (the_hub disk_with_token)) =
          ([true; false], (sends Token.demo_key no_samples no_blob no_meta Client.demo_parse pb_marshal Some (fun _ => true) Client.demo_response_of
            (fun (l : unit) _ => (true, l)) Some pb_unmarshal Client.demo_response (fun _ => "") Client.demo_client "h1" demo_attempts
            (h_ingest (the_hub disk_with_token))).2)) as Hsends by (vm_compute; reflexivity).
  assert (the_drops (sends Token.demo_key no_samples no_blob no_meta Client.demo_parse pb_marshal Some (fun _ => true) Client.demo_response_of
            (fun (l : unit) _ => (true, l)) Some pb_unmarshal Client.demo_response (fun _ => "") Client.demo_client "h1" demo_attempts
            (h_ingest (the_hub disk_with_token))).2 = []) as Hdrops by (vm_compute; reflexivity).
  pose proof (buffered_events_listed Token.demo_key no_samples no_blob no_meta Client.demo_parse pb_marshal Some (fun _ => true)
    Client.demo_response_of (fun (l : unit) _ => (true, l)) Some pb_unmarshal Client.demo_response (fun _ => "")
    ltac:(by intros raw z [= ->]) pb_roundtrip response_demo
    agent_state agent_items 1 [RoundSendOk; RoundSendErr] Client.demo_client "h1" demo_attempts
    (h_ingest (the_hub disk_with_token)) [] 10 (fun _ => true) (Sqlite.date 2026 2 1) (Sqlite.date 2026 3 1) "h1"
    agent_wf eq_refl) as Ht.
  rewrite Hsends in Ht.
  destruct (Backfill 1 [RoundSendOk; RoundSendErr] agent_state) as [o st'] eqn:Hb.
  destruct Ht as (remaining & listed & db' & Hwf & _ & Hev & _).
  - vm_compute. discriminate.
  - intros m. reflexivity.
  - apply (bool_decide_eq_true_1 _). vm_compute. reflexivity.
  - assert (forall u, fresh "h1" (h_ingest (the_hub disk_with_token)) u) as Hf by (intros u; apply not_elem_of_empty).
    apply Forall_cons. split; [apply Hf|]. apply Forall_cons. split; [apply Hf|]. apply Forall_nil. exact I.
  - apply wire_ids.
  - repeat constructor; vm_compute; discriminate.
  - vm_compute. discriminate.
  - reflexivity.
  - vm_compute. lia.
  - reflexivity.
  - change st' with (o, st').2. rewrite <- Hb. vm_compute. reflexivity.
  - exists remaining, listed. split; [exact Hwf|]. destruct (Hev e1) as [H|[H|H]].
    + change (events_of agent_items) with [e1; e2]. apply elem_of_cons. left. reflexivity.
    + left. exact H.
    + rewrite Hdrops in H. apply elem_of_nil in H. destruct H.
    + right. apply H. vm_compute. reflexivity.
Defined.

(** ** What the stores do with a repeated or failed batch *)

Definition line1 : LogLine := mkLogLine (Sqlite.date 2026 2 10) "h1" "journald" "" "sshd" "info" 1 "accepted".
Definition line_item : Item := mkItem 3 PriorityLogLine 0 None None (Some line1) None.

Definition receive_demo (ulid : string) (items : list Item) (d : Data (D := unit)) : bool * Data :=
  receive no_samples no_blob no_meta false "h1" (Sender.ItemsToBatch ulid "h1" items) d.

Definition data0 (script : list (Sqlite.ctx * Sqlite.IO)) : Data (D := unit) :=
  mkData (mkBackends tt (mkEventStore Sqlite.empty_store script) (mkLogFiles (LogStore.NewStore []) [])) [].

Definition listed_ids (d : Data (D := unit)) : list string :=
  Sqlite.ids (Sqlite.ListEvents 10 (fun _ => true) true (Sqlite.date 2026 2 1) (Sqlite.date 2026 3 1) "" (event_db d)).1.
Definition lines_kept (d : Data (D := unit)) : nat :=
  length (concat (LogStore.lines <$> (map_to_list (LogStore.buffers (lf_store (bk_logs (backends d))))).*2)).

(** A batch whose answer was lost arrives again under a new batch id: its event is
    recognised by its own id, its log line is stored a second time. *)
Example resent_batch :
  let d := (receive_demo "01B3" [item_of 1 e1; line_item] (data0 [])).2 in
  let d' := (receive_demo "01B4" [item_of 1 e1; line_item] d).2 in
  listed_ids d' = ["01E1"] /\ lines_kept d = 1%nat /\ lines_kept d' = 2%nat.
Proof. vm_compute. done. Qed.

(** When the insertion fails the batch is acknowledged all the same, and the agent drops
    its copy: the event is only in the log of the receiver. *)
Example failed_insertion_acknowledged :
  let '(ok, d) := receive_demo "01B3" [item_of 1 e1] (data0 [(Sqlite.CtxLive, Sqlite.mkIO true false true)]) in
  ok = true /\ listed_ids d = [] /\ dropped d = [DropEvent "01E1"].
Proof. vm_compute. done. Qed.

(** ** Stopping and starting *)

(** Lines the hub has acknowledged wait in the accumulators of the log store, which nothing
    flushes when the hub stops. *)
Example stopping_loses_lines :
  let d := (receive_demo "01B3" [line_item] (data0 [])).2 in
  let h := mkHub (Server.mkServer (SqliteTokens.mkStore [] 0) ∅ d None 0) Devices.NewDeviceTokenStore in
  lines_kept d = 1%nat /\ dk_blocks (Close h) = ∅ /\
  lines_kept (Server.Receiver (h_ingest (the_hub (Close h)))) = 0%nat.
Proof. vm_compute. done. Qed.

Definition read_io : ReadIO := mkReadIO token_io 10 (fun _ => true) true (true, true).
Definition no_series (d : unit) (name : string) (from to : Z) (extra : list (string * string)) :
  option (list (gmap string string * list (Z * GoFloat.float64))) := Some [].

Definition api_call (path auth : string) : http :=
  mkHttp (Server.mkRequest "POST" auth None false) (Api.demo_env 1000) (Api.request path auth None).
Definition ingest_call (auth body : string) : http :=
  mkHttp (Server.mkRequest "POST" auth (Some body) false) (Api.demo_env 1000) (Api.request "/v1/ingest" auth None).

Definition serve (rq : http) (h : hub (D := unit)) : reply * hub :=
  ServeHTTP Token.demo_key no_samples no_blob no_meta Some pb_unmarshal no_series read_io rq h.

Definition is_paired (r : reply) : bool := match r with FromApi (Api.PairOK _ _) => true | _ => false end.

(** The device tokens live in memory only: after a restart the hub takes itself for one no
    device was ever paired with, and anyone who reaches it can pair. *)
Example restart_opens_pairing :
  let h := the_hub empty_disk in
  let '(r1, h1) := serve (api_call "/v1/devices/pair" "") h in
  let '(r2, h2) := serve (api_call "/v1/devices/pair" "") h1 in
  let '(r3, _) := serve (api_call "/v1/devices/pair" "") (the_hub (Close h2)) in
  is_paired r1 = true /\ r2 = FromApi (Api.HttpError 401) /\ is_paired r3 = true.
Proof. vm_compute. done. Qed.

(** ** Enrolment *)

Definition paired : hub (D := unit) := (serve (api_call "/v1/devices/pair" "") (the_hub empty_disk)).2.
Definition enrol : http := api_call "/v1/hosts" "Bearer ZGV2aWNlLXRva2VuLWJ5dGVz".
Definition batch3 : Pb.Batch := Sender.ItemsToBatch "01B5" "01HOST" [].
Definition unmarshal3 (raw : string) : option Pb.Batch := if decide (raw = "3") then Some batch3 else None.

Lemma enrolled_host_ingests_witness :
  exists h2,
    ServeHTTP Token.demo_key no_samples no_blob no_meta Some unmarshal3 no_series read_io (ingest_call "Bearer aW5nZXN0LWJ5dGVz" "3")
      (the_hub (Close (serve enrol paired).2)) = (FromIngest (Server.HttpOK (Pb.mkResponse "01B5" false)), h2).
Proof.
  destruct (enrolled_host_ingests Token.demo_key no_samples no_blob no_meta Some unmarshal3 no_tsdb no_series read_io read_io enrol
    (ingest_call "Bearer aW5nZXN0LWJ5dGVz" "3") paired (serve enrol paired).2 (the_hub (Close (serve enrol paired).2))
    "01HOST" "aW5nZXN0LWJ5dGVz" "3" "3" batch3) as (h2 & Hs & _).
  - exact Token.demo_key_length.
  - vm_compute. split; constructor.
  - reflexivity.
  - reflexivity.
  - reflexivity.
  - vm_compute. reflexivity.
  - vm_compute. reflexivity.
  - right. exists (mkHubIO true token_io), ["var"; "lib"; "bitacora"], (started (Close (serve enrol paired).2)).2. vm_compute. reflexivity.
  - reflexivity.
  - reflexivity.
  - vm_compute. discriminate.
  - reflexivity.
  - reflexivity.
  - reflexivity.
  - vm_compute. discriminate.
  - apply not_elem_of_empty.
  - exists h2. exact Hs.
Defined.

Lemma add_token_spec_witness :
  runAddToken Token.demo_key token_io "h1" None = (Err ErrSpec, None) /\
  exists s', runAddToken Token.demo_key token_io "h1:a:b" None = (Ok tt, Some s').
Proof.
  destruct (add_token_spec Token.demo_key token_io "h1" "a:b" None) as ((s' & Hs & _) & Hr & _).
  - exact Token.demo_key_length.
  - discriminate.
  - reflexivity.
  - reflexivity.
  - exists "salt". reflexivity.
  - discriminate.
  - discriminate.
  - reflexivity.
  - split; [exact Hr|exists s'; exact Hs].
Defined.

End HubDemo.
